(* ===== verification/_CoqProject ===== *)
-Q . S2P
Prelude.v
Values.v
Driver.v
Ast.v
Env.v
Template.v
PassRefs.v
PassHoles.v
PassAlias.v
PassCommands.v
Compile.v
Triples.v
Shape.v
Scoping.v
Refines.v
Idempotent.v
Runner.v
Inlining.v
Safety.v
GoLib.v
AwsSpec.v
SecurityGroup.v
ContainerTask.v
Database.v
