(* ===== verification/Prelude.v ===== *)
(** * Verification of the awless template compiler and runner

    The program is the template engine of a cloud command-line tool: a parsed
    template (a list of statements, each a command invocation or a declaration
    [ident = expr]) is rewritten by an ordered list of passes and then executed
    statement by statement against a command registry.  The passes and the
    environment are in src/template/compile.go, the template, its traversals
    and the runner in src/template/template.go, the life cycle of a command
    object and the drivers in src/template/driver/driver.go, the generated
    drivers in src/aws/driver/gen_drivers.go (from the text template of
    src/gen/aws/generators/drivers.go).  The commands the registry holds are
    the catalog of src/aws/spec; three of its files hold code of their own
    (securitygroup.go, containertask.go, database.go) and are modelled
    command by command, against the provider as a record of calls.

    ** Files of the development and the code they model

    - [Prelude] (this file): the outcome type of fallible Go functions
      ([res]: a returned state, a returned state with an error, or a panic),
      Go library helpers the sources call ([Join] for strings.Join, [fmt_v]
      and [fmt_q] for the %v and %q verbs on a slice of strings,
      [sortStrings] for sort.Strings), the tactics and the hint database
      [awless] of the development, and the list and finite-map lemmas the
      components share.
    - [Values]: value expressions as a tagged variant (literal, hole,
      reference, alias, concatenation, list) with the capabilities the passes
      probe for: [GetHoles], [ProcessHoles], [GetRefs], [ReplaceRef],
      [GetAliases], [ResolveAlias], [IsResolved], [Value].  The ast package
      is not part of the sources; this file and [Ast] follow the data model
      of the specification.
    - [Driver]: driver.go.  A command object is the record [Command] of its
      optional capabilities; [Run] and [DryRun] are the life cycles, on a
      world [W] threaded explicitly.  The Driver interface is the class
      [Driver], with an instance for the generated drivers and one for
      [MultiDriver].  [runStages] is the abstract life cycle (stages in
      order, the first error ends them) that [Run] and [DryRun] refine.
    - [Ast]: command nodes, expressions, declarations, statements, and the
      methods of a command node param by param.
    - [Env]: the [Env] struct of compile.go and its methods.
    - [Template]: the template, its iterators and its visitors
      ([visitHoles], [visitCommandNodes], [visitCommandNodesE],
      [visitDeclarationNodes], [visitCommandDeclarationNodes]), with the
      lemmas every pass is proved with, and the sample templates of the
      scenarios of the specification (module [Sample]).
    - [PassRefs]: [checkInvalidReferenceDeclarationsPass] and
      [inlineVariableValuePass]; the inductive predicate [well_scoped] is
      the specification of the former, which accepts exactly the well-scoped
      templates, and an invariant of the latter; the relation [inlined] is
      what the loop of the latter computes, for proofs by rule induction.
    - [PassHoles]: [resolveHolesPass], [resolveMissingHolesPass] (with the
      trace of the calls of the missing-holes callback) and
      [failOnUnresolvedHolesPass], proved equal to a map over the statements
      ([fillStmt]) and a selection of the fillers ([consumed]).
    - [PassAlias]: [resolveAliasPass] and [failOnUnresolvedAliasPass].
    - [PassCommands]: the passes that ask the registry or the definition
      table: [verifyCommandsDefinedPass], [validateCommandsParamsPass],
      [normalizeMissingRequiredParamsAsHolePass], [convertParamsPass],
      [validateCommandsPass], [injectCommandsPass],
      [resolveAgainstDefinitions].
    - [Compile]: [multiPass_compile], the three modes and [Compile]; the
      theorems on a whole mode (a strict compilation that succeeds has
      neither hole nor alias; a compilation for the new runner has injected
      every command) and the scenarios S1 to S5 of the specification,
      evaluated.
    - [Triples]: what a pass promises, as a triple [pass_spec Pre pass Post]
      on states (a template and an environment), and the rules that lift the
      triples of the passes to a mode: sequence, invariant, preorder, absence
      of panic.  [returns] is the contract of the passes that only check.
    - [Shape]: what every pass keeps.  [shapeOf] is the action, entity and
      identifier of a statement, [thins] relates the shapes before and after
      (only declarations of values may go), [env_frame] the fields of the
      environment no pass writes to; [Compile_structural] and
      [Compile_commands] state it of every mode made of passes of compile.go
      ([library]).
    - [Scoping]: reference locality (property P2 of the specification)
      through a whole mode: after the reference check, every pass keeps the
      template well scoped; after the inlining, every reference names the
      result of a command ([command_scoped], the last part of property
      P3).
    - [Idempotent]: compiling twice (property P1 of the specification).
      A state is [settled] when no pass of the lenient mode finds work in
      it; each pass returns a settled state as it is, and the lenient mode
      returns a settled state when the fillers and the answers for missing
      holes carry no hole and no reference, so that a second compilation in
      the lenient or the normal mode changes neither the template nor the
      environment.  [LenientCompileMode_Ok] is the lenient mode pass by
      pass, as maps over the statements followed by the inlining.
    - [Refines]: the list round trip (property P5 of the specification).
      [refines] (in [Values]) relates a value to what hole filling, alias
      resolution and inlining may make of it, element by element under
      lists and concatenations; [paramsRefine] lifts it to the params of a
      command node; every pass but normalisation and conversion stays within
      it, so every mode made of them ([rewritingLibrary], the lenient and
      the normal mode) keeps the length and the element order of each list.
    - [Runner]: [Template_Run] as a loop over the statements with the
      executed statements, the live variables and the world; [runCmd];
      scenario S6 (halt on the first failure), evaluated.
    - [Inlining]: variable-inlining equivalence (property P6 of the
      specification).  [lateLoop] is the reference run, the loop of
      [Template_Run] with the case it lacks: a declared value is bound when
      the run reaches its declaration, as the result of a command is.  The
      run of an inlined template shows ([observe]: commands, driver params,
      results, errors, world) what the reference run of its source shows;
      the substitution lemma behind it is in [Ast]
      ([Value_ProcessRefs_ReplaceRef]).
    - [Safety]: when compilation and run do not panic.  [ready] (a map of
      resolved variables that is not nil, a registry of commands that can be
      run and knows every command of the template) is an invariant of every
      pass and excludes every panic of the model; compilation for the new
      runner followed by a run is free of panic, and the counts of statements
      only decrease.
    - [GoLib]: the functions of the Go library the catalog calls (package
      strings, strconv.ParseInt in base 10 at 64 bits with the wrap-around
      of its accumulator written out, strconv.Quote, the pointer helpers of
      the SDK), with their specifications: [Contains] is the existence of an
      occurrence, [ParseInt] succeeds exactly on the decimal numerals of the
      signed 64-bit range and returns the number ([ParseInt_Ok]).
    - [AwsSpec]: what the catalog files share: the setters and the generic
      call they build, the errors of the provider ([apiError]), and the
      record [Helpers] of the functions of their package that the sources do
      not hold (the field setter, the generic call, the poll of a check, the
      validator of a param against a list of words), which every catalog
      definition takes as a parameter; [EnumLaw] is what the theorems ask of
      the validator.
    - [SecurityGroup]: securitygroup.go.  [buildIpPermissions] (the rule of
      a security group from the protocol, the ports and the source),
      [UpdateSecuritygroup_ManualRun], the attach and detach commands with
      [removeString] and [fetchInstanceSecurityGroups], the check command.
      The theorems: no panic, ports of the 64-bit range, the permission of a
      numeral or a range of numerals, the request a run makes, and, against
      a provider that keeps the groups of each instance ([GroupStore], the
      interface the client theorems are proved against, with [sampleEC2] as
      an instance), attach then detach as a round trip.
    - [ContainerTask]: containertask.go.  Start and stop with their
      validations and the extraction of the result, attach ([setFields] over
      [containerSetters]), detach ([detachLoop], proved to be a filter) and
      delete ([deregisterAll], which stops at the first error).  Against a
      provider that keeps the task definition of each family
      ([DefinitionStore]) and a field setter that sets the name
      ([SetterLaw]), attach then detach leaves the containers of the
      family.
    - [Database]: the check command of database.go: the state its poll
      reads, case by case.

    ** Conventions

    - A Go [map[string]T] is a stdpp [gmap string T]; a map field that may be
      nil is an [option], read through [readMap]; a write to a nil map is a
      [Panic].  Where Go ranges over a map (an unspecified order) the model
      ranges over [map_to_list], and the theorems are stated on membership.
    - A Go [error] is its message ([error := string]); the nil error is
      [None].  Messages are built as the code builds them with fmt.Errorf.
    - A Go function that mutates its arguments and returns an error is a
      function to [res]: [Ok s] is the state after a nil error, [Err s e] the
      state reached when the error [e] is returned (the mutations done before
      the error are kept, as in the code), [Panic] a run-time panic (a nil
      function called, a failed type assertion).
    - Nodes are mutated through pointers by the Go code; a visitor of the
      model rebuilds the statement list with the nodes its callback returns.
    - Callbacks of the environment (fillers, alias function, missing-holes
      function, registry, definition table) are functions of the model; the
      methods of a command object that touch the provider are functions on
      the world [W].

    ** Bounds

    The only recursion that is not on the structure of a list is the outer
    loop of [inlineVariableValuePass], which continues on the statements as
    the inner loop rewrote them: [inlineLoop] takes the number of iterations
    as an argument, the pass gives it the number of statements of the
    template, as the range loop of the code does, and [inlineLoop_enough]
    shows that more iterations change nothing.  Every other loop is a
    structural recursion on the list it ranges over, so every modelled
    function is total.  [strings.Split] cuts a string at most as many times
    as it has bytes, which is the number of iterations [Split] gives its
    loop.  Integers are unbounded ([Z]) except where the code depends on
    their width: the accumulator of [ParseInt] is taken modulo 2^64, its
    result modulo 2^64 into the signed range ([toInt64]), and the timeout of
    a check is a 64-bit product ([secondsOf]).

    ** What is not modelled

    The parser; the main program of the driver generator (it writes files
    and runs gofmt); logging; of the command catalog of src/aws/spec, what
    is not written in the three files above: the reflection helpers of the
    package (validateParams, paramRule.verify, setFieldWithType,
    awsCall.execute, checker.check, NewEnumValidator, inject) are
    parameters of the model or left out, net.ParseCIDR is left out, and the
    commands that are declarations of params only (routetable.go,
    gen_instance.go, create and delete of the other files) have no code to
    model; Clone and String of the nodes,
    MatchStringParamValue (a regular expression of the ast package), the
    identifier of an executed template (an argument of [Template_Run]), and
    the order in which Go ranges over a map. *)

From stdpp Require Export gmap strings list sorting pretty.
From Stdlib Require Import Ascii.

(** ** Errors and outcomes *)

(** A Go error value, by its message. *)
Definition error : Type := string.

(** The outcome of a Go function that works on a state of type [A]. *)
Inductive res (A : Type) : Type :=
| Ok (a : A)
| Err (a : A) (e : error)
| Panic (why : string).

Arguments Ok {A} a.
Arguments Err {A} a e.
Arguments Panic {A} why.

(** Sequencing as the code does it: go on after a nil error, return at once
    otherwise. *)
Definition res_bind {A B : Type} (r : res A) (k : A -> res B)
    (back : A -> B) : res B :=
  match r with
  | Ok a => k a
  | Err a e => Err (back a) e
  | Panic w => Panic w
  end.

Definition res_map {A B : Type} (f : A -> B) (r : res A) : res B :=
  match r with
  | Ok a => Ok (f a)
  | Err a e => Err (f a) e
  | Panic w => Panic w
  end.

(** The error a result carries ([None] for success), and whether it ran to
    completion without a panic. *)
Definition res_error {A : Type} (r : res A) : option error :=
  match r with
  | Ok _ => None
  | Err _ e => Some e
  | Panic _ => None
  end.

Definition res_state {A : Type} (r : res A) : option A :=
  match r with
  | Ok a => Some a
  | Err a _ => Some a
  | Panic _ => None
  end.

Definition is_Ok {A : Type} (r : res A) : bool :=
  match r with Ok _ => true | _ => false end.

Definition is_Panic {A : Type} (r : res A) : bool :=
  match r with Panic _ => true | _ => false end.

(** ** Characters the messages need *)

Definition nl : string := String (Ascii.ascii_of_nat 10) EmptyString.
Definition tab : string := String (Ascii.ascii_of_nat 9) EmptyString.
Definition dquote : string := String (Ascii.ascii_of_nat 34) EmptyString.

(** ** Go library functions the sources call *)

(** strings.Join. *)
Fixpoint Join (elems : list string) (sep : string) : string :=
  match elems with
  | [] => EmptyString
  | [s] => s
  | s :: rest => s +:+ sep +:+ Join rest sep
  end.

(** The %v verb on a []string: the elements between brackets, a space apart. *)
Definition fmt_v (l : list string) : string := "[" +:+ Join l " " +:+ "]".

(** The %q verb on a []string whose elements need no escape. *)
Definition fmt_q (l : list string) : string :=
  "[" +:+ Join ((fun s => dquote +:+ s +:+ dquote) <$> l) " " +:+ "]".

(** The order of Go's [<] on strings: bytewise lexicographic. *)
Definition string_le (a b : string) : Prop := String.leb a b = true.

#[global] Instance string_le_dec a b : Decision (string_le a b).
Proof. unfold string_le. apply _. Defined.

#[global] Instance string_le_total : Total string_le.
Proof. intros a b. apply String.leb_total. Qed.

#[global] Instance string_le_antisym : AntiSymm (=) string_le.
Proof. intros a b. apply String.leb_antisym. Qed.

(** sort.Strings. *)
Definition sortStrings (l : list string) : list string := merge_sort string_le l.

(** The keys of a Go map collected in a slice, without duplicates (the code
    builds a [map[string]struct{}] and ranges over it). *)
Definition uniqueStrings (l : list string) : list string := remove_dups l.

(** Every element of a list has a result, or none has: the shape of a Go loop
    that gives up at the first element without one. *)
(** Whether two lists have the same length and related elements. *)
Definition forall2b {A B : Type} (f : A -> B -> bool)
    : list A -> list B -> bool :=
  fix go l k :=
    match l, k with
    | [], [] => true
    | x :: l', y :: k' => f x y && go l' k'
    | _, _ => false
    end.

Section all_some.
Context {A B : Type} (f : A -> option B).

Fixpoint all_some (l : list A) : option (list B) :=
  match l with
  | [] => Some []
  | x :: rest =>
      match f x, all_some rest with
      | Some y, Some ys => Some (y :: ys)
      | _, _ => None
      end
  end.

End all_some.

(** ** Tactics and hints *)

Create HintDb awless discriminated.
Create Rewrite HintDb awless_rw.

(** Case analysis on the first [res], [option] or [decide] scrutinee found in
    the goal or in a hypothesis. *)
Ltac case_res :=
  match goal with
  | |- context [match ?r with Ok _ => _ | Err _ _ => _ | Panic _ => _ end] =>
      destruct r eqn:?
  | H : context [match ?r with Ok _ => _ | Err _ _ => _ | Panic _ => _ end] |- _ =>
      destruct r eqn:?
  end.

Ltac case_opt :=
  match goal with
  | |- context [match ?o with Some _ => _ | None => _ end] => destruct o eqn:?
  | H : context [match ?o with Some _ => _ | None => _ end] |- _ =>
      destruct o eqn:?
  end.

Ltac crush_res := repeat (first [case_res | case_opt | case_decide | case_match]);
  simplify_eq/=; eauto with awless.

(** ** Shared lemmas *)

Section res_lemmas.
Context {A B : Type}.

Lemma res_bind_Ok (r : res A) (k : A -> res B) back b :
  res_bind r k back = Ok b -> exists a, r = Ok a /\ k a = Ok b.
Proof. destruct r; simpl; [eauto | discriminate..]. Qed.

Lemma res_map_Ok (f : A -> B) (r : res A) b :
  res_map f r = Ok b <-> exists a, r = Ok a /\ f a = b.
Proof.
  destruct r; simpl; split; intros H; try discriminate.
  - inv H. eauto.
  - destruct H as (? & [= ->] & <-). done.
  - destruct H as (? & [=] & _).
  - destruct H as (? & [=] & _).
Qed.

Lemma res_map_is_Panic (f : A -> B) (r : res A) :
  is_Panic (res_map f r) = is_Panic r.
Proof. by destruct r. Qed.

Lemma res_state_is_Panic (r : res A) :
  is_Some (res_state r) -> is_Panic r = false.
Proof. destruct r; [done | done | by intros [? ?]]. Qed.

Lemma res_map_state (f : A -> B) (r : res A) :
  res_state (res_map f r) = f <$> res_state r.
Proof. by destruct r. Qed.

Lemma res_map_is_Ok (f : A -> B) (r : res A) : is_Ok (res_map f r) = is_Ok r.
Proof. by destruct r. Qed.

Lemma res_map_error (f : A -> B) (r : res A) :
  res_error (res_map f r) = res_error r.
Proof. by destruct r. Qed.

End res_lemmas.

#[export] Hint Rewrite @res_map_is_Ok @res_map_error @res_map_is_Panic
  @res_map_state : awless_rw.

Section list_lemmas.
Context {A : Type}.

Lemma flat_map_elem_of {B} (f : A -> list B) (l : list A) (b : B) :
  b ∈ flat_map f l <-> exists a, a ∈ l /\ b ∈ f a.
Proof.
  induction l as [|a l IH]; simpl.
  - split; [by intros ?%elem_of_nil | by intros (? & ?%elem_of_nil & _)].
  - rewrite elem_of_app, IH. split.
    + intros [Hb | (x & Hx & Hb)]; [exists a | exists x]; by rewrite elem_of_cons; auto.
    + intros (x & [-> | Hx]%elem_of_cons & Hb); eauto.
Qed.

Lemma flat_map_nil_iff {B} (f : A -> list B) (l : list A) :
  flat_map f l = [] <-> Forall (fun a => f a = []) l.
Proof.
  induction l as [|a l IH]; simpl; [by split; [constructor|] |].
  rewrite Forall_cons. split.
  - intros [-> Hl]%app_eq_nil. by rewrite <- IH.
  - intros [-> Hl]. by apply IH.
Qed.

Lemma flat_map_app' {B} (f : A -> list B) (l1 l2 : list A) :
  flat_map f (l1 ++ l2) = flat_map f l1 ++ flat_map f l2.
Proof. induction l1; simpl; [done | by rewrite IHl1, app_assoc]. Qed.

Lemma map_id_Forall (f : A -> A) (l : list A) :
  Forall (fun x => f x = x) l -> map f l = l.
Proof. induction 1; simpl; congruence. Qed.

Lemma omap_map_same {B} (f : A -> option B) (g : A -> A) (l : list A) :
  (forall x, f (g x) = f x) -> omap f (map g l) = omap f l.
Proof. intros H. induction l; csimpl; rewrite ?H, ?IHl; done. Qed.

Lemma forall2b_Forall2 {B} (f : A -> B -> bool) (l : list A) (k : list B) :
  forall2b f l k = true <-> Forall2 (fun x y => f x y = true) l k.
Proof.
  revert k. induction l as [|x l IH]; intros [|y k]; simpl.
  - by split; [constructor |].
  - split; [done | by inversion 1].
  - split; [done | by inversion 1].
  - rewrite andb_true_iff, IH. split; [intros [? ?]; by constructor |].
    inversion 1; by subst.
Qed.

Lemma all_some_is_Some {B} (f : A -> option B) (l : list A) :
  is_Some (all_some f l) <-> Forall (fun a => is_Some (f a)) l.
Proof.
  induction l as [|a l IH]; simpl; [by split; [constructor | eauto] |].
  rewrite Forall_cons, <- IH, <- !not_eq_None_Some.
  destruct (f a), (all_some f l); simpl; naive_solver.
Qed.

Lemma all_some_length {B} (f : A -> option B) (l : list A) (r : list B) :
  all_some f l = Some r -> length r = length l.
Proof.
  revert r. induction l as [|a l IH]; intros r; simpl; [by intros [= <-] |].
  destruct (f a), (all_some f l); intros [= <-]; simpl. by rewrite (IH l0).
Qed.

(** Two traversals that agree element by element. *)
Lemma all_some_map_ext {B C} (f : B -> option C) (g h : A -> B) (l : list A) :
  Forall (fun a => f (g a) = f (h a)) l ->
  all_some f (map g l) = all_some f (map h l).
Proof. induction 1 as [|a l Ha _ IH]; simpl; [done |]. by rewrite Ha, IH. Qed.

End list_lemmas.

(** Membership in what a function collects over the values of a map. *)
Lemma flat_map_map_to_list_elem_of {V B} (g : V -> list B)
    (m : gmap string V) (b : B) :
  b ∈ flat_map (fun kv => g kv.2) (map_to_list m) <->
  exists k v, m !! k = Some v /\ b ∈ g v.
Proof.
  rewrite flat_map_elem_of. split.
  - intros ([k v] & Hkv%elem_of_map_to_list & Hb). eauto.
  - intros (k & v & Hkv & Hb). exists (k, v).
    split; [by apply elem_of_map_to_list | done].
Qed.

(** The same, when what is collected depends on the key too. *)
Lemma flat_map_map_to_list_elem_of_key {V B} (g : string -> V -> list B)
    (m : gmap string V) (b : B) :
  b ∈ flat_map (fun kv => g kv.1 kv.2) (map_to_list m) <->
  exists k v, m !! k = Some v /\ b ∈ g k v.
Proof.
  rewrite flat_map_elem_of. split.
  - intros ([k v] & Hkv%elem_of_map_to_list & Hb). eauto.
  - intros (k & v & Hkv & Hb). exists (k, v).
    split; [by apply elem_of_map_to_list | done].
Qed.

(** sort.Strings returns a sorted permutation of its argument. *)
Lemma sortStrings_Sorted (l : list string) : Sorted string_le (sortStrings l).
Proof. apply Sorted_merge_sort, _. Qed.

Lemma sortStrings_Permutation (l : list string) : sortStrings l ≡ₚ l.
Proof. apply merge_sort_Permutation. Qed.

Lemma sortStrings_elem_of (l : list string) (s : string) :
  s ∈ sortStrings l <-> s ∈ l.
Proof. by rewrite sortStrings_Permutation. Qed.

Lemma sortStrings_NoDup (l : list string) : NoDup l -> NoDup (sortStrings l).
Proof. by rewrite sortStrings_Permutation. Qed.

Lemma uniqueStrings_elem_of (l : list string) (s : string) :
  s ∈ uniqueStrings l <-> s ∈ l.
Proof. apply elem_of_remove_dups. Qed.

Lemma uniqueStrings_NoDup (l : list string) : NoDup (uniqueStrings l).
Proof. apply NoDup_remove_dups. Qed.

(** An element of the left list of two related lists has a related element
    in the right one. *)
Lemma Forall2_elem_of_l {A B} (P : A -> B -> Prop) (l : list A) (k : list B) x :
  Forall2 P l k -> x ∈ l -> exists y, y ∈ k /\ P x y.
Proof.
  intros HF [i Hi]%list_elem_of_lookup_1.
  destruct (Forall2_lookup_l _ _ _ _ _ HF Hi) as (y & Hy & HP).
  exists y. split; [by eapply list_elem_of_lookup_2 | done].
Qed.

Lemma Forall2_elem_of_r {A B} (P : A -> B -> Prop) (l : list A) (k : list B) y :
  Forall2 P l k -> y ∈ k -> exists x, x ∈ l /\ P x y.
Proof.
  intros HF [i Hi]%list_elem_of_lookup_1.
  destruct (Forall2_lookup_r _ _ _ _ _ HF Hi) as (x & Hx & HP).
  exists x. split; [by eapply list_elem_of_lookup_2 | done].
Qed.

(** A loop that appends to a slice is a flat map. *)
Lemma foldl_app_flat_map {A B} (g : A -> list B) (l : list A) (acc : list B) :
  foldl (fun acc x => acc ++ g x) acc l = acc ++ flat_map g l.
Proof.
  revert acc. induction l as [|x l IH]; intros acc; simpl.
  - by rewrite app_nil_r.
  - by rewrite IH, app_assoc.
Qed.

(** The same for a loop over the images of a list. *)
Lemma foldl_map_app_flat_map {A B C} (f : A -> B) (g : B -> list C)
    (body : list C -> B -> list C) (l : list A) (acc : list C) :
  (forall acc x, body acc x = acc ++ g x) ->
  foldl body acc (map f l) = acc ++ flat_map (fun x => g (f x)) l.
Proof.
  intros Hbody. revert acc. induction l as [|x l IH]; intros acc; simpl.
  - by rewrite app_nil_r.
  - by rewrite Hbody, IH, app_assoc.
Qed.

(** A loop that adds to a set, started from a set. *)
Lemma foldl_union_elem_of (l : list string) (acc : gset string) (s : string) :
  s ∈ foldl (fun acc v => {[v]} ∪ acc) acc l <-> s ∈ l \/ s ∈ acc.
Proof.
  revert acc. induction l as [|x l IH]; intros acc; simpl; [set_solver |].
  rewrite IH. set_solver.
Qed.

(** Two selections of one map by the names of a list, merged: the selection
    by the names of both lists. *)
Lemma map_filter_union_key {V} (l1 l2 : list string) (m old : gmap string V) :
  filter (fun kv => kv.1 ∈ l2) m ∪ (filter (fun kv => kv.1 ∈ l1) m ∪ old) =
  filter (fun kv => kv.1 ∈ l1 ++ l2) m ∪ old.
Proof.
  rewrite (assoc_L (∪)). f_equal. apply map_eq. intros k.
  rewrite lookup_union, !map_lookup_filter.
  destruct (m !! k) as [v|]; simpl; [| done].
  repeat case_guard; simpl in *; try done; set_solver.
Qed.

#[export] Hint Resolve sortStrings_Sorted uniqueStrings_NoDup : awless.

(** A filter keeps a list whose elements all pass. *)
Lemma filter_Forall_id {A} (P : A -> Prop) `{!forall x, Decision (P x)} l :
  Forall P l -> filter P l = l.
Proof.
  induction 1 as [|x l Hx _ IH]; [done |].
  by rewrite filter_cons_True, IH.
Qed.

Lemma filter_not_elem_of_id `{EqDecision A} (l : list A) x :
  x ∉ l -> filter (.≠ x) l = l.
Proof.
  intros Hx. apply filter_Forall_id, Forall_forall. intros y Hy ->. done.
Qed.
