(* ===== verification/Values.v ===== *)
(** * Value expressions

    The value expressions of a template (package template/internal/ast, whose
    source is not part of the repository snapshot: this file follows the data
    model of the specification, section 3).  A value is a tagged variant:
    literal, hole [{name}], reference [$name], alias [@name], concatenation
    and list.  The capabilities the passes probe for (with-holes, with-refs,
    with-alias) are functions defined on every variant. *)

From S2P Require Import Prelude.

(** ** Plain values: what a Go [interface{}] holds once a value is resolved *)

#[warnings="-register-all"]
Inductive lit : Type :=
| LStr (s : string)
| LInt (n : Z)
| LBool (b : bool)
| LList (l : list lit).

(** ** Value expressions *)

#[warnings="-register-all"]
Inductive value : Type :=
| VLit (l : lit)
| VHole (name : string)
| VRef (name : string)
| VAlias (name : string)
| VConcat (parts : list value)
| VList (elems : list value).

(** fmt.Sprint of a plain value, used when a concatenation is joined. *)
Fixpoint lit_string (l : lit) : string :=
  match l with
  | LStr s => s
  | LInt n => pretty n
  | LBool b => if b then "true" else "false"
  | LList ls => "[" +:+ Join (map lit_string ls) " " +:+ "]"
  end.

(** The hole names a value carries, in order, with repetitions. *)
Fixpoint GetHoles (v : value) : list string :=
  match v with
  | VHole h => [h]
  | VConcat vs => flat_map GetHoles vs
  | VList vs => flat_map GetHoles vs
  | _ => []
  end.

(** The identifiers a value refers to. *)
Fixpoint GetRefs (v : value) : list string :=
  match v with
  | VRef r => [r]
  | VConcat vs => flat_map GetRefs vs
  | VList vs => flat_map GetRefs vs
  | _ => []
  end.

(** The alias names a value carries. *)
Fixpoint GetAliases (v : value) : list string :=
  match v with
  | VAlias a => [a]
  | VConcat vs => flat_map GetAliases vs
  | VList vs => flat_map GetAliases vs
  | _ => []
  end.

(** A hole whose name has a filler is replaced by the filler's value (which
    may itself be an alias expression). *)
Fixpoint fillHoles (fills : gmap string value) (v : value) : value :=
  match v with
  | VHole h => match fills !! h with Some f => f | None => VHole h end
  | VConcat vs => VConcat (map (fillHoles fills) vs)
  | VList vs => VList (map (fillHoles fills) vs)
  | _ => v
  end.

(** The fillers a value consumes: those named by one of its holes. *)
Definition processedHoles (fills : gmap string value) (v : value)
    : gmap string value :=
  filter (fun kv => kv.1 ∈ GetHoles v) fills.

(** ProcessHoles of the with-holes capability: the value after the
    replacement, and the consumed (name, value) pairs. *)
Definition ProcessHoles (fills : gmap string value) (v : value)
    : value * gmap string value :=
  (fillHoles fills v, processedHoles fills v).

(** ReplaceRef of the with-refs capability: every [$key] becomes a copy of
    [nv]. *)
Fixpoint ReplaceRef (key : string) (nv : value) (v : value) : value :=
  match v with
  | VRef r => if decide (r = key) then nv else VRef r
  | VConcat vs => VConcat (map (ReplaceRef key nv) vs)
  | VList vs => VList (map (ReplaceRef key nv) vs)
  | _ => v
  end.

(** ResolveAlias of the with-alias capability: [f] gives the resolution of an
    alias name, or [None]; a resolved alias becomes a string literal. *)
Fixpoint ResolveAlias (f : string -> option string) (v : value) : value :=
  match v with
  | VAlias a => match f a with Some s => VLit (LStr s) | None => VAlias a end
  | VConcat vs => VConcat (map (ResolveAlias f) vs)
  | VList vs => VList (map (ResolveAlias f) vs)
  | _ => v
  end.

(** A value is resolved iff it contains no hole, reference or alias. *)
Fixpoint IsResolved (v : value) : bool :=
  match v with
  | VLit _ => true
  | VHole _ | VRef _ | VAlias _ => false
  | VConcat vs => forallb IsResolved vs
  | VList vs => forallb IsResolved vs
  end.

(** The plain value of a value expression: nil ([None]) unless resolved; a
    concatenation is the join of its stringified parts. *)
Fixpoint Value (v : value) : option lit :=
  match v with
  | VLit l => Some l
  | VHole _ | VRef _ | VAlias _ => None
  | VConcat vs =>
      match all_some Value vs with
      | Some ls => Some (LStr (Join (map lit_string ls) EmptyString))
      | None => None
      end
  | VList vs =>
      match all_some Value vs with
      | Some ls => Some (LList ls)
      | None => None
      end
  end.

(** ** Decidable equality *)

#[global] Instance lit_eq_dec : EqDecision lit.
Proof.
  refine (fix go (x y : lit) {struct x} : Decision (x = y) :=
    match x, y with
    | LStr a, LStr b => cast_if (decide (a = b))
    | LInt a, LInt b => cast_if (decide (a = b))
    | LBool a, LBool b => cast_if (decide (a = b))
    | LList a, LList b => cast_if (@decide (a = b) (@list_eq_dec _ go a b))
    | _, _ => right _
    end); clear go; abstract congruence.
Defined.

#[global] Instance value_eq_dec : EqDecision value.
Proof.
  refine (fix go (x y : value) {struct x} : Decision (x = y) :=
    match x, y with
    | VLit a, VLit b => cast_if (decide (a = b))
    | VHole a, VHole b => cast_if (decide (a = b))
    | VRef a, VRef b => cast_if (decide (a = b))
    | VAlias a, VAlias b => cast_if (decide (a = b))
    | VConcat a, VConcat b => cast_if (@decide (a = b) (@list_eq_dec _ go a b))
    | VList a, VList b => cast_if (@decide (a = b) (@list_eq_dec _ go a b))
    | _, _ => right _
    end); clear go; abstract congruence.
Defined.

(** ** What the passes may do to a value

    A pass replaces holes, references and aliases by values, and nothing
    else: a literal stays the literal it is, a concatenation and a list keep
    their length, and their elements are rewritten in place. *)
Fixpoint refinesb (v v' : value) : bool :=
  match v, v' with
  | VLit l, VLit l' => bool_decide (l = l')
  | VHole _, _ | VRef _, _ | VAlias _, _ => true
  | VConcat vs, VConcat vs' => forall2b refinesb vs vs'
  | VList vs, VList vs' => forall2b refinesb vs vs'
  | _, _ => false
  end.

Definition refines (v v' : value) : Prop := refinesb v v' = true.

(** ** Induction through the nested lists *)

Section value_induction.
Context (P : value -> Prop).
Context (Hlit : forall l, P (VLit l)) (Hhole : forall h, P (VHole h)).
Context (Href : forall r, P (VRef r)) (Halias : forall a, P (VAlias a)).
Context (Hconcat : forall vs, Forall P vs -> P (VConcat vs)).
Context (Hlist : forall vs, Forall P vs -> P (VList vs)).

Definition value_ind' : forall v, P v :=
  fix go (v : value) : P v :=
    let fix all (vs : list value) : Forall P vs :=
      match vs with
      | [] => @List.Forall_nil value P
      | x :: r => @List.Forall_cons value P x r (go x) (all r)
      end in
    match v with
    | VLit l => Hlit l
    | VHole h => Hhole h
    | VRef r => Href r
    | VAlias a => Halias a
    | VConcat vs => Hconcat vs (all vs)
    | VList vs => Hlist vs (all vs)
    end.

End value_induction.

(** Fillers that carry no hole of their own: the case of every filler the
    parser or a prompt produces. *)
Definition fills_closed (fills : gmap string value) : Prop :=
  forall k f, fills !! k = Some f -> GetHoles f = [].

#[global] Instance fills_closed_dec fills : Decision (fills_closed fills).
Proof.
  refine (cast_if (decide (map_Forall (fun _ f => GetHoles f = []) fills)));
    abstract (unfold fills_closed, map_Forall in *; naive_solver).
Defined.

(** ** Lemmas *)

(** Induction over a value, with the list cases reduced to a [Forall] on the
    elements. *)
Ltac value_induction v :=
  induction v as [| | | |vs IH|vs IH] using value_ind'; simpl; try done.

(** The shared step of every list case: a property of [flat_map g (map f vs)]
    follows elementwise. *)
Lemma flat_map_map_ext {A B C} (g : B -> list C) (g' : A -> list C)
    (f : A -> B) (vs : list A) :
  Forall (fun v => g (f v) = g' v) vs ->
  flat_map g (map f vs) = flat_map g' vs.
Proof. induction 1; simpl; [done | congruence]. Qed.

Lemma flat_map_filter {A B} (P : B -> Prop) `{forall x, Decision (P x)}
    (g : A -> list B) (vs : list A) :
  flat_map (fun v => filter P (g v)) vs = filter P (flat_map g vs).
Proof. induction vs; simpl; [done | by rewrite filter_app, IHvs]. Qed.

(** *** Holes *)

Lemma GetHoles_fillHoles fills v :
  fills_closed fills ->
  GetHoles (fillHoles fills v) = filter (fun h => fills !! h = None) (GetHoles v).
Proof.
  intros Hc. value_induction v.
  - destruct (fills !! h) eqn:E; simpl.
    + rewrite (Hc _ _ E). rewrite filter_cons_False, filter_nil; [done | congruence].
    + by rewrite filter_cons_True, filter_nil.
  - rewrite <- flat_map_filter. by apply flat_map_map_ext.
  - rewrite <- flat_map_filter. by apply flat_map_map_ext.
Qed.

Lemma GetRefs_fillHoles fills v :
  (forall k f, fills !! k = Some f -> GetRefs f = []) ->
  GetRefs (fillHoles fills v) = GetRefs v.
Proof.
  intros Hc. value_induction v.
  - destruct (fills !! h) eqn:E; simpl; eauto.
  - by apply flat_map_map_ext.
  - by apply flat_map_map_ext.
Qed.

Lemma fillHoles_no_holes fills v : GetHoles v = [] -> fillHoles fills v = v.
Proof.
  value_induction v; intros Hn%flat_map_nil_iff; f_equal; apply map_id_Forall;
    rewrite Forall_forall in *; auto.
Qed.

Lemma processedHoles_subseteq fills v : processedHoles fills v ⊆ fills.
Proof. apply map_filter_subseteq. Qed.

Lemma processedHoles_lookup fills v k f :
  processedHoles fills v !! k = Some f <-> fills !! k = Some f /\ k ∈ GetHoles v.
Proof. unfold processedHoles. by rewrite map_lookup_filter_Some. Qed.

Lemma fillHoles_empty v : fillHoles ∅ v = v.
Proof.
  value_induction v; rewrite ?lookup_empty; try done; f_equal;
    by apply map_id_Forall.
Qed.

(** Filling twice with closed fillers is filling once. *)
Lemma fillHoles_idem fills v :
  fills_closed fills -> fillHoles fills (fillHoles fills v) = fillHoles fills v.
Proof.
  intros Hc. value_induction v.
  - destruct (fills !! h) eqn:E; simpl; [| by rewrite E].
    apply fillHoles_no_holes. eauto.
  - f_equal. rewrite map_map. apply map_ext_Forall. done.
  - f_equal. rewrite map_map. apply map_ext_Forall. done.
Qed.

(** *** References *)

Lemma GetRefs_ReplaceRef key nv v :
  GetRefs nv = [] ->
  GetRefs (ReplaceRef key nv v) = filter (fun r => r <> key) (GetRefs v).
Proof.
  intros Hn. value_induction v.
  - case_decide; subst; simpl.
    + by rewrite Hn, filter_cons_False, filter_nil; [| naive_solver].
    + by rewrite filter_cons_True, filter_nil.
  - rewrite <- flat_map_filter. by apply flat_map_map_ext.
  - rewrite <- flat_map_filter. by apply flat_map_map_ext.
Qed.

(** Whatever the value put in, a reference left after the replacement was
    there before and is not the key, or comes with the value. *)
Lemma GetRefs_ReplaceRef_elem key nv v r :
  r ∈ GetRefs (ReplaceRef key nv v) ->
  (r ∈ GetRefs v /\ r <> key) \/ r ∈ GetRefs nv.
Proof.
  value_induction v; try (by intros ?%elem_of_nil).
  - case_decide; [by right |]. intros ->%list_elem_of_singleton. left.
    split; [by apply list_elem_of_singleton | done].
  - rewrite Forall_forall in IH. rewrite !flat_map_elem_of.
    intros (a & (x & -> & Hx)%list_elem_of_fmap & Hr).
    destruct (IH _ Hx Hr) as [[? ?] | ?]; eauto.
  - rewrite Forall_forall in IH. rewrite !flat_map_elem_of.
    intros (a & (x & -> & Hx)%list_elem_of_fmap & Hr).
    destruct (IH _ Hx Hr) as [[? ?] | ?]; eauto.
Qed.

Lemma ReplaceRef_not_in key nv v : key ∉ GetRefs v -> ReplaceRef key nv v = v.
Proof.
  value_induction v.
  - intros Hn. case_decide; [subst; set_solver | done].
  - intros Hn. f_equal. apply map_id_Forall. rewrite Forall_forall in *.
    intros x Hx. apply IH; [done |]. rewrite flat_map_elem_of in Hn. eauto.
  - intros Hn. f_equal. apply map_id_Forall. rewrite Forall_forall in *.
    intros x Hx. apply IH; [done |]. rewrite flat_map_elem_of in Hn. eauto.
Qed.

Lemma GetHoles_ReplaceRef key nv v :
  GetHoles nv = [] -> GetHoles (ReplaceRef key nv v) = GetHoles v.
Proof.
  intros Hn. value_induction v.
  - by case_decide.
  - by apply flat_map_map_ext.
  - by apply flat_map_map_ext.
Qed.

(** *** Aliases *)

Lemma GetAliases_ResolveAlias f v :
  GetAliases (ResolveAlias f v) = filter (fun a => f a = None) (GetAliases v).
Proof.
  value_induction v.
  - destruct (f a) eqn:E; simpl.
    + by rewrite filter_cons_False, filter_nil; [| congruence].
    + by rewrite filter_cons_True, filter_nil.
  - rewrite <- flat_map_filter. by apply flat_map_map_ext.
  - rewrite <- flat_map_filter. by apply flat_map_map_ext.
Qed.

Lemma GetHoles_ResolveAlias f v : GetHoles (ResolveAlias f v) = GetHoles v.
Proof.
  value_induction v; [by destruct (f a) | |]; by apply flat_map_map_ext.
Qed.

Lemma GetRefs_ResolveAlias f v : GetRefs (ResolveAlias f v) = GetRefs v.
Proof.
  value_induction v; [by destruct (f a) | |]; by apply flat_map_map_ext.
Qed.

Lemma ResolveAlias_unknown f v : (forall a, f a = None) -> ResolveAlias f v = v.
Proof.
  intros Hf. value_induction v; rewrite ?Hf; try done; f_equal;
    by apply map_id_Forall.
Qed.

Lemma ResolveAlias_none v : ResolveAlias (fun _ => None) v = v.
Proof. by apply ResolveAlias_unknown. Qed.

(** *** Resolution *)

Lemma IsResolved_spec v :
  IsResolved v = true <->
  GetHoles v = [] /\ GetRefs v = [] /\ GetAliases v = [].
Proof.
  value_induction v; try (split; [done | by intros (? & ? & ?)]).
  all: rewrite forallb_forall, !flat_map_nil_iff, <- !Forall_and.
  all: rewrite Forall_forall in *; setoid_rewrite <- list_elem_of_In.
  all: split; intros H x Hx; apply IH; auto.
Qed.

Lemma all_some_Value_is_Some vs :
  Forall (fun v => is_Some (Value v) <-> IsResolved v = true) vs ->
  is_Some (all_some Value vs) <-> forallb IsResolved vs = true.
Proof.
  intros IH. rewrite all_some_is_Some, forallb_forall.
  setoid_rewrite <- list_elem_of_In. rewrite Forall_forall in *.
  split; intros H x Hx; apply IH; auto.
Qed.

Lemma Value_is_Some v : is_Some (Value v) <-> IsResolved v = true.
Proof.
  value_induction v; try (split; [by intros [? [=]] | done]).
  all: rewrite <- (all_some_Value_is_Some vs IH).
  all: destruct (all_some Value vs); split; eauto; by intros [? [=]].
Qed.

Lemma Value_None v : Value v = None <-> IsResolved v = false.
Proof.
  rewrite <- not_true_iff_false, <- Value_is_Some, eq_None_not_Some. done.
Qed.

(** A list keeps its length and the order of its elements through every
    rewriting of the passes: each works elementwise. *)
Lemma fillHoles_VList fills vs :
  fillHoles fills (VList vs) = VList (map (fillHoles fills) vs).
Proof. done. Qed.

Lemma Value_VList_length vs ls :
  Value (VList vs) = Some (LList ls) -> length ls = length vs.
Proof.
  simpl. destruct (all_some Value vs) eqn:E; intros [= <-].
  by eapply all_some_length.
Qed.

(** *** Refinement *)

Lemma refines_VList vs v' :
  refines (VList vs) v' <-> exists vs', v' = VList vs' /\ Forall2 refines vs vs'.
Proof.
  unfold refines. destruct v' as [| | | | |vs']; simpl;
    try (split; [done | by intros (? & [=] & _)]).
  rewrite forall2b_Forall2. split; [by exists vs' |]. by intros (? & [= <-] & ?).
Qed.

Lemma refines_VConcat vs v' :
  refines (VConcat vs) v' <->
  exists vs', v' = VConcat vs' /\ Forall2 refines vs vs'.
Proof.
  unfold refines. destruct v' as [| | | |vs'|]; simpl;
    try (split; [done | by intros (? & [=] & _)]).
  rewrite forall2b_Forall2. split; [by exists vs' |]. by intros (? & [= <-] & ?).
Qed.

Lemma refines_VLit l v' : refines (VLit l) v' <-> v' = VLit l.
Proof.
  unfold refines. destruct v'; simpl; try (split; [done | by intros [=]]).
  rewrite bool_decide_eq_true. split; congruence.
Qed.

#[global] Instance refines_preorder : PreOrder refines.
Proof.
  split.
  - intros v. value_induction v.
    + by apply refines_VLit.
    + apply refines_VConcat. exists vs. split; [done |].
      by apply Forall_Forall2_diag.
    + apply refines_VList. exists vs. split; [done |].
      by apply Forall_Forall2_diag.
  - intros v. value_induction v; intros v' v''.
    + intros ->%refines_VLit. done.
    + intros (vs' & -> & H1)%refines_VConcat (vs'' & -> & H2)%refines_VConcat.
      apply refines_VConcat. exists vs''. split; [done |].
      revert vs'' H2. induction H1 as [|x x' l l' Hx _ IHl]; intros vs'' H2;
        inv H2; constructor; inv IH; eauto.
    + intros (vs' & -> & H1)%refines_VList (vs'' & -> & H2)%refines_VList.
      apply refines_VList. exists vs''. split; [done |].
      revert vs'' H2. induction H1 as [|x x' l l' Hx _ IHl]; intros vs'' H2;
        inv H2; constructor; inv IH; eauto.
Qed.

(** A rewriting that works element by element and refines every element
    refines a concatenation and a list. *)
Lemma refines_map (f : value -> value) vs :
  Forall (fun v => refines v (f v)) vs -> Forall2 refines vs (map f vs).
Proof. intros H. by apply Forall2_fmap_r, Forall_Forall2_diag. Qed.

(** The cases of an induction that shows that a rewriting refines. *)
Ltac refines_elementwise :=
  try done;
  first [ by apply (proj2 (refines_VLit _ _))
        | by case_match
        | by case_decide
        | apply (proj2 (refines_VConcat _ _))
        | apply (proj2 (refines_VList _ _)) ];
  eexists; (split; [done | by apply refines_map]).

Lemma refines_fillHoles fills v : refines v (fillHoles fills v).
Proof. value_induction v; refines_elementwise. Qed.

Lemma refines_ReplaceRef key nv v : refines v (ReplaceRef key nv v).
Proof. value_induction v; refines_elementwise. Qed.

Lemma refines_ResolveAlias f v : refines v (ResolveAlias f v).
Proof. value_induction v; refines_elementwise. Qed.

(** What refinement keeps of a list: its length, and its literal elements
    where they are. *)
Lemma refines_VList_elements vs v' :
  refines (VList vs) v' ->
  exists vs', v' = VList vs' /\ length vs' = length vs /\
              forall i l, vs !! i = Some (VLit l) -> vs' !! i = Some (VLit l).
Proof.
  intros (vs' & -> & HF)%refines_VList. exists vs'. split; [done |].
  split; [symmetry; by eapply Forall2_length |]. intros i l Hi.
  destruct (Forall2_lookup_l _ _ _ _ _ HF Hi) as (x & Hx & ->%refines_VLit).
  done.
Qed.

(** ** Rewritings that find nothing to rewrite *)

(** The list cases: the elements are unchanged, one by one; what a
    rewritten element holds, an element held or the rewriting brought. *)
Ltac unchanged_elementwise :=
  rewrite Forall_flat_map; intros ?; f_equal; apply map_id_Forall;
  rewrite Forall_forall in *; auto.

Ltac elem_elementwise IH :=
  let x := fresh "x" in
  let Hx := fresh "Hx" in
  let Hr := fresh "Hr" in
  rewrite Forall_forall in IH; rewrite !flat_map_elem_of;
  intros (? & (x & -> & Hx)%list_elem_of_fmap & Hr);
  destruct (IH _ Hx Hr); eauto.

Lemma fillHoles_not_in fills v :
  Forall (fun h => fills !! h = None) (GetHoles v) -> fillHoles fills v = v.
Proof.
  value_induction v.
  - by intros [-> _]%Forall_cons.
  - unchanged_elementwise.
  - unchanged_elementwise.
Qed.

Lemma ResolveAlias_not_in f v :
  Forall (fun a => f a = None) (GetAliases v) -> ResolveAlias f v = v.
Proof.
  value_induction v.
  - by intros [-> _]%Forall_cons.
  - unchanged_elementwise.
  - unchanged_elementwise.
Qed.

(** A hole or an alias left after a replacement was there before, or came
    with the value put in. *)
Lemma GetHoles_ReplaceRef_elem key nv v h :
  h ∈ GetHoles (ReplaceRef key nv v) -> h ∈ GetHoles v \/ h ∈ GetHoles nv.
Proof.
  value_induction v; try (by left).
  - case_decide; [by right | by left].
  - elem_elementwise IH.
  - elem_elementwise IH.
Qed.

Lemma GetAliases_ReplaceRef_elem key nv v a :
  a ∈ GetAliases (ReplaceRef key nv v) -> a ∈ GetAliases v \/ a ∈ GetAliases nv.
Proof.
  value_induction v; try (by left).
  - case_decide; [by right | by left].
  - elem_elementwise IH.
  - elem_elementwise IH.
Qed.

(** ** Filling to a plain value *)

(** A value without reference or alias whose holes all have a resolved
    filler is resolved once filled: a concatenation of fillers and literals
    is a single literal once every filler is present. *)
Lemma fillHoles_IsResolved fills v :
  GetRefs v = [] -> GetAliases v = [] ->
  Forall (fun h => exists f, fills !! h = Some f /\ IsResolved f = true)
         (GetHoles v) ->
  IsResolved (fillHoles fills v) = true.
Proof.
  value_induction v.
  - intros _ _ [(f & -> & Hf) _]%Forall_cons. done.
  - rewrite !flat_map_nil_iff, Forall_flat_map, forallb_forall.
    intros Hr Ha Hh x (y & <- & Hy)%in_map_iff. apply list_elem_of_In in Hy.
    rewrite Forall_forall in *. auto.
  - rewrite !flat_map_nil_iff, Forall_flat_map, forallb_forall.
    intros Hr Ha Hh x (y & <- & Hy)%in_map_iff. apply list_elem_of_In in Hy.
    rewrite Forall_forall in *. auto.
Qed.

Lemma fillHoles_Value fills v :
  GetRefs v = [] -> GetAliases v = [] ->
  Forall (fun h => exists f, fills !! h = Some f /\ IsResolved f = true)
         (GetHoles v) ->
  is_Some (Value (fillHoles fills v)).
Proof. intros. by apply Value_is_Some, fillHoles_IsResolved. Qed.

(** The concatenation "pre-" + {a} + {b} of the specification. *)
Example concatenation_resolves :
  Value (fillHoles {["a" := VLit (LStr "x"); "b" := VLit (LStr "y")]}
                   (VConcat [VLit (LStr "pre-"); VHole "a"; VHole "b"]))
  = Some (LStr "pre-xy").
Proof. vm_compute. reflexivity. Qed.
