(* ===== verification/Driver.v ===== *)
(** * Command objects and drivers

    Models src/template/driver/driver.go (the command life cycle [Run] and
    [DryRun], the [Driver] interface, [MultiDriver], [Context]) and the
    generated drivers of src/aws/driver/gen_drivers.go with their generator
    template src/gen/aws/generators/drivers.go.

    A command object is probed for optional capabilities; it is a record whose
    fields are [None] when the Go value does not implement the method.  The
    methods that touch the provider or the fields of the command object work
    on a world [W], threaded explicitly. *)

From S2P Require Import Prelude Values.

(** The sentinel error of driver.go and any other error: the code compares an
    error with the sentinel by identity. *)
Inductive driverErr : Type :=
| ErrDriverFnNotFound
| OtherErr (msg : error).

#[global] Instance driverErr_eq_dec : EqDecision driverErr.
Proof. solve_decision. Defined.

(** The message of an error (its Error method). *)
Definition driverErr_msg (e : driverErr) : error :=
  match e with
  | ErrDriverFnNotFound => "driver function not found"
  | OtherErr m => m
  end.

(** The services a driver type is generated for, in the order of
    gen_drivers.go. *)
Inductive service : Type :=
| Ec2 | Elbv2 | Autoscaling | Rds | Ecr | Ecs | Acm | Sts | Iam | S3 | Sns
| Sqs | Route53 | Lambda | Cloudwatch | Cloudfront | Cloudformation
| Applicationautoscaling.

#[global] Instance service_eq_dec : EqDecision service.
Proof. solve_decision. Defined.

(** copyMap: a fresh map filled key by key. *)
Definition copyMap {V : Type} (m : gmap string V) : gmap string V :=
  map_fold (fun k v copy => <[k:=v]> copy) ∅ m.

(** The context handed to a driver function. *)
Record context : Type := NewContext { vars : gmap string lit }.

Definition EmptyContext : context := NewContext ∅.

Definition Variables (c : context) : gmap string lit := copyMap (vars c).

Definition References (c : context) : gmap string lit := copyMap (vars c).

Section driver.
Context {W : Type}.

(** A method of a command object that returns an error. *)
Abbreviation errMethod := (W -> option error * W) (only parsing).
(** A method that returns a result and an error. *)
Abbreviation runMethod := (W -> (option lit * option error) * W) (only parsing).

(** The command contract: every capability the pipeline and the runner probe
    for.  The first three are the compile-time probes of compile.go, the next
    five the probes of driver.go, the last two the methods template.go calls
    on the command injected in a node. *)
Record Command : Type := {
  cmdName : string;
  cmdValidateParams : option (list string -> list string * option error);
  cmdConvertParams :
    option (list string *
            (gmap string lit -> gmap string lit * option error));
  cmdValidateCommand : option (gmap string lit -> list string -> list error);
  cmdInject : option (gmap string lit -> errMethod);
  cmdValidate : option errMethod;
  cmdRun : option runMethod;
  cmdDryRun : option runMethod;
  cmdAfterRun : option errMethod;
  cmdRunCtx : option (gmap string lit -> gmap string lit -> runMethod);
  cmdDryRunCtx : option (gmap string lit -> gmap string lit -> runMethod);
}.

(** A driver function. *)
Definition DriverFn : Type :=
  context -> gmap string lit -> W -> (option lit * option error) * W.

(** The registry: a command key (one string, or action and entity) to a
    command object, nil when there is none. *)
Definition LookupFunc : Type := list string -> option Command.

(** A probe followed by the call, for a method that returns an error: a
    command without the capability is skipped. *)
Definition probe (m : option errMethod) (w : W) : option error * W :=
  match m with
  | Some f => f w
  | None => (None, w)
  end.

(** driver.DryRun: inject the params, validate, call the dry run. *)
Definition DryRun (cmd : Command) (ctx : context) (params : gmap string lit)
    (w : W) : (option lit * option error) * W :=
  match probe (option_map (fun inj => inj params) (cmdInject cmd)) w with
  | (Some err, w1) => ((None, Some err), w1)
  | (None, w1) =>
      match probe (cmdValidate cmd) w1 with
      | (Some err, w2) => ((None, Some err), w2)
      | (None, w2) =>
          match cmdDryRun cmd with
          | Some dr =>
              match dr w2 with
              | ((result, Some err), w3) => ((result, Some err), w3)
              | ((result, None), w3) => ((result, None), w3)
              end
          | None => ((None, Some "Command is not a dry runner"), w2)
          end
      end
  end.

(** driver.Run: inject the params, validate, run, then the after-run hook.
    The first error ends the call; what ran before it stays done. *)
Definition Run (cmd : Command) (ctx : context) (params : gmap string lit)
    (w : W) : (option lit * option error) * W :=
  match probe (option_map (fun inj => inj params) (cmdInject cmd)) w with
  | (Some err, w1) => ((None, Some err), w1)
  | (None, w1) =>
      match probe (cmdValidate cmd) w1 with
      | (Some err, w2) => ((None, Some err), w2)
      | (None, w2) =>
          match cmdRun cmd with
          | Some run =>
              match run w2 with
              | ((result, Some err), w3) => ((result, Some err), w3)
              | ((result, None), w3) =>
                  match probe (cmdAfterRun cmd) w3 with
                  | (Some err, w4) => ((result, Some err), w4)
                  | (None, w4) => ((result, None), w4)
                  end
              end
          | None => ((None, Some "Command is not a runner"), w2)
          end
      end
  end.

(** The Driver interface.  SetLogger is not modelled (logging is no part of
    the model). *)
Class Driver (D : Type) : Type := {
  Lookup : D -> list string -> option DriverFn * option driverErr;
  LookupIface : D -> list string -> option Command * option driverErr;
  SetDryRun : bool -> D -> D;
}.

(** A generated driver: the struct the generator template emits for a
    service, with its four methods. *)
Record GenDriver : Type := mkGenDriver { api : service; dryRun : bool }.

(** The template of generators/drivers.go, instantiated at one service. *)
#[export] Instance generateDriverTypes : Driver GenDriver := {|
  Lookup _ _ := (None, Some ErrDriverFnNotFound);
  LookupIface _ _ := (None, None);
  SetDryRun dry d := mkGenDriver (api d) dry;
|}.

(** A driver given by its methods: any other implementation of the
    interface. *)
Record FuncDriver : Type := mkFuncDriver {
  fdLookup : list string -> option DriverFn * option driverErr;
  fdLookupIface : list string -> option Command * option driverErr;
  fdDryRun : bool;
}.

#[export] Instance FuncDriver_Driver : Driver FuncDriver := {|
  Lookup d := fdLookup d;
  LookupIface d := fdLookupIface d;
  SetDryRun dry d := mkFuncDriver (fdLookup d) (fdLookupIface d) dry;
|}.

(** ** MultiDriver: several drivers behind one *)

Section multi.
Context {D : Type} `{Driver D}.

Record MultiDriver : Type := NewMultiDriver { drivers : list D }.

(** The loop of MultiDriver.Lookup: the functions found so far, or the error
    that ended the loop. *)
Fixpoint lookupLoop (ds : list D) (lookups : list string)
    (funcs : list (option DriverFn)) : list (option DriverFn) + driverErr :=
  match ds with
  | [] => inl funcs
  | dr :: rest =>
      match Lookup dr lookups with
      | (_, Some ErrDriverFnNotFound) => lookupLoop rest lookups funcs
      | (_, Some err) => inr err
      | (fn, None) => lookupLoop rest lookups (funcs ++ [fn])
      end
  end.

Definition MultiDriver_Lookup (d : MultiDriver) (lookups : list string)
    : option DriverFn * option driverErr :=
  match lookupLoop (drivers d) lookups [] with
  | inr err => (None, Some err)
  | inl [] =>
      (None, Some (OtherErr ("function corresponding to '" +:+ fmt_v lookups
                             +:+ "' not found in drivers")))
  | inl [fn] => (fn, None)
  | inl funcs =>
      (None, Some (OtherErr (pretty (length funcs)
                             +:+ " functions corresponding to '"
                             +:+ fmt_v lookups +:+ "' found in drivers")))
  end.

Fixpoint MultiDriver_LookupIface_loop (ds : list D) (lookups : list string)
    : option Command * option driverErr :=
  match ds with
  | [] => (None, None)
  | dr :: rest =>
      match LookupIface dr lookups with
      | (_, Some err) => (None, Some err)
      | (Some iface, None) => (Some iface, None)
      | (None, None) => MultiDriver_LookupIface_loop rest lookups
      end
  end.

Definition MultiDriver_LookupIface (d : MultiDriver) (lookups : list string)
    : option Command * option driverErr :=
  MultiDriver_LookupIface_loop (drivers d) lookups.

Definition MultiDriver_SetDryRun (dry : bool) (d : MultiDriver) : MultiDriver :=
  NewMultiDriver (map (SetDryRun dry) (drivers d)).

#[export] Instance MultiDriver_Driver : Driver MultiDriver := {|
  Lookup := MultiDriver_Lookup;
  LookupIface := MultiDriver_LookupIface;
  SetDryRun := MultiDriver_SetDryRun;
|}.

(** What the drivers answer, by kind of answer: the reference account of
    MultiDriver.Lookup. *)
Definition lookupFound (ds : list D) (lookups : list string)
    : list (option DriverFn) :=
  omap (fun dr => match Lookup dr lookups with
                  | (fn, None) => Some fn
                  | _ => None
                  end) ds.

Definition lookupFailures (ds : list D) (lookups : list string)
    : list driverErr :=
  omap (fun dr => match Lookup dr lookups with
                  | (_, Some (OtherErr m)) => Some (OtherErr m)
                  | _ => None
                  end) ds.

End multi.

(** ** The generated drivers *)

Definition NewEc2Driver : GenDriver := mkGenDriver Ec2 false.
Definition NewElbv2Driver : GenDriver := mkGenDriver Elbv2 false.
Definition NewAutoscalingDriver : GenDriver := mkGenDriver Autoscaling false.
Definition NewRdsDriver : GenDriver := mkGenDriver Rds false.
Definition NewEcrDriver : GenDriver := mkGenDriver Ecr false.
Definition NewEcsDriver : GenDriver := mkGenDriver Ecs false.
Definition NewAcmDriver : GenDriver := mkGenDriver Acm false.
Definition NewStsDriver : GenDriver := mkGenDriver Sts false.
Definition NewIamDriver : GenDriver := mkGenDriver Iam false.
Definition NewS3Driver : GenDriver := mkGenDriver S3 false.
Definition NewSnsDriver : GenDriver := mkGenDriver Sns false.
Definition NewSqsDriver : GenDriver := mkGenDriver Sqs false.
Definition NewRoute53Driver : GenDriver := mkGenDriver Route53 false.
Definition NewLambdaDriver : GenDriver := mkGenDriver Lambda false.
Definition NewCloudwatchDriver : GenDriver := mkGenDriver Cloudwatch false.
Definition NewCloudfrontDriver : GenDriver := mkGenDriver Cloudfront false.
Definition NewCloudformationDriver : GenDriver :=
  mkGenDriver Cloudformation false.
Definition NewApplicationautoscalingDriver : GenDriver :=
  mkGenDriver Applicationautoscaling false.

(** Every generated driver, as the generator emits them. *)
Definition generatedDrivers : list GenDriver :=
  [NewEc2Driver; NewElbv2Driver; NewAutoscalingDriver; NewRdsDriver;
   NewEcrDriver; NewEcsDriver; NewAcmDriver; NewStsDriver; NewIamDriver;
   NewS3Driver; NewSnsDriver; NewSqsDriver; NewRoute53Driver;
   NewLambdaDriver; NewCloudwatchDriver; NewCloudfrontDriver;
   NewCloudformationDriver; NewApplicationautoscalingDriver].

(** ** An abstract account of the life cycle

    The contract of section 4.4: the stages of a command run in a fixed
    order, each on the world its predecessor left, and the first error ends
    the run.  [stagesOf] lists the stages a command has; [runStages] is the
    reference interpreter [Run] and [DryRun] are proved to implement. *)

Inductive stage : Type :=
| StErr (m : W -> option error * W)
| StRun (m : W -> (option lit * option error) * W)
| StMissing (msg : error).

Fixpoint runStages (sts : list stage) (result : option lit) (w : W)
    : (option lit * option error) * W :=
  match sts with
  | [] => ((result, None), w)
  | StErr m :: rest =>
      match m w with
      | (Some err, w') => ((result, Some err), w')
      | (None, w') => runStages rest result w'
      end
  | StRun m :: rest =>
      match m w with
      | ((r, Some err), w') => ((r, Some err), w')
      | ((r, None), w') => runStages rest r w'
      end
  | StMissing msg :: _ => ((result, Some msg), w)
  end.

Definition optStage (m : option (W -> option error * W)) : list stage :=
  match m with Some f => [StErr f] | None => [] end.

Definition runStage (m : option (W -> (option lit * option error) * W))
    (missing : error) : list stage :=
  match m with Some f => [StRun f] | None => [StMissing missing] end.

Definition stagesOfRun (cmd : Command) (params : gmap string lit) : list stage :=
  optStage (option_map (fun inj => inj params) (cmdInject cmd))
  ++ optStage (cmdValidate cmd)
  ++ runStage (cmdRun cmd) "Command is not a runner"
  ++ optStage (cmdAfterRun cmd).

Definition stagesOfDryRun (cmd : Command) (params : gmap string lit)
    : list stage :=
  optStage (option_map (fun inj => inj params) (cmdInject cmd))
  ++ optStage (cmdValidate cmd)
  ++ runStage (cmdDryRun cmd) "Command is not a dry runner".

End driver.

Arguments Command : clear implicits.
Arguments DriverFn : clear implicits.
Arguments LookupFunc : clear implicits.
Arguments stage : clear implicits.

(** ** A command that logs its calls

    The world is the log of the methods called so far; each method appends
    its name and answers with the given error.  Used to run the theorems on
    concrete inputs. *)

Definition logCall (name : string) (err : option error)
    : list string -> option error * list string :=
  fun w => (err, w ++ [name]).

Definition traceCommand (injErr valErr runErr arErr : option error)
    : Command (list string) := {|
  cmdName := "trace";
  cmdValidateParams := None;
  cmdConvertParams := None;
  cmdValidateCommand := None;
  cmdInject := Some (fun _ => logCall "inject" injErr);
  cmdValidate := Some (logCall "validate" valErr);
  cmdRun := Some (fun w => ((Some (LStr "id-1"), runErr), w ++ ["run"]));
  cmdDryRun := Some (fun w => ((Some (LStr "dry"), None), w ++ ["dryrun"]));
  cmdAfterRun := Some (logCall "afterrun" arErr);
  cmdRunCtx := None;
  cmdDryRunCtx := None;
|}.

(** ** Theorems *)

Lemma copyMap_id {V : Type} (m : gmap string V) : copyMap m = m.
Proof.
  unfold copyMap. apply (map_fold_weak_ind (fun r m' => r = m')); [done |].
  by intros k v m' r _ ->.
Qed.

Lemma Variables_NewContext (m : gmap string lit) :
  Variables (NewContext m) = m.
Proof. apply copyMap_id. Qed.

Section driver_theorems.
Context {W : Type}.
Implicit Types (cmd : Command W) (w : W) (params : gmap string lit).

(** Case analysis on every method call of a life cycle. *)
Ltac lifecycle :=
  repeat match goal with
  | |- context [match ?m with Some _ => _ | None => _ end] => destruct m eqn:?
  | |- context [let (_, _) := ?x in _] => destruct x eqn:?
  | |- context [match ?x with (_, _) => _ end] => destruct x eqn:?
  end; simpl in *; simplify_eq; try done.

(** The stages run in order: a prefix that ends without error hands its
    result and world to the rest; a prefix that ends in an error is the whole
    run. *)
Lemma runStages_app (a b : list (stage W)) r w :
  runStages (a ++ b) r w =
  match runStages a r w with
  | ((r', None), w') => runStages b r' w'
  | out => out
  end.
Proof.
  revert r w. induction a as [|[m|m|msg] a IH]; intros r w; simpl; try done.
  - destruct (m w) as [[err|] w']; [done | apply IH].
  - destruct (m w) as [[r' [err|]] w']; [done | apply IH].
Qed.

(** A run that ends without error ran every stage without error, in order:
    no stage is a missing capability. *)
Lemma runStages_ok_no_missing (sts : list (stage W)) r w r' w' :
  runStages sts r w = ((r', None), w') ->
  Forall (fun st => match st with StMissing _ => False | _ => True end) sts.
Proof.
  revert r w. induction sts as [|[m|m|msg] sts IH]; intros r w; simpl;
    [by constructor | | |done].
  - destruct (m w) as [[err|] w1]; [done |]. intros ?%IH. by constructor.
  - destruct (m w) as [[r1 [err|]] w1]; [done |]. intros ?%IH. by constructor.
Qed.

(** C10. driver.Run implements the life cycle of the command contract: the
    stages inject, validate, run, after-run, in this order, each on the world
    its predecessor left, ended by the first error; a command with no run
    method is refused with the error "Command is not a runner". *)
Theorem Run_runStages cmd ctx params w :
  Run cmd ctx params w = runStages (stagesOfRun cmd params) None w.
Proof.
  unfold Run, stagesOfRun, probe, optStage, runStage.
  destruct cmd as [n vp cp vc inj val run dr ar rc drc]; simpl.
  destruct inj as [inj|], val as [val|], run as [run|], ar as [ar|]; simpl;
    lifecycle.
Qed.

(** driver.DryRun implements the life cycle inject, validate, dry run,
    ended by the first error; a command with no dry-run method is refused
    with the error "Command is not a dry runner". *)
Theorem DryRun_runStages cmd ctx params w :
  DryRun cmd ctx params w = runStages (stagesOfDryRun cmd params) None w.
Proof.
  unfold DryRun, stagesOfDryRun, probe, optStage, runStage.
  destruct cmd as [n vp cp vc inj val run dr ar rc drc]; simpl.
  destruct inj as [inj|], val as [val|], dr as [dr|]; simpl; lifecycle.
Qed.

(** An error of the inject step ends driver.Run at once: the result is nil,
    the error is the one inject returned, and the world is the one inject
    left (validate, run and after-run are not called). *)
Theorem Run_inject_error cmd ctx params w inj err w1 :
  cmdInject cmd = Some inj -> inj params w = (Some err, w1) ->
  Run cmd ctx params w = ((None, Some err), w1).
Proof. intros Hi Hr. unfold Run. by rewrite Hi; simpl; rewrite Hr. Qed.

(** A command that is no runner is refused after inject and validate. *)
Theorem Run_not_a_runner cmd ctx params w :
  cmdRun cmd = None -> is_Some (snd (fst (Run cmd ctx params w))).
Proof. intros Hr. unfold Run. rewrite Hr. lifecycle; eauto. Qed.

(** When the four steps succeed the result is the run step's and the world
    has gone through the four steps in order. *)
Theorem Run_success cmd ctx params w inj val run ar w1 w2 w3 w4 result :
  cmdInject cmd = Some inj -> cmdValidate cmd = Some val ->
  cmdRun cmd = Some run -> cmdAfterRun cmd = Some ar ->
  inj params w = (None, w1) -> val w1 = (None, w2) ->
  run w2 = ((result, None), w3) -> ar w3 = (None, w4) ->
  Run cmd ctx params w = ((result, None), w4).
Proof.
  intros Hi Hv Hr Ha E1 E2 E3 E4. unfold Run.
  rewrite Hi, Hv, Hr, Ha; simpl. by rewrite E1, E2, E3, E4.
Qed.

(** An error of the after-run hook is returned with the result of the run:
    the run has happened. *)
Theorem Run_after_run_error cmd ctx params w run ar w3 w4 result err :
  cmdInject cmd = None -> cmdValidate cmd = None ->
  cmdRun cmd = Some run -> cmdAfterRun cmd = Some ar ->
  run w = ((result, None), w3) -> ar w3 = (Some err, w4) ->
  Run cmd ctx params w = ((result, Some err), w4).
Proof.
  intros Hi Hv Hr Ha E3 E4. unfold Run.
  rewrite Hi, Hv, Hr, Ha; simpl. by rewrite E3, E4.
Qed.

(** A dry run calls neither the run step nor the after-run hook: it is the
    same whatever those are. *)
Theorem DryRun_ignores_run cmd cmd' ctx params w :
  cmdInject cmd = cmdInject cmd' -> cmdValidate cmd = cmdValidate cmd' ->
  cmdDryRun cmd = cmdDryRun cmd' ->
  DryRun cmd ctx params w = DryRun cmd' ctx params w.
Proof. intros Hi Hv Hd. unfold DryRun. by rewrite Hi, Hv, Hd. Qed.

(** *** MultiDriver *)

Section multi_theorems.
Context {D : Type} `{!Driver (W:=W) D}.
Implicit Types (ds : list D) (lookups : list string).

(** The loop of Lookup against the reference account: the first failure that
    is not the sentinel ends it; otherwise it collects what was found. *)
Lemma lookupLoop_spec ds lookups funcs :
  lookupLoop ds lookups funcs =
  match lookupFailures ds lookups with
  | err :: _ => inr err
  | [] => inl (funcs ++ lookupFound ds lookups)
  end.
Proof.
  revert funcs. induction ds as [|dr ds IH]; intros funcs; simpl.
  - by rewrite app_nil_r.
  - unfold lookupFailures, lookupFound in *; simpl.
    destruct (Lookup dr lookups) as [fn [[|m]|]]; simpl; [apply IH | done |].
    rewrite IH. case_match; [| done]. by rewrite <- app_assoc.
Qed.

(** MultiDriver.Lookup, case by case: the first failure of a driver that
    is not the sentinel is returned as it is; otherwise one function found is
    the answer, and none or several are errors. *)
Theorem MultiDriver_Lookup_spec ds lookups :
  Lookup (NewMultiDriver ds) lookups =
  match lookupFailures ds lookups, lookupFound ds lookups with
  | err :: _, _ => (None, Some err)
  | [], [] =>
      (None, Some (OtherErr ("function corresponding to '" +:+ fmt_v lookups
                             +:+ "' not found in drivers")))
  | [], [fn] => (fn, None)
  | [], funcs =>
      (None, Some (OtherErr (pretty (length funcs)
                             +:+ " functions corresponding to '"
                             +:+ fmt_v lookups +:+ "' found in drivers")))
  end.
Proof.
  simpl. unfold MultiDriver_Lookup; simpl. rewrite lookupLoop_spec; simpl.
  destruct (lookupFailures ds lookups); [| done].
  by destruct (lookupFound ds lookups) as [|? [|? ?]].
Qed.

(** Two drivers that both provide a function for the key make the lookup
    fail: the composite refuses an ambiguous key. *)
Theorem MultiDriver_Lookup_ambiguous ds lookups f1 f2 rest :
  lookupFailures ds lookups = [] ->
  lookupFound ds lookups = f1 :: f2 :: rest ->
  exists msg, Lookup (NewMultiDriver ds) lookups = (None, Some (OtherErr msg)).
Proof.
  intros Hf Hl. simpl. unfold MultiDriver_Lookup; simpl.
  rewrite lookupLoop_spec, Hf, Hl; simpl. by eexists.
Qed.

(** C37. LookupIface answers with the first driver that has the command,
    whatever the drivers after it say: it does not detect an ambiguous key,
    as Lookup does. *)
Theorem MultiDriver_LookupIface_first ds1 dr ds2 lookups c :
  Forall (fun d => LookupIface d lookups = (None, None)) ds1 ->
  LookupIface dr lookups = (Some c, None) ->
  MultiDriver_LookupIface (NewMultiDriver (ds1 ++ dr :: ds2)) lookups
  = (Some c, None).
Proof.
  intros Hnone Hdr. unfold MultiDriver_LookupIface; simpl.
  induction Hnone as [|d ds1 Hd _ IH]; simpl; [by rewrite Hdr |].
  by rewrite Hd.
Qed.

(** SetDryRun reaches every driver behind the composite, and keeps their
    number. *)
Lemma MultiDriver_SetDryRun_length dry ds :
  length (drivers (SetDryRun dry (NewMultiDriver ds))) = length ds.
Proof. simpl. unfold MultiDriver_SetDryRun; simpl. by rewrite length_map. Qed.

End multi_theorems.

(** *** The generated drivers *)

(** A generated driver never provides a driver function. *)
Lemma generated_lookupFound (ds : list GenDriver) lookups :
  lookupFound (W:=W) ds lookups = [] /\ lookupFailures (W:=W) ds lookups = [].
Proof.
  induction ds as [|d ds [IH1 IH2]]; [done |]. split; [apply IH1 | apply IH2].
Qed.

(** A MultiDriver made of generated drivers finds no driver function,
    whatever the key: every generated Lookup answers with the sentinel
    ErrDriverFnNotFound, so the composite reports "not found in drivers". *)
Theorem MultiDriver_generated_not_found (ds : list GenDriver) lookups :
  Lookup (W:=W) (NewMultiDriver ds) lookups =
  (None, Some (OtherErr ("function corresponding to '" +:+ fmt_v lookups
                         +:+ "' not found in drivers"))).
Proof.
  simpl. unfold MultiDriver_Lookup; simpl. rewrite lookupLoop_spec; simpl.
  by destruct (generated_lookupFound ds lookups) as [-> ->].
Qed.

(** SetDryRun on a composite of generated drivers sets the flag of each. *)
Theorem MultiDriver_SetDryRun_generated dry (ds : list GenDriver) :
  Forall (fun d => dryRun d = dry)
         (drivers (SetDryRun (W:=W) dry (NewMultiDriver ds))).
Proof.
  simpl. unfold MultiDriver_SetDryRun; simpl.
  rewrite Forall_forall. intros d (d0 & -> & _)%list_elem_of_fmap. done.
Qed.

End driver_theorems.

(** ** The theorems on concrete inputs *)

Lemma Run_inject_error_witness :
  Run (traceCommand (Some "bad params") None None None) EmptyContext ∅ []
  = ((None, Some "bad params"), ["inject"]).
Proof.
  by apply (Run_inject_error _ _ _ _ (fun _ => logCall "inject" (Some "bad params"))).
Defined.

(** Two drivers that both have a command for every key. *)
Lemma MultiDriver_LookupIface_first_witness :
  MultiDriver_LookupIface
    (NewMultiDriver
       [mkFuncDriver (fun _ => (None, None))
                     (fun _ => (Some (traceCommand None None None None), None))
                     false;
        mkFuncDriver (fun _ => (None, None))
                     (fun _ => (Some (traceCommand (Some "other") None None None),
                                None))
                     false])
    ["create"; "instance"]
  = (Some (traceCommand None None None None), None).
Proof.
  by apply (MultiDriver_LookupIface_first (D:=FuncDriver) []
              (mkFuncDriver (fun _ => (None, None))
                 (fun _ => (Some (traceCommand None None None None), None))
                 false)).
Defined.
