(* ===== verification/Ast.v ===== *)
(** * Statements and nodes of a template

    The nodes of package template/internal/ast (its source is not part of the
    repository snapshot: this file follows the data model of the
    specification, section 3, and the way compile.go and template.go use the
    nodes).  A statement holds a command node or a declaration node; the
    right-hand side of a declaration is a command node or a value node.  The
    methods of a command node are the capabilities of its params, key by key.

    A node is mutated in place by the Go code; here every method returns the
    node after the mutation. *)

From S2P Require Import Prelude Values Driver.

(** The parameter schema of a command for the lenient pipeline (type
    Definition of package template). *)
Record TemplateDefinition : Type := {
  Required : list string;
  Extra : list string;
}.

Section ast.
Context {W : Type}.

(** A command node.  [NodeCommand] is the embedded command object, nil until
    the injection pass; [CmdResult] and [CmdErr] are set by the runner. *)
Record CommandNode : Type := mkCommandNode {
  NodeCommand : option (Command W);
  CmdResult : option lit;
  CmdErr : option error;
  Action : string;
  Entity : string;
  Params : gmap string value;
}.

(** An expression: a command node or a value node. *)
Inductive ExpressionNode : Type :=
| ECommand (c : CommandNode)
| EValue (v : value).

(** A declaration [Ident = Expr]. *)
Record DeclarationNode : Type := mkDeclarationNode {
  Ident : string;
  Expr : ExpressionNode;
}.

(** A statement, by the node it holds. *)
Inductive Statement : Type :=
| SCommand (c : CommandNode)
| SDeclaration (d : DeclarationNode).

(** ** Updates of a node's fields *)

Definition setParams (ps : gmap string value) (n : CommandNode) : CommandNode :=
  mkCommandNode (NodeCommand n) (CmdResult n) (CmdErr n) (Action n) (Entity n) ps.

Definition setCommand (c : option (Command W)) (n : CommandNode) : CommandNode :=
  mkCommandNode c (CmdResult n) (CmdErr n) (Action n) (Entity n) (Params n).

Definition setResult (r : option lit) (e : option error) (n : CommandNode)
    : CommandNode :=
  mkCommandNode (NodeCommand n) r e (Action n) (Entity n) (Params n).

(** ** Methods of a command node *)

(** The params' keys (the order of a Go map range is not specified; the model
    fixes the order of [map_to_list]). *)
Definition Keys (n : CommandNode) : list string := (map_to_list (Params n)).*1.

(** The driver form of the params: name to plain value, for the params that
    have one. *)
Definition ToDriverParams (n : CommandNode) : gmap string lit :=
  omap Value (Params n).

Definition CommandNode_GetHoles (n : CommandNode) : list string :=
  flat_map (fun kv => GetHoles kv.2) (map_to_list (Params n)).

Definition CommandNode_GetRefs (n : CommandNode) : list string :=
  flat_map (fun kv => GetRefs kv.2) (map_to_list (Params n)).

Definition CommandNode_GetAliases (n : CommandNode) : list string :=
  flat_map (fun kv => GetAliases kv.2) (map_to_list (Params n)).

(** ProcessHoles on every param; the consumed fillers are those a hole of the
    node names. *)
Definition CommandNode_ProcessHoles (fills : gmap string value)
    (n : CommandNode) : CommandNode * gmap string value :=
  (setParams (fillHoles fills <$> Params n) n,
   filter (fun kv => kv.1 ∈ CommandNode_GetHoles n) fills).

Definition CommandNode_ReplaceRef (key : string) (nv : value) (n : CommandNode)
    : CommandNode :=
  setParams (ReplaceRef key nv <$> Params n) n.

(** A late reference is replaced by the result a previous command left in
    [vars], when there is one. *)
Fixpoint ProcessRefs (vars : gmap string (option lit)) (v : value) : value :=
  match v with
  | VRef r =>
      match vars !! r with
      | Some (Some l) => VLit l
      | _ => VRef r
      end
  | VConcat vs => VConcat (map (ProcessRefs vars) vs)
  | VList vs => VList (map (ProcessRefs vars) vs)
  | _ => v
  end.

Definition CommandNode_ProcessRefs (vars : gmap string (option lit))
    (n : CommandNode) : CommandNode :=
  setParams (ProcessRefs vars <$> Params n) n.

(** Run of the embedded command object: a nil command is a panic ([None]). *)
Definition CommandNode_Run (n : CommandNode) (ctx params : gmap string lit)
    (w : W) : option ((option lit * option error) * W) :=
  match NodeCommand n with
  | Some c =>
      match cmdRunCtx c with
      | Some run => Some (run ctx params w)
      | None => None
      end
  | None => None
  end.

Definition Result (n : CommandNode) : option lit := CmdResult n.

(** ** Methods of an expression node *)

Definition Expr_GetHoles (e : ExpressionNode) : list string :=
  match e with
  | ECommand c => CommandNode_GetHoles c
  | EValue v => GetHoles v
  end.

Definition Expr_GetRefs (e : ExpressionNode) : list string :=
  match e with
  | ECommand c => CommandNode_GetRefs c
  | EValue v => GetRefs v
  end.

Definition Expr_GetAliases (e : ExpressionNode) : list string :=
  match e with
  | ECommand c => CommandNode_GetAliases c
  | EValue v => GetAliases v
  end.

Definition Expr_ProcessHoles (fills : gmap string value) (e : ExpressionNode)
    : ExpressionNode * gmap string value :=
  match e with
  | ECommand c =>
      let '(c', p) := CommandNode_ProcessHoles fills c in (ECommand c', p)
  | EValue v => let '(v', p) := ProcessHoles fills v in (EValue v', p)
  end.

Definition Expr_ReplaceRef (key : string) (nv : value) (e : ExpressionNode)
    : ExpressionNode :=
  match e with
  | ECommand c => ECommand (CommandNode_ReplaceRef key nv c)
  | EValue v => EValue (ReplaceRef key nv v)
  end.

End ast.

Arguments CommandNode : clear implicits.
Arguments ExpressionNode : clear implicits.
Arguments DeclarationNode : clear implicits.
Arguments Statement : clear implicits.

(** ** Lemmas *)

Section ast_lemmas.
Context {W : Type}.
Implicit Types (n : CommandNode W) (e : ExpressionNode W).

Lemma Keys_elem_of n k : k ∈ Keys n <-> is_Some (Params n !! k).
Proof.
  unfold Keys. rewrite list_elem_of_fmap. split.
  - intros ([k' v] & -> & Hkv%elem_of_map_to_list). eauto.
  - intros [v Hv]. exists (k, v). split; [done | by apply elem_of_map_to_list].
Qed.

Lemma Keys_NoDup n : NoDup (Keys n).
Proof. apply NoDup_fst_map_to_list. Qed.

(** A name is a hole (reference, alias) of a node iff it is one of a param
    of the node. *)
Lemma CommandNode_GetHoles_elem_of n h :
  h ∈ CommandNode_GetHoles n <->
  exists k v, Params n !! k = Some v /\ h ∈ GetHoles v.
Proof. apply flat_map_map_to_list_elem_of. Qed.

Lemma CommandNode_GetRefs_elem_of n r :
  r ∈ CommandNode_GetRefs n <->
  exists k v, Params n !! k = Some v /\ r ∈ GetRefs v.
Proof. apply flat_map_map_to_list_elem_of. Qed.

Lemma CommandNode_GetAliases_elem_of n a :
  a ∈ CommandNode_GetAliases n <->
  exists k v, Params n !! k = Some v /\ a ∈ GetAliases v.
Proof. apply flat_map_map_to_list_elem_of. Qed.

Lemma CommandNode_GetRefs_ReplaceRef_elem key nv n r :
  r ∈ CommandNode_GetRefs (CommandNode_ReplaceRef key nv n) ->
  (r ∈ CommandNode_GetRefs n /\ r <> key) \/ r ∈ GetRefs nv.
Proof.
  rewrite !CommandNode_GetRefs_elem_of. simpl.
  intros (k & v' & (v & <- & Hv)%lookup_fmap_Some & Hr).
  destruct (GetRefs_ReplaceRef_elem _ _ _ _ Hr) as [[? ?] | ?]; eauto 6.
Qed.

Lemma Expr_GetRefs_ReplaceRef_elem key nv e r :
  r ∈ Expr_GetRefs (Expr_ReplaceRef key nv e) ->
  (r ∈ Expr_GetRefs e /\ r <> key) \/ r ∈ GetRefs nv.
Proof.
  destruct e; simpl;
    [apply CommandNode_GetRefs_ReplaceRef_elem | apply GetRefs_ReplaceRef_elem].
Qed.

(** The driver form holds exactly the resolved params. *)
Lemma ToDriverParams_lookup n k l :
  ToDriverParams n !! k = Some l <->
  exists v, Params n !! k = Some v /\ Value v = Some l.
Proof.
  unfold ToDriverParams. rewrite lookup_omap.
  destruct (Params n !! k) as [v|]; simpl.
  - split; [by exists v | by intros (? & [= <-] & ?)].
  - split; [done | by intros (? & [=] & _)].
Qed.

Lemma ToDriverParams_dom n k :
  is_Some (ToDriverParams n !! k) <->
  exists v, Params n !! k = Some v /\ IsResolved v = true.
Proof.
  split.
  - intros [l (v & Hv & Hl)%ToDriverParams_lookup]. exists v. split; [done |].
    apply Value_is_Some. eauto.
  - intros (v & Hv & [l Hl]%Value_is_Some). exists l.
    apply ToDriverParams_lookup. eauto.
Qed.

Lemma setParams_id n : setParams (Params n) n = n.
Proof. by destruct n. Qed.

(** Rewriting the params with a function that changes none of them leaves
    the node as it is. *)
Lemma setParams_fmap_id (f : value -> value) n :
  (forall k v, Params n !! k = Some v -> f v = v) ->
  setParams (f <$> Params n) n = n.
Proof.
  intros Hf. destruct n as [? ? ? ? ? ps]. unfold setParams. simpl in *.
  f_equal. rewrite <- (map_fmap_id ps) at 2. by apply map_fmap_ext.
Qed.

Lemma setParams_imap_id (g : string -> value -> value) n :
  (forall k v, Params n !! k = Some v -> g k v = v) ->
  setParams (map_imap (fun k v => Some (g k v)) (Params n)) n = n.
Proof.
  intros Hg. destruct n as [? ? ? ? ? ps]. unfold setParams. simpl in *.
  f_equal. apply map_eq. intros k. rewrite map_lookup_imap.
  destruct (ps !! k) as [v|] eqn:Ek; [| done]. simpl. f_equal. eauto.
Qed.

(** The fillers an expression consumes are those its holes name. *)
Lemma Expr_ProcessHoles_snd fills e :
  snd (Expr_ProcessHoles fills e) =
  filter (fun kv => kv.1 ∈ Expr_GetHoles e) fills.
Proof. by destruct e. Qed.

(** The holes left in an expression are those without a filler. *)
Lemma Expr_ProcessHoles_holes fills e h :
  fills_closed fills ->
  h ∈ Expr_GetHoles (fst (Expr_ProcessHoles fills e)) <->
  h ∈ Expr_GetHoles e /\ fills !! h = None.
Proof.
  intros Hc. destruct e as [c|v]; simpl.
  - rewrite !CommandNode_GetHoles_elem_of. simpl.
    setoid_rewrite lookup_fmap_Some. split.
    + intros (k & ? & (v & <- & Hk) & Hh).
      rewrite GetHoles_fillHoles in Hh by done.
      apply list_elem_of_filter in Hh as [? ?]. eauto.
    + intros [(k & v & Hk & Hh) Hn]. exists k, (fillHoles fills v).
      split; [eauto |]. rewrite GetHoles_fillHoles by done.
      by apply list_elem_of_filter.
  - rewrite GetHoles_fillHoles by done. rewrite list_elem_of_filter. tauto.
Qed.

(** Filling the holes of an expression twice with closed fillers is filling
    them once. *)
Lemma Expr_ProcessHoles_idem fills e :
  fills_closed fills ->
  fst (Expr_ProcessHoles fills (fst (Expr_ProcessHoles fills e))) =
  fst (Expr_ProcessHoles fills e).
Proof.
  intros Hc. destruct e as [c|v]; simpl.
  - f_equal. unfold setParams; simpl. f_equal.
    rewrite <- map_fmap_compose. apply map_fmap_ext. intros ? ? _.
    by apply fillHoles_idem.
  - f_equal. by apply fillHoles_idem.
Qed.

(** *** References bound late and references replaced *)

(** A value without reference is not touched. *)
Lemma ProcessRefs_no_refs vars v : GetRefs v = [] -> ProcessRefs vars v = v.
Proof.
  value_induction v; rewrite flat_map_nil_iff; intros Hvs; f_equal;
    rewrite <- (map_id vs) at 2; apply map_ext_Forall;
    rewrite Forall_forall in *; auto.
Qed.

(** The substitution lemma: a reference bound to the plain value of [nv]
    when the command runs, and a reference replaced by [nv] beforehand, give
    the same plain value. *)
Lemma Value_ProcessRefs_ReplaceRef vars key nv l v :
  Value nv = Some l ->
  Value (ProcessRefs (<[key := Some l]> vars) v)
  = Value (ProcessRefs vars (ReplaceRef key nv v)).
Proof.
  intros Hnv. value_induction v.
  - case_decide as Hr; [subst; rewrite lookup_insert_eq |
                        rewrite lookup_insert_ne by done]; simpl; [| done].
    rewrite ProcessRefs_no_refs; [done |].
    by apply IsResolved_spec, Value_is_Some.
  - rewrite !map_map. by rewrite (all_some_map_ext Value _ _ vs IH).
  - rewrite !map_map. by rewrite (all_some_map_ext Value _ _ vs IH).
Qed.

Lemma ToDriverParams_ProcessRefs_ReplaceRef vars key nv l n :
  Value nv = Some l ->
  ToDriverParams (CommandNode_ProcessRefs (<[key := Some l]> vars) n)
  = ToDriverParams (CommandNode_ProcessRefs vars (CommandNode_ReplaceRef key nv n)).
Proof.
  intros Hnv. unfold ToDriverParams. simpl. apply map_eq. intros k.
  rewrite !lookup_omap, !lookup_fmap.
  destruct (Params n !! k) as [v|]; simpl; [| done].
  by apply Value_ProcessRefs_ReplaceRef.
Qed.

End ast_lemmas.
