(* ===== verification/Env.v ===== *)
(** * The compilation environment

    Models the [Env] struct of src/template/compile.go and its methods
    [NewEnv], [AddFillers], [addToProcessedFillers], [GetProcessedFillers].
    A Go map field that may be nil is an [option]: [NewEnv] leaves [Fillers]
    nil, and the methods that write to a map create it first, as the code
    does.  The logger is left out. *)

From S2P Require Import Prelude Values Driver Ast.

(** Reading a map that may be nil: a nil map reads as the empty map. *)
Definition readMap {V : Type} (m : option (gmap string V)) : gmap string V :=
  match m with
  | Some m => m
  | None => ∅
  end.

(** The loop [for k, v := range f { dst[k] = v }]. *)
Definition mergeInto {V : Type} (dst src : gmap string V) : gmap string V :=
  map_fold (fun k v acc => <[k:=v]> acc) dst src.

Section env.
Context {W : Type}.

Record Env : Type := mkEnv {
  EnvDriver : option (FuncDriver (W:=W));
  Lookuper : option (LookupFunc W);
  IsDryRun : bool;
  IsNewRunner : bool;
  ResolvedVariables : option (gmap string lit);
  Fillers : option (gmap string value);
  DefLookupFunc : option (string -> option TemplateDefinition);
  AliasFunc : option (string -> string -> string -> string);
  MissingHolesFunc : option (string -> value);
  processedFillers : option (gmap string value);
}.

Definition NewEnv : Env := {|
  EnvDriver := None;
  Lookuper := Some (fun _ => None);
  IsDryRun := false;
  IsNewRunner := false;
  ResolvedVariables := Some ∅;
  Fillers := None;
  DefLookupFunc := None;
  AliasFunc := None;
  MissingHolesFunc := None;
  processedFillers := Some ∅;
|}.

(** ** Updates of a field *)

Definition setFillers (f : option (gmap string value)) (e : Env) : Env :=
  mkEnv (EnvDriver e) (Lookuper e) (IsDryRun e) (IsNewRunner e)
        (ResolvedVariables e) f (DefLookupFunc e) (AliasFunc e)
        (MissingHolesFunc e) (processedFillers e).

Definition setProcessedFillers (p : option (gmap string value)) (e : Env) : Env :=
  mkEnv (EnvDriver e) (Lookuper e) (IsDryRun e) (IsNewRunner e)
        (ResolvedVariables e) (Fillers e) (DefLookupFunc e) (AliasFunc e)
        (MissingHolesFunc e) p.

Definition setResolvedVariables (r : option (gmap string lit)) (e : Env) : Env :=
  mkEnv (EnvDriver e) (Lookuper e) (IsDryRun e) (IsNewRunner e)
        r (Fillers e) (DefLookupFunc e) (AliasFunc e)
        (MissingHolesFunc e) (processedFillers e).

(** ** Methods *)

(** AddFillers: the map is created when nil, then every given map is copied
    into it in order, a later entry overwriting an earlier one. *)
Definition AddFillers (fills : list (gmap string value)) (e : Env) : Env :=
  setFillers (Some (foldl mergeInto (readMap (Fillers e)) fills)) e.

Definition addToProcessedFillers (fills : list (gmap string value)) (e : Env)
    : Env :=
  setProcessedFillers
    (Some (foldl mergeInto (readMap (processedFillers e)) fills)) e.

(** GetProcessedFillers: a copy of the processed fillers, entry by entry. *)
Definition GetProcessedFillers (e : Env) : gmap string value :=
  mergeInto ∅ (readMap (processedFillers e)).

End env.

Arguments Env : clear implicits.

(** ** Theorems *)

(** Copying a map into another is the union that prefers the copied map. *)
Lemma mergeInto_union {V : Type} (dst src : gmap string V) :
  mergeInto dst src = src ∪ dst.
Proof.
  unfold mergeInto.
  apply (map_fold_weak_ind (fun r m => r = m ∪ dst)).
  - by rewrite (left_id_L ∅ (∪)).
  - intros k v m r Hk ->. by rewrite insert_union_l.
Qed.

Lemma mergeInto_lookup {V : Type} (dst src : gmap string V) k :
  mergeInto dst src !! k =
  match src !! k with Some v => Some v | None => dst !! k end.
Proof.
  rewrite mergeInto_union, lookup_union. by destruct (src !! k), (dst !! k).
Qed.

Lemma mergeInto_subseteq {V : Type} (dst src m : gmap string V) :
  dst ⊆ m -> src ⊆ m -> mergeInto dst src ⊆ m.
Proof. rewrite mergeInto_union. intros. by apply map_union_least. Qed.

Lemma foldl_mergeInto_subseteq {V : Type} (fills : list (gmap string V))
    (dst m : gmap string V) :
  dst ⊆ m -> Forall (fun f => f ⊆ m) fills -> foldl mergeInto dst fills ⊆ m.
Proof.
  intros Hd Hf. revert dst Hd.
  induction Hf as [|f fills Hf _ IH]; intros dst Hd; simpl; [done |].
  apply IH. by apply mergeInto_subseteq.
Qed.

Section env_theorems.
Context {W : Type}.
Implicit Types (e : Env W).

(** The copy handed out is the processed fillers, entry for entry. *)
Lemma GetProcessedFillers_eq e :
  GetProcessedFillers e = readMap (processedFillers e).
Proof.
  unfold GetProcessedFillers. by rewrite mergeInto_union, (right_id_L ∅ (∪)).
Qed.

(** A filler added last wins; a name no added map mentions keeps its value. *)
Lemma AddFillers_one_lookup e f k :
  readMap (Fillers (AddFillers [f] e)) !! k =
  match f !! k with Some v => Some v | None => readMap (Fillers e) !! k end.
Proof. simpl. apply mergeInto_lookup. Qed.

Lemma AddFillers_other_fields e fills :
  processedFillers (AddFillers fills e) = processedFillers e /\
  ResolvedVariables (AddFillers fills e) = ResolvedVariables e /\
  Lookuper (AddFillers fills e) = Lookuper e.
Proof. done. Qed.

Lemma addToProcessedFillers_one e p :
  readMap (processedFillers (addToProcessedFillers [p] e)) =
  p ∪ readMap (processedFillers e).
Proof. simpl. apply mergeInto_union. Qed.

Lemma addToProcessedFillers_Fillers e ps :
  Fillers (addToProcessedFillers ps e) = Fillers e.
Proof. done. Qed.

End env_theorems.
