(* ===== verification/Template.v ===== *)
(** * Templates and their traversals

    Models src/template/template.go without the runner: the [Template]
    struct, the iterators over its statements, the visitors the passes are
    written with, [HasErrors], [UniqueDefinitions] and the [Errors]
    collector.

    The Go iterators return slices of pointers to nodes and the visitors
    mutate the nodes through them.  Here an iterator returns the nodes, and a
    visitor rebuilds the statement list with the nodes its callback returns:
    [commandOf] reads the command node of a statement as the type switch of
    [CommandNodesIterator] does, [withCommand] writes it back.

    The theorems are the facts about the visitors that the passes are proved
    with: a visit is a map over the statements ([visitHoles_list_map]), it
    does to every command node what its callback does ([stmtStep],
    [visitCommandNodesE_list_Ok]), it fails or panics as its callback does,
    and what it accumulates is a fold over the command nodes
    ([foldCommandNodesE]).  The visitors of declarations
    ([visitDeclarationNodes], [visitCommandDeclarationNodes]) call their
    callback on the declarations in the order of the template.
    Module [Sample] holds the templates, the callbacks and the registry of
    the scenarios of the specification, on which the theorems of the later
    files are instantiated. *)

From S2P Require Import Prelude Values Driver Ast Env.

Section template.
Context {W : Type}.

Record Template : Type := mkTemplate {
  ID : string;
  Statements : list (Statement W);
}.

(** extractExpressionNode: the expression of a declaration, or the node
    itself when it is an expression.  A statement holds a command or a
    declaration, so there is always one. *)
Definition extractExpressionNode (st : Statement W) : ExpressionNode W :=
  match st with
  | SDeclaration d => Expr d
  | SCommand c => ECommand c
  end.

(** The statement with its expression replaced. *)
Definition withExpression (st : Statement W) (e : ExpressionNode W)
    : Statement W :=
  match st, e with
  | SDeclaration d, _ => SDeclaration (mkDeclarationNode (Ident d) e)
  | SCommand _, ECommand c => SCommand c
  | SCommand c, EValue _ => SCommand c
  end.

(** The command node of a statement: the node itself, or the right-hand
    side of a declaration when it is a command. *)
Definition commandOf (st : Statement W) : option (CommandNode W) :=
  match st with
  | SCommand c => Some c
  | SDeclaration d =>
      match Expr d with
      | ECommand c => Some c
      | EValue _ => None
      end
  end.

(** The statement with its command node replaced. *)
Definition withCommand (st : Statement W) (c : CommandNode W) : Statement W :=
  match st with
  | SCommand _ => SCommand c
  | SDeclaration d =>
      match Expr d with
      | ECommand _ => SDeclaration (mkDeclarationNode (Ident d) (ECommand c))
      | EValue _ => st
      end
  end.

(** ** Iterators *)

Definition CommandNodesIterator (s : Template) : list (CommandNode W) :=
  omap commandOf (Statements s).

(** The nodes with references: a command statement, or a declaration of a
    command. *)
Definition WithRefsIterator (s : Template) : list (CommandNode W) :=
  omap (fun sts =>
          match sts with
          | SCommand nn => Some nn
          | SDeclaration d =>
              match Expr d with
              | ECommand nnn => Some nnn
              | EValue _ => None
              end
          end) (Statements s).

Definition CommandNodesReverseIterator (s : Template) : list (CommandNode W) :=
  omap commandOf (reverse (Statements s)).

Definition declarationNodesIterator (s : Template) : list (DeclarationNode W) :=
  omap (fun sts =>
          match sts with
          | SDeclaration n => Some n
          | SCommand _ => None
          end) (Statements s).

Definition commandDeclarationNodesIterator (s : Template)
    : list (DeclarationNode W) :=
  List.filter (fun node => match Expr node with
                           | ECommand _ => true
                           | EValue _ => false
                           end) (declarationNodesIterator s).

Definition expressionNodesIterator (s : Template) : list (ExpressionNode W) :=
  map extractExpressionNode (Statements s).

(** ** Visitors *)

Section visitors.
Context {S : Type}.

(** visitHoles: the callback sees every expression node in order (command
    nodes and value nodes both have the with-holes capability) and threads
    what it accumulates. *)
Fixpoint visitHoles_list (fn : ExpressionNode W -> S -> ExpressionNode W * S)
    (sts : list (Statement W)) (acc : S) : list (Statement W) * S :=
  match sts with
  | [] => ([], acc)
  | st :: rest =>
      let '(e', acc') := fn (extractExpressionNode st) acc in
      let '(rest', acc'') := visitHoles_list fn rest acc' in
      (withExpression st e' :: rest', acc'')
  end.

Definition visitHoles (fn : ExpressionNode W -> S -> ExpressionNode W * S)
    (s : Template) (acc : S) : Template * S :=
  let '(sts, acc') := visitHoles_list fn (Statements s) acc in
  (mkTemplate (ID s) sts, acc').

(** visitCommandNodes: the callback is applied to every command node. *)
Fixpoint visitCommandNodes_list (fn : CommandNode W -> S -> CommandNode W * S)
    (sts : list (Statement W)) (acc : S) : list (Statement W) * S :=
  match sts with
  | [] => ([], acc)
  | st :: rest =>
      match commandOf st with
      | Some cmd =>
          let '(cmd', acc') := fn cmd acc in
          let '(rest', acc'') := visitCommandNodes_list fn rest acc' in
          (withCommand st cmd' :: rest', acc'')
      | None =>
          let '(rest', acc') := visitCommandNodes_list fn rest acc in
          (st :: rest', acc')
      end
  end.

Definition visitCommandNodes (fn : CommandNode W -> S -> CommandNode W * S)
    (s : Template) (acc : S) : Template * S :=
  let '(sts, acc') := visitCommandNodes_list fn (Statements s) acc in
  (mkTemplate (ID s) sts, acc').

(** visitCommandNodesE: as visitCommandNodes, but the first error of the
    callback ends the visit; the nodes visited so far keep what the callback
    did to them, the others are untouched. *)
Fixpoint visitCommandNodesE_list
    (fn : CommandNode W -> S -> res (CommandNode W * S))
    (sts : list (Statement W)) (acc : S) : res (list (Statement W) * S) :=
  match sts with
  | [] => Ok ([], acc)
  | st :: rest =>
      match commandOf st with
      | Some cmd =>
          match fn cmd acc with
          | Ok (cmd', acc') =>
              res_map (fun '(rest', acc'') => (withCommand st cmd' :: rest', acc''))
                      (visitCommandNodesE_list fn rest acc')
          | Err (cmd', acc') err => Err (withCommand st cmd' :: rest, acc') err
          | Panic why => Panic why
          end
      | None =>
          res_map (fun '(rest', acc') => (st :: rest', acc'))
                  (visitCommandNodesE_list fn rest acc)
      end
  end.

Definition visitCommandNodesE
    (fn : CommandNode W -> S -> res (CommandNode W * S))
    (s : Template) (acc : S) : res (Template * S) :=
  res_map (fun '(sts, acc') => (mkTemplate (ID s) sts, acc'))
          (visitCommandNodesE_list fn (Statements s) acc).

(** visitDeclarationNodes and visitCommandDeclarationNodes: the callback is
    applied to every declaration node, or to every declaration of a command
    result; it has no return value, and works on the node through its
    pointer. *)
Definition isCommandDeclaration (node : DeclarationNode W) : bool :=
  match Expr node with
  | ECommand _ => true
  | EValue _ => false
  end.

Fixpoint visitDeclarations_list (sel : DeclarationNode W -> bool)
    (fn : DeclarationNode W -> S -> DeclarationNode W * S)
    (sts : list (Statement W)) (acc : S) : list (Statement W) * S :=
  match sts with
  | [] => ([], acc)
  | SDeclaration n :: rest =>
      if sel n then
        let '(n', acc') := fn n acc in
        let '(rest', acc'') := visitDeclarations_list sel fn rest acc' in
        (SDeclaration n' :: rest', acc'')
      else
        let '(rest', acc') := visitDeclarations_list sel fn rest acc in
        (SDeclaration n :: rest', acc')
  | st :: rest =>
      let '(rest', acc') := visitDeclarations_list sel fn rest acc in
      (st :: rest', acc')
  end.

Definition visitCommandDeclarationNodes
    (fn : DeclarationNode W -> S -> DeclarationNode W * S)
    (s : Template) (acc : S) : Template * S :=
  let '(sts, acc') :=
    visitDeclarations_list isCommandDeclaration fn (Statements s) acc in
  (mkTemplate (ID s) sts, acc').

Definition visitDeclarationNodes
    (fn : DeclarationNode W -> S -> DeclarationNode W * S)
    (s : Template) (acc : S) : Template * S :=
  let '(sts, acc') :=
    visitDeclarations_list (fun _ => true) fn (Statements s) acc in
  (mkTemplate (ID s) sts, acc').

End visitors.

(** What a visit with errors accumulates, as a fold over the command
    nodes. *)
Fixpoint foldCommandNodesE {S : Type}
    (fn : CommandNode W -> S -> res (CommandNode W * S))
    (nodes : list (CommandNode W)) (acc : S) : res S :=
  match nodes with
  | [] => Ok acc
  | node :: rest =>
      match fn node acc with
      | Ok (_, acc') => foldCommandNodesE fn rest acc'
      | Err (_, acc') err => Err acc' err
      | Panic why => Panic why
      end
  end.

(** ** Reports on a template *)

(** HasErrors: some command node carries an error. *)
Definition HasErrors (t : Template) : bool :=
  existsb (fun cmd => match CmdErr cmd with Some _ => true | None => false end)
          (CommandNodesIterator t).

(** UniqueDefinitions: the definitions of the template's commands, each
    command key once, in the order of first use. *)
Fixpoint UniqueDefinitions_loop (fn : string -> option TemplateDefinition)
    (cmds : list (CommandNode W)) (unique : gset string)
    : list TemplateDefinition :=
  match cmds with
  | [] => []
  | cmd :: rest =>
      let key := Action cmd +:+ Entity cmd in
      match fn key with
      | Some def =>
          if decide (key ∈ unique)
          then UniqueDefinitions_loop fn rest unique
          else def :: UniqueDefinitions_loop fn rest ({[key]} ∪ unique)
      | None => UniqueDefinitions_loop fn rest unique
      end
  end.

Definition UniqueDefinitions (t : Template)
    (fn : string -> option TemplateDefinition) : list TemplateDefinition :=
  UniqueDefinitions_loop fn (CommandNodesIterator t) ∅.

(** What a visit of the command nodes does to a statement, when it does [R]
    to a command node: a statement without a command node is left alone. *)
Definition stmtStep (R : CommandNode W -> CommandNode W -> Prop)
    (st st' : Statement W) : Prop :=
  match commandOf st with
  | Some c => exists c', R c c' /\ st' = withCommand st c'
  | None => st' = st
  end.

End template.

Arguments Template : clear implicits.

(** ** The Errors collector *)

Record Errors : Type := mkErrors { errs : list error }.

Definition Errors_Errors (d : Errors) : list error * bool :=
  (errs d, bool_decide (0 < length (errs d))).

Definition Errors_add (err : error) (d : Errors) : Errors :=
  mkErrors (errs d ++ [err]).

Definition Errors_Error (d : Errors) : string := Join (errs d) nl.

(** ** Sample templates

    The templates of the end-to-end scenarios of the specification
    (section 8), as the parser would build them, on a world that logs the
    calls made to it. *)

Module Sample.

Definition node (action entity : string) (params : list (string * value))
    : CommandNode (list string) :=
  mkCommandNode None None None action entity (list_to_map params).

Definition str (s : string) : value := VLit (LStr s).

Definition decl (ident : string) (e : ExpressionNode (list string))
    : Statement (list string) :=
  SDeclaration (mkDeclarationNode ident e).

(** S1: a variable, a hole and an alias. *)
Definition S1 : Template (list string) := mkTemplate "S1" [
  decl "subnetname" (EValue (str "my-subnet"));
  decl "vpcref" (EValue (VAlias "vpc"));
  decl "sub" (ECommand (node "create" "subnet"
                          [("cidr", VHole "test.cidr"); ("vpc", VRef "vpcref");
                           ("name", VRef "subnetname")]));
  SCommand (node "update" "subnet"
              [("id", VRef "sub"); ("public", VLit (LBool true))])
].

(** S2: a list with literals and aliases. *)
Definition S2 : Template (list string) := mkTemplate "S2" [
  SCommand (node "create" "loadbalancer"
              [("subnets", VList [str "sub-1"; VAlias "a"; VAlias "a"]);
               ("name", str "lb")])
].

(** S3: a required param is missing. *)
Definition S3 : Template (list string) := mkTemplate "S3" [
  SCommand (node "create" "instance"
              [("image", str "ami-1"); ("count", VLit (LInt 1))])
].

(** S4: a reference to a later declaration. *)
Definition S4 : Template (list string) := mkTemplate "S4" [
  SCommand (node "create" "instance" [("subnet", VRef "sub")]);
  decl "sub" (ECommand (node "create" "subnet" []))
].

(** S5: an identifier declared twice. *)
Definition S5 : Template (list string) := mkTemplate "S5" [
  decl "inst" (ECommand (node "create" "instance" []));
  decl "inst" (ECommand (node "create" "instance" []))
].

(** S6: the second command fails, a third one follows. *)
Definition S6 : Template (list string) := mkTemplate "S6" [
  decl "sub" (ECommand (node "create" "subnet" [("cidr", str "10.0.0.0/24")]));
  SCommand (node "update" "subnet" [("id", VRef "sub")]);
  SCommand (node "create" "subnet" [("cidr", str "10.0.1.0/24")])
].

(** The fillers and the alias callback of S1 and S2. *)
Definition fillers : gmap string value :=
  {[ "test.cidr" := str "10.0.2.0/24" ]}.

Definition aliases (entity key alias : string) : string :=
  if decide (alias = "vpc") then "vpc-1234"
  else if decide (alias = "a") then "sub-9"
  else EmptyString.

(** The definitions of the commands of the samples. *)
Definition definitions (key : string) : option TemplateDefinition :=
  if decide (key = "createsubnet")
  then Some {| Required := ["cidr"; "vpc"]; Extra := ["name"] |}
  else if decide (key = "updatesubnet")
  then Some {| Required := ["id"]; Extra := ["public"] |}
  else if decide (key = "createloadbalancer")
  then Some {| Required := ["name"; "subnets"]; Extra := [] |}
  else if decide (key = "createinstance")
  then Some {| Required := ["image"; "count"; "subnet"]; Extra := [] |}
  else None.

(** The environment of the lenient scenarios. *)
Definition env : Env (list string) :=
  let e := AddFillers [fillers] NewEnv in
  mkEnv (EnvDriver e) (Lookuper e) (IsDryRun e) (IsNewRunner e)
        (ResolvedVariables e) (Fillers e) (Some definitions) (Some aliases)
        (MissingHolesFunc e) (processedFillers e).

(** A command object that logs its run in the world, reports the required
    params it is not given and fails its run with the given error. *)
Definition command (name : string) (required : list string)
    (runErr : option error) : Command (list string) := {|
  cmdName := name;
  cmdValidateParams :=
    Some (fun keys => (List.filter (fun r => negb (bool_decide (r ∈ keys))) required,
                       None));
  cmdConvertParams := None;
  cmdValidateCommand := Some (fun _ _ => []);
  cmdInject := None;
  cmdValidate := None;
  cmdRun := Some (fun w => ((Some (LStr (name +:+ "-1")), runErr), w ++ [name]));
  cmdDryRun := None;
  cmdAfterRun := None;
  cmdRunCtx :=
    Some (fun _ _ w => ((Some (LStr (name +:+ "-1")), runErr), w ++ [name]));
  cmdDryRunCtx :=
    Some (fun _ _ w => ((Some (LStr "dry"), None), w ++ ["dry " +:+ name]));
|}.

(** A registry: creating an instance needs a subnet, updating a subnet
    fails. *)
Definition registry : LookupFunc (list string) :=
  fun tokens =>
    let key := Join tokens EmptyString in
    if decide (key = "createinstance")
    then Some (command "createinstance" ["subnet"] None)
    else if decide (key = "createsubnet")
    then Some (command "createsubnet" [] None)
    else if decide (key = "updatesubnet")
    then Some (command "updatesubnet" [] (Some "boom"))
    else None.

(** The environment of the scenarios of the new runner. *)
Definition runnerEnv : Env (list string) :=
  mkEnv None (Some registry) false true (Some ∅) (Some fillers) None
        (Some aliases) None (Some ∅).

End Sample.

(** ** Theorems *)

Section template_theorems.
Context {W : Type}.
Implicit Types (s : Template W) (st : Statement W) (sts : list (Statement W)).

Lemma extractExpressionNode_withExpression_command st c :
  commandOf st = Some c ->
  forall c', extractExpressionNode (withExpression st (ECommand c')) = ECommand c'.
Proof. by destruct st. Qed.

Lemma commandOf_withCommand st c c' :
  commandOf st = Some c -> commandOf (withCommand st c') = Some c'.
Proof. destruct st as [?|[? [?|?]]]; simpl; try done. Qed.

Lemma commandOf_None_extract st :
  commandOf st = None <-> exists v, extractExpressionNode st = EValue v.
Proof.
  destruct st as [?|[? [?|?]]]; simpl; split; try done; eauto; by intros [? [=]].
Qed.

(** The iterator over the nodes with references selects the command nodes:
    the two type switches agree. *)
Lemma WithRefsIterator_eq s : WithRefsIterator s = CommandNodesIterator s.
Proof. done. Qed.

Lemma expressionNodesIterator_length s :
  length (expressionNodesIterator s) = length (Statements s).
Proof. apply length_map. Qed.

(** The reverse iterator yields the command nodes in reverse order. *)
Lemma CommandNodesReverseIterator_reverse s :
  CommandNodesReverseIterator s = reverse (CommandNodesIterator s).
Proof.
  unfold CommandNodesReverseIterator, CommandNodesIterator.
  induction (Statements s) as [|st sts IH]; [done |].
  rewrite reverse_cons, omap_app, IH. csimpl.
  destruct (commandOf st); csimpl; by rewrite ?reverse_cons, ?app_nil_r.
Qed.

(** A visit whose callback rewrites a node without looking at what is
    accumulated is a map over the statements and a fold over their
    expressions. *)
Lemma visitHoles_list_map {S} (f : ExpressionNode W -> ExpressionNode W)
    (g : ExpressionNode W -> S -> S) sts (acc : S) :
  visitHoles_list (fun h a => (f h, g h a)) sts acc =
  (map (fun st => withExpression st (f (extractExpressionNode st))) sts,
   foldl (fun a st => g (extractExpressionNode st) a) acc sts).
Proof.
  revert acc. induction sts as [|st sts IH]; intros acc; simpl; [done |].
  by rewrite IH.
Qed.

(** Two callbacks that agree on the states a visit goes through give the
    same visit. *)
Lemma visitHoles_list_ext {S} (P : S -> Prop)
    (fn fn' : ExpressionNode W -> S -> ExpressionNode W * S) sts (acc : S) :
  P acc ->
  (forall h a, P a -> fn h a = fn' h a /\ P (snd (fn' h a))) ->
  visitHoles_list fn sts acc = visitHoles_list fn' sts acc.
Proof.
  intros Hacc Hfn. revert acc Hacc.
  induction sts as [|st sts IH]; intros acc Hacc; simpl; [done |].
  destruct (Hfn (extractExpressionNode st) acc Hacc) as [-> HP].
  destruct (fn' _ acc) as [e' acc']. by rewrite (IH acc' HP).
Qed.

Lemma visitHoles_list_length {S} fn sts (acc : S) :
  length (fst (visitHoles_list fn sts acc)) = length sts.
Proof.
  revert acc. induction sts as [|st sts IH]; intros acc; simpl; [done |].
  destruct (fn _ acc) as [e' acc']. specialize (IH acc').
  destruct (visitHoles_list fn sts acc'). simpl in *. by rewrite IH.
Qed.

(** A template has errors exactly when one of its command nodes carries
    one. *)
Lemma HasErrors_spec s :
  HasErrors s = true <->
  exists cmd, cmd ∈ CommandNodesIterator s /\ is_Some (CmdErr cmd).
Proof.
  unfold HasErrors. rewrite existsb_exists. split.
  - intros (cmd & Hin%list_elem_of_In & Herr). exists cmd. split; [done |].
    by destruct (CmdErr cmd).
  - intros (cmd & Hin%list_elem_of_In & [e He]). exists cmd. by rewrite He.
Qed.

Lemma withCommand_same st c : commandOf st = Some c -> withCommand st c = st.
Proof.
  destruct st as [?|[? [?|?]]]; simpl; try done; by intros [= ->].
Qed.

Lemma extractExpressionNode_commandOf st c :
  commandOf st = Some c -> extractExpressionNode st = ECommand c.
Proof. destruct st as [?|[? [?|?]]]; simpl; try done; by intros [= ->]. Qed.

Lemma extractExpressionNode_withCommand st c c' :
  commandOf st = Some c -> extractExpressionNode (withCommand st c') = ECommand c'.
Proof. by destruct st as [?|[? [?|?]]]. Qed.

(** *** Visits of the command nodes *)

(** The statements after a visit that succeeded: every command node went
    through a successful call of the callback. *)
Lemma visitCommandNodesE_list_Ok {S} (fn : CommandNode W -> S -> res (CommandNode W * S))
    (R : CommandNode W -> CommandNode W -> Prop) sts (acc : S) sts' acc' :
  (forall c a c' a', fn c a = Ok (c', a') -> R c c') ->
  visitCommandNodesE_list fn sts acc = Ok (sts', acc') ->
  Forall2 (stmtStep R) sts sts'.
Proof.
  intros HR. revert acc sts' acc'.
  induction sts as [|st sts IH]; intros acc sts' acc'; simpl.
  - intros [= <- _]. constructor.
  - destruct (commandOf st) as [c|] eqn:Ec.
    + destruct (fn c acc) as [[c1 a1]|[c1 a1] e1|] eqn:Efn; try done.
      intros ([sts1 a2] & Hv & [= <- _])%res_map_Ok. constructor; [| eauto].
      unfold stmtStep. rewrite Ec. eauto.
    + intros ([sts1 a2] & Hv & [= <- _])%res_map_Ok. constructor; [| eauto].
      unfold stmtStep. by rewrite Ec.
Qed.

(** A callback that never returns an error gives a visit that never returns
    one. *)
Lemma visitCommandNodesE_list_no_Err {S}
    (fn : CommandNode W -> S -> res (CommandNode W * S)) sts (acc : S) :
  (forall c a x e, fn c a <> Err x e) ->
  forall x e, visitCommandNodesE_list fn sts acc <> Err x e.
Proof.
  intros Hfn. revert acc. induction sts as [|st sts IH]; intros acc; [done |].
  simpl. destruct (commandOf st) as [c|].
  - destruct (fn c acc) as [[c1 a1]|[c1 a1] e1|] eqn:Efn; try done.
    + intros x e. specialize (IH a1).
      destruct (visitCommandNodesE_list fn sts a1) as [[? ?]|[? ?] e2|];
        try done. by destruct (IH _ _ eq_refl).
    + by destruct (Hfn _ _ _ _ Efn).
  - intros x e. specialize (IH acc).
    destruct (visitCommandNodesE_list fn sts acc) as [[? ?]|[? ?] e2|];
      try done. by destruct (IH _ _ eq_refl).
Qed.

(** A callback that leaves the nodes as they are gives a visit that leaves
    the statements as they are. *)
Lemma visitCommandNodesE_list_unchanged {S}
    (fn : CommandNode W -> S -> res (CommandNode W * S)) sts (acc : S) :
  (forall c a c' a', res_state (fn c a) = Some (c', a') -> c' = c) ->
  forall sts' acc',
    res_state (visitCommandNodesE_list fn sts acc) = Some (sts', acc') ->
    sts' = sts.
Proof.
  intros Hfn. revert acc. induction sts as [|st sts IH]; intros acc sts' acc';
    simpl; [by intros [= <- _] |].
  destruct (commandOf st) as [c|] eqn:Ec.
  - specialize (Hfn c acc).
    destruct (fn c acc) as [[c1 a1]|[c1 a1] e1|] eqn:Efn; simpl; try done.
    + rewrite (Hfn _ _ eq_refl), (withCommand_same _ _ Ec). specialize (IH a1).
      destruct (visitCommandNodesE_list fn sts a1) as [[? ?]|[? ?] ?|];
        simpl; try done; intros [= <- _]; f_equal; eauto.
    + rewrite (Hfn _ _ eq_refl), (withCommand_same _ _ Ec). by intros [= <- _].
  - specialize (IH acc).
    destruct (visitCommandNodesE_list fn sts acc) as [[? ?]|[? ?] ?|];
      simpl; try done; intros [= <- _]; f_equal; eauto.
Qed.

(** The statements after a visit that cannot fail. *)
Lemma visitCommandNodes_list_rel {S} (fn : CommandNode W -> S -> CommandNode W * S)
    (R : CommandNode W -> CommandNode W -> Prop) sts (acc : S) :
  (forall c a, R c (fst (fn c a))) ->
  Forall2 (stmtStep R) sts (fst (visitCommandNodes_list fn sts acc)).
Proof.
  intros HR. revert acc. induction sts as [|st sts IH]; intros acc; simpl.
  - constructor.
  - destruct (commandOf st) as [c|] eqn:Ec.
    + specialize (HR c acc). destruct (fn c acc) as [c1 a1]. specialize (IH a1).
      destruct (visitCommandNodes_list fn sts a1). simpl in *.
      constructor; [| done]. unfold stmtStep. rewrite Ec. eauto.
    + specialize (IH acc). destruct (visitCommandNodes_list fn sts acc).
      simpl in *. constructor; [| done]. unfold stmtStep. by rewrite Ec.
Qed.

(** With a callback that never returns an error, a visit that meets a node
    on which the callback panics panics. *)
Lemma visitCommandNodesE_list_Panic {S}
    (fn : CommandNode W -> S -> res (CommandNode W * S)) sts (acc : S) c :
  (forall c a x e, fn c a <> Err x e) ->
  c ∈ omap commandOf sts ->
  (forall a, is_Panic (fn c a) = true) ->
  is_Panic (visitCommandNodesE_list fn sts acc) = true.
Proof.
  intros Hfn Hin Hp. revert acc Hin.
  induction sts as [|st sts IH]; intros acc; csimpl; [by intros ?%elem_of_nil |].
  destruct (commandOf st) as [c0|] eqn:Ec; csimpl.
  - intros [->|Hin]%elem_of_cons.
    + specialize (Hp acc). by destruct (fn c0 acc) as [[? ?]|[? ?] ?|].
    + destruct (fn c0 acc) as [[c1 a1]|[c1 a1] e1|] eqn:Efn; [| | done].
      * specialize (IH a1 Hin).
        by destruct (visitCommandNodesE_list fn sts a1) as [[? ?]|[? ?] ?|].
      * by destruct (Hfn _ _ _ _ Efn).
  - intros Hin. specialize (IH acc Hin).
    by destruct (visitCommandNodesE_list fn sts acc) as [[? ?]|[? ?] ?|].
Qed.

(** A visit without state succeeds exactly when the callback succeeds on
    every command node, provided that it leaves the nodes as they are. *)
(** A visit does not panic when its callback does not panic on the command
    nodes of the statements. *)
Lemma visitCommandNodesE_list_safe {S}
    (fn : CommandNode W -> S -> res (CommandNode W * S)) sts (acc : S) :
  (forall c a, c ∈ omap commandOf sts -> is_Panic (fn c a) = false) ->
  is_Panic (visitCommandNodesE_list fn sts acc) = false.
Proof.
  revert acc. induction sts as [|st sts IH]; intros acc Hfn; [done |].
  simpl. csimpl in Hfn. destruct (commandOf st) as [c|].
  - specialize (Hfn c acc (list_elem_of_here _ _)) as Hc.
    destruct (fn c acc) as [[c1 a1]|[c1 a1] e1|]; [| done..].
    rewrite res_map_is_Panic. apply IH. intros c' a' Hin. apply Hfn.
    by apply list_elem_of_further.
  - rewrite res_map_is_Panic. by apply IH.
Qed.

Lemma visitCommandNodesE_list_is_Ok
    (fn : CommandNode W -> unit -> res (CommandNode W * unit)) sts :
  (forall c c' a', fn c tt = Ok (c', a') -> c' = c) ->
  is_Ok (visitCommandNodesE_list fn sts tt) = true <->
  Forall (fun c => is_Ok (fn c tt) = true) (omap commandOf sts).
Proof.
  intros Hfn. induction sts as [|st sts IH]; csimpl; [by split; [constructor |] |].
  destruct (commandOf st) as [c|] eqn:Ec; csimpl.
  - rewrite Forall_cons, <- IH.
    destruct (fn c tt) as [[c1 []]|[c1 a1] e1|] eqn:Efn; simpl;
      [| by split; [| intros [? _]] ..].
    destruct (visitCommandNodesE_list fn sts tt) as [[? ?]|[? ?] ?|]; simpl;
      by split; [| intros [_ ?]].
  - rewrite <- IH.
    by destruct (visitCommandNodesE_list fn sts tt) as [[? ?]|[? ?] ?|].
Qed.

(** The statements a visit leaves, whether it succeeded or failed: the
    nodes visited went through the callback, the others are as they were. *)
Lemma visitCommandNodesE_list_state {S}
    (fn : CommandNode W -> S -> res (CommandNode W * S))
    (R : CommandNode W -> CommandNode W -> Prop) sts (acc : S) sts' acc' :
  (forall c a c' a', res_state (fn c a) = Some (c', a') -> R c c') ->
  (forall c, R c c) ->
  res_state (visitCommandNodesE_list fn sts acc) = Some (sts', acc') ->
  Forall2 (stmtStep R) sts sts'.
Proof.
  intros HR Hrefl.
  assert (forall sts, Forall2 (stmtStep R) sts sts) as Hsame.
  { intros l. apply Forall2_same_length_lookup_2; [done |].
    intros i x y Hx Hy. assert (x = y) as <- by congruence.
    unfold stmtStep. destruct (commandOf x) as [c|] eqn:Ec; [| done].
    exists c. by rewrite (withCommand_same _ _ Ec). }
  revert acc sts' acc'.
  induction sts as [|st sts IH]; intros acc sts' acc'; simpl.
  - intros [= <- _]. constructor.
  - destruct (commandOf st) as [c|] eqn:Ec.
    + specialize (HR c acc).
      destruct (fn c acc) as [[c1 a1]|[c1 a1] e1|] eqn:Efn; simpl; [| | done].
      * specialize (IH a1).
        destruct (visitCommandNodesE_list fn sts a1) as [[? ?]|[? ?] ?|];
          simpl; try done; intros [= <- _]; (constructor; [| by eapply IH]);
          unfold stmtStep; rewrite Ec; eauto.
      * intros [= <- _]. constructor; [| done].
        unfold stmtStep. rewrite Ec. eauto.
    + specialize (IH acc).
      destruct (visitCommandNodesE_list fn sts acc) as [[? ?]|[? ?] ?|];
        simpl; try done; intros [= <- _]; (constructor; [| by eapply IH]);
        unfold stmtStep; by rewrite Ec.
Qed.

(** What a visit does to the statements, it does to the command nodes. *)
Lemma stmtStep_commands R sts sts' :
  Forall2 (stmtStep R) sts sts' ->
  Forall2 R (omap commandOf sts) (omap commandOf sts').
Proof.
  induction 1 as [|st st' sts sts' Hst _ IH]; csimpl; [constructor |].
  unfold stmtStep in Hst. destruct (commandOf st) as [c|] eqn:Ec.
  - destruct Hst as (c' & HR & ->). rewrite (commandOf_withCommand _ _ _ Ec).
    by constructor.
  - subst st'. by rewrite Ec.
Qed.

Lemma stmtStep_compose R1 R2 sts1 sts2 sts3 :
  Forall2 (stmtStep R1) sts1 sts2 -> Forall2 (stmtStep R2) sts2 sts3 ->
  Forall2 (stmtStep (fun c c'' => exists c', R1 c c' /\ R2 c' c'')) sts1 sts3.
Proof.
  intros H12. revert sts3.
  induction H12 as [|st1 st2 sts1 sts2 H1 _ IH]; intros sts3 H23;
    inversion H23 as [|? st3 ? sts3' H2 H23']; subst; constructor; [| eauto].
  unfold stmtStep in *. destruct (commandOf st1) as [c|] eqn:Ec.
  - destruct H1 as (c' & HR1 & ->).
    rewrite (commandOf_withCommand _ _ _ Ec) in H2.
    destruct H2 as (c'' & HR2 & ->). exists c''. split; [eauto |].
    by destruct st1 as [?|[? [?|?]]].
  - subst st2. by rewrite Ec in H2.
Qed.

(** A visit whose callback returns the nodes and what it accumulates as
    they are returns the statements as they are. *)
Lemma visitCommandNodesE_list_id {S}
    (fn : CommandNode W -> S -> res (CommandNode W * S)) sts (acc : S) :
  Forall (fun c => fn c acc = Ok (c, acc)) (omap commandOf sts) ->
  visitCommandNodesE_list fn sts acc = Ok (sts, acc).
Proof.
  induction sts as [|st sts IH]; csimpl; [done |].
  destruct (commandOf st) as [c|] eqn:Ec; csimpl.
  - intros [-> Hsts]%Forall_cons. rewrite (IH Hsts). simpl.
    by rewrite (withCommand_same _ _ Ec).
  - intros Hsts. by rewrite (IH Hsts).
Qed.

Lemma visitCommandNodes_list_id {S}
    (fn : CommandNode W -> S -> CommandNode W * S) sts (acc : S) :
  Forall (fun c => fn c acc = (c, acc)) (omap commandOf sts) ->
  visitCommandNodes_list fn sts acc = (sts, acc).
Proof.
  induction sts as [|st sts IH]; csimpl; [done |].
  destruct (commandOf st) as [c|] eqn:Ec; csimpl.
  - intros [-> Hsts]%Forall_cons. rewrite (IH Hsts).
    by rewrite (withCommand_same _ _ Ec).
  - intros Hsts. by rewrite (IH Hsts).
Qed.

(** *** Reports *)

(** UniqueDefinitions returns the definitions of a list of keys without
    duplicates, taken in order from the keys of the commands: every key of
    a command that has a definition and was not seen before, once. *)
Lemma UniqueDefinitions_loop_spec fn (cmds : list (CommandNode W)) unique :
  exists keys,
    UniqueDefinitions_loop fn cmds unique = omap fn keys /\
    NoDup keys /\
    keys `sublist_of` map (fun cmd => Action cmd +:+ Entity cmd) cmds /\
    forall k, k ∈ keys <->
              k ∈ map (fun cmd => Action cmd +:+ Entity cmd) cmds /\
              is_Some (fn k) /\ k ∉ unique.
Proof.
  revert unique. induction cmds as [|cmd cmds IH]; intros unique; simpl.
  { exists []. split_and!; [done | constructor | done | set_solver]. }
  destruct (fn _) as [def|] eqn:Ef; [case_decide as Hu |].
  - destruct (IH unique) as (keys & -> & Hnd & Hsub & Hk). exists keys.
    split_and!; [done | done | by apply sublist_cons | set_solver].
  - destruct (IH ({[Action cmd +:+ Entity cmd]} ∪ unique))
      as (keys & -> & Hnd & Hsub & Hk).
    exists ((Action cmd +:+ Entity cmd) :: keys). csimpl. rewrite Ef.
    split_and!; [done | apply NoDup_cons; set_solver | by apply sublist_skip |].
    intros k. rewrite !elem_of_cons, Hk.
    destruct (decide (k = Action cmd +:+ Entity cmd)) as [-> |]; [| set_solver].
    rewrite Ef. naive_solver.
  - destruct (IH unique) as (keys & -> & Hnd & Hsub & Hk). exists keys.
    split_and!; [done | done | by apply sublist_cons |].
    intros k. rewrite Hk, elem_of_cons. split; [naive_solver |].
    intros ([-> | ?] & [? Hs] & ?); [by rewrite Ef in Hs | eauto].
Qed.

(** There are as many definitions as there are distinct keys of commands
    that have one. *)
Lemma UniqueDefinitions_length s fn :
  exists keys,
    length (UniqueDefinitions s fn) = length keys /\ NoDup keys /\
    forall k, k ∈ keys <->
              k ∈ map (fun cmd => Action cmd +:+ Entity cmd) (CommandNodesIterator s) /\
              is_Some (fn k).
Proof.
  destruct (UniqueDefinitions_loop_spec fn (CommandNodesIterator s) ∅)
    as (keys & Hu & Hnd & _ & Hk).
  exists keys. unfold UniqueDefinitions. rewrite Hu.
  split; [| split; [done | intros k; rewrite Hk; set_solver]].
  assert (Forall (fun k => is_Some (fn k)) keys) as Hall.
  { apply Forall_forall. intros k Hin. by apply Hk in Hin as (_ & ? & _). }
  clear -Hall. induction Hall as [|k keys [def Hd] _ IH]; csimpl; [done |].
  rewrite Hd. simpl. by rewrite IH.
Qed.

(** What a visit accumulates depends on the nodes it was given only: the
    callback is called on each command node of the list as it was, until it
    fails. *)
Lemma visitCommandNodesE_list_acc {S}
    (fn : CommandNode W -> S -> res (CommandNode W * S)) sts (acc : S) :
  res_map snd (visitCommandNodesE_list fn sts acc)
  = foldCommandNodesE fn (omap commandOf sts) acc.
Proof.
  revert acc. induction sts as [|st sts IH]; intros acc; csimpl; [done |].
  destruct (commandOf st) as [c|]; csimpl.
  - destruct (fn c acc) as [[c' a']|[c' a'] e|]; simpl; [| done..].
    rewrite <- IH. by destruct (visitCommandNodesE_list fn sts a') as [[]|[]|].
  - rewrite <- IH. by destruct (visitCommandNodesE_list fn sts acc) as [[]|[]|].
Qed.

(** *** The declaration visitors *)

(** A callback that only reads the nodes has seen the nodes the visitor
    selects, in the order of the statements, and the template is as it
    was. *)
Lemma visitDeclarations_list_calls {S} sel (g : DeclarationNode W -> S -> S)
    sts (acc : S) :
  visitDeclarations_list sel (fun n a => (n, g n a)) sts acc
  = (sts, foldl (fun a n => g n a) acc
            (List.filter sel (declarationNodesIterator (mkTemplate EmptyString sts)))).
Proof.
  unfold declarationNodesIterator. simpl. revert acc.
  induction sts as [|[c|n] sts IH]; intros acc; csimpl; [done | |].
  - by rewrite IH.
  - destruct (sel n); simpl; by rewrite IH.
Qed.

Lemma visitDeclarationNodes_calls {S} (g : DeclarationNode W -> S -> S)
    s (acc : S) :
  visitDeclarationNodes (fun n a => (n, g n a)) s acc
  = (s, foldl (fun a n => g n a) acc (declarationNodesIterator s)).
Proof.
  unfold visitDeclarationNodes. rewrite visitDeclarations_list_calls.
  destruct s as [id sts]. simpl. f_equal. f_equal.
  apply forallb_filter_id, forallb_forall. done.
Qed.

Lemma visitCommandDeclarationNodes_calls {S} (g : DeclarationNode W -> S -> S)
    s (acc : S) :
  visitCommandDeclarationNodes (fun n a => (n, g n a)) s acc
  = (s, foldl (fun a n => g n a) acc (commandDeclarationNodesIterator s)).
Proof.
  unfold visitCommandDeclarationNodes. rewrite visitDeclarations_list_calls.
  by destruct s.
Qed.

(** Whatever the callback does, the statements that are commands stay as
    they are, where they are. *)
Lemma visitDeclarations_list_commands {S} sel
    (fn : DeclarationNode W -> S -> DeclarationNode W * S) sts (acc : S) :
  Forall2 (fun st st' => match st with
                         | SCommand _ => st' = st
                         | SDeclaration _ => exists n', st' = SDeclaration n'
                         end)
          sts (visitDeclarations_list sel fn sts acc).1.
Proof.
  revert acc. induction sts as [|[c|n] sts IH]; intros acc; simpl.
  - constructor.
  - specialize (IH acc). destruct (visitDeclarations_list _ _ sts acc).
    by constructor.
  - destruct (sel n); [destruct (fn n acc) as [n' acc'];
                       specialize (IH acc') | specialize (IH acc)];
      destruct (visitDeclarations_list _ _ sts _); constructor; eauto.
Qed.

End template_theorems.

(** ** The collector of errors *)

(** The collector holds the errors in the order they were added, and says
    whether there is one. *)
Lemma Errors_add_Errors (d : Errors) (es : list error) :
  Errors_Errors (foldl (fun d err => Errors_add err d) d es)
  = (errs d ++ es, bool_decide (errs d ++ es <> [])).
Proof.
  revert d. induction es as [|e es IH]; intros [l]; simpl.
  - rewrite app_nil_r. unfold Errors_Errors. simpl. f_equal.
    by destruct l.
  - rewrite IH. simpl. by rewrite <- !app_assoc.
Qed.

(** Its message is one line per error. *)
Lemma Errors_add_Error (es : list error) :
  Errors_Error (foldl (fun d err => Errors_add err d) (mkErrors []) es)
  = Join es nl.
Proof.
  pose proof (Errors_add_Errors (mkErrors []) es) as H.
  unfold Errors_Errors, Errors_Error in *. by injection H as -> _.
Qed.
