(* ===== verification/PassRefs.v ===== *)
(** * The reference passes

    Models two passes of src/template/compile.go:
    [checkInvalidReferenceDeclarationsPass], which enforces single
    assignment and forward-only references, and [inlineVariableValuePass],
    which replaces the references to a value declaration by the value and
    drops the declaration once its value is resolved.

    The abstract specification of the first is the inductive predicate
    [well_scoped]; the pass is proved to accept exactly the well-scoped
    templates.  The loop of the second is characterised by the relation
    [inlined] (a command is kept, a declaration of a resolved value is
    dropped and substituted in what follows, any other declaration is
    kept), and what it leaves is [command_scoped]: every reference names
    the result of an earlier command. *)

From S2P Require Import Prelude Values Driver Ast Env Template.

(** ** Messages *)

Definition undefinedRefErr (ref : string) : error :=
  "using reference '$" +:+ ref +:+ "' but '" +:+ ref
  +:+ "' is undefined in template" +:+ nl.

Definition alreadyAssignedErr (ref : string) : error :=
  "using reference '$" +:+ ref +:+ "' but '" +:+ ref
  +:+ "' has already been assigned in template" +:+ nl.

Section passes.
Context {W : Type}.

(** A pass: a template and an environment to a template and an environment,
    or an error. *)
Definition compileFunc : Type :=
  Template W -> Env W -> res (Template W * Env W).

(** ** checkInvalidReferenceDeclarationsPass *)

(** The closure [each]: the first reference that is not known is an error. *)
Fixpoint each (knownRefs : gset string) (refs : list string) : option error :=
  match refs with
  | [] => None
  | ref :: rest =>
      if decide (ref ∈ knownRefs) then each knownRefs rest
      else Some (undefinedRefErr ref)
  end.

(** The loop over the statements: the references of a statement are checked
    against the identifiers declared before it; a declaration then adds its
    identifier, which must be new. *)
Fixpoint checkRefsLoop (sts : list (Statement W)) (knownRefs : gset string)
    : option error :=
  match sts with
  | [] => None
  | st :: rest =>
      match each knownRefs (Expr_GetRefs (extractExpressionNode st)) with
      | Some err => Some err
      | None =>
          match st with
          | SDeclaration decl =>
              if decide (Ident decl ∈ knownRefs)
              then Some (alreadyAssignedErr (Ident decl))
              else checkRefsLoop rest ({[Ident decl]} ∪ knownRefs)
          | SCommand _ => checkRefsLoop rest knownRefs
          end
      end
  end.

Definition checkInvalidReferenceDeclarationsPass : compileFunc :=
  fun tpl env =>
    match checkRefsLoop (Statements tpl) ∅ with
    | Some err => Err (tpl, env) err
    | None => Ok (tpl, env)
    end.

(** ** inlineVariableValuePass *)

(** The body of the inner loop: the references to the identifier in the
    expression of a statement are replaced by the value. *)
Definition inlineStmt (ident : string) (v : value) (st : Statement W)
    : Statement W :=
  withExpression st (Expr_ReplaceRef ident v (extractExpressionNode st)).

(** The inner loop, over every later statement. *)
Definition inlineInto (ident : string) (v : value) (sts : list (Statement W))
    : list (Statement W) :=
  map (inlineStmt ident v) sts.

(** The outer loop, [n] iterations of it: the range loop runs once per
    statement of the template, over the statements as the iterations before
    left them.  A value declaration records its plain value when it has one,
    is inlined in the statements after it, and is kept only when its value
    is not resolved.  Writing to a nil map of resolved variables is a
    panic. *)
Fixpoint inlineLoop (n : nat) (sts : list (Statement W))
    (resolved : option (gmap string lit))
    : res (list (Statement W) * option (gmap string lit)) :=
  match n, sts with
  | S n', st :: rest =>
      let keep resolved' rest' :=
        res_map (fun '(sts', r) => (st :: sts', r))
                (inlineLoop n' rest' resolved') in
      match st with
      | SDeclaration decl =>
          match Expr decl with
          | EValue v =>
              match Value v, resolved with
              | Some _, None => Panic "assignment to entry in nil map"
              | val, _ =>
                  let resolved' :=
                    match val, resolved with
                    | Some l, Some m => Some (<[Ident decl := l]> m)
                    | _, _ => resolved
                    end in
                  let rest' := inlineInto (Ident decl) v rest in
                  if IsResolved v then inlineLoop n' rest' resolved'
                  else keep resolved' rest'
              end
          | ECommand _ => keep resolved rest
          end
      | SCommand _ => keep resolved rest
      end
  | _, _ => Ok ([], resolved)
  end.

Definition inlineVariableValuePass : compileFunc :=
  fun tpl env =>
    res_map (fun '(sts, r) => (mkTemplate (ID tpl) sts, setResolvedVariables r env))
            (inlineLoop (length (Statements tpl)) (Statements tpl)
                        (ResolvedVariables env)).

(** ** The abstract specification of scoping *)

(** The identifiers a statement list declares, in order. *)
Definition declared (sts : list (Statement W)) : list string :=
  omap (fun st => match st with
                  | SDeclaration d => Some (Ident d)
                  | SCommand _ => None
                  end) sts.

(** The references of a statement. *)
Definition stmtRefs (st : Statement W) : list string :=
  Expr_GetRefs (extractExpressionNode st).

(** A statement list is well scoped from a set of known identifiers when
    every reference names an identifier known or declared by an earlier
    statement, and no declaration names an identifier already known. *)
Inductive well_scoped : gset string -> list (Statement W) -> Prop :=
| ws_nil known : well_scoped known []
| ws_command known c rest :
    Forall (fun r => r ∈ known) (CommandNode_GetRefs c) ->
    well_scoped known rest ->
    well_scoped known (SCommand c :: rest)
| ws_declaration known d rest :
    Forall (fun r => r ∈ known) (Expr_GetRefs (Expr d)) ->
    Ident d ∉ known ->
    well_scoped ({[Ident d]} ∪ known) rest ->
    well_scoped known (SDeclaration d :: rest).

(** The identifier a statement binds to the result of a command. *)
Definition resultOf (st : Statement W) : gset string :=
  match st with
  | SDeclaration d =>
      match Expr d with
      | ECommand _ => {[Ident d]}
      | EValue _ => ∅
      end
  | SCommand _ => ∅
  end.

(** A statement list whose references name results of commands only: every
    reference names an identifier known or bound to the result of a command
    by an earlier statement; the identifier of a declared value is not known
    to the statements after it. *)
Inductive command_scoped : gset string -> list (Statement W) -> Prop :=
| cs_nil known : command_scoped known []
| cs_statement known st rest :
    Forall (fun r => r ∈ known) (stmtRefs st) ->
    command_scoped (resultOf st ∪ known) rest ->
    command_scoped known (st :: rest).

(** What the loop of the inlining pass computes, as a relation between the
    statements it is given and those it returns: a command or the
    declaration of a command result is kept; the declaration of a value is
    inlined in the statements after it, and kept only when its value is not
    resolved. *)
Inductive inlined : list (Statement W) -> list (Statement W) -> Prop :=
| inlined_nil : inlined [] []
| inlined_command st c rest out :
    commandOf st = Some c ->
    inlined rest out -> inlined (st :: rest) (st :: out)
| inlined_resolved d v rest out :
    Expr d = EValue v -> IsResolved v = true ->
    inlined (inlineInto (Ident d) v rest) out ->
    inlined (SDeclaration d :: rest) out
| inlined_kept d v rest out :
    Expr d = EValue v -> IsResolved v = false ->
    inlined (inlineInto (Ident d) v rest) out ->
    inlined (SDeclaration d :: rest) (SDeclaration d :: out).

(** A statement the inlining pass may leave in a template: anything but a
    value declaration whose value is resolved. *)
Definition notResolvedDeclaration (st : Statement W) : Prop :=
  match st with
  | SDeclaration d =>
      match Expr d with
      | EValue v => IsResolved v = false
      | ECommand _ => True
      end
  | SCommand _ => True
  end.

(** The command key of a node. *)
Definition commandKey (c : CommandNode W) : string * string :=
  (Action c, Entity c).

(** What an error of the check says: a statement uses a reference that is
    neither known nor declared before it, or a declaration names an
    identifier that is. *)
Definition refError (sts : list (Statement W)) (known : gset string)
    (err : error) : Prop :=
  (exists i st r, sts !! i = Some st /\ r ∈ stmtRefs st /\ (r ∉ known) /\
                  (r ∉ declared (take i sts)) /\ err = undefinedRefErr r) \/
  (exists i d, sts !! i = Some (SDeclaration d) /\
               (Ident d ∈ known \/ Ident d ∈ declared (take i sts)) /\
               err = alreadyAssignedErr (Ident d)).

End passes.

Arguments compileFunc : clear implicits.

(** ** Theorems *)

Section refs_theorems.
Context {W : Type}.
Implicit Types (sts : list (Statement W)) (known : gset string).

Lemma each_None known refs :
  each known refs = None <-> Forall (fun r => r ∈ known) refs.
Proof.
  induction refs as [|r refs IH]; simpl; [by split; [constructor |] |].
  rewrite Forall_cons. case_decide; [rewrite IH | ]; naive_solver.
Qed.

(** The first unknown reference is the one reported. *)
Lemma each_Some known refs err :
  each known refs = Some err ->
  exists r, r ∈ refs /\ (r ∉ known) /\ err = undefinedRefErr r.
Proof.
  induction refs as [|r refs IH]; simpl; [done |]. case_decide.
  - intros (r' & ? & ? & ->)%IH. exists r'. rewrite elem_of_cons. auto.
  - intros [= <-]. exists r. rewrite elem_of_cons. auto.
Qed.

(** The loop accepts exactly the well-scoped statement lists. *)
Lemma checkRefsLoop_None sts known :
  checkRefsLoop sts known = None <-> well_scoped known sts.
Proof.
  revert known. induction sts as [|st sts IH]; intros known; simpl.
  - split; [constructor | done].
  - destruct (each known _) eqn:E.
    + split; [done |]. intros Hws.
      enough (each known (Expr_GetRefs (extractExpressionNode st)) = None)
        by congruence.
      apply each_None. by inv Hws.
    + apply each_None in E. destruct st as [c|d]; simpl in *.
      * rewrite IH. split; [by constructor | by inversion 1].
      * case_decide.
        -- split; [done | by inversion 1].
        -- rewrite IH. split; [by constructor | by inversion 1].
Qed.

Lemma declared_cons_declaration (d : DeclarationNode W) sts :
  declared (SDeclaration d :: sts) = Ident d :: declared sts.
Proof. done. Qed.

Lemma declared_cons_command (c : CommandNode W) sts :
  declared (SCommand c :: sts) = declared sts.
Proof. done. Qed.

(** Single assignment: a well-scoped list declares no identifier twice, and
    none that is already known. *)
Lemma well_scoped_declared known sts :
  well_scoped known sts ->
  NoDup (declared sts) /\ forall x, x ∈ declared sts -> x ∉ known.
Proof.
  induction 1 as [known|known c rest Hc _ [IHn IHk]|known d rest Hd Hk _ [IHn IHk]];
    [split; [constructor | set_solver] | done |].
  rewrite declared_cons_declaration. split.
  - constructor; [| done]. intros Hin. apply (IHk _ Hin). set_solver.
  - intros x [-> | Hx]%elem_of_cons; [done |]. specialize (IHk _ Hx). set_solver.
Qed.

(** Reference locality: in a well-scoped list a reference names an
    identifier known from the start or declared by an earlier statement. *)
Lemma well_scoped_refs known sts i st r :
  well_scoped known sts -> sts !! i = Some st -> r ∈ stmtRefs st ->
  r ∈ known \/ r ∈ declared (take i sts).
Proof.
  intros Hws. revert i.
  induction Hws as [known|known c rest Hc _ IH|known d rest Hd Hk _ IH];
    intros [|i] Hi Hr; simpl in Hi; simplify_eq; rewrite ?firstn_cons.
  - left. rewrite Forall_forall in Hc. auto.
  - rewrite declared_cons_command. auto.
  - left. rewrite Forall_forall in Hd. auto.
  - rewrite declared_cons_declaration, elem_of_cons.
    destruct (IH _ Hi Hr) as [?%elem_of_union | ?]; set_solver.
Qed.

(** The two properties together are the whole of the specification. *)
Lemma well_scoped_intro known sts :
  NoDup (declared sts) -> (forall x, x ∈ declared sts -> x ∉ known) ->
  (forall i st r, sts !! i = Some st -> r ∈ stmtRefs st ->
                  r ∈ known \/ r ∈ declared (take i sts)) ->
  well_scoped known sts.
Proof.
  revert known. induction sts as [|[c|d] sts IH]; intros known Hn Hk Hr.
  - constructor.
  - constructor.
    + apply Forall_forall. intros r Hin.
      destruct (Hr 0 _ r eq_refl Hin) as [? | ?%elem_of_nil]; done.
    + apply IH; [done | done |]. intros i st r Hi Hin. apply (Hr (S i) _ _ Hi Hin).
  - rewrite declared_cons_declaration in Hn, Hk. apply NoDup_cons in Hn as [Hd Hn].
    constructor.
    + apply Forall_forall. intros r Hin.
      destruct (Hr 0 _ r eq_refl Hin) as [? | ?%elem_of_nil]; done.
    + apply Hk. left.
    + apply IH; [done | |].
      * intros x Hx [->%elem_of_singleton | Hxk]%elem_of_union; [done |].
        by apply (Hk x); [right |].
      * intros i st r Hi Hin. destruct (Hr (S i) _ _ Hi Hin) as [? | Hin'].
        -- left. set_solver.
        -- rewrite firstn_cons, declared_cons_declaration in Hin'. set_solver.
Qed.

(** C3. checkInvalidReferenceDeclarationsPass accepts a template exactly when
    no identifier is declared twice and every reference of a statement names
    an identifier declared by a statement before it (invariants 1 and 2 of
    the data model); it never changes the template or the environment. *)
Theorem checkInvalidReferenceDeclarationsPass_spec (tpl : Template W) env :
  checkInvalidReferenceDeclarationsPass tpl env = Ok (tpl, env) <->
  NoDup (declared (Statements tpl)) /\
  forall i st r, Statements tpl !! i = Some st -> r ∈ stmtRefs st ->
                 r ∈ declared (take i (Statements tpl)).
Proof.
  unfold checkInvalidReferenceDeclarationsPass.
  destruct (checkRefsLoop _ _) eqn:E.
  - split; [done |]. intros [Hn Hr].
    enough (checkRefsLoop (Statements tpl) ∅ = None) by congruence.
    apply checkRefsLoop_None, well_scoped_intro; [done | set_solver | eauto].
  - split; [intros _ | done]. apply checkRefsLoop_None in E. split.
    + by apply well_scoped_declared in E as [? _].
    + intros i st r Hi Hr.
      by destruct (well_scoped_refs _ _ _ _ _ E Hi Hr) as [?%elem_of_empty | ?].
Qed.

(** The pass reports an error and nothing else when it refuses: the state
    it returns is the one it was given, and it does not panic. *)
Lemma checkInvalidReferenceDeclarationsPass_state (tpl : Template W) env :
  res_state (checkInvalidReferenceDeclarationsPass tpl env) = Some (tpl, env).
Proof.
  unfold checkInvalidReferenceDeclarationsPass. by destruct (checkRefsLoop _ _).
Qed.

Lemma declared_app sts1 sts2 :
  declared (sts1 ++ sts2) = declared sts1 ++ declared sts2.
Proof. apply omap_app. Qed.

(** An error found in the tail is an error of the whole list, one statement
    further. *)
Lemma refError_cons st sts known known' err :
  (forall x, x ∈ known' <-> x ∈ known \/ x ∈ declared [st]) ->
  refError sts known' err -> refError (st :: sts) known err.
Proof.
  intros Hk [(i & s & r & Hi & Hr & Hnk & Hnd & ->)|(i & d & Hi & Hd & ->)];
    [left; exists (S i), s, r | right; exists (S i), d];
    rewrite firstn_cons; change (st :: take i sts) with ([st] ++ take i sts);
    rewrite declared_app, elem_of_app; rewrite Hk in *; tauto.
Qed.

(** The loop reports an undefined reference or a second assignment, and
    says which. *)
Lemma checkRefsLoop_Some sts known err :
  checkRefsLoop sts known = Some err -> refError sts known err.
Proof.
  revert known. induction sts as [|st sts IH]; intros known; simpl; [done |].
  destruct (each known _) eqn:E.
  - intros [= <-]. apply each_Some in E as (r & Hr & Hk & ->).
    left. exists 0, st, r. set_solver.
  - destruct st as [c|d].
    + intros ?%IH. eapply refError_cons; [| done].
      intros x. rewrite declared_cons_command. set_solver.
    + case_decide.
      * intros [= <-]. right. exists 0, d. auto.
      * intros ?%IH. eapply refError_cons; [| done].
        intros x. rewrite declared_cons_declaration. set_solver.
Qed.

(** When checkInvalidReferenceDeclarationsPass refuses a template, the
    error names a reference used by a statement and declared by no statement
    before it ("is undefined in template"), or an identifier declared a
    second time ("has already been assigned in template"). *)
Theorem checkInvalidReferenceDeclarationsPass_error (tpl : Template W) env s err :
  checkInvalidReferenceDeclarationsPass tpl env = Err s err ->
  (exists i st r, Statements tpl !! i = Some st /\ r ∈ stmtRefs st /\
                  (r ∉ declared (take i (Statements tpl))) /\
                  err = undefinedRefErr r) \/
  (exists i d, Statements tpl !! i = Some (SDeclaration d) /\
               Ident d ∈ declared (take i (Statements tpl)) /\
               err = alreadyAssignedErr (Ident d)).
Proof.
  unfold checkInvalidReferenceDeclarationsPass.
  destruct (checkRefsLoop _ _) eqn:E; [| done]. intros [= _ <-].
  apply checkRefsLoop_Some in E as [(i & st & r & ?)|(i & d & ?)];
    [left; exists i, st, r | right; exists i, d]; set_solver.
Qed.

End refs_theorems.

(** *** inlineVariableValuePass *)

Section inline_theorems.
Context {W : Type}.
Implicit Types (sts : list (Statement W)) (known : gset string).
Implicit Types (resolved : option (gmap string lit)).

Lemma stmtRefs_inlineStmt x v (st : Statement W) r :
  r ∈ stmtRefs (inlineStmt x v st) ->
  (r ∈ stmtRefs st /\ r <> x) \/ r ∈ GetRefs v.
Proof.
  destruct st as [c|d]; unfold stmtRefs, inlineStmt; simpl;
    [apply CommandNode_GetRefs_ReplaceRef_elem | apply Expr_GetRefs_ReplaceRef_elem].
Qed.

Lemma declared_inlineInto x v sts : declared (inlineInto x v sts) = declared sts.
Proof.
  apply omap_map_same. by intros [c|d].
Qed.

Lemma inlineInto_length x v sts : length (inlineInto x v sts) = length sts.
Proof. apply length_map. Qed.

(** A statement without the reference is not touched. *)
Lemma inlineStmt_not_in x v (st : Statement W) :
  x ∉ stmtRefs st -> inlineStmt x v st = st.
Proof.
  unfold stmtRefs, inlineStmt. intros Hx.
  destruct st as [c|[i [c|v0]]]; simpl in *;
    [| | by rewrite ReplaceRef_not_in].
  all: unfold CommandNode_ReplaceRef; rewrite setParams_fmap_id; [done |].
  all: intros k v0 Hv0; apply ReplaceRef_not_in; intros Hin; apply Hx.
  all: apply CommandNode_GetRefs_elem_of; eauto.
Qed.

Lemma inlineInto_not_in x v sts :
  Forall (fun st => x ∉ stmtRefs st) sts -> inlineInto x v sts = sts.
Proof.
  intros Hx. apply map_id_Forall. eapply Forall_impl; [exact Hx |].
  intros st. apply inlineStmt_not_in.
Qed.

Lemma declared_lookup sts j (d : DeclarationNode W) :
  sts !! j = Some (SDeclaration d) -> Ident d ∈ declared sts.
Proof.
  intros Hj. apply list_elem_of_omap. exists (SDeclaration d).
  split; [by eapply list_elem_of_lookup_2 | done].
Qed.

(** Inlining a value keeps a statement list well scoped, from any set of
    known identifiers that holds the references of the value and those of
    the old set other than the inlined one. *)
Lemma well_scoped_inlineInto known known' x v sts :
  well_scoped known sts ->
  (forall r, r ∈ known -> r <> x -> r ∈ known') ->
  (forall r, r ∈ GetRefs v -> r ∈ known') ->
  known' ⊆ known ->
  well_scoped known' (inlineInto x v sts).
Proof.
  intros Hws. revert known'.
  induction Hws as [known|known c rest Hc _ IH|known d rest Hd Hk _ IH];
    intros known' Hold Hv Hsub; simpl; [constructor | |].
  - constructor; [| by apply IH]. rewrite Forall_forall in *.
    intros r [[? ?] | ?]%CommandNode_GetRefs_ReplaceRef_elem; auto.
  - constructor; simpl; [| set_solver | apply IH; set_solver].
    rewrite Forall_forall in *.
    intros r [[? ?] | ?]%Expr_GetRefs_ReplaceRef_elem; auto.
Qed.

(** The loop of inlineVariableValuePass keeps a list of statements well
    scoped, whatever the identifiers known before it. *)
Lemma inlineLoop_scoped n sts known resolved out resolved' :
  well_scoped known sts ->
  inlineLoop n sts resolved = Ok (out, resolved') ->
  well_scoped known out.
Proof.
  revert sts known resolved out resolved'.
  induction n as [|n IH]; intros [|st rest] known resolved out resolved' Hws;
    simpl; try (intros [= <- _]; constructor).
  inv Hws; simpl.
  - intros ([out' r'] & Hl & [= <- _])%res_map_Ok. constructor; eauto.
  - destruct (Expr d) as [c|v] eqn:Ed.
    + intros ([out' r'] & Hl & [= <- _])%res_map_Ok.
      constructor; [by rewrite Ed | done | eauto].
    + simpl in *. destruct (IsResolved v) eqn:Ev.
      * apply IsResolved_spec in Ev as (_ & Hr & _).
        destruct (Value v), resolved; try done; intros Hl;
          (eapply IH; [| exact Hl]); eapply well_scoped_inlineInto;
          try done; rewrite ?Hr; set_solver.
      * assert (forall r, r ∈ GetRefs v -> r ∈ {[Ident d]} ∪ known) as Hin.
        { rewrite Forall_forall in *. set_solver. }
        destruct (Value v), resolved; try done;
          intros ([out' r'] & Hl & [= <- _])%res_map_Ok;
          (constructor; [by rewrite Ed | done |]);
          (eapply IH; [| exact Hl]); eapply well_scoped_inlineInto; try done.
Qed.

(** The loop, with fuel for every statement, computes the relation. *)
Lemma inlineLoop_inlined n sts resolved out resolved' :
  length sts <= n ->
  inlineLoop n sts resolved = Ok (out, resolved') ->
  inlined sts out.
Proof.
  revert sts resolved out resolved'.
  induction n as [|n IH]; intros [|st rest] resolved out resolved' Hn;
    simpl in *; try (intros [= <- _]; constructor); [lia |].
  assert (forall c r',
            commandOf st = Some c ->
            res_map (fun '(sts', r) => (st :: sts', r)) (inlineLoop n rest r')
            = Ok (out, resolved') -> inlined (st :: rest) out) as Hkeep.
  { intros c r' Hc ([out' r''] & Hl & [= <- _])%res_map_Ok.
    econstructor; [done |]. eapply IH; [lia | done]. }
  destruct st as [c|d]; [by eapply Hkeep |].
  destruct (Expr d) as [c|v] eqn:Ed; [eapply Hkeep; simpl; by rewrite Ed |].
  pose proof (inlineInto_length (Ident d) v rest) as Hlen.
  destruct (IsResolved v) eqn:Hres, (Value v), resolved; try done.
  all: try (intros Hl; eapply inlined_resolved; [done.. |];
            eapply IH; [lia | done]).
  all: intros ([out' r''] & Hl & [= <- _])%res_map_Ok;
    eapply inlined_kept; [done.. |]; eapply IH; [lia | done].
Qed.

(** What holds of every statement given, and is kept when a declared value
    is inlined in a statement, holds of every statement returned. *)
Lemma inlined_Forall (Q : Statement W -> Prop) sts out :
  (forall d v st, Expr d = EValue v -> Q (SDeclaration d) -> Q st ->
                  Q (inlineStmt (Ident d) v st)) ->
  inlined sts out -> Forall Q sts -> Forall Q out.
Proof.
  intros HQ. induction 1 as [|st c rest out Hc _ IH|d v rest out Ed Hr _ IH
                            |d v rest out Ed Hr _ IH];
    [done | | |]; intros [Hst Hrest]%Forall_cons.
  - constructor; auto.
  - apply IH, Forall_fmap. eapply Forall_impl; [exact Hrest |].
    intros st Hq. by apply HQ.
  - constructor; [done |]. apply IH, Forall_fmap.
    eapply Forall_impl; [exact Hrest |]. intros st Hq. by apply HQ.
Qed.

(** No declaration of a resolved value is returned. *)
Lemma inlined_notResolved sts out :
  inlined sts out -> Forall notResolvedDeclaration out.
Proof.
  induction 1 as [|st c rest out Hc _ IH| |d v rest out Ed Hr _ IH];
    [constructor | | done |]; constructor; try done.
  - destruct st as [c0|d]; [done |]. simpl in *. by destruct (Expr d).
  - simpl. by rewrite Ed.
Qed.

Lemma inlined_of_nil (out : list (Statement W)) : inlined [] out -> out = [].
Proof. by inversion 1. Qed.

(** After the loop, no reference names a declared value: each has been
    replaced by the value, in every statement after its declaration. *)
Lemma inlineLoop_command_scoped n sts known resolved out resolved' :
  well_scoped known sts ->
  inlineLoop n sts resolved = Ok (out, resolved') ->
  command_scoped known out.
Proof.
  revert sts known resolved out resolved'.
  induction n as [|n IH]; intros [|st rest] known resolved out resolved' Hws;
    simpl; try (intros [= <- _]; constructor).
  inv Hws; simpl.
  - intros ([out' r'] & Hl & [= <- _])%res_map_Ok.
    constructor; [done |]. simpl. rewrite (left_id_L ∅ (∪)). eauto.
  - destruct (Expr d) as [c|v] eqn:Ed.
    + intros ([out' r'] & Hl & [= <- _])%res_map_Ok.
      constructor; [unfold stmtRefs; simpl; by rewrite Ed |].
      simpl. rewrite Ed. eauto.
    + assert (well_scoped known (inlineInto (Ident d) v rest)) as Hrest.
      { eapply well_scoped_inlineInto; [done | set_solver | | set_solver].
        simpl in *. rewrite Forall_forall in *. auto. }
      assert (forall out', command_scoped known out' ->
                command_scoped known (SDeclaration d :: out')) as Hkeep.
      { intros out' Hout. constructor; [unfold stmtRefs; simpl; by rewrite Ed |].
        simpl. by rewrite Ed, (left_id_L ∅ (∪)). }
      destruct (IsResolved v), (Value v), resolved; try done;
        try (intros Hl; by eapply IH);
        intros ([out' r'] & Hl & [= <- _])%res_map_Ok; apply Hkeep; by eapply IH.
Qed.

(** In such a list, a reference names the result of a command of an earlier
    statement. *)
Lemma command_scoped_refs known sts i st r :
  command_scoped known sts -> sts !! i = Some st -> r ∈ stmtRefs st ->
  r ∈ known \/
  exists j d c, j < i /\ sts !! j = Some (SDeclaration d) /\
                Ident d = r /\ Expr d = ECommand c.
Proof.
  intros Hcs. revert i.
  induction Hcs as [known|known st0 rest Hr0 _ IH]; intros [|i] Hi Hr;
    simpl in Hi; simplify_eq.
  - left. rewrite Forall_forall in Hr0. auto.
  - destruct (IH _ Hi Hr) as [[Hres | ?]%elem_of_union
                             | (j & d & c & ? & ? & ? & ?)]; [| by left |].
    + right. destruct st0 as [c|d]; [set_solver |]. simpl in Hres.
      destruct (Expr d) as [c|v] eqn:Ed; [| set_solver].
      exists 0, d, c. split_and!; [lia | done | set_solver | done].
    + right. exists (S j), d, c. split_and!; [lia | done..].
Qed.

(** The loop finds no work in a list that is well scoped, whose references
    name results of commands, and that declares no resolved value: it
    returns the statements and the resolved variables as they are. *)
Lemma inlineLoop_settled n sts known1 known2 resolved :
  length sts <= n ->
  well_scoped known1 sts -> command_scoped known2 sts -> known2 ⊆ known1 ->
  Forall notResolvedDeclaration sts ->
  inlineLoop n sts resolved = Ok (sts, resolved).
Proof.
  revert sts known1 known2.
  induction n as [|n IH]; intros [|st rest] known1 known2 Hn Hws Hcs Hsub Hnr;
    simpl in *; try done; [lia |].
  apply Forall_cons in Hnr as [Hst Hnr]. inv Hcs. inv Hws; simpl in *.
  - rewrite (IH rest known1 (∅ ∪ known2)); [done | lia | done.. | set_solver | done].
  - destruct (Expr d) as [c|v] eqn:Ed; simpl in *.
    + rewrite (IH rest ({[Ident d]} ∪ known1) ({[Ident d]} ∪ known2));
        [done | lia | done.. | set_solver | done].
    + rewrite Hst, (proj2 (Value_None v) Hst).
      rewrite inlineInto_not_in.
      * rewrite (IH rest ({[Ident d]} ∪ known1) (∅ ∪ known2));
          [done | lia | done.. | set_solver | done].
      * apply Forall_forall. intros st [j Hj]%list_elem_of_lookup_1 Hx.
        match goal with H : command_scoped _ rest |- _ =>
          destruct (command_scoped_refs _ _ _ _ _ H Hj Hx)
            as [? | (j' & d' & c' & _ & Hd' & Hid & _)] end; [set_solver |].
        apply declared_lookup in Hd'. rewrite Hid in Hd'.
        match goal with H : well_scoped _ rest |- _ =>
          apply well_scoped_declared in H as [_ Hfresh] end.
        apply Hfresh in Hd'. set_solver.
Qed.

(** C7. inlineVariableValuePass keeps a template well scoped: after value
    declarations have been inlined and the resolved ones dropped, every
    reference still names an identifier declared by an earlier statement of
    the result, and no identifier is declared twice. *)
Theorem inlineVariableValuePass_well_scoped (tpl tpl' : Template W) env env' :
  well_scoped ∅ (Statements tpl) ->
  inlineVariableValuePass tpl env = Ok (tpl', env') ->
  well_scoped ∅ (Statements tpl').
Proof.
  intros Hws ([out r] & Hl & [= <- _])%res_map_Ok.
  by eapply inlineLoop_scoped.
Qed.

(** With a map of resolved variables to write to, the loop ends without
    error and without panic, and leaves a map. *)
Lemma inlineLoop_Ok n sts m :
  exists out m', inlineLoop n sts (Some m) = Ok (out, Some m').
Proof.
  revert sts m. induction n as [|n IH]; intros [|st rest] m; simpl; eauto.
  assert (forall rest' m', exists out m'',
            res_map (fun '(sts', r) => (st :: sts', r))
                    (inlineLoop n rest' (Some m')) = Ok (out, Some m'')) as Hkeep.
  { intros rest' m'. destruct (IH rest' m') as (out & m'' & ->). simpl. eauto. }
  destruct st as [c|d]; [done |]. destruct (Expr d) as [c|v]; [done |].
  destruct (Value v), (IsResolved v); eauto.
Qed.


(** After inlineVariableValuePass no value declaration with a resolved
    value is left in the template: each has been inlined and dropped. *)
Theorem inlineLoop_elides n sts resolved out resolved' :
  inlineLoop n sts resolved = Ok (out, resolved') ->
  Forall notResolvedDeclaration out.
Proof.
  revert sts resolved out resolved'.
  induction n as [|n IH]; intros [|st rest] resolved out resolved';
    simpl; try (intros [= <- _]; constructor).
  assert (notResolvedDeclaration st -> forall rest' r',
            res_map (fun '(sts', r) => (st :: sts', r)) (inlineLoop n rest' r')
            = Ok (out, resolved') -> Forall notResolvedDeclaration out) as Hkeep.
  { intros Hst rest' r' ([out' r''] & Hl & [= <- _])%res_map_Ok.
    constructor; eauto. }
  destruct st as [c|d]; [by apply Hkeep |].
  destruct (Expr d) as [c|v] eqn:Ed; [apply Hkeep; simpl; by rewrite Ed |].
  destruct (IsResolved v) eqn:Ev, (Value v), resolved; try done; eauto;
    apply Hkeep; simpl; by rewrite Ed.
Qed.

Lemma commandKeys_inlineInto x v sts :
  map commandKey (omap commandOf (inlineInto x v sts))
  = map commandKey (omap commandOf sts).
Proof.
  induction sts as [|[c|d] sts IH]; csimpl; [done | by rewrite IH |].
  destruct (Expr d); csimpl; by rewrite ?IH.
Qed.

(** InlineVariableValuePass never drops or adds a command: the command
    keys (action, entity) of the template are the same, in the same order,
    before and after the pass; only value declarations are elided. *)
Theorem inlineLoop_commands n sts resolved out resolved' :
  length sts <= n ->
  inlineLoop n sts resolved = Ok (out, resolved') ->
  map commandKey (omap commandOf out) = map commandKey (omap commandOf sts).
Proof.
  revert sts resolved out resolved'.
  induction n as [|n IH]; intros [|st rest] resolved out resolved' Hn;
    simpl in *; try (intros [= <- _]; done); [lia |].
  assert (forall rest' r',
            length rest' <= n ->
            map commandKey (omap commandOf rest')
            = map commandKey (omap commandOf rest) ->
            res_map (fun '(sts', r) => (st :: sts', r)) (inlineLoop n rest' r')
            = Ok (out, resolved') ->
            map commandKey (omap commandOf out)
            = map commandKey (omap commandOf (st :: rest))) as Hkeep.
  { intros rest' r' Hlen Hk ([out' r''] & Hl & [= <- _])%res_map_Ok.
    apply IH in Hl; [| done]. csimpl. destruct (commandOf st); csimpl; congruence. }
  assert (length rest <= n) as Hn' by lia.
  destruct st as [c|d]; [by apply Hkeep |].
  destruct (Expr d) as [c|v] eqn:Ed; [by apply Hkeep |].
  destruct (IsResolved v) eqn:Ev, (Value v), resolved; try done;
    try (apply Hkeep; [by rewrite inlineInto_length | apply commandKeys_inlineInto]);
    intros Hl; apply IH in Hl; rewrite ?inlineInto_length; try done;
    csimpl; rewrite Ed, Hl; apply commandKeys_inlineInto.
Qed.

(** The iterations the pass runs are enough: more would change nothing. *)
Lemma inlineLoop_enough n sts resolved :
  length sts <= n ->
  inlineLoop n sts resolved = inlineLoop (length sts) sts resolved.
Proof.
  revert sts resolved. induction n as [|n IH]; intros [|st rest] resolved Hn;
    simpl in *; try done; [lia |].
  assert (length rest <= n) as Hn' by lia.
  destruct st as [c|d]; [by rewrite IH |].
  destruct (Expr d) as [c|v]; [by rewrite IH |].
  pose proof (inlineInto_length (Ident d) v rest) as Hlen.
  destruct (Value v), resolved, (IsResolved v); try done;
    rewrite IH, Hlen by lia; done.
Qed.

End inline_theorems.

(** ** The theorems on the sample templates *)

(** S4: a reference to a declaration that comes later is refused. *)
Lemma checkInvalidReferenceDeclarationsPass_error_witness :
  (exists i st r,
      Statements Sample.S4 !! i = Some st /\ r ∈ stmtRefs st /\
      (r ∉ declared (take i (Statements Sample.S4))) /\
      undefinedRefErr "sub" = undefinedRefErr r) \/
  (exists i d,
      Statements Sample.S4 !! i = Some (SDeclaration d) /\
      Ident d ∈ declared (take i (Statements Sample.S4)) /\
      undefinedRefErr "sub" = alreadyAssignedErr (Ident d)).
Proof.
  apply (checkInvalidReferenceDeclarationsPass_error
           Sample.S4 Sample.env (Sample.S4, Sample.env)).
  vm_compute. reflexivity.
Defined.

(** S1 is well scoped, and stays so when its variables are inlined. *)
Lemma inlineVariableValuePass_well_scoped_witness :
  well_scoped ∅
    (Statements (match inlineVariableValuePass Sample.S1 Sample.env with
                 | Ok (tpl', _) => tpl'
                 | _ => Sample.S1
                 end)).
Proof.
  eapply (inlineVariableValuePass_well_scoped Sample.S1 _ Sample.env).
  - apply checkRefsLoop_None. vm_compute. reflexivity.
  - vm_compute. reflexivity.
Defined.


Lemma inlineLoop_elides_witness :
  Forall notResolvedDeclaration
    (match inlineLoop 4 (Statements Sample.S1) (Some ∅) with
     | Ok (out, _) => out
     | _ => []
     end).
Proof.
  eapply (inlineLoop_elides 4 (Statements Sample.S1) (Some ∅)).
  vm_compute. reflexivity.
Defined.

Lemma inlineLoop_commands_witness :
  map commandKey
      (omap commandOf
         (match inlineLoop 4 (Statements Sample.S1) (Some ∅) with
          | Ok (out, _) => out
          | _ => []
          end))
  = [("create", "subnet"); ("update", "subnet")].
Proof.
  apply (inlineLoop_commands 4 (Statements Sample.S1) (Some ∅) _
           (Some {[ "subnetname" := LStr "my-subnet" ]})).
  - simpl. lia.
  - vm_compute. reflexivity.
Defined.
