(* ===== verification/PassHoles.v ===== *)
(** * The hole passes

    Models three passes of src/template/compile.go: [resolveHolesPass]
    (holes are filled from the fillers of the environment),
    [resolveMissingHolesPass] (the holes left are asked for, once per name,
    in sorted order) and [failOnUnresolvedHolesPass] (the terminal guard).

    The callback that asks for a missing hole is a function of the
    environment; the model records the names it is called with, in order, so
    that the prompting order is a theorem and not a comment. *)

From S2P Require Import Prelude Values Driver Ast Env Template PassRefs.

Definition unresolvedHolesErr (unresolved : list string) : error :=
  "template contains unresolved holes: " +:+ fmt_v unresolved.

Section holes.
Context {W : Type}.

(** The holes of a statement and of a statement list, in order. *)
Definition stmtHoles (st : Statement W) : list string :=
  Expr_GetHoles (extractExpressionNode st).

Definition holesOf (sts : list (Statement W)) : list string :=
  flat_map stmtHoles sts.

(** The callback of both resolving passes: the node's holes are processed
    with the given fillers and what was consumed is added to the processed
    fillers of the environment. *)
Definition processHolesWith (fillers : gmap string value)
    (h : ExpressionNode W) (env : Env W) : ExpressionNode W * Env W :=
  let '(h', processed) := Expr_ProcessHoles fillers h in
  (h', addToProcessedFillers [processed] env).

(** ** resolveHolesPass *)

Definition resolveHolesPass : compileFunc W :=
  fun tpl env =>
    Ok (visitHoles (fun h env => processHolesWith (readMap (Fillers env)) h env)
                   tpl env).

(** ** resolveMissingHolesPass *)

(** The set of the hole names of the template. *)
Definition uniqueHoles (tpl : Template W) : gset string :=
  snd (visitHoles
         (fun h uniqueHoles =>
            (h, foldl (fun acc v => {[v]} ∪ acc) uniqueHoles (Expr_GetHoles h)))
         tpl ∅).

Definition sortedHoles (tpl : Template W) : list string :=
  sortStrings (elements (uniqueHoles tpl)).

(** The loop over the sorted names: the callback, when there is one, is
    called on each name; its answers are the fillers, the names it was called
    with are the trace. *)
Fixpoint missingHolesLoop (f : option (string -> value))
    (sortedHoles : list string) (fillers : gmap string value)
    (calls : list string) : gmap string value * list string :=
  match sortedHoles with
  | [] => (fillers, calls)
  | k :: rest =>
      match f with
      | Some ask => missingHolesLoop f rest (<[k := ask k]> fillers) (calls ++ [k])
      | None => missingHolesLoop f rest fillers calls
      end
  end.

(** The names the missing-holes callback is called with, in order, when the
    pass runs on a template. *)
Definition missingHolesCalls (tpl : Template W) (env : Env W) : list string :=
  snd (missingHolesLoop (MissingHolesFunc env) (sortedHoles tpl) ∅ []).

Definition resolveMissingHolesPass : compileFunc W :=
  fun tpl env =>
    let fillers :=
      fst (missingHolesLoop (MissingHolesFunc env) (sortedHoles tpl) ∅ []) in
    Ok (visitHoles (processHolesWith fillers) tpl env).

(** ** failOnUnresolvedHolesPass *)

Definition failOnUnresolvedHolesPass : compileFunc W :=
  fun tpl env =>
    let unresolved :=
      snd (visitHoles
             (fun withHole unresolved =>
                (withHole, unresolved ++ Expr_GetHoles withHole))
             tpl []) in
    if decide (0 < length unresolved)
    then Err (tpl, env) (unresolvedHolesErr unresolved)
    else Ok (tpl, env).

(** ** Reference definitions *)

(** A statement with the holes of its expression filled. *)
Definition fillStmt (fillers : gmap string value) (st : Statement W)
    : Statement W :=
  withExpression st (fst (Expr_ProcessHoles fillers (extractExpressionNode st))).

(** The fillers a statement list consumes. *)
Definition consumed (fillers : gmap string value) (sts : list (Statement W))
    : gmap string value :=
  filter (fun kv => kv.1 ∈ holesOf sts) fillers.

(** The environment after a resolving pass over a statement list: the
    consumed fillers are merged over the processed ones.  A template without
    statements leaves the environment as it is. *)
Definition recordProcessed (fillers : gmap string value)
    (sts : list (Statement W)) (env : Env W) : Env W :=
  match sts with
  | [] => env
  | _ :: _ =>
      setProcessedFillers
        (Some (consumed fillers sts ∪ readMap (processedFillers env))) env
  end.

End holes.

(** ** Sample data *)

(** The template S1 after resolveHolesPass, and the environment. *)
Definition S1_filled : Template (list string) * Env (list string) :=
  match resolveHolesPass Sample.S1 Sample.env with
  | Ok r => r
  | _ => (Sample.S1, Sample.env)
  end.

(** An environment that answers every missing hole with its name. *)
Definition askingEnv : Env (list string) :=
  mkEnv None None false false (Some ∅) None None None
        (Some (fun hole => VLit (LStr hole))) (Some ∅).

(** A template with the holes b, a and b again: a is asked before b, and b
    once. *)
Definition holesBAB : Template (list string) := mkTemplate "holes" [
  SCommand (Sample.node "create" "subnet" [("cidr", VHole "b"); ("vpc", VHole "a")]);
  Sample.decl "x" (EValue (VHole "b"))
].

(** ** Theorems *)

Section holes_theorems.
Context {W : Type}.
Implicit Types (tpl : Template W) (env : Env W) (st : Statement W).
Implicit Types (sts : list (Statement W)) (F : gmap string value).

Lemma processHolesWith_eq F h env :
  processHolesWith F h env =
  (fst (Expr_ProcessHoles F h),
   addToProcessedFillers [filter (fun kv => kv.1 ∈ Expr_GetHoles h) F] env).
Proof.
  unfold processHolesWith. rewrite <- Expr_ProcessHoles_snd.
  by destruct (Expr_ProcessHoles F h).
Qed.

Lemma consumed_nil F : consumed F (@nil (Statement W)) = ∅.
Proof.
  apply map_empty. intros k. apply map_lookup_filter_None. right.
  by intros ? _ ?%elem_of_nil.
Qed.

Lemma consumed_cons F st sts old :
  consumed F sts ∪ (consumed F [st] ∪ old) = consumed F (st :: sts) ∪ old.
Proof.
  unfold consumed, holesOf. simpl. rewrite app_nil_r.
  apply map_filter_union_key.
Qed.

(** The fold of the visit over the environment. *)
Lemma foldl_recordProcessed F sts env :
  foldl (fun e st =>
           addToProcessedFillers [filter (fun kv => kv.1 ∈ stmtHoles st) F] e)
        env sts = recordProcessed F sts env.
Proof.
  revert env. induction sts as [|st sts IH]; intros env; [done |].
  simpl foldl. rewrite IH. unfold recordProcessed.
  assert (consumed F [st] = filter (fun kv => kv.1 ∈ stmtHoles st) F) as <-.
  { unfold consumed, holesOf. simpl. by rewrite app_nil_r. }
  destruct sts as [|st' sts].
  - unfold addToProcessedFillers, setProcessedFillers. simpl.
    by rewrite mergeInto_union.
  - unfold addToProcessedFillers, setProcessedFillers. simpl.
    by rewrite mergeInto_union, consumed_cons.
Qed.

(** A visit with [processHolesWith]: every statement is filled, the
    environment records what was consumed. *)
Lemma visitHoles_processHolesWith F tpl env :
  visitHoles (processHolesWith F) tpl env =
  (mkTemplate (ID tpl) (map (fillStmt F) (Statements tpl)),
   recordProcessed F (Statements tpl) env).
Proof.
  unfold visitHoles.
  rewrite (visitHoles_list_ext (fun _ => True) _
    (fun h e => (fst (Expr_ProcessHoles F h),
                 addToProcessedFillers
                   [filter (fun kv => kv.1 ∈ Expr_GetHoles h) F] e)));
    [| done | by intros; rewrite processHolesWith_eq].
  by rewrite visitHoles_list_map, foldl_recordProcessed.
Qed.

Lemma recordProcessed_Fillers F sts env :
  Fillers (recordProcessed F sts env) = Fillers env.
Proof. by destruct sts. Qed.

Lemma recordProcessed_processed F sts env :
  readMap (processedFillers (recordProcessed F sts env)) =
  consumed F sts ∪ readMap (processedFillers env).
Proof.
  destruct sts; [| done]. simpl. by rewrite consumed_nil, (left_id_L ∅ (∪)).
Qed.

(** The holes of a filled statement are its holes without a filler. *)
Lemma extractExpressionNode_fillStmt F st :
  extractExpressionNode (fillStmt F st) =
  fst (Expr_ProcessHoles F (extractExpressionNode st)).
Proof. by destruct st as [c|[i [c|v]]]. Qed.

Lemma stmtHoles_fillStmt F st h :
  fills_closed F ->
  h ∈ stmtHoles (fillStmt F st) <-> h ∈ stmtHoles st /\ F !! h = None.
Proof.
  intros Hc. unfold stmtHoles. rewrite extractExpressionNode_fillStmt.
  by apply Expr_ProcessHoles_holes.
Qed.

Lemma holesOf_fillStmt F sts h :
  fills_closed F ->
  h ∈ holesOf (map (fillStmt F) sts) <-> h ∈ holesOf sts /\ F !! h = None.
Proof.
  intros Hc. unfold holesOf. rewrite !flat_map_elem_of. split.
  - intros (? & (st & -> & Hst)%list_elem_of_fmap & Hh).
    apply stmtHoles_fillStmt in Hh as [? ?]; eauto.
  - intros [(st & Hst & Hh) Hn]. exists (fillStmt F st).
    split; [by apply list_elem_of_fmap_2 | by apply stmtHoles_fillStmt].
Qed.

(** *** resolveHolesPass *)

(** Filling from the fillers of the environment being threaded is filling
    from the fillers of the initial environment: the visit never changes
    them. *)
Lemma visitHoles_fillers tpl env :
  visitHoles (fun h e => processHolesWith (readMap (Fillers e)) h e) tpl env =
  (mkTemplate (ID tpl)
     (map (fillStmt (readMap (Fillers env))) (Statements tpl)),
   recordProcessed (readMap (Fillers env)) (Statements tpl) env).
Proof.
  rewrite <- visitHoles_processHolesWith. unfold visitHoles. f_equal.
  rewrite (visitHoles_list_ext (fun e => Fillers e = Fillers env) _
             (processHolesWith (readMap (Fillers env)))); [done | done |].
  intros h e He. rewrite He. split; [done |].
  by rewrite processHolesWith_eq.
Qed.

(** C4. resolveHolesPass always succeeds: every statement is filled from the
    fillers of the environment, and the fillers consumed are merged over the
    processed fillers; nothing else of the environment changes. *)
Theorem resolveHolesPass_spec tpl env :
  resolveHolesPass tpl env =
  Ok (mkTemplate (ID tpl)
        (map (fillStmt (readMap (Fillers env))) (Statements tpl)),
      recordProcessed (readMap (Fillers env)) (Statements tpl) env).
Proof. unfold resolveHolesPass. by rewrite visitHoles_fillers. Qed.

(** After resolveHolesPass with closed fillers, the holes of the
    template are exactly its former holes that have no filler. *)
Theorem resolveHolesPass_holes tpl env tpl' env' h :
  fills_closed (readMap (Fillers env)) ->
  resolveHolesPass tpl env = Ok (tpl', env') ->
  h ∈ holesOf (Statements tpl') <->
  h ∈ holesOf (Statements tpl) /\ readMap (Fillers env) !! h = None.
Proof.
  intros Hc. unfold resolveHolesPass. rewrite visitHoles_fillers.
  intros [= <- <-]. simpl.
  by apply holesOf_fillStmt.
Qed.

(** resolveHolesPass keeps the processed fillers a sub-map of the
    fillers, and records every filler that a hole of the template names. *)
Theorem resolveHolesPass_processed tpl env tpl' env' :
  readMap (processedFillers env) ⊆ readMap (Fillers env) ->
  resolveHolesPass tpl env = Ok (tpl', env') ->
  GetProcessedFillers env' ⊆ readMap (Fillers env') /\
  forall k v, readMap (Fillers env) !! k = Some v ->
              k ∈ holesOf (Statements tpl) ->
              GetProcessedFillers env' !! k = Some v.
Proof.
  intros Hsub. unfold resolveHolesPass. rewrite visitHoles_fillers.
  intros [= <- <-].
  rewrite GetProcessedFillers_eq, recordProcessed_processed,
    recordProcessed_Fillers. split.
  - apply map_union_least; [apply map_filter_subseteq | done].
  - intros k v Hk Hin. apply lookup_union_Some_l.
    by apply map_lookup_filter_Some.
Qed.

Lemma fillStmt_idem F st :
  fills_closed F -> fillStmt F (fillStmt F st) = fillStmt F st.
Proof.
  intros Hc. unfold fillStmt at 1. rewrite extractExpressionNode_fillStmt.
  rewrite Expr_ProcessHoles_idem by done. by destruct st as [c|[i [c|v]]].
Qed.

Lemma consumed_fillStmt F sts :
  fills_closed F -> consumed F (map (fillStmt F) sts) = ∅.
Proof.
  intros Hc. apply map_empty. intros k. apply map_lookup_filter_None.
  destruct (F !! k) eqn:E; [right | by left].
  intros x Hx. simpl. rewrite holesOf_fillStmt by done. intros [_ ?]. congruence.
Qed.

(** ResolveHolesPass is idempotent on closed fillers: a second run
    changes neither the template nor the environment. *)
Theorem resolveHolesPass_idempotent tpl env tpl' env' :
  fills_closed (readMap (Fillers env)) ->
  resolveHolesPass tpl env = Ok (tpl', env') ->
  resolveHolesPass tpl' env' = Ok (tpl', env').
Proof.
  intros Hc. unfold resolveHolesPass. rewrite !visitHoles_fillers.
  intros [= <- <-].
  rewrite recordProcessed_Fillers. simpl. do 2 f_equal.
  - f_equal. rewrite map_map. apply map_ext. intros st. by apply fillStmt_idem.
  - destruct (Statements tpl) as [|st sts]; [done |].
    change (map ?f (st :: sts)) with (map f (st :: sts)).
    unfold recordProcessed at 1. cbn [map].
    rewrite <- (map_cons (fillStmt _)), consumed_fillStmt by done.
    by rewrite (left_id_L ∅ (∪)).
Qed.

(** *** failOnUnresolvedHolesPass *)

Lemma visitHoles_collect tpl :
  snd (visitHoles (fun (withHole : ExpressionNode W) unresolved =>
                     (withHole, unresolved ++ Expr_GetHoles withHole)) tpl []) =
  holesOf (Statements tpl).
Proof.
  unfold visitHoles.
  rewrite (visitHoles_list_map (fun h => h) (fun h u => u ++ Expr_GetHoles h)).
  simpl. apply (foldl_app_flat_map stmtHoles _ []).
Qed.

(** failOnUnresolvedHolesPass succeeds, leaving template and
    environment as they are, exactly when the template has no hole; otherwise
    its error lists the holes in template order. *)
Theorem failOnUnresolvedHolesPass_spec tpl env :
  failOnUnresolvedHolesPass tpl env =
  match holesOf (Statements tpl) with
  | [] => Ok (tpl, env)
  | unresolved => Err (tpl, env) (unresolvedHolesErr unresolved)
  end.
Proof.
  unfold failOnUnresolvedHolesPass. rewrite visitHoles_collect.
  by destruct (holesOf (Statements tpl)).
Qed.

(** The guard as a compilation step: it lets through, unchanged, the
    templates without hole. *)
Lemma failOnUnresolvedHolesPass_Ok_iff tpl env tpl' env' :
  failOnUnresolvedHolesPass tpl env = Ok (tpl', env') <->
  tpl' = tpl /\ env' = env /\ holesOf (Statements tpl) = [].
Proof.
  unfold failOnUnresolvedHolesPass. rewrite visitHoles_collect.
  destruct (holesOf (Statements tpl)); simpl; naive_solver.
Qed.

(** *** resolveMissingHolesPass *)

Lemma foldl_uniqueHoles sts (acc : gset string) h :
  h ∈ foldl (fun a st => foldl (fun acc v => {[v]} ∪ acc) a (stmtHoles st))
            acc sts <->
  h ∈ holesOf sts \/ h ∈ acc.
Proof.
  revert acc. induction sts as [|st sts IH]; intros acc; simpl.
  - rewrite elem_of_nil. tauto.
  - rewrite IH, foldl_union_elem_of, elem_of_app. tauto.
Qed.

(** The set collected by the pass holds the holes of the template. *)
Lemma uniqueHoles_elem_of tpl h :
  h ∈ uniqueHoles tpl <-> h ∈ holesOf (Statements tpl).
Proof.
  unfold uniqueHoles, visitHoles.
  rewrite (visitHoles_list_map (fun h => h)
             (fun h u => foldl (fun acc v => {[v]} ∪ acc) u (Expr_GetHoles h))).
  simpl. rewrite foldl_uniqueHoles. set_solver.
Qed.

Lemma sortedHoles_elem_of tpl h :
  h ∈ sortedHoles tpl <-> h ∈ holesOf (Statements tpl).
Proof.
  unfold sortedHoles.
  by rewrite ?sortStrings_elem_of, elem_of_elements, uniqueHoles_elem_of.
Qed.

(** With a callback, the loop asks for every name in order. *)
Lemma missingHolesLoop_Some ask l F calls :
  missingHolesLoop (Some ask) l F calls =
  (foldl (fun m k => <[k := ask k]> m) F l, calls ++ l).
Proof.
  revert F calls. induction l as [|k l IH]; intros F calls; simpl.
  - by rewrite app_nil_r.
  - by rewrite IH, <- app_assoc.
Qed.

Lemma missingHolesLoop_None l F calls :
  missingHolesLoop None l F calls = (F, calls).
Proof. revert F calls. induction l; simpl; auto. Qed.

Lemma foldl_ask_lookup (ask : string -> value) l F k :
  foldl (fun m k => <[k := ask k]> m) F l !! k =
  if decide (k ∈ l) then Some (ask k) else F !! k.
Proof.
  revert F. induction l as [|x l IH]; intros F; simpl; [done |].
  rewrite IH. destruct (decide (k = x)) as [->|Hne].
  - rewrite lookup_insert_eq. repeat case_decide; set_solver.
  - rewrite lookup_insert_ne by done. repeat case_decide; set_solver.
Qed.

(** C8. When the environment has a callback for missing holes,
    resolveMissingHolesPass calls it on the hole names of the template, each
    name once, in ascending order. *)
Theorem missingHolesCalls_spec tpl env ask :
  MissingHolesFunc env = Some ask ->
  Sorted string_le (missingHolesCalls tpl env) /\
  NoDup (missingHolesCalls tpl env) /\
  forall h, h ∈ missingHolesCalls tpl env <-> h ∈ holesOf (Statements tpl).
Proof.
  intros Hf. unfold missingHolesCalls. rewrite Hf, missingHolesLoop_Some. simpl.
  split; [apply sortStrings_Sorted |].
  split; [apply sortStrings_NoDup, NoDup_elements |].
  apply sortedHoles_elem_of.
Qed.

Lemma fillStmt_empty st : fillStmt ∅ st = st.
Proof.
  unfold fillStmt.
  destruct st as [c|[i [c|v]]]; simpl;
    rewrite ?fillHoles_empty, ?setParams_fmap_id; try done;
    intros; apply fillHoles_empty.
Qed.

(** Without a callback nothing is asked and the template is as it was. *)
Lemma resolveMissingHolesPass_no_callback tpl env :
  MissingHolesFunc env = None ->
  missingHolesCalls tpl env = [] /\
  exists env', resolveMissingHolesPass tpl env = Ok (tpl, env').
Proof.
  intros Hf. unfold missingHolesCalls, resolveMissingHolesPass.
  rewrite Hf, missingHolesLoop_None. split; [done |]. simpl.
  rewrite visitHoles_processHolesWith. eexists. do 2 f_equal.
  destruct tpl as [id sts]. simpl. f_equal.
  apply map_id_Forall, Forall_forall. intros st _. apply fillStmt_empty.
Qed.

(** The fillers the pass makes of the answers: closed when the answers are,
    and with an answer for every hole of the template when there is a
    callback. *)
Lemma missingHolesLoop_closed (f : option (string -> value)) l :
  (forall ask k, f = Some ask -> GetHoles (ask k) = []) ->
  fills_closed (missingHolesLoop f l ∅ []).1.
Proof.
  intros Hask. destruct f as [ask|];
    [rewrite missingHolesLoop_Some | by rewrite missingHolesLoop_None].
  intros k v. simpl. rewrite foldl_ask_lookup, lookup_empty.
  case_decide; [intros [= <-]; by eapply Hask | done].
Qed.

Lemma missingHolesLoop_lookup_None (f : option (string -> value)) tpl h :
  h ∈ holesOf (Statements tpl) ->
  (missingHolesLoop f (sortedHoles tpl) ∅ []).1 !! h = None ->
  f = None.
Proof.
  intros Hh%sortedHoles_elem_of. destruct f as [ask|]; [| done].
  rewrite missingHolesLoop_Some. simpl. rewrite foldl_ask_lookup.
  by case_decide.
Qed.

(** When the callback for missing holes answers with closed values,
    resolveMissingHolesPass succeeds and leaves no hole in the template. *)
Theorem resolveMissingHolesPass_no_holes tpl env ask :
  MissingHolesFunc env = Some ask ->
  (forall k, GetHoles (ask k) = []) ->
  exists tpl' env',
    resolveMissingHolesPass tpl env = Ok (tpl', env') /\
    holesOf (Statements tpl') = [].
Proof.
  intros Hf Hask. unfold resolveMissingHolesPass.
  rewrite visitHoles_processHolesWith. do 2 eexists. split; [done |]. simpl.
  apply elem_of_nil_inv. intros h. rewrite holesOf_fillStmt.
  - intros [Hh Hn]. apply (missingHolesLoop_lookup_None _ tpl) in Hn; [| done].
    congruence.
  - apply missingHolesLoop_closed. rewrite Hf. by intros ? k [= <-].
Qed.

(** C35. The values asked for by resolveMissingHolesPass are recorded as
    processed fillers, although they are no fillers of the environment: the
    processed fillers are then no sub-map of the fillers. *)
Theorem resolveMissingHolesPass_processed tpl env ask h :
  MissingHolesFunc env = Some ask ->
  h ∈ holesOf (Statements tpl) ->
  exists tpl' env',
    resolveMissingHolesPass tpl env = Ok (tpl', env') /\
    Fillers env' = Fillers env /\
    GetProcessedFillers env' !! h = Some (ask h).
Proof.
  intros Hf Hh. unfold resolveMissingHolesPass.
  rewrite Hf, missingHolesLoop_Some, visitHoles_processHolesWith. simpl.
  do 2 eexists. split; [done |].
  rewrite recordProcessed_Fillers, GetProcessedFillers_eq,
    recordProcessed_processed. split; [done |].
  apply lookup_union_Some_l, map_lookup_filter_Some. split; [| done].
  rewrite foldl_ask_lookup, decide_True; [done |]. by apply sortedHoles_elem_of.
Qed.

End holes_theorems.

(** ** The theorems on the sample templates *)

(** The hole of S1 has a filler: no hole is left. *)
Lemma resolveHolesPass_holes_witness :
  "test.cidr" ∈ holesOf (Statements S1_filled.1) <->
  "test.cidr" ∈ holesOf (Statements Sample.S1) /\
  readMap (Fillers Sample.env) !! "test.cidr" = None.
Proof.
  apply (resolveHolesPass_holes Sample.S1 Sample.env S1_filled.1 S1_filled.2).
  - apply (bool_decide_unpack _). vm_compute. reflexivity.
  - vm_compute. reflexivity.
Defined.

Lemma resolveHolesPass_processed_witness :
  GetProcessedFillers S1_filled.2 ⊆ readMap (Fillers S1_filled.2) /\
  forall k v, readMap (Fillers Sample.env) !! k = Some v ->
              k ∈ holesOf (Statements Sample.S1) ->
              GetProcessedFillers S1_filled.2 !! k = Some v.
Proof.
  apply (resolveHolesPass_processed Sample.S1 Sample.env S1_filled.1).
  - apply (bool_decide_unpack _). vm_compute. reflexivity.
  - vm_compute. reflexivity.
Defined.

Lemma resolveHolesPass_idempotent_witness :
  resolveHolesPass S1_filled.1 S1_filled.2 = Ok (S1_filled.1, S1_filled.2).
Proof.
  apply (resolveHolesPass_idempotent Sample.S1 Sample.env).
  - apply (bool_decide_unpack _). vm_compute. reflexivity.
  - vm_compute. reflexivity.
Defined.

Lemma missingHolesCalls_spec_witness :
  missingHolesCalls holesBAB askingEnv = ["a"; "b"] /\
  Sorted string_le (missingHolesCalls holesBAB askingEnv) /\
  NoDup (missingHolesCalls holesBAB askingEnv) /\
  forall h, h ∈ missingHolesCalls holesBAB askingEnv <->
            h ∈ holesOf (Statements holesBAB).
Proof.
  split; [vm_compute; reflexivity |].
  apply (missingHolesCalls_spec holesBAB askingEnv (fun hole => VLit (LStr hole))).
  reflexivity.
Defined.

Lemma resolveMissingHolesPass_no_holes_witness :
  exists tpl' env',
    resolveMissingHolesPass holesBAB askingEnv = Ok (tpl', env') /\
    holesOf (Statements tpl') = [].
Proof.
  apply (resolveMissingHolesPass_no_holes holesBAB askingEnv
           (fun hole => VLit (LStr hole))); reflexivity.
Defined.

Lemma resolveMissingHolesPass_processed_witness :
  exists tpl' env',
    resolveMissingHolesPass holesBAB askingEnv = Ok (tpl', env') /\
    Fillers env' = Fillers askingEnv /\
    GetProcessedFillers env' !! "a" = Some (VLit (LStr "a")).
Proof.
  apply (resolveMissingHolesPass_processed holesBAB askingEnv
           (fun hole => VLit (LStr hole)) "a").
  - reflexivity.
  - apply (bool_decide_unpack _). vm_compute. reflexivity.
Defined.
