(* ===== verification/PassAlias.v ===== *)
(** * The alias passes

    Models [resolveAliasPass] and [failOnUnresolvedAliasPass] of
    src/template/compile.go.  The alias callback of the environment answers
    with a string, the empty string meaning that it does not know the alias;
    the pass replaces the aliases it can and fails with the list of the
    others, the template keeping the replacements made. *)

From S2P Require Import Prelude Values Driver Ast Env Template PassRefs.

Definition cannotResolveAliasesErr (emptyResolv : list string) : error :=
  "cannot resolve aliases: " +:+ fmt_q emptyResolv +:+
  ". Maybe you need to update your local model with `awless sync` ?".

Definition unresolvedAliasErr (unresolved : list string) : error :=
  "template contains unresolved alias: " +:+ fmt_v unresolved.

Section alias.
Context {W : Type}.

(** The aliases of a statement list, in order. *)
Definition aliasesOf (sts : list (Statement W)) : list string :=
  flat_map (fun st => Expr_GetAliases (extractExpressionNode st)) sts.

(** ** resolveAliasPass *)

(** The closure handed to ResolveAlias: no answer without a callback or when
    the callback answers with the empty string. *)
Definition resolvAliasFunc (env : Env W) (entity key : string)
    : string -> option string :=
  fun alias =>
    match AliasFunc env with
    | None => None
    | Some f =>
        let actual := f entity key alias in
        if decide (actual = EmptyString) then None else Some actual
    end.

(** What the closure appends to emptyResolv while the aliases of a value are
    resolved. *)
Definition emptyResolvOf (env : Env W) (entity key : string) (v : value)
    : list string :=
  match AliasFunc env with
  | None => []
  | Some f =>
      filter (fun alias => f entity key alias = EmptyString) (GetAliases v)
  end.

(** The body of the loop over the expression nodes. *)
Definition resolveAliasExpr (env : Env W) (expr : ExpressionNode W)
    (emptyResolv : list string) : ExpressionNode W * list string :=
  match expr with
  | ECommand ee =>
      (ECommand
         (setParams
            (map_imap (fun k v =>
                         Some (ResolveAlias (resolvAliasFunc env (Entity ee) k) v))
                      (Params ee)) ee),
       emptyResolv ++
       flat_map (fun kv => emptyResolvOf env (Entity ee) kv.1 kv.2)
                (map_to_list (Params ee)))
  | EValue v =>
      (EValue (ResolveAlias (resolvAliasFunc env EmptyString EmptyString) v),
       emptyResolv ++ emptyResolvOf env EmptyString EmptyString v)
  end.

Definition resolveAliasPass : compileFunc W :=
  fun tpl env =>
    let '(tpl', emptyResolv) := visitHoles (resolveAliasExpr env) tpl [] in
    if decide (0 < length emptyResolv)
    then Err (tpl', env) (cannotResolveAliasesErr emptyResolv)
    else Ok (tpl', env).

(** ** failOnUnresolvedAliasPass *)

Definition failOnUnresolvedAliasPass : compileFunc W :=
  fun tpl env =>
    let unresolved :=
      foldl (fun unresolved n =>
               match n with
               | EValue v => unresolved ++ GetAliases v
               | ECommand nn =>
                   foldl (fun unresolved param => unresolved ++ GetAliases param.2)
                         unresolved (map_to_list (Params nn))
               end)
            [] (expressionNodesIterator tpl) in
    if decide (0 < length unresolved)
    then Err (tpl, env) (unresolvedAliasErr unresolved)
    else Ok (tpl, env).

(** ** Reference definitions *)

(** A statement with the aliases of its expression resolved. *)
Definition resolveAliasStmt (env : Env W) (st : Statement W) : Statement W :=
  withExpression st (fst (resolveAliasExpr env (extractExpressionNode st) [])).

(** The aliases of a statement list the callback does not know. *)
Definition emptyResolvs (env : Env W) (sts : list (Statement W)) : list string :=
  flat_map (fun st => snd (resolveAliasExpr env (extractExpressionNode st) []))
           sts.

End alias.

(** ** Sample data *)

(** The template S2 after resolveAliasPass, and the environment. *)
Definition S2_resolved : Template (list string) * Env (list string) :=
  match resolveAliasPass Sample.S2 Sample.env with
  | Ok r => r
  | _ => (Sample.S2, Sample.env)
  end.

(** A template with an alias the sample callback does not know. *)
Definition unknownAlias : Template (list string) := mkTemplate "unknown" [
  Sample.decl "x" (EValue (VAlias "nope"));
  SCommand (Sample.node "create" "subnet" [("vpc", VAlias "vpc")])
].

(** ** Theorems *)

Section alias_theorems.
Context {W : Type}.
Implicit Types (tpl : Template W) (env : Env W) (st : Statement W).
Implicit Types (sts : list (Statement W)) (e : ExpressionNode W).

Lemma resolveAliasExpr_eq env e acc :
  resolveAliasExpr env e acc =
  (fst (resolveAliasExpr env e []), acc ++ snd (resolveAliasExpr env e [])).
Proof. by destruct e. Qed.

(** The loop of the pass: every statement is resolved, the aliases the
    callback does not know are collected in order. *)
Lemma visitHoles_resolveAliasExpr tpl env :
  visitHoles (resolveAliasExpr env) tpl [] =
  (mkTemplate (ID tpl) (map (resolveAliasStmt env) (Statements tpl)),
   emptyResolvs env (Statements tpl)).
Proof.
  unfold visitHoles.
  rewrite (visitHoles_list_ext (fun _ => True) _
    (fun h a => (fst (resolveAliasExpr env h []),
                 a ++ snd (resolveAliasExpr env h []))));
    [| done | by intros; rewrite resolveAliasExpr_eq at 1].
  rewrite visitHoles_list_map. do 2 f_equal.
  apply (foldl_app_flat_map
           (fun st => snd (resolveAliasExpr env (extractExpressionNode st) []))
           _ []).
Qed.


Lemma resolvAliasFunc_None env f entity key a :
  AliasFunc env = Some f ->
  resolvAliasFunc env entity key a = None <-> f entity key a = EmptyString.
Proof. unfold resolvAliasFunc. intros ->. simpl. by case_decide. Qed.

Lemma GetAliases_resolved env f entity key v a :
  AliasFunc env = Some f ->
  a ∈ GetAliases (ResolveAlias (resolvAliasFunc env entity key) v) <->
  a ∈ emptyResolvOf env entity key v.
Proof.
  intros Hf. unfold emptyResolvOf. rewrite Hf, GetAliases_ResolveAlias.
  by rewrite !list_elem_of_filter, (resolvAliasFunc_None env f).
Qed.

(** With a callback, the aliases left in an expression are those the
    callback does not know. *)
Lemma aliases_resolveAliasExpr env f e a :
  AliasFunc env = Some f ->
  a ∈ Expr_GetAliases (fst (resolveAliasExpr env e [])) <->
  a ∈ snd (resolveAliasExpr env e []).
Proof.
  intros Hf. destruct e as [c|v]; simpl;
    [| by apply (GetAliases_resolved env f)].
  rewrite CommandNode_GetAliases_elem_of.
  rewrite (flat_map_map_to_list_elem_of_key
             (fun k v => emptyResolvOf env (Entity c) k v)). simpl.
  setoid_rewrite map_lookup_imap. split.
  - intros (k & v' & Hk & Ha). destruct (Params c !! k) as [v|] eqn:E; [| done].
    injection Hk as <-. exists k, v. split; [done |].
    by apply (GetAliases_resolved env f).
  - intros (k & v & Hk & Ha). exists k. eexists. rewrite Hk. split; [done |].
    by apply (GetAliases_resolved env f).
Qed.

Lemma aliasesOf_resolveAliasStmt env f sts a :
  AliasFunc env = Some f ->
  a ∈ aliasesOf (map (resolveAliasStmt env) sts) <-> a ∈ emptyResolvs env sts.
Proof.
  intros Hf. unfold aliasesOf, emptyResolvs. rewrite !flat_map_elem_of. split.
  - intros (? & (st & -> & Hst)%list_elem_of_fmap & Ha). exists st.
    split; [done |]. apply (aliases_resolveAliasExpr env f); [done |].
    by destruct st as [c|[i [c|v]]].
  - intros (st & Hst & Ha). exists (resolveAliasStmt env st).
    split; [by apply list_elem_of_fmap_2 |].
    apply (aliases_resolveAliasExpr env f) in Ha; [| done].
    by destruct st as [c|[i [c|v]]].
Qed.

(** When resolveAliasPass succeeds with an alias callback, no alias is
    left in the template and the environment is as it was. *)
Theorem resolveAliasPass_Ok_no_alias tpl env f tpl' env' :
  AliasFunc env = Some f ->
  resolveAliasPass tpl env = Ok (tpl', env') ->
  aliasesOf (Statements tpl') = [] /\ env' = env.
Proof.
  intros Hf. unfold resolveAliasPass. rewrite visitHoles_resolveAliasExpr.
  destruct (emptyResolvs env (Statements tpl)) eqn:E; [| done].
  intros [= <- <-]. split; [| done]. simpl.
  apply elem_of_nil_inv. intros a.
  rewrite (aliasesOf_resolveAliasStmt env f), E by done. apply not_elem_of_nil.
Qed.

(** When resolveAliasPass fails, its error lists aliases that are
    still in the template: those the callback answered the empty string
    for. *)
Theorem resolveAliasPass_Err tpl env tpl' env' err :
  resolveAliasPass tpl env = Err (tpl', env') err ->
  exists f unresolved,
    AliasFunc env = Some f /\ unresolved <> [] /\
    err = cannotResolveAliasesErr unresolved /\
    forall a, a ∈ unresolved <-> a ∈ aliasesOf (Statements tpl').
Proof.
  unfold resolveAliasPass. rewrite visitHoles_resolveAliasExpr.
  destruct (emptyResolvs env (Statements tpl)) as [|a0 l] eqn:E; [done |].
  intros [= <- <- <-]. destruct (AliasFunc env) as [f|] eqn:Hf.
  - exists f, (a0 :: l). repeat split; try done.
    all: rewrite <- E; by apply (aliasesOf_resolveAliasStmt env f).
  - exfalso. revert E. unfold emptyResolvs.
    assert (forall st : Statement W,
              snd (resolveAliasExpr env (extractExpressionNode st) []) = [])
      as Hnil.
    { intros st. destruct (extractExpressionNode st); simpl;
        unfold emptyResolvOf; rewrite Hf; [| done].
      by induction (map_to_list (Params c)). }
    intros E. assert (a0 ∈ a0 :: l) as Hin by left. rewrite <- E in Hin.
    apply flat_map_elem_of in Hin as (st & _ & Hin). rewrite Hnil in Hin.
    by apply elem_of_nil in Hin.
Qed.

(** Without a callback the pass changes nothing. *)
Lemma resolveAliasStmt_no_func env st :
  AliasFunc env = None -> resolveAliasStmt env st = st.
Proof.
  intros Hf. unfold resolveAliasStmt.
  assert (forall entity key a, resolvAliasFunc env entity key a = None) as Hn.
  { intros. unfold resolvAliasFunc. by rewrite Hf. }
  assert (forall c : CommandNode W,
            map_imap (fun k v =>
                        Some (ResolveAlias (resolvAliasFunc env (Entity c) k) v))
                     (Params c) = Params c) as Hc.
  { intros c. apply map_eq. intros k. rewrite map_lookup_imap.
    destruct (Params c !! k); simpl; by rewrite ?ResolveAlias_unknown. }
  destruct st as [c|[i [c|v]]]; simpl;
    by rewrite ?Hc, ?setParams_id, ?ResolveAlias_unknown.
Qed.

(** Without an alias callback resolveAliasPass succeeds and changes
    neither the template nor the environment. *)
Theorem resolveAliasPass_no_func tpl env :
  AliasFunc env = None -> resolveAliasPass tpl env = Ok (tpl, env).
Proof.
  intros Hf. unfold resolveAliasPass. rewrite visitHoles_resolveAliasExpr.
  assert (emptyResolvs env (Statements tpl) = []) as ->.
  { apply flat_map_nil_iff, Forall_forall. intros st _.
    destruct (extractExpressionNode st); simpl; unfold emptyResolvOf;
      rewrite Hf; [| done].
    by induction (map_to_list (Params c)). }
  simpl. destruct tpl as [id sts]. simpl. do 3 f_equal.
  apply map_id_Forall, Forall_forall. intros st _.
  by apply resolveAliasStmt_no_func.
Qed.

(** *** failOnUnresolvedAliasPass *)

(** The aliases the guard collects over the expression nodes are the
    aliases of the statements, in template order. *)
Lemma expressionNodes_aliases tpl :
  foldl (fun unresolved (n : ExpressionNode W) =>
           match n with
           | EValue v => unresolved ++ GetAliases v
           | ECommand nn =>
               foldl (fun unresolved param => unresolved ++ GetAliases param.2)
                     unresolved (map_to_list (Params nn))
           end)
        [] (expressionNodesIterator tpl) =
  aliasesOf (Statements tpl).
Proof.
  unfold expressionNodesIterator.
  rewrite (foldl_map_app_flat_map _ Expr_GetAliases); [done |].
  intros acc [c|v]; [| done]. apply foldl_app_flat_map.
Qed.

(** FailOnUnresolvedAliasPass succeeds, leaving template and
    environment as they are, exactly when the template has no alias;
    otherwise its error lists the aliases in template order. *)
Theorem failOnUnresolvedAliasPass_spec tpl env :
  failOnUnresolvedAliasPass tpl env =
  match aliasesOf (Statements tpl) with
  | [] => Ok (tpl, env)
  | unresolved => Err (tpl, env) (unresolvedAliasErr unresolved)
  end.
Proof.
  unfold failOnUnresolvedAliasPass. rewrite expressionNodes_aliases.
  by destruct (aliasesOf (Statements tpl)).
Qed.

(** The guard as a compilation step: it lets through, unchanged, the
    templates without alias. *)
Lemma failOnUnresolvedAliasPass_Ok_iff tpl env tpl' env' :
  failOnUnresolvedAliasPass tpl env = Ok (tpl', env') <->
  tpl' = tpl /\ env' = env /\ aliasesOf (Statements tpl) = [].
Proof.
  unfold failOnUnresolvedAliasPass. rewrite expressionNodes_aliases.
  destruct (aliasesOf (Statements tpl)); simpl; naive_solver.
Qed.

End alias_theorems.

(** ** The theorems on the sample templates *)

Lemma resolveAliasPass_Ok_no_alias_witness :
  aliasesOf (Statements S2_resolved.1) = [] /\ S2_resolved.2 = Sample.env.
Proof.
  apply (resolveAliasPass_Ok_no_alias Sample.S2 Sample.env Sample.aliases).
  - reflexivity.
  - vm_compute. reflexivity.
Defined.

Lemma resolveAliasPass_Err_witness :
  exists f unresolved,
    AliasFunc Sample.env = Some f /\ unresolved <> [] /\
    cannotResolveAliasesErr ["nope"] = cannotResolveAliasesErr unresolved /\
    forall a, a ∈ unresolved <->
              a ∈ aliasesOf (Statements
                   (mkTemplate "unknown"
                      (map (resolveAliasStmt Sample.env) (Statements unknownAlias)))).
Proof.
  apply (resolveAliasPass_Err unknownAlias Sample.env _ Sample.env).
  vm_compute. reflexivity.
Defined.

Lemma resolveAliasPass_no_func_witness :
  resolveAliasPass Sample.S2 NewEnv = Ok (Sample.S2, NewEnv).
Proof. apply (resolveAliasPass_no_func Sample.S2 NewEnv). reflexivity. Defined.
