(* ===== verification/PassCommands.v ===== *)
(** * The passes that question the command registry

    Models the passes of src/template/compile.go that look a command up, by
    its key, in the registry of the environment or in the table of template
    definitions: [verifyCommandsDefinedPass], [validateCommandsParamsPass],
    [normalizeMissingRequiredParamsAsHolePass], [convertParamsPass],
    [validateCommandsPass], [injectCommandsPass] and
    [resolveAgainstDefinitions], with the helpers [foundIn] and [cmdErr].

    Calling the registry of an environment that has none is a call of a nil
    function: a [Panic].  So is the type assertion of the injection pass on
    what the registry answers, when the answer is nil or has no Run
    method.

    [validateCommandsPass] is proved against the reference [collectedErrs]
    (the errors of [commandErrs] on every command node, in the order of the
    template); [convert] against the lookups of the params it returns. *)

From S2P Require Import Prelude Values Driver Ast Env Template PassRefs.

Section commands.
Context {W : Type}.

(** ** Helpers *)

Fixpoint foundIn (key : string) (slice : list string) : bool :=
  match slice with
  | [] => false
  | k :: rest => if decide (k = key) then true else foundIn key rest
  end.

(** cmdErr without format arguments: the message prefixed with the action
    and the entity of the node; nil for a nil message. *)
Definition cmdErr (cmd : option (CommandNode W)) (i : option error)
    : option error :=
  let prefix :=
    match cmd with
    | Some cmd => Action cmd +:+ " " +:+ Entity cmd +:+ ": "
    | None => EmptyString
    end in
  match i with
  | None => None
  | Some msg => Some (prefix +:+ msg)
  end.

(** The key a command is looked up with. *)
Definition nodeKey (node : CommandNode W) : string :=
  Action node +:+ Entity node.

(** What a callback of visitCommandNodesE returns for an error value. *)
Definition returnErr {S : Type} (node : CommandNode W) (acc : S)
    (err : option error) : res (CommandNode W * S) :=
  match err with
  | Some e => Err (node, acc) e
  | None => Ok (node, acc)
  end.

(** The name of the hole that stands for a missing param. *)
Definition normalized (entity e : string) : string := entity +:+ "." +:+ e.

Definition nilLookuper : string :=
  "invalid memory address or nil pointer dereference".

(** ** verifyCommandsDefinedPass *)

Fixpoint verifyCommandsDefinedLoop (lookuper : LookupFunc W)
    (nodes : list (CommandNode W)) : option error :=
  match nodes with
  | [] => None
  | node :: rest =>
      let key := nodeKey node in
      match lookuper [key] with
      | None => Some ("cannot find command for '" +:+ key +:+ "'")
      | Some _ => verifyCommandsDefinedLoop lookuper rest
      end
  end.

Definition verifyCommandsDefinedPass : compileFunc W :=
  fun tpl env =>
    match Lookuper env with
    | None => Err (tpl, env) "command lookuper is undefined"
    | Some lookuper =>
        match verifyCommandsDefinedLoop lookuper (CommandNodesIterator tpl) with
        | Some err => Err (tpl, env) err
        | None => Ok (tpl, env)
        end
    end.

(** ** validateCommandsParamsPass *)

Definition verifyValidParamsOnly (env : Env W) (node : CommandNode W)
    (acc : unit) : res (CommandNode W * unit) :=
  let key := nodeKey node in
  match Lookuper env with
  | None => Panic nilLookuper
  | Some lookuper =>
      match lookuper [key] with
      | None =>
          Err (node, acc) ("validate: cannot find command for '" +:+ key +:+ "'")
      | Some cmd =>
          match cmdValidateParams cmd with
          | Some v =>
              match v (Keys node) with
              | (_, Some err) => returnErr node acc (cmdErr (Some node) (Some err))
              | (_, None) => Ok (node, acc)
              end
          | None =>
              returnErr node acc
                (cmdErr (Some node)
                        (Some "command does not implement param validation"))
          end
      end
  end.

Definition validateCommandsParamsPass : compileFunc W :=
  fun tpl env =>
    res_map (fun '(tpl', _) => (tpl', env))
            (visitCommandNodesE (verifyValidParamsOnly env) tpl tt).

(** ** normalizeMissingRequiredParamsAsHolePass *)

Definition normalize (env : Env W) (node : CommandNode W) (acc : unit)
    : res (CommandNode W * unit) :=
  let key := nodeKey node in
  match Lookuper env with
  | None => Panic nilLookuper
  | Some lookuper =>
      match lookuper [key] with
      | None =>
          Err (node, acc) ("normalize: cannot find command for '" +:+ key +:+ "'")
      | Some cmd =>
          match cmdValidateParams cmd with
          | Some v =>
              match v (Keys node) with
              | (_, Some err) => returnErr node acc (cmdErr (Some node) (Some err))
              | (missing, None) =>
                  Ok (setParams
                        (foldl (fun params e =>
                                  <[e := VHole (normalized (Entity node) e)]> params)
                               (Params node) missing) node, acc)
              end
          | None =>
              returnErr node acc
                (cmdErr (Some node)
                        (Some "command does not implement param normalization"))
          end
      end
  end.

Definition normalizeMissingRequiredParamsAsHolePass : compileFunc W :=
  fun tpl env =>
    res_map (fun '(tpl', _) => (tpl', env))
            (visitCommandNodesE (normalize env) tpl tt).

(** ** convertParamsPass *)

Definition convert (env : Env W) (node : CommandNode W) (acc : unit)
    : res (CommandNode W * unit) :=
  let key := nodeKey node in
  match Lookuper env with
  | None => Panic nilLookuper
  | Some lookuper =>
      match lookuper [key] with
      | None =>
          Err (node, acc) ("convert: cannot find command for '" +:+ key +:+ "'")
      | Some cmd =>
          match cmdConvertParams cmd with
          | Some (keys, convFunc) =>
              let params := ToDriverParams node in
              let values :=
                foldl (fun values k =>
                         match params !! k with
                         | Some vv => <[k := vv]> values
                         | None => values
                         end) ∅ keys in
              match convFunc values with
              | (_, Some err) => returnErr node acc (cmdErr (Some node) (Some err))
              | (converted, None) =>
                  let deleted :=
                    foldl (fun ps k => delete k ps) (Params node) keys in
                  Ok (setParams
                        (map_fold (fun k v ps => <[k := VLit v]> ps)
                                  deleted converted) node, acc)
              end
          | None => Ok (node, acc)
          end
      end
  end.

(** The error of the visit is dropped: the pass returns a nil error. *)
Definition convertParamsPass : compileFunc W :=
  fun tpl env =>
    match visitCommandNodesE (convert env) tpl tt with
    | Ok (tpl', _) => Ok (tpl', env)
    | Err (tpl', _) _ => Ok (tpl', env)
    | Panic why => Panic why
    end.

(** ** validateCommandsPass *)

(** The keys of the params that still hold a reference. *)
Definition refsKey (node : CommandNode W) : list string :=
  (filter (fun kp => 0 < length (GetRefs kp.2)) (map_to_list (Params node))).*1.

Definition collectValidationErrs (env : Env W) (node : CommandNode W)
    (errs : list error) : res (CommandNode W * list error) :=
  let key := nodeKey node in
  match Lookuper env with
  | None => Panic nilLookuper
  | Some lookuper =>
      match lookuper [key] with
      | None =>
          Err (node, errs) ("validate: cannot find command for '" +:+ key +:+ "'")
      | Some cmd =>
          match cmdValidateCommand cmd with
          | Some v =>
              Ok (node,
                  errs ++
                  map (fun validErr =>
                         Action node +:+ " " +:+ Entity node +:+ ": " +:+ validErr)
                      (v (ToDriverParams node) (refsKey node)))
          | None => Ok (node, errs)
          end
      end
  end.

(** The errors validateCommandsPass collects, as a function of the command
    nodes: those of each command in order, up to the first command the
    registry does not know. *)
Definition commandErrs (cmd : Command W) (node : CommandNode W) : list error :=
  match cmdValidateCommand cmd with
  | Some v =>
      map (fun validErr =>
             Action node +:+ " " +:+ Entity node +:+ ": " +:+ validErr)
          (v (ToDriverParams node) (refsKey node))
  | None => []
  end.

Fixpoint collectedErrs (lookuper : LookupFunc W) (nodes : list (CommandNode W))
    : list error :=
  match nodes with
  | [] => []
  | node :: rest =>
      match lookuper [nodeKey node] with
      | Some cmd => commandErrs cmd node ++ collectedErrs lookuper rest
      | None => []
      end
  end.

(** The report on the collected errors. *)
Definition validationReport (errs : list error) : option error :=
  match errs with
  | [] => None
  | [e] => Some ("validation error: " +:+ e)
  | _ =>
      Some ("validation errors:" +:+ nl +:+ tab +:+ "- "
            +:+ Join errs (nl +:+ tab +:+ "- "))
  end.

(** The error of the visit is dropped; what decides is what was collected
    until the visit ended. *)
Definition validateCommandsPass : compileFunc W :=
  fun tpl env =>
    match visitCommandNodesE (collectValidationErrs env) tpl [] with
    | Ok (tpl', errs) | Err (tpl', errs) _ =>
        match validationReport errs with
        | None => Ok (tpl', env)
        | Some err => Err (tpl', env) err
        end
    | Panic why => Panic why
    end.

(** ** injectCommandsPass *)

(** The type assertion to ast.Command: the command object must have the Run
    method of a node's command. *)
Definition assertCommand (c : option (Command W)) : option (Command W) :=
  match c with
  | Some cmd => if cmdRunCtx cmd is Some _ then Some cmd else None
  | None => None
  end.

Definition inject (env : Env W) (node : CommandNode W) (acc : unit)
    : res (CommandNode W * unit) :=
  let key := nodeKey node in
  match Lookuper env with
  | None => Panic nilLookuper
  | Some lookuper =>
      match assertCommand (lookuper [key]) with
      | None => Panic "interface conversion: interface is not ast.Command"
      | Some cmd =>
          let node' := setCommand (Some cmd) node in
          match NodeCommand node' with
          | None =>
              Err (node', acc) ("inject: cannot find command for '" +:+ key +:+ "'")
          | Some _ => Ok (node', acc)
          end
      end
  end.

Definition injectCommandsPass : compileFunc W :=
  fun tpl env =>
    res_map (fun '(tpl', _) => (tpl', env))
            (visitCommandNodesE (inject env) tpl tt).

(** ** resolveAgainstDefinitions *)

(** The loop over the keys of a command: the first key that is neither
    required nor extra is reported with both lists. *)
Fixpoint unexpectedParamKey (cmd : CommandNode W) (def : TemplateDefinition)
    (keys : list string) : option error :=
  match keys with
  | [] => None
  | key :: rest =>
      if negb (foundIn key (Required def)) && negb (foundIn key (Extra def))
      then
        let extraParams :=
          if decide (0 < length (Extra def))
          then nl +:+ tab +:+ "- extra params: " +:+ Join (Extra def) ", "
          else EmptyString in
        let requiredParams :=
          if decide (0 < length (Required def))
          then nl +:+ tab +:+ "- required params: " +:+ Join (Required def) ", "
          else EmptyString in
        Some (Action cmd +:+ " " +:+ Entity cmd +:+ ": unexpected param key '"
              +:+ key +:+ "'" +:+ requiredParams +:+ extraParams +:+ nl)
      else unexpectedParamKey cmd def rest
  end.

Definition verifyValidParamsOnlyDef
    (lookup : string -> option TemplateDefinition) (cmd : CommandNode W)
    (acc : unit) : res (CommandNode W * unit) :=
  let tplKey := nodeKey cmd in
  match lookup tplKey with
  | None =>
      Err (cmd, acc) ("cannot find template definition for '" +:+ tplKey +:+ "'")
  | Some def => returnErr cmd acc (unexpectedParamKey cmd def (Keys cmd))
  end.

(** The second visit: a required param that is not among the params becomes
    a hole named after the entity and the param. *)
Definition addRequired (entity : string) (params : gmap string value)
    (required : string) : gmap string value :=
  let isInParams :=
    existsb (fun k => bool_decide (k = required)) (map_to_list params).*1 in
  if negb isInParams
  then match params !! required with
       | None => <[required := VHole (normalized entity required)]> params
       | Some _ => params
       end
  else params.

Definition addRequiredHoles
    (lookup : string -> option TemplateDefinition) (cmd : CommandNode W)
    (acc : unit) : CommandNode W * unit :=
  let tplKey := nodeKey cmd in
  match lookup tplKey with
  | Some def =>
      (setParams (foldl (addRequired (Entity cmd)) (Params cmd) (Required def))
                 cmd, acc)
  | None => (cmd, acc)
  end.

Definition resolveAgainstDefinitions : compileFunc W :=
  fun tpl env =>
    match DefLookupFunc env with
    | None => Err (tpl, env) "definition lookup function is undefined"
    | Some lookup =>
        match visitCommandNodesE (verifyValidParamsOnlyDef lookup) tpl tt with
        | Err (tpl', _) err => Err (tpl', env) err
        | Panic why => Panic why
        | Ok (tpl', _) =>
            Ok (fst (visitCommandNodes (addRequiredHoles lookup) tpl' tt), env)
        end
    end.

(** ** Reference definitions *)

(** What the injection pass does to a command node. *)
Definition injected (env : Env W) (c c' : CommandNode W) : Prop :=
  exists lookuper cmd,
    Lookuper env = Some lookuper /\ lookuper [nodeKey c] = Some cmd /\
    is_Some (cmdRunCtx cmd) /\ c' = setCommand (Some cmd) c.

(** What the definitions pass does to a command node: its keys are those of
    its definition, and it gets the required params it has not. *)
Definition definedStep (lookup : string -> option TemplateDefinition)
    (c c' : CommandNode W) : Prop :=
  exists def,
    lookup (nodeKey c) = Some def /\
    (forall k, k ∈ Keys c -> k ∈ Required def \/ k ∈ Extra def) /\
    c' = setParams (foldl (addRequired (Entity c)) (Params c) (Required def)) c.

(** What the validation of the params asks of a command node. *)
Definition paramsValidated (env : Env W) (c : CommandNode W)
    (missing : list string) : Prop :=
  exists lookuper cmd v,
    Lookuper env = Some lookuper /\ lookuper [nodeKey c] = Some cmd /\
    cmdValidateParams cmd = Some v /\ v (Keys c) = (missing, None).

(** What the normalisation does to a command node. *)
Definition normalizedStep (env : Env W) (c c' : CommandNode W) : Prop :=
  exists missing,
    paramsValidated env c missing /\
    NodeCommand c' = NodeCommand c /\ Action c' = Action c /\
    Entity c' = Entity c /\
    forall k, Params c' !! k =
              if decide (k ∈ missing)
              then Some (VHole (normalized (Entity c) k))
              else Params c !! k.

(** What the last passes of the new runner do to the params of a command
    node: a param is as it was, or a literal. *)
Definition keepsParams (c c' : CommandNode W) : Prop :=
  forall k v', Params c' !! k = Some v' ->
               Params c !! k = Some v' \/ exists l, v' = VLit l.

End commands.

(** ** Sample data *)

Definition S3_of (pass : compileFunc (list string)) (env : Env (list string))
    : Template (list string) * Env (list string) :=
  match pass Sample.S3 env with
  | Ok r => r
  | _ => (Sample.S3, env)
  end.

(** ** Theorems *)

Section commands_theorems.
Context {W : Type}.
Implicit Types (tpl : Template W) (env : Env W) (node c : CommandNode W).

Lemma foundIn_spec key slice : foundIn key slice = true <-> key ∈ slice.
Proof.
  induction slice as [|k rest IH]; simpl; [by rewrite elem_of_nil |].
  case_decide; subst; rewrite ?IH, elem_of_cons; naive_solver.
Qed.

(** *** verifyCommandsDefinedPass *)

Lemma verifyCommandsDefinedLoop_None (lookuper : LookupFunc W) nodes :
  verifyCommandsDefinedLoop lookuper nodes = None <->
  Forall (fun n => is_Some (lookuper [nodeKey n])) nodes.
Proof.
  induction nodes as [|n nodes IH]; simpl; [by split; [constructor |] |].
  rewrite Forall_cons, <- IH. destruct (lookuper [nodeKey n]); [naive_solver |].
  split; [done | by intros [[? ?] _]].
Qed.

(** VerifyCommandsDefinedPass succeeds exactly when the environment
    has a registry and the registry knows the key of every command node; it
    changes neither the template nor the environment. *)
Theorem verifyCommandsDefinedPass_spec tpl env :
  is_Ok (verifyCommandsDefinedPass tpl env) = true <->
  exists lookuper,
    Lookuper env = Some lookuper /\
    forall node, node ∈ CommandNodesIterator tpl ->
                 is_Some (lookuper [nodeKey node]).
Proof.
  unfold verifyCommandsDefinedPass.
  destruct (Lookuper env) as [lookuper|]; [| by split; [| intros (? & ? & _)]].
  destruct (verifyCommandsDefinedLoop _ _) eqn:E; simpl.
  - split; [done |]. intros (? & [= <-] & Hall).
    apply Forall_forall, verifyCommandsDefinedLoop_None in Hall. congruence.
  - split; [| done]. intros _. exists lookuper. split; [done |].
    by apply Forall_forall, verifyCommandsDefinedLoop_None.
Qed.

Lemma verifyCommandsDefinedPass_state tpl env :
  res_state (verifyCommandsDefinedPass tpl env) = Some (tpl, env).
Proof.
  unfold verifyCommandsDefinedPass. destruct (Lookuper env); [| done].
  by destruct (verifyCommandsDefinedLoop _ _).
Qed.

(** *** injectCommandsPass *)

Lemma inject_no_Err env c a x e : inject env c a <> Err x e.
Proof.
  unfold inject. destruct (Lookuper env); [| done].
  by destruct (assertCommand _).
Qed.

Lemma inject_Ok env c a c' a' :
  inject env c a = Ok (c', a') -> injected env c c'.
Proof.
  unfold inject, injected. destruct (Lookuper env) as [lookuper|]; [| done].
  unfold assertCommand. destruct (lookuper [nodeKey c]) as [cmd|] eqn:E; [| done].
  destruct (cmdRunCtx cmd) eqn:Er; [| done]. intros [= <- _].
  exists lookuper, cmd. rewrite Er. eauto.
Qed.

Lemma injectCommandsPass_not_Err tpl env x e :
  injectCommandsPass tpl env <> Err x e.
Proof.
  unfold injectCommandsPass, visitCommandNodesE.
  destruct (visitCommandNodesE_list _ _ _) as [[? ?]|[? ?] ?|] eqn:E; try done.
  by apply visitCommandNodesE_list_no_Err in E; [| apply inject_no_Err].
Qed.

(** C32. injectCommandsPass never returns an error: the test of the
    injected command against nil comes after a type assertion that has
    already panicked on a nil answer of the registry. *)
Theorem injectCommandsPass_no_error tpl env :
  res_error (injectCommandsPass tpl env) = None.
Proof.
  pose proof (injectCommandsPass_not_Err tpl env) as H.
  destruct (injectCommandsPass tpl env) as [?|x e|]; [done | | done].
  by destruct (H x e).
Qed.

(** Statement by statement: a successful injection changes the command of
    a statement as [injected] says and nothing else. *)
Lemma injectCommandsPass_steps tpl env tpl' env' :
  injectCommandsPass tpl env = Ok (tpl', env') ->
  env' = env /\ ID tpl' = ID tpl /\
  Forall2 (stmtStep (injected env)) (Statements tpl) (Statements tpl').
Proof.
  unfold injectCommandsPass, visitCommandNodesE.
  intros ([? []] & ([sts' []] & Hv & [= <-])%res_map_Ok & [= <- <-])%res_map_Ok.
  repeat split. eapply visitCommandNodesE_list_Ok; [| done]. apply inject_Ok.
Qed.

(** After a successful injection every command node carries a command
    object with a Run method. *)
Lemma injectCommandsPass_runnable tpl env tpl' env' c :
  injectCommandsPass tpl env = Ok (tpl', env') ->
  c ∈ CommandNodesIterator tpl' ->
  exists cmd, NodeCommand c = Some cmd /\ is_Some (cmdRunCtx cmd).
Proof.
  intros (_ & _ & HF%stmtStep_commands)%injectCommandsPass_steps Hc.
  destruct (Forall2_elem_of_r _ _ _ _ HF Hc)
    as (c0 & _ & lookuper & cmd & _ & _ & Hrun & ->).
  by exists cmd.
Qed.

(** When injectCommandsPass succeeds, every command node carries the
    command object the registry gives for its key, and nothing else has
    changed. *)
Theorem injectCommandsPass_Ok tpl env tpl' env' :
  injectCommandsPass tpl env = Ok (tpl', env') ->
  env' = env /\ ID tpl' = ID tpl /\
  Forall2 (injected env) (CommandNodesIterator tpl) (CommandNodesIterator tpl').
Proof.
  intros (-> & ? & ?)%injectCommandsPass_steps.
  repeat split; [done |]. by apply stmtStep_commands.
Qed.

(** When the registry has no command for the key of a command node,
    injectCommandsPass panics. *)
Theorem injectCommandsPass_panics tpl env lookuper node :
  Lookuper env = Some lookuper ->
  node ∈ CommandNodesIterator tpl ->
  lookuper [nodeKey node] = None ->
  is_Panic (injectCommandsPass tpl env) = true.
Proof.
  intros Hl Hin Hnone. unfold injectCommandsPass, visitCommandNodesE.
  pose proof (visitCommandNodesE_list_Panic (inject env) (Statements tpl) tt node
                (inject_no_Err env) Hin) as Hp.
  destruct (visitCommandNodesE_list _ _ _) as [[? ?]|[? ?] ?|]; simpl in *;
    try done; apply Hp; intros a; unfold inject; by rewrite Hl, Hnone.
Qed.

(** *** resolveAgainstDefinitions *)

Lemma unexpectedParamKey_None c def keys :
  unexpectedParamKey c def keys = None <->
  Forall (fun k => k ∈ Required def \/ k ∈ Extra def) keys.
Proof.
  induction keys as [|k keys IH]; simpl; [by split; [constructor |] |].
  rewrite Forall_cons, <- IH, <- !foundIn_spec.
  destruct (foundIn k (Required def)), (foundIn k (Extra def)); simpl;
    naive_solver.
Qed.

(** The flag of the inner loop says whether the param is there. *)
Lemma addRequired_eq entity (params : gmap string value) required :
  addRequired entity params required =
  match params !! required with
  | None => <[required := VHole (normalized entity required)]> params
  | Some _ => params
  end.
Proof.
  unfold addRequired. destruct (params !! required) eqn:E.
  - by destruct (existsb _ _).
  - destruct (existsb _ _) eqn:Ex; [| done].
    apply existsb_exists in Ex as (k & Hk%list_elem_of_In & ->%bool_decide_eq_true).
    apply list_elem_of_fmap in Hk as ([k v] & -> & Hkv%elem_of_map_to_list).
    simpl in *. congruence.
Qed.

(** The params after the required ones are added: what was given stays, a
    required param that was not given is a hole named after the entity. *)
Lemma foldl_addRequired_lookup entity (params : gmap string value) required k :
  foldl (addRequired entity) params required !! k =
  match params !! k with
  | Some v => Some v
  | None =>
      if decide (k ∈ required) then Some (VHole (normalized entity k)) else None
  end.
Proof.
  revert params. induction required as [|r required IH]; intros params; simpl.
  - by destruct (params !! k).
  - rewrite IH, addRequired_eq. destruct (decide (k = r)) as [->|Hne].
    + destruct (params !! r) eqn:E; rewrite ?E, ?lookup_insert_eq; [done |].
      rewrite decide_True; [done | left].
    + destruct (params !! r); rewrite ?lookup_insert_ne by done;
        destruct (params !! k); try done; repeat case_decide; set_solver.
Qed.

Lemma verifyValidParamsOnlyDef_Ok lookup c a c' a' :
  verifyValidParamsOnlyDef lookup c a = Ok (c', a') ->
  c' = c /\ exists def,
    lookup (nodeKey c) = Some def /\
    forall k, k ∈ Keys c -> k ∈ Required def \/ k ∈ Extra def.
Proof.
  unfold verifyValidParamsOnlyDef. destruct (lookup (nodeKey c)) as [def|]; [| done].
  destruct (unexpectedParamKey c def (Keys c)) eqn:E; simpl; [done |].
  intros [= <- _]. split; [done |]. exists def. split; [done |].
  by apply Forall_forall, (unexpectedParamKey_None c).
Qed.

(** Statement by statement: a successful resolution against the
    definitions changes the command of a statement as [definedStep] says and
    nothing else. *)
Lemma resolveAgainstDefinitions_steps tpl env tpl' env' :
  resolveAgainstDefinitions tpl env = Ok (tpl', env') ->
  env' = env /\
  exists lookup,
    DefLookupFunc env = Some lookup /\
    Forall2 (stmtStep (definedStep lookup)) (Statements tpl) (Statements tpl').
Proof.
  unfold resolveAgainstDefinitions.
  destruct (DefLookupFunc env) as [lookup|]; [| done].
  unfold visitCommandNodesE, visitCommandNodes.
  destruct (visitCommandNodesE_list _ _ _) as [[sts1 []]|[? ?] ?|] eqn:E1;
    simpl; try done.
  pose proof (visitCommandNodes_list_rel (addRequiredHoles lookup)
                (fun c c' => c' = fst (addRequiredHoles lookup c tt)) sts1 tt) as H2.
  destruct (visitCommandNodes_list _ sts1 tt) as [sts2 []]. simpl in *.
  intros [= <- <-]. split; [done |]. exists lookup. split; [done |].
  eapply Forall2_impl;
    [eapply stmtStep_compose;
       [eapply visitCommandNodesE_list_Ok; [apply verifyValidParamsOnlyDef_Ok | done]
       | apply H2; by intros c []] |].
  intros st st'. unfold stmtStep. destruct (commandOf st) as [c|]; [| done].
  intros (c'' & (c' & [-> (def & Hdef & Hkeys)] & ->) & ->). eexists.
  split; [| done]. exists def. unfold addRequiredHoles. by rewrite Hdef.
Qed.

(** When resolveAgainstDefinitions succeeds, every command has a
    definition, its params are among the required and the extra params of
    the definition, and it has been given the required params it lacked;
    the environment is as it was. *)
Theorem resolveAgainstDefinitions_Ok tpl env tpl' env' :
  resolveAgainstDefinitions tpl env = Ok (tpl', env') ->
  env' = env /\
  exists lookup,
    DefLookupFunc env = Some lookup /\
    Forall2 (definedStep lookup)
            (CommandNodesIterator tpl) (CommandNodesIterator tpl').
Proof.
  intros (-> & lookup & ? & ?)%resolveAgainstDefinitions_steps.
  split; [done |]. exists lookup. split; [done |]. by apply stmtStep_commands.
Qed.

Lemma definedStep_required lookup c c' :
  definedStep lookup c c' ->
  exists def,
    lookup (nodeKey c) = Some def /\
    forall k, Params c' !! k =
              match Params c !! k with
              | Some v => Some v
              | None =>
                  if decide (k ∈ Required def)
                  then Some (VHole (normalized (Entity c) k)) else None
              end.
Proof.
  intros (def & Hdef & _ & ->). exists def. split; [done |]. intros k.
  apply foldl_addRequired_lookup.
Qed.

(** After resolveAgainstDefinitions every required param of a command
    is among its params: as it was given, or as a hole [entity.param]; the
    params that were given are as they were. *)
Theorem resolveAgainstDefinitions_required tpl env tpl' env' :
  resolveAgainstDefinitions tpl env = Ok (tpl', env') ->
  Forall2 (fun c c' =>
             exists def,
               (DefLookupFunc env ≫= fun lookup => lookup (nodeKey c)) = Some def /\
               forall k, Params c' !! k =
                         match Params c !! k with
                         | Some v => Some v
                         | None =>
                             if decide (k ∈ Required def)
                             then Some (VHole (normalized (Entity c) k))
                             else None
                         end)
          (CommandNodesIterator tpl) (CommandNodesIterator tpl').
Proof.
  intros (_ & lookup & Hl & HF%stmtStep_commands)%resolveAgainstDefinitions_steps.
  eapply Forall2_impl; [done |]. intros c c' Hstep. rewrite Hl. simpl.
  by apply definedStep_required.
Qed.

(** *** validateCommandsParamsPass and normalizeMissingRequiredParamsAsHolePass *)

Lemma verifyValidParamsOnly_Ok env c a c' a' :
  verifyValidParamsOnly env c a = Ok (c', a') ->
  c' = c /\ exists missing, paramsValidated env c missing.
Proof.
  unfold verifyValidParamsOnly, paramsValidated.
  destruct (Lookuper env) as [lookuper|]; [| done].
  destruct (lookuper [nodeKey c]) as [cmd|] eqn:El; [| done].
  destruct (cmdValidateParams cmd) as [v|] eqn:Ec; [| done].
  destruct (v (Keys c)) as [missing [err|]] eqn:Ev; [done |].
  intros [= <- _]. split; [done |]. by exists missing, lookuper, cmd, v.
Qed.

Lemma verifyValidParamsOnly_state env c a c' a' :
  res_state (verifyValidParamsOnly env c a) = Some (c', a') -> c' = c.
Proof.
  unfold verifyValidParamsOnly.
  destruct (Lookuper env) as [lookuper|]; [| done].
  destruct (lookuper [nodeKey c]) as [cmd|]; [| by intros [= <- _]].
  destruct (cmdValidateParams cmd) as [v|]; [| by intros [= <- _]].
  destruct (v (Keys c)) as [missing [err|]]; by intros [= <- _].
Qed.

(** ValidateCommandsParamsPass changes neither the template nor the
    environment, whether it succeeds or fails; when it succeeds, every
    command is in the registry and accepts the keys of its params. *)
Theorem validateCommandsParamsPass_spec tpl env tpl' env' :
  res_state (validateCommandsParamsPass tpl env) = Some (tpl', env') ->
  tpl' = tpl /\ env' = env /\
  (is_Ok (validateCommandsParamsPass tpl env) = true ->
   forall c, c ∈ CommandNodesIterator tpl ->
             exists missing, paramsValidated env c missing).
Proof.
  unfold validateCommandsParamsPass, visitCommandNodesE.
  destruct (visitCommandNodesE_list _ _ _) as [[sts' []]|[sts' []] e|] eqn:E;
    simpl; try done; intros [= <- <-];
    pose proof (visitCommandNodesE_list_unchanged _ (Statements tpl) tt
                  (verifyValidParamsOnly_state env) sts' tt) as Hsame;
    rewrite E in Hsame; rewrite Hsame by done; destruct tpl;
    (split; [done |]); (split; [done |]); [| done].
  intros _ c Hc.
  eapply visitCommandNodesE_list_Ok in E; [| apply verifyValidParamsOnly_Ok].
  apply stmtStep_commands in E.
  destruct (Forall2_elem_of_l _ _ _ _ E Hc) as (? & _ & _ & ?). done.
Qed.

Lemma foldl_normalize_lookup entity (params : gmap string value) missing k :
  foldl (fun params e => <[e := VHole (normalized entity e)]> params)
        params missing !! k =
  if decide (k ∈ missing) then Some (VHole (normalized entity k))
  else params !! k.
Proof.
  revert params. induction missing as [|e missing IH]; intros params; simpl;
    [done |].
  rewrite IH. destruct (decide (k = e)) as [->|Hne].
  - rewrite lookup_insert_eq. repeat case_decide; set_solver.
  - rewrite lookup_insert_ne by done. repeat case_decide; set_solver.
Qed.

Lemma normalize_Ok env c a c' a' :
  normalize env c a = Ok (c', a') -> normalizedStep env c c'.
Proof.
  unfold normalize, normalizedStep, paramsValidated.
  destruct (Lookuper env) as [lookuper|]; [| done].
  destruct (lookuper [nodeKey c]) as [cmd|] eqn:El; [| done].
  destruct (cmdValidateParams cmd) as [v|] eqn:Ec; [| done].
  destruct (v (Keys c)) as [missing [err|]] eqn:Ev; [done |].
  intros [= <- _]. exists missing. split; [by exists lookuper, cmd, v |].
  repeat split. intros k. apply foldl_normalize_lookup.
Qed.

(** C31. When normalizeMissingRequiredParamsAsHolePass succeeds, every
    param a command reports as missing is a hole named [entity.param], and
    the other params are as they were; the environment is as it was. *)
Theorem normalizeMissingRequiredParamsAsHolePass_Ok tpl env tpl' env' :
  normalizeMissingRequiredParamsAsHolePass tpl env = Ok (tpl', env') ->
  env' = env /\
  Forall2 (normalizedStep env)
          (CommandNodesIterator tpl) (CommandNodesIterator tpl').
Proof.
  unfold normalizeMissingRequiredParamsAsHolePass, visitCommandNodesE.
  intros ([? []] & ([sts' []] & Hv & [= <-])%res_map_Ok & [= <- <-])%res_map_Ok.
  split; [done |]. apply stmtStep_commands.
  eapply visitCommandNodesE_list_Ok; [| done]. apply normalize_Ok.
Qed.

(** *** convertParamsPass and validateCommandsPass *)

Lemma foldl_delete_lookup (params : gmap string value) keys k :
  foldl (fun ps k => delete k ps) params keys !! k =
  if decide (k ∈ keys) then None else params !! k.
Proof.
  revert params. induction keys as [|x keys IH]; intros params; simpl; [done |].
  rewrite IH. destruct (decide (k = x)) as [->|Hne].
  - rewrite lookup_delete_eq. repeat case_decide; set_solver.
  - rewrite lookup_delete_ne by done. repeat case_decide; set_solver.
Qed.

Lemma foldl_values_lookup (params : gmap string lit) keys k :
  foldl (fun values k =>
           match params !! k with
           | Some vv => <[k := vv]> values
           | None => values
           end) (∅ : gmap string lit) keys !! k =
  if decide (k ∈ keys) then params !! k else None.
Proof.
  enough (forall acc : gmap string lit,
            foldl (fun values k =>
                     match params !! k with
                     | Some vv => <[k := vv]> values
                     | None => values
                     end) acc keys !! k =
            if decide (k ∈ keys)
            then match params !! k with Some v => Some v | None => acc !! k end
            else acc !! k) as H.
  { rewrite H, lookup_empty. by destruct (params !! k). }
  induction keys as [|x keys IH]; intros acc; simpl; [done |].
  rewrite IH. destruct (decide (k = x)) as [->|Hne].
  - destruct (params !! x) eqn:E; rewrite ?lookup_insert_eq;
      repeat case_decide; set_solver.
  - destruct (params !! x); rewrite ?lookup_insert_ne by done;
      repeat case_decide; set_solver.
Qed.

Lemma converted_lookup (d : gmap string value) (converted : gmap string lit) k :
  map_fold (fun k v ps => <[k := VLit v]> ps) d converted !! k =
  match converted !! k with Some v => Some (VLit v) | None => d !! k end.
Proof.
  apply (map_fold_weak_ind (fun r m =>
    r !! k = match m !! k with Some v => Some (VLit v) | None => d !! k end)).
  - by rewrite lookup_empty.
  - intros i x m r Hi IH. destruct (decide (k = i)) as [->|Hne].
    + by rewrite !lookup_insert_eq.
    + by rewrite !lookup_insert_ne.
Qed.

(** The params after a conversion: the converted values as literals, the
    keys handed to the converter gone, the others as they were; the
    converter sees the plain values of the keys it names. *)
Lemma convert_Ok env c a c' a' lookuper cmd keys convFunc :
  Lookuper env = Some lookuper -> lookuper [nodeKey c] = Some cmd ->
  cmdConvertParams cmd = Some (keys, convFunc) ->
  convert env c a = Ok (c', a') ->
  exists values converted,
    convFunc values = (converted, None) /\
    (forall k, values !! k =
               if decide (k ∈ keys) then ToDriverParams c !! k else None) /\
    forall k, Params c' !! k =
              match converted !! k with
              | Some v => Some (VLit v)
              | None => if decide (k ∈ keys) then None else Params c !! k
              end.
Proof.
  intros Hl Hc Hconv. unfold convert. rewrite Hl, Hc, Hconv.
  destruct (convFunc _) as [converted [err|]] eqn:E; [done |].
  intros [= <- _]. eexists _, converted. split; [exact E |].
  split; [apply foldl_values_lookup |]. intros k. simpl.
  by rewrite converted_lookup, foldl_delete_lookup.
Qed.

Lemma keepsParams_refl c : keepsParams c c.
Proof. intros k v' ?. by left. Qed.

Lemma convert_keeps env c a c' a' :
  res_state (convert env c a) = Some (c', a') -> keepsParams c c'.
Proof.
  unfold convert. destruct (Lookuper env) as [lookuper|]; [| done].
  destruct (lookuper [nodeKey c]) as [cmd|];
    [| intros [= <- _]; apply keepsParams_refl].
  destruct (cmdConvertParams cmd) as [[keys convFunc]|];
    [| intros [= <- _]; apply keepsParams_refl].
  destruct (convFunc _) as [converted [err|]];
    [intros [= <- _]; apply keepsParams_refl |].
  intros [= <- _] k v'. simpl. rewrite converted_lookup, foldl_delete_lookup.
  destruct (converted !! k); [intros [= <-]; eauto |].
  case_decide; [done | by left].
Qed.

Lemma inject_keeps env c a c' a' :
  res_state (inject env c a) = Some (c', a') -> keepsParams c c'.
Proof.
  unfold inject. destruct (Lookuper env); [| done].
  destruct (assertCommand _); [| done]. intros [= <- _] k v' ?. by left.
Qed.

(** A node whose params are kept or made literals gets no hole and no
    alias. *)
Lemma keepsParams_resolved c c' :
  keepsParams c c' ->
  CommandNode_GetHoles c = [] -> CommandNode_GetAliases c = [] ->
  CommandNode_GetHoles c' = [] /\ CommandNode_GetAliases c' = [].
Proof.
  intros Hk Hh Ha. split; apply elem_of_nil_inv; intros x.
  - intros (k & v' & Hv & Hx)%CommandNode_GetHoles_elem_of.
    destruct (Hk _ _ Hv) as [Hold | [l ->]]; [| by apply elem_of_nil in Hx].
    apply (not_elem_of_nil x). rewrite <- Hh.
    apply CommandNode_GetHoles_elem_of. eauto.
  - intros (k & v' & Hv & Hx)%CommandNode_GetAliases_elem_of.
    destruct (Hk _ _ Hv) as [Hold | [l ->]]; [| by apply elem_of_nil in Hx].
    apply (not_elem_of_nil x). rewrite <- Ha.
    apply CommandNode_GetAliases_elem_of. eauto.
Qed.

(** The last three passes of the new runner leave every param as it was or
    make it a literal. *)
Lemma convertParamsPass_keeps tpl env tpl' env' :
  res_state (convertParamsPass tpl env) = Some (tpl', env') ->
  Forall2 (stmtStep keepsParams) (Statements tpl) (Statements tpl').
Proof.
  unfold convertParamsPass, visitCommandNodesE.
  destruct (visitCommandNodesE_list _ _ _) as [[sts' []]|[sts' []] e|] eqn:E;
    simpl; try done; intros [= <- _]; simpl;
    eapply (visitCommandNodesE_list_state (convert env)); try (by rewrite E);
    eauto using convert_keeps, keepsParams_refl.
Qed.

Lemma injectCommandsPass_keeps tpl env tpl' env' :
  res_state (injectCommandsPass tpl env) = Some (tpl', env') ->
  Forall2 (stmtStep keepsParams) (Statements tpl) (Statements tpl').
Proof.
  unfold injectCommandsPass, visitCommandNodesE.
  destruct (visitCommandNodesE_list _ _ _) as [[sts' []]|[sts' []] e|] eqn:E;
    simpl; try done; intros [= <- _]; simpl;
    eapply (visitCommandNodesE_list_state (inject env)); try (by rewrite E);
    eauto using inject_keeps, keepsParams_refl.
Qed.

(** convertParamsPass never returns an error, whatever its visit returns. *)
Lemma convertParamsPass_no_error tpl env :
  res_error (convertParamsPass tpl env) = None.
Proof.
  unfold convertParamsPass.
  by destruct (visitCommandNodesE _ _ _) as [[? ?]|[? ?] ?|].
Qed.

(** The report of validateCommandsPass: nothing for no error, the error for
    one, the list for several. *)
Lemma validationReport_None errs : validationReport errs = None <-> errs = [].
Proof. destruct errs as [|? [|? ?]]; by split. Qed.

Lemma collectValidationErrs_state env c (a : list error) c' a' :
  res_state (collectValidationErrs env c a) = Some (c', a') -> c' = c.
Proof.
  unfold collectValidationErrs. destruct (Lookuper env) as [lookuper|]; [| done].
  destruct (lookuper [nodeKey c]) as [cmd|]; [| by intros [= <- _]].
  destruct (cmdValidateCommand cmd); by intros [= <- _].
Qed.

(** validateCommandsPass leaves the template and the environment as they
    are, whether it succeeds or fails. *)
Lemma validateCommandsPass_state tpl env tpl' env' :
  res_state (validateCommandsPass tpl env) = Some (tpl', env') ->
  tpl' = tpl /\ env' = env.
Proof.
  unfold validateCommandsPass, visitCommandNodesE.
  pose proof (visitCommandNodesE_list_unchanged (collectValidationErrs env)
                (Statements tpl) [] (collectValidationErrs_state env)) as Hsame.
  destruct (visitCommandNodesE_list _ _ _) as [[sts' errs]|[sts' errs] e|];
    simpl; [| | done].
  all: rewrite (Hsame sts' errs eq_refl).
  all: destruct (validationReport errs); simpl; intros [= <- <-];
    by destruct tpl.
Qed.

(** What the visit of validateCommandsPass has collected when it ends. *)
Lemma collectValidationErrs_collected env lookuper nodes (errs : list error) :
  Lookuper env = Some lookuper ->
  res_state (foldCommandNodesE (collectValidationErrs env) nodes errs)
  = Some (errs ++ collectedErrs lookuper nodes).
Proof.
  intros Hl. revert errs. induction nodes as [|node nodes IH]; intros errs;
    simpl; [by rewrite app_nil_r |].
  unfold collectValidationErrs at 1, commandErrs. rewrite Hl.
  destruct (lookuper [nodeKey node]) as [cmd|]; simpl; [| by rewrite app_nil_r].
  destruct (cmdValidateCommand cmd); rewrite IH; [by rewrite app_assoc | done].
Qed.

(** validateCommandsPass is the report on the errors of the commands, those
    after a command the registry does not know left out: the template and
    the environment are returned as they are. *)
Theorem validateCommandsPass_spec tpl env lookuper :
  Lookuper env = Some lookuper ->
  validateCommandsPass tpl env
  = match validationReport (collectedErrs lookuper (CommandNodesIterator tpl)) with
    | None => Ok (tpl, env)
    | Some err => Err (tpl, env) err
    end.
Proof.
  intros Hl. unfold validateCommandsPass, visitCommandNodesE.
  pose proof (visitCommandNodesE_list_unchanged (collectValidationErrs env)
                (Statements tpl) [] (collectValidationErrs_state env)) as Hsame.
  pose proof (collectValidationErrs_collected env lookuper
                (CommandNodesIterator tpl) [] Hl) as Hacc.
  unfold CommandNodesIterator in Hacc at 1.
  rewrite <- visitCommandNodesE_list_acc in Hacc.
  destruct (visitCommandNodesE_list _ _ _) as [[sts' errs]|[sts' errs] e|];
    simpl in *; [| | done].
  all: rewrite (Hsame sts' errs eq_refl); injection Hacc as ->.
  all: destruct tpl; by destruct (validationReport _).
Qed.

(** When the registry knows every command, every error is reported. *)
Lemma collectedErrs_all (lookuper : LookupFunc W) nodes :
  Forall (fun node => is_Some (lookuper [nodeKey node])) nodes ->
  collectedErrs lookuper nodes
  = flat_map (fun node => from_option (fun cmd => commandErrs cmd node) []
                                      (lookuper [nodeKey node])) nodes.
Proof.
  induction 1 as [|node nodes [cmd Hc] _ IH]; simpl; [done |].
  by rewrite Hc, IH.
Qed.

(** C30. The lookup error of the visit is dropped, and with it the errors of
    the commands after a command the registry does not know: a template
    whose first command is unknown passes validation, whatever the commands
    after it would report. *)
Theorem validateCommandsPass_unknown tpl env lookuper node nodes :
  Lookuper env = Some lookuper ->
  CommandNodesIterator tpl = node :: nodes ->
  lookuper [nodeKey node] = None ->
  validateCommandsPass tpl env = Ok (tpl, env).
Proof.
  intros Hl Hn Hnone. rewrite (validateCommandsPass_spec tpl env lookuper Hl), Hn.
  simpl. by rewrite Hnone.
Qed.

End commands_theorems.

(** ** The theorems on the sample templates *)

Lemma injectCommandsPass_Ok_witness :
  (S3_of injectCommandsPass Sample.runnerEnv).2 = Sample.runnerEnv /\
  ID (S3_of injectCommandsPass Sample.runnerEnv).1 = ID Sample.S3 /\
  Forall2 (injected Sample.runnerEnv)
          (CommandNodesIterator Sample.S3)
          (CommandNodesIterator (S3_of injectCommandsPass Sample.runnerEnv).1).
Proof.
  apply (injectCommandsPass_Ok Sample.S3 Sample.runnerEnv). vm_compute. reflexivity.
Defined.

(** The sample registry has no command to create a load balancer. *)
Lemma injectCommandsPass_panics_witness :
  is_Panic (injectCommandsPass Sample.S2 Sample.runnerEnv) = true.
Proof.
  eapply (injectCommandsPass_panics Sample.S2 Sample.runnerEnv Sample.registry).
  - reflexivity.
  - unfold CommandNodesIterator. simpl. left.
  - vm_compute. reflexivity.
Defined.

Lemma resolveAgainstDefinitions_Ok_witness :
  (S3_of resolveAgainstDefinitions Sample.env).2 = Sample.env /\
  exists lookup,
    DefLookupFunc Sample.env = Some lookup /\
    Forall2 (definedStep lookup)
            (CommandNodesIterator Sample.S3)
            (CommandNodesIterator (S3_of resolveAgainstDefinitions Sample.env).1).
Proof.
  apply (resolveAgainstDefinitions_Ok Sample.S3 Sample.env). vm_compute. reflexivity.
Defined.

Lemma resolveAgainstDefinitions_required_witness :
  Forall2 (fun c c' =>
             exists def,
               (DefLookupFunc Sample.env ≫= fun lookup => lookup (nodeKey c))
               = Some def /\
               forall k, Params c' !! k =
                         match Params c !! k with
                         | Some v => Some v
                         | None =>
                             if decide (k ∈ Required def)
                             then Some (VHole (normalized (Entity c) k))
                             else None
                         end)
          (CommandNodesIterator Sample.S3)
          (CommandNodesIterator (S3_of resolveAgainstDefinitions Sample.env).1).
Proof.
  apply (resolveAgainstDefinitions_required Sample.S3 Sample.env _
           (S3_of resolveAgainstDefinitions Sample.env).2).
  vm_compute. reflexivity.
Defined.

Lemma validateCommandsParamsPass_spec_witness :
  Sample.S3 = Sample.S3 /\ Sample.runnerEnv = Sample.runnerEnv /\
  (is_Ok (validateCommandsParamsPass Sample.S3 Sample.runnerEnv) = true ->
   forall c, c ∈ CommandNodesIterator Sample.S3 ->
             exists missing, paramsValidated Sample.runnerEnv c missing).
Proof.
  apply (validateCommandsParamsPass_spec Sample.S3 Sample.runnerEnv).
  vm_compute. reflexivity.
Defined.

(** S3: the missing subnet of the instance becomes the hole
    instance.subnet. *)
Lemma normalizeMissingRequiredParamsAsHolePass_Ok_witness :
  (S3_of normalizeMissingRequiredParamsAsHolePass Sample.runnerEnv).2
  = Sample.runnerEnv /\
  Forall2 (normalizedStep Sample.runnerEnv)
    (CommandNodesIterator Sample.S3)
    (CommandNodesIterator
       (S3_of normalizeMissingRequiredParamsAsHolePass Sample.runnerEnv).1).
Proof.
  apply (normalizeMissingRequiredParamsAsHolePass_Ok Sample.S3 Sample.runnerEnv).
  vm_compute. reflexivity.
Defined.

(** The sample registry has no command to create a load balancer. *)
Lemma validateCommandsPass_unknown_witness :
  validateCommandsPass Sample.S2 Sample.runnerEnv = Ok (Sample.S2, Sample.runnerEnv).
Proof.
  eapply (validateCommandsPass_unknown Sample.S2 Sample.runnerEnv Sample.registry);
    vm_compute; reflexivity.
Defined.
