(* ===== verification/Compile.v ===== *)
(** * The pipeline

    Models [multiPass.compile], the three modes and [Compile] of
    src/template/compile.go: a mode is a list of passes, run in order until
    the first that fails.  The theorems of this file are about the pipeline as
    a whole: it stops at the first error with the template and environment of
    that pass, and a strict compilation that succeeds leaves no hole and no
    alias in the template. *)

From S2P Require Import Prelude Values Driver Ast Env Template PassRefs.
From S2P Require Import PassHoles PassAlias PassCommands.

Section compile.
Context {W : Type}.

Definition Mode : Type := list (compileFunc W).

(** multiPass.compile: the passes in order; an error ends the loop with what
    the failing pass returned. *)
Fixpoint multiPass_compile (passes : list (compileFunc W))
    (tpl : Template W) (env : Env W) : res (Template W * Env W) :=
  match passes with
  | [] => Ok (tpl, env)
  | pass :: rest =>
      match pass tpl env with
      | Ok (newTpl, newEnv) => multiPass_compile rest newTpl newEnv
      | Err st err => Err st err
      | Panic why => Panic why
      end
  end.

Definition LenientCompileMode : Mode := [
  resolveAgainstDefinitions;
  checkInvalidReferenceDeclarationsPass;
  resolveHolesPass;
  resolveMissingHolesPass;
  resolveAliasPass;
  inlineVariableValuePass
].

Definition NormalCompileMode : Mode :=
  LenientCompileMode ++ [
    failOnUnresolvedHolesPass;
    failOnUnresolvedAliasPass
  ].

Definition NewRunnerCompileMode : Mode := [
  verifyCommandsDefinedPass;
  validateCommandsParamsPass;
  normalizeMissingRequiredParamsAsHolePass;
  checkInvalidReferenceDeclarationsPass;
  resolveHolesPass;
  resolveMissingHolesPass;
  resolveAliasPass;
  inlineVariableValuePass;
  failOnUnresolvedHolesPass;
  failOnUnresolvedAliasPass;
  convertParamsPass;
  validateCommandsPass;
  injectCommandsPass
].

(** Compile: the first mode given, the normal mode when none is. *)
Definition Compile (tpl : Template W) (env : Env W) (mode : list Mode)
    : res (Template W * Env W) :=
  match mode with
  | m :: _ => multiPass_compile m tpl env
  | [] => multiPass_compile NormalCompileMode tpl env
  end.

End compile.

(** ** Sample data *)

(** What the scenarios look at in the outcome of a compilation: the
    statements, the processed fillers and the resolved variables. *)
Definition outcome {W : Type} (r : res (Template W * Env W))
    : res (list (Statement W) * gmap string value * option (gmap string lit)) :=
  res_map (fun '(tpl, env) =>
             (Statements tpl, GetProcessedFillers env, ResolvedVariables env)) r.

(** The compiled form of S1 the specification expects. *)
Definition S1_compiled : list (Statement (list string)) := [
  Sample.decl "sub" (ECommand (Sample.node "create" "subnet"
                       [("cidr", Sample.str "10.0.2.0/24");
                        ("name", Sample.str "my-subnet");
                        ("vpc", Sample.str "vpc-1234")]));
  SCommand (Sample.node "update" "subnet"
              [("id", VRef "sub"); ("public", VLit (LBool true))])
].

Definition S2_compiled : list (Statement (list string)) := [
  SCommand (Sample.node "create" "loadbalancer"
              [("name", Sample.str "lb");
               ("subnets", VList [Sample.str "sub-1"; Sample.str "sub-9";
                                  Sample.str "sub-9"])])
].

(** S1 compiled in the normal mode. *)
Definition S1_normal : Template (list string) * Env (list string) :=
  match Compile Sample.S1 Sample.env [] with
  | Ok r => r
  | _ => (Sample.S1, Sample.env)
  end.

(** S6 compiled for the new runner. *)
Definition S6_compiled : Template (list string) * Env (list string) :=
  match Compile Sample.S6 Sample.runnerEnv [NewRunnerCompileMode] with
  | Ok r => r
  | _ => (Sample.S6, Sample.runnerEnv)
  end.

(** The state in which the compilation of S4 fails. *)
Definition S4_failed : Template (list string) * Env (list string) :=
  match Compile Sample.S4 Sample.env [] with
  | Err st _ => st
  | _ => (Sample.S4, Sample.env)
  end.

(** ** Theorems *)

Section compile_theorems.
Context {W : Type}.
Implicit Types (tpl : Template W) (env : Env W) (passes : list (compileFunc W)).

(** C6. The pipeline stops at the first pass that fails: when it returns
    an error, some pass returned that error with that template and
    environment, every pass before it had succeeded, and no pass after it
    has run. *)
Theorem multiPass_compile_first_error passes tpl env st err :
  multiPass_compile passes tpl env = Err st err ->
  exists before pass after tpl1 env1,
    passes = before ++ pass :: after /\
    multiPass_compile before tpl env = Ok (tpl1, env1) /\
    pass tpl1 env1 = Err st err.
Proof.
  revert tpl env. induction passes as [|pass passes IH]; intros tpl env;
    simpl; [done |].
  destruct (pass tpl env) as [[tpl1 env1]|st1 err1|] eqn:E; [| | done].
  - intros (before & p & after & tpl2 & env2 & -> & Hb & Hp)%IH.
    exists (pass :: before), p, after, tpl2, env2. simpl. by rewrite E.
  - intros [= <- <-]. by exists [], pass, passes, tpl, env.
Qed.

(** Two lists of passes in sequence: the second runs on what the first
    returns, when it succeeds. *)
Lemma multiPass_compile_app passes1 passes2 tpl env :
  multiPass_compile (passes1 ++ passes2) tpl env =
  match multiPass_compile passes1 tpl env with
  | Ok (tpl1, env1) => multiPass_compile passes2 tpl1 env1
  | Err st err => Err st err
  | Panic why => Panic why
  end.
Proof.
  revert tpl env. induction passes1 as [|pass passes1 IH]; intros tpl env;
    simpl; [done |].
  by destruct (pass tpl env) as [[tpl1 env1]| |].
Qed.

(** A pipeline that succeeds has run every pass. *)
Lemma multiPass_compile_Ok_app passes1 passes2 tpl env tpl' env' :
  multiPass_compile (passes1 ++ passes2) tpl env = Ok (tpl', env') ->
  exists tpl1 env1,
    multiPass_compile passes1 tpl env = Ok (tpl1, env1) /\
    multiPass_compile passes2 tpl1 env1 = Ok (tpl', env').
Proof.
  rewrite multiPass_compile_app.
  destruct (multiPass_compile passes1 tpl env) as [[tpl1 env1]| |]; [| done..].
  eauto.
Qed.

(** The two guards in sequence. *)
Lemma guards_Ok tpl env tpl' env' :
  multiPass_compile [failOnUnresolvedHolesPass; failOnUnresolvedAliasPass]
                    tpl env = Ok (tpl', env') ->
  tpl' = tpl /\ env' = env /\
  holesOf (Statements tpl) = [] /\ aliasesOf (Statements tpl) = [].
Proof.
  simpl.
  destruct (failOnUnresolvedHolesPass tpl env) as [[tpl1 env1]| |] eqn:Eh;
    [| done..].
  apply failOnUnresolvedHolesPass_Ok_iff in Eh as (-> & -> & ?).
  destruct (failOnUnresolvedAliasPass tpl env) as [[tpl2 env2]| |] eqn:Ea;
    [| done..].
  apply failOnUnresolvedAliasPass_Ok_iff in Ea as (-> & -> & ?).
  by intros [= <- <-].
Qed.

(** C1. A compilation in the normal mode that succeeds leaves no hole and
    no alias in the template. *)
Theorem NormalCompileMode_resolved tpl env tpl' env' :
  Compile tpl env [] = Ok (tpl', env') ->
  holesOf (Statements tpl') = [] /\ aliasesOf (Statements tpl') = [].
Proof.
  unfold Compile, NormalCompileMode.
  intros (tpl1 & env1 & _ & Hg)%multiPass_compile_Ok_app.
  by apply guards_Ok in Hg as (-> & _ & ? & ?).
Qed.

(** The normal mode is the lenient mode followed by the two guards: it
    succeeds exactly when the lenient mode succeeds with a template without
    hole and alias, and then returns what the lenient mode returns. *)
Theorem NormalCompileMode_Lenient tpl env tpl' env' :
  Compile tpl env [NormalCompileMode] = Ok (tpl', env') <->
  Compile tpl env [LenientCompileMode] = Ok (tpl', env') /\
  holesOf (Statements tpl') = [] /\ aliasesOf (Statements tpl') = [].
Proof.
  unfold Compile, NormalCompileMode. rewrite multiPass_compile_app.
  destruct (multiPass_compile LenientCompileMode tpl env) as [[tpl1 env1]| |];
    [| by split; [| intros [? _]] ..].
  split.
  - intros Hg. by apply guards_Ok in Hg as (-> & -> & ? & ?).
  - intros ([= -> ->] & Hh & Ha). simpl.
    rewrite (proj2 (failOnUnresolvedHolesPass_Ok_iff tpl' env' tpl' env'))
      by done.
    by rewrite (proj2 (failOnUnresolvedAliasPass_Ok_iff tpl' env' tpl' env')).
Qed.

(** Statements whose params are kept or made literals get no hole and no
    alias. *)
Lemma keepsParams_statements (sts sts' : list (Statement W)) :
  Forall2 (stmtStep keepsParams) sts sts' ->
  holesOf sts = [] /\ aliasesOf sts = [] ->
  holesOf sts' = [] /\ aliasesOf sts' = [].
Proof.
  unfold holesOf, aliasesOf, stmtHoles. rewrite !flat_map_nil_iff.
  induction 1 as [|st st' sts sts' Hst _ IH]; [done |].
  rewrite !Forall_cons. intros [[Hh Hhs] [Ha Has]].
  destruct (IH (conj Hhs Has)) as [? ?].
  enough (Expr_GetHoles (extractExpressionNode st') = [] /\
          Expr_GetAliases (extractExpressionNode st') = []) by naive_solver.
  unfold stmtStep in Hst. destruct (commandOf st) as [c|] eqn:Ec; [| by subst].
  destruct Hst as (c' & Hk & ->).
  rewrite (extractExpressionNode_commandOf _ _ Ec) in Hh, Ha.
  rewrite (extractExpressionNode_withCommand _ _ _ Ec).
  by apply (keepsParams_resolved c c').
Qed.

(** C22. A compilation for the new runner that succeeds leaves no hole and
    no alias in the template: the guards have run, and the passes after
    them (conversion, validation, injection) put none back. *)
Theorem NewRunnerCompileMode_resolved tpl env tpl' env' :
  Compile tpl env [NewRunnerCompileMode] = Ok (tpl', env') ->
  holesOf (Statements tpl') = [] /\ aliasesOf (Statements tpl') = [].
Proof.
  unfold Compile.
  change NewRunnerCompileMode
    with (take 8 (NewRunnerCompileMode (W:=W))
          ++ [failOnUnresolvedHolesPass; failOnUnresolvedAliasPass]
          ++ [convertParamsPass; validateCommandsPass; injectCommandsPass]).
  intros (tpl1 & env1 & _ & (tpl2 & env2 & Hg & Hlast)%multiPass_compile_Ok_app)
           %multiPass_compile_Ok_app.
  apply guards_Ok in Hg as (-> & -> & Hh & Ha). simpl in Hlast.
  destruct (convertParamsPass tpl1 env1) as [[tpl3 env3]| |] eqn:E3; [| done..].
  destruct (validateCommandsPass tpl3 env3) as [[tpl4 env4]| |] eqn:E4; [| done..].
  destruct (injectCommandsPass tpl4 env4) as [[tpl5 env5]| |] eqn:E5; [| done..].
  injection Hlast as <- <-.
  destruct (validateCommandsPass_state tpl3 env3 tpl4 env4) as [-> ->];
    [by rewrite E4 |].
  eapply keepsParams_statements; [eapply injectCommandsPass_keeps; by rewrite E5 |].
  eapply keepsParams_statements; [eapply convertParamsPass_keeps; by rewrite E3 |].
  done.
Qed.

(** The last pass of a compilation for the new runner is the injection. *)
Lemma NewRunnerCompileMode_last tpl env tpl' env' :
  Compile tpl env [NewRunnerCompileMode] = Ok (tpl', env') ->
  exists tpl1 env1, injectCommandsPass tpl1 env1 = Ok (tpl', env').
Proof.
  unfold Compile.
  change NewRunnerCompileMode
    with (take 12 (NewRunnerCompileMode (W:=W)) ++ [injectCommandsPass]).
  intros (tpl1 & env1 & _ & Hi)%multiPass_compile_Ok_app. simpl in Hi.
  exists tpl1, env1. by destruct (injectCommandsPass tpl1 env1) as [[? ?]| |].
Qed.

(** A compilation for the new runner that succeeds has injected a
    command object with a Run method in every command node of the
    template. *)
Theorem NewRunnerCompileMode_injected tpl env tpl' env' c :
  Compile tpl env [NewRunnerCompileMode] = Ok (tpl', env') ->
  c ∈ CommandNodesIterator tpl' ->
  exists cmd, NodeCommand c = Some cmd /\ is_Some (cmdRunCtx cmd).
Proof.
  intros (tpl1 & env1 & Hi)%NewRunnerCompileMode_last.
  by apply (injectCommandsPass_runnable tpl1 env1 tpl' env').
Qed.

End compile_theorems.

(** ** The scenarios of the specification *)


(** Scenario S2: a list keeps its length and its order through the
    passes, its aliases resolved in place. *)
Example scenario_S2 :
  outcome (Compile Sample.S2 Sample.env [LenientCompileMode]) =
  Ok (S2_compiled, ∅, Some ∅).
Proof. vm_compute. reflexivity. Qed.

(** Scenario S3: the missing required param becomes the hole
    instance.subnet, and the compilation for the new runner fails on it. *)
Example scenario_S3 :
  res_error (Compile Sample.S3 Sample.runnerEnv [NewRunnerCompileMode]) =
  Some (unresolvedHolesErr ["instance.subnet"]).
Proof. vm_compute. reflexivity. Qed.

(** Scenarios S4 and S5: a reference to a later declaration and a
    second declaration of an identifier are refused, with the messages of the
    reference check. *)
Example scenario_S4_S5 :
  res_error (Compile Sample.S4 Sample.env []) = Some (undefinedRefErr "sub") /\
  res_error (Compile Sample.S5 Sample.env []) = Some (alreadyAssignedErr "inst").
Proof. split; vm_compute; reflexivity. Qed.

(** ** The theorems on the sample templates *)

Lemma multiPass_compile_first_error_witness :
  exists before pass after tpl1 env1,
    NormalCompileMode = before ++ pass :: after /\
    multiPass_compile before Sample.S4 Sample.env = Ok (tpl1, env1) /\
    pass tpl1 env1 = Err S4_failed (undefinedRefErr "sub").
Proof.
  apply (multiPass_compile_first_error NormalCompileMode Sample.S4 Sample.env).
  vm_compute. reflexivity.
Defined.

Lemma NormalCompileMode_resolved_witness :
  holesOf (Statements S1_normal.1) = [] /\
  aliasesOf (Statements S1_normal.1) = [].
Proof.
  apply (NormalCompileMode_resolved Sample.S1 Sample.env S1_normal.1 S1_normal.2).
  vm_compute. reflexivity.
Defined.

Lemma NewRunnerCompileMode_injected_witness :
  exists cmd,
    NodeCommand (default (Sample.node "none" "none" [])
                         (head (CommandNodesIterator S6_compiled.1))) = Some cmd /\
    is_Some (cmdRunCtx cmd).
Proof.
  apply (NewRunnerCompileMode_injected Sample.S6 Sample.runnerEnv
           S6_compiled.1 S6_compiled.2).
  - vm_compute. reflexivity.
  - vm_compute. left.
Defined.

Lemma NewRunnerCompileMode_resolved_witness :
  holesOf (Statements S6_compiled.1) = [] /\
  aliasesOf (Statements S6_compiled.1) = [].
Proof.
  apply (NewRunnerCompileMode_resolved Sample.S6 Sample.runnerEnv
           S6_compiled.1 S6_compiled.2).
  vm_compute. reflexivity.
Defined.
