(* ===== verification/Triples.v ===== *)
(** * Specifications of passes

    A pass of src/template/compile.go is a function from a template and an
    environment to a template and an environment, or an error; a mode is a
    list of passes that [multiPass.compile] runs in order.  This file states
    what a pass promises as a triple, [pass_spec Pre pass Post]: from a
    state that satisfies [Pre], a run of the pass that succeeds ends in a
    state related to the first by [Post].  [pass_safe Pre pass] says that
    from such a state the pass does not panic.

    The rules derive the triple of a mode from the triples of its passes:
    the sequence rule, the rule of an invariant that every pass keeps, and
    the rule of a preorder that every pass stays within.  The theorems on
    whole modes of the later files are proved with them. *)

From S2P Require Import Prelude Values Driver Ast Env Template PassRefs.
From S2P Require Import Compile.

Section triples.
Context {W : Type}.

(** What a pass works on. *)
Definition passState : Type := Template W * Env W.

Definition pass_spec (Pre : passState -> Prop) (pass : compileFunc W)
    (Post : passState -> passState -> Prop) : Prop :=
  forall s s', Pre s -> pass s.1 s.2 = Ok s' -> Post s s'.

(** A pass that only checks: when it succeeds it returns the state it was
    given. *)
Definition returns (pass : compileFunc W) : Prop :=
  forall tpl env tpl' env',
    pass tpl env = Ok (tpl', env') -> tpl' = tpl /\ env' = env.

Definition pass_safe (Pre : passState -> Prop) (pass : compileFunc W) : Prop :=
  forall s, Pre s -> is_Panic (pass s.1 s.2) = false.

(** A pass that keeps an invariant and stays within a relation. *)
Definition pass_keeps (I : passState -> Prop) (R : relation passState)
    (pass : compileFunc W) : Prop :=
  pass_spec I pass (fun s s' => I s' /\ R s s').

Implicit Types (Pre I : passState -> Prop) (R Post : relation passState).
Implicit Types (pass : compileFunc W) (passes : list (compileFunc W)).

Lemma pass_spec_weaken Pre Pre' Post Post' pass :
  (forall s, Pre' s -> Pre s) ->
  (forall s s', Pre' s -> Post s s' -> Post' s s') ->
  pass_spec Pre pass Post -> pass_spec Pre' pass Post'.
Proof. unfold pass_spec. eauto. Qed.

Lemma pass_spec_and Pre Post1 Post2 pass :
  pass_spec Pre pass Post1 -> pass_spec Pre pass Post2 ->
  pass_spec Pre pass (fun s s' => Post1 s s' /\ Post2 s s').
Proof. unfold pass_spec. eauto. Qed.

(** A pass that returns its state, when it succeeds. *)
Lemma pass_spec_id Pre pass R `{!Reflexive R} :
  (forall s s', Pre s -> pass s.1 s.2 = Ok s' -> s' = s) ->
  pass_spec Pre pass R.
Proof. intros H s s' Hs Hp. by rewrite (H s s' Hs Hp). Qed.

Lemma returns_spec pass R `{!Reflexive R} :
  returns pass -> pass_spec (fun _ => True) pass R.
Proof.
  intros Hpass. apply pass_spec_id; [done |]. intros [tpl env] [tpl' env'] _ Hp.
  by destruct (Hpass _ _ _ _ Hp) as [-> ->].
Qed.

Lemma state_returns pass :
  (forall tpl env, res_state (pass tpl env) = Some (tpl, env)) -> returns pass.
Proof.
  intros Hpass tpl env tpl' env' Hp. specialize (Hpass tpl env).
  rewrite Hp in Hpass. by injection Hpass.
Qed.

Lemma returns_multiPass passes :
  Forall returns passes -> returns (multiPass_compile passes).
Proof.
  induction 1 as [|pass passes Hp _ IH]; intros tpl env tpl' env'; simpl;
    [by intros [= <- <-] |].
  destruct (pass tpl env) as [[tpl1 env1]| |] eqn:E; [| done..].
  apply Hp in E as [-> ->]. apply IH.
Qed.

(** A state every pass returns as it is. *)
Lemma multiPass_compile_fixpoint passes tpl env :
  Forall (fun pass => pass tpl env = Ok (tpl, env)) passes ->
  multiPass_compile passes tpl env = Ok (tpl, env).
Proof. induction 1 as [|pass passes Hp _ IH]; simpl; [done | by rewrite Hp]. Qed.

(** The sequence rule: the first pass, then the others. *)
Lemma pass_spec_cons Pre Mid Post1 Post2 pass passes :
  pass_spec Pre pass (fun s s1 => Mid s1 /\ Post1 s s1) ->
  pass_spec Mid (multiPass_compile passes) Post2 ->
  pass_spec Pre (multiPass_compile (pass :: passes))
            (fun s s' => exists s1, Post1 s s1 /\ Post2 s1 s').
Proof.
  intros H1 H2 [tpl env] s' Hs. simpl.
  destruct (pass tpl env) as [[tpl1 env1]| |] eqn:E; [| done..].
  intros Hrest. destruct (H1 (tpl, env) (tpl1, env1) Hs E) as [Hmid Hpost].
  exists (tpl1, env1). split; [done |]. by apply (H2 (tpl1, env1)).
Qed.

(** The rule of a mode: an invariant every pass keeps, and a preorder every
    pass stays within, are kept by the mode. *)
Lemma multiPass_compile_keeps I R `{!PreOrder R} passes :
  Forall (pass_keeps I R) passes ->
  pass_keeps I R (multiPass_compile passes).
Proof.
  induction 1 as [|pass passes Hp _ IH].
  - intros s s' Hs [= <-]. by destruct s.
  - eapply pass_spec_weaken; [done | | by eapply (pass_spec_cons I I R)].
    intros s s' _ (s1 & H1 & Hi & H2). split; [done | by etrans].
Qed.

#[local] Instance total_preorder : PreOrder (fun _ _ : passState => True).
Proof. by split. Qed.

Lemma multiPass_compile_invariant I passes :
  Forall (fun pass => pass_spec I pass (fun _ s' => I s')) passes ->
  pass_spec I (multiPass_compile passes) (fun _ s' => I s').
Proof.
  intros H.
  eapply pass_spec_weaken;
    [| | apply (multiPass_compile_keeps I (fun _ _ => True))]; [done | |].
  - by intros s s' _ [? _].
  - eapply Forall_impl; [done |]. intros pass Hp s s' Hs Hr. eauto.
Qed.

Lemma multiPass_compile_rel R `{!PreOrder R} passes :
  Forall (fun pass => pass_spec (fun _ => True) pass R) passes ->
  pass_spec (fun _ => True) (multiPass_compile passes) R.
Proof.
  intros H.
  eapply pass_spec_weaken;
    [| | apply (multiPass_compile_keeps (fun _ => True) R)]; [done | |].
  - by intros s s' _ [_ ?].
  - eapply Forall_impl; [done |]. intros pass Hp s s' Hs Hr. eauto.
Qed.

(** A mode made of passes of a library that keep a relation. *)
Lemma multiPass_compile_sub R `{!PreOrder R} lib passes :
  Forall (fun pass => pass_spec (fun _ => True) pass R) lib ->
  passes ⊆ lib ->
  pass_spec (fun _ => True) (multiPass_compile passes) R.
Proof.
  intros Hlib Hsub. apply (multiPass_compile_rel R).
  apply Forall_forall. intros pass Hp%Hsub.
  by apply (proj1 (Forall_forall _ _) Hlib).
Qed.

(** A mode does not panic from a state of an invariant that its passes
    keep and do not panic from.  *)
Lemma multiPass_compile_safe I passes :
  Forall (fun pass => pass_safe I pass /\
                      pass_spec I pass (fun _ s' => I s')) passes ->
  pass_safe I (multiPass_compile passes).
Proof.
  induction 1 as [|pass passes [Hsafe Hkeep] _ IH]; intros [tpl env] Hs;
    simpl; [done |].
  specialize (Hsafe (tpl, env) Hs). specialize (Hkeep (tpl, env)).
  simpl in *. destruct (pass tpl env) as [[tpl1 env1]| |]; [| done..].
  apply (IH (tpl1, env1)). by apply Hkeep.
Qed.

(** Two modes in sequence. *)
Lemma pass_spec_app Pre Mid Post1 Post2 passes1 passes2 :
  pass_spec Pre (multiPass_compile passes1) (fun s s1 => Mid s1 /\ Post1 s s1) ->
  pass_spec Mid (multiPass_compile passes2) Post2 ->
  pass_spec Pre (multiPass_compile (passes1 ++ passes2))
            (fun s s' => exists s1, Post1 s s1 /\ Post2 s1 s').
Proof.
  intros H1 H2 [tpl env] [tpl' env'] Hs. simpl.
  intros (tpl1 & env1 & E1 & E2)%multiPass_compile_Ok_app.
  destruct (H1 (tpl, env) (tpl1, env1) Hs E1) as [Hmid Hpost].
  exists (tpl1, env1). split; [done |]. by apply (H2 (tpl1, env1)).
Qed.

Lemma pass_safe_app Pre Mid passes1 passes2 :
  pass_safe Pre (multiPass_compile passes1) ->
  pass_spec Pre (multiPass_compile passes1) (fun _ s1 => Mid s1) ->
  pass_safe Mid (multiPass_compile passes2) ->
  pass_safe Pre (multiPass_compile (passes1 ++ passes2)).
Proof.
  intros Hs1 Hk Hs2 [tpl env] Hs. simpl. rewrite multiPass_compile_app.
  specialize (Hs1 (tpl, env) Hs). specialize (Hk (tpl, env)). simpl in *.
  destruct (multiPass_compile passes1 tpl env) as [[tpl1 env1]| |]; [| done..].
  apply (Hs2 (tpl1, env1)). by apply Hk.
Qed.

End triples.

Arguments passState : clear implicits.
