(* ===== verification/Shape.v ===== *)
(** * What compilation keeps of a template

    Every pass of src/template/compile.go rewrites the params and the values
    of a template; none adds a statement, reorders statements or changes the
    action, the entity or the identifier of one, and only
    [inlineVariableValuePass] drops statements, which are declarations of
    values.  Of the environment a pass changes the resolved variables and
    the processed fillers, and nothing else; a map of resolved variables that
    is not nil stays so.

    This file states that contract and proves it of every pass, then of
    every mode by the rules of [Triples]:
    - [shapeOf] is what a statement keeps, [thins] the relation between the
      shapes before and after, [env_frame] the fields of the environment
      that stay, [structural] the three together, a preorder on states;
    - [keepsRefs] is what a callback of a visit of the command nodes does to
      a node: the key stays, a param is as it was or carries no reference;
    - [library] lists the passes of compile.go. *)

From S2P Require Import Prelude Values Driver Ast Env Template PassRefs.
From S2P Require Import PassHoles PassAlias PassCommands Compile Triples.

(** The shape of a statement: a command with its action and entity, or a
    declaration with its identifier and, when it declares the result of a
    command, the action and entity of the command. *)
Inductive shape : Type :=
| ShCommand (action entity : string)
| ShDeclaration (ident : string) (command : option (string * string)).

#[global] Instance shape_eq_dec : EqDecision shape.
Proof. solve_decision. Defined.

(** The shape of a declaration of a value. *)
Definition isValueShape (sh : shape) : bool :=
  match sh with
  | ShDeclaration _ None => true
  | _ => false
  end.

(** The shapes after a pass: some declarations of values are gone, and
    nothing else has changed. *)
Definition thins (l l' : list shape) : Prop :=
  l' `sublist_of` l /\
  filter (fun sh => isValueShape sh = false) l' =
  filter (fun sh => isValueShape sh = false) l.

(** The commands of a list of shapes, in order. *)
Definition shapeCommands (l : list shape) : list (string * string) :=
  omap (fun sh => match sh with
                  | ShCommand action entity => Some (action, entity)
                  | ShDeclaration _ command => command
                  end) l.

Section shape.
Context {W : Type}.

Definition shapeOf (st : Statement W) : shape :=
  match st with
  | SCommand c => ShCommand (Action c) (Entity c)
  | SDeclaration d =>
      ShDeclaration (Ident d)
        match Expr d with
        | ECommand c => Some (Action c, Entity c)
        | EValue _ => None
        end
  end.

Definition shapes (tpl : Template W) : list shape :=
  map shapeOf (Statements tpl).

(** The fields of the environment that no pass writes to; and no pass makes
    the map of the resolved variables nil. *)
Definition env_frame (env env' : Env W) : Prop :=
  EnvDriver env' = EnvDriver env /\ Lookuper env' = Lookuper env /\
  IsDryRun env' = IsDryRun env /\ IsNewRunner env' = IsNewRunner env /\
  Fillers env' = Fillers env /\ DefLookupFunc env' = DefLookupFunc env /\
  AliasFunc env' = AliasFunc env /\ MissingHolesFunc env' = MissingHolesFunc env /\
  (is_Some (ResolvedVariables env) -> is_Some (ResolvedVariables env')).

(** What a pass keeps of its state. *)
Definition structural (s s' : passState W) : Prop :=
  ID s'.1 = ID s.1 /\ thins (shapes s.1) (shapes s'.1) /\ env_frame s.2 s'.2.

(** What a callback of a visit keeps of a command node. *)
Definition keepsRefs (c c' : CommandNode W) : Prop :=
  Action c' = Action c /\ Entity c' = Entity c /\
  forall k v', Params c' !! k = Some v' ->
               Params c !! k = Some v' \/ GetRefs v' = [].

(** What a visit of the command nodes keeps of its state, when its callback
    keeps the references: the environment, and the statements but for the
    params of their commands. *)
Definition stepwise (s s' : passState W) : Prop :=
  ID s'.1 = ID s.1 /\ s'.2 = s.2 /\
  Forall2 (stmtStep keepsRefs) (Statements s.1) (Statements s'.1).

(** A pass that is a visit of the command nodes with a callback, and returns
    the environment it was given. *)
Definition visits {S : Type}
    (fn : Env W -> CommandNode W -> S -> res (CommandNode W * S)) (acc : S)
    (pass : compileFunc W) : Prop :=
  forall tpl env tpl' env',
    pass tpl env = Ok (tpl', env') ->
    env' = env /\
    exists acc', res_state (visitCommandNodesE (fn env) tpl acc) = Some (tpl', acc').

(** The passes of compile.go. *)
Definition library : list (compileFunc W) := [
  resolveAgainstDefinitions;
  verifyCommandsDefinedPass;
  validateCommandsParamsPass;
  normalizeMissingRequiredParamsAsHolePass;
  checkInvalidReferenceDeclarationsPass;
  resolveHolesPass;
  resolveMissingHolesPass;
  resolveAliasPass;
  inlineVariableValuePass;
  failOnUnresolvedHolesPass;
  failOnUnresolvedAliasPass;
  convertParamsPass;
  validateCommandsPass;
  injectCommandsPass
].

End shape.

(** ** Sample data *)

(** S1 as the lenient mode compiles it. *)
Definition S1_lenient : Template (list string) * Env (list string) :=
  match Compile Sample.S1 Sample.env [LenientCompileMode] with
  | Ok r => r
  | _ => (Sample.S1, Sample.env)
  end.

(** ** The relations are preorders *)

#[global] Instance thins_preorder : PreOrder thins.
Proof.
  split.
  - by intros l.
  - intros l1 l2 l3 [Hs12 Hf12] [Hs23 Hf23].
    split; [by etrans | congruence].
Qed.

Lemma thins_keep sh l l' : thins l l' -> thins (sh :: l) (sh :: l').
Proof.
  intros [Hs Hf]. split; [by apply sublist_skip |].
  rewrite !filter_cons. case_decide; congruence.
Qed.

Lemma thins_drop sh l l' :
  isValueShape sh = true -> thins l l' -> thins (sh :: l) l'.
Proof.
  intros Hsh [Hs Hf]. split; [by apply sublist_cons |].
  rewrite filter_cons_False; [done | congruence].
Qed.

(** Thinning keeps the commands, and cannot make the list longer. *)
Lemma thins_commands l l' : thins l l' -> shapeCommands l' = shapeCommands l.
Proof.
  assert (forall l, shapeCommands l
                    = shapeCommands (filter (fun sh => isValueShape sh = false) l))
    as Hfilter.
  { intros l0. induction l0 as [|[a e|i [k|]] l0 IH]; [done | ..];
      rewrite ?filter_cons_True, ?filter_cons_False by done; csimpl;
      by rewrite <- ?IH. }
  intros [_ Hf]. by rewrite (Hfilter l), (Hfilter l'), Hf.
Qed.

Lemma thins_length l l' : thins l l' -> length l' <= length l.
Proof. intros [Hs _]. by apply sublist_length. Qed.

Section shape_theorems.
Context {W : Type}.
Implicit Types (tpl : Template W) (env : Env W) (st : Statement W).
Implicit Types (c : CommandNode W) (sts : list (Statement W)).

#[global] Instance env_frame_preorder : PreOrder (@env_frame W).
Proof.
  split.
  - by intros env.
  - intros env1 env2 env3. unfold env_frame. naive_solver congruence.
Qed.

#[global] Instance structural_preorder : PreOrder (@structural W).
Proof.
  split.
  - by intros s.
  - intros s1 s2 s3 (Hi12 & Ht12 & He12) (Hi23 & Ht23 & He23).
    split; [congruence | split; by etrans].
Qed.

#[global] Instance keepsRefs_reflexive : Reflexive (@keepsRefs W).
Proof. intros c. repeat split. intros k v' ?. by left. Qed.

(** The commands of the shapes are the commands of the template. *)
Lemma shapeCommands_shapes tpl :
  shapeCommands (shapes tpl) = map commandKey (CommandNodesIterator tpl).
Proof.
  unfold shapes, CommandNodesIterator.
  induction (Statements tpl) as [|[c|d] sts IH]; csimpl; [done | by rewrite IH |].
  destruct (Expr d); csimpl; by rewrite IH.
Qed.

(** *** Statements *)

Lemma shapeOf_withExpression st e :
  match extractExpressionNode st, e with
  | ECommand c, ECommand c' => Action c' = Action c /\ Entity c' = Entity c
  | EValue _, EValue _ => True
  | _, _ => False
  end ->
  shapeOf (withExpression st e) = shapeOf st.
Proof.
  destruct st as [c|d]; simpl; [destruct e; naive_solver congruence |].
  destruct (Expr d), e; naive_solver congruence.
Qed.

Lemma shapeOf_withCommand st c c' :
  commandOf st = Some c -> Action c' = Action c -> Entity c' = Entity c ->
  shapeOf (withCommand st c') = shapeOf st.
Proof.
  destruct st as [c0|d]; simpl; [naive_solver congruence |].
  destruct (Expr d); naive_solver congruence.
Qed.

Lemma stmtStep_shapeOf st st' :
  stmtStep keepsRefs st st' -> shapeOf st' = shapeOf st.
Proof.
  unfold stmtStep. destruct (commandOf st) as [c|] eqn:Ec; [| by intros ->].
  intros (c' & (? & ? & _) & ->). by apply (shapeOf_withCommand _ c).
Qed.

Lemma shapeOf_fillStmt (F : gmap string value) st :
  shapeOf (fillStmt F st) = shapeOf st.
Proof. apply shapeOf_withExpression. by destruct (extractExpressionNode st). Qed.

Lemma shapeOf_resolveAliasStmt env st :
  shapeOf (resolveAliasStmt env st) = shapeOf st.
Proof. apply shapeOf_withExpression. by destruct (extractExpressionNode st). Qed.

Lemma shapeOf_inlineStmt x v st : shapeOf (inlineStmt x v st) = shapeOf st.
Proof. apply shapeOf_withExpression. by destruct (extractExpressionNode st). Qed.

(** A pass that maps the statements, keeping their shapes, is structural
    when it keeps the frame of the environment. *)
Lemma map_structural (f : Statement W -> Statement W) tpl env env' :
  (forall st, shapeOf (f st) = shapeOf st) -> env_frame env env' ->
  structural (tpl, env) (mkTemplate (ID tpl) (map f (Statements tpl)), env').
Proof.
  intros Hf He. split; [done |]. split; [| done]. unfold shapes. simpl.
  by rewrite map_map, (map_ext (fun st => shapeOf (f st)) shapeOf).
Qed.

#[global] Instance keepsRefs_transitive : Transitive (@keepsRefs W).
Proof.
  intros c1 c2 c3 (Ha12 & He12 & Hp12) (Ha23 & He23 & Hp23).
  repeat split; [congruence | congruence |]. intros k v' Hv'.
  destruct (Hp23 k v' Hv') as [Hv2 | ?]; [by apply Hp12 | by right].
Qed.

#[global] Instance stepwise_preorder : PreOrder (@stepwise W).
Proof.
  split.
  - intros s. repeat split. apply Forall2_same_length_lookup_2; [done |].
    intros i st st' Hst [= <-]%(eq_trans (eq_sym Hst)). unfold stmtStep.
    destruct (commandOf st) as [c|] eqn:Ec; [| done]. exists c.
    split; [done | by rewrite withCommand_same].
  - intros s1 s2 s3 (Hi12 & He12 & Hs12) (Hi23 & He23 & Hs23).
    repeat split; [congruence | congruence |].
    eapply Forall2_impl; [by eapply stmtStep_compose |].
    intros st st'. unfold stmtStep. destruct (commandOf st); [| done].
    intros (c'' & (c' & H1 & H2) & ->). exists c''. split; [by etrans | done].
Qed.

Lemma stepwise_structural (s s' : passState W) :
  stepwise s s' -> structural s s'.
Proof.
  intros (Hi & He & Hs). split; [done |]. rewrite He. split; [| done].
  unfold shapes. replace (map shapeOf (Statements s'.1))
    with (map shapeOf (Statements s.1)); [done |].
  induction Hs as [|st st' sts sts' Hst _ IH]; [done |]. simpl.
  by rewrite IH, (stmtStep_shapeOf st st').
Qed.

(** *** The visits of the command nodes *)

Lemma visitCommandNodesE_steps {S} (R : relation (CommandNode W))
    `{!Reflexive R}
    (fn : CommandNode W -> S -> res (CommandNode W * S)) tpl (acc : S) tpl' acc' :
  (forall c a c' a', res_state (fn c a) = Some (c', a') -> R c c') ->
  res_state (visitCommandNodesE fn tpl acc) = Some (tpl', acc') ->
  ID tpl' = ID tpl /\
  Forall2 (stmtStep R) (Statements tpl) (Statements tpl').
Proof.
  intros Hfn. unfold visitCommandNodesE. rewrite res_map_state.
  destruct (res_state _) as [[sts' a']|] eqn:E; [| done]. intros [= <- _].
  split; [done |]. by eapply visitCommandNodesE_list_state.
Qed.

(** What a pass that visits the command nodes does, statement by
    statement, when its callback stays within a reflexive relation. *)
Lemma visits_steps {S} (R : relation (CommandNode W)) `{!Reflexive R}
    (fn : Env W -> CommandNode W -> S -> res (CommandNode W * S)) (acc : S)
    (pass : compileFunc W) tpl env tpl' env' :
  visits fn acc pass ->
  (forall env c a c' a', res_state (fn env c a) = Some (c', a') -> R c c') ->
  pass tpl env = Ok (tpl', env') ->
  ID tpl' = ID tpl /\ env' = env /\
  Forall2 (stmtStep R) (Statements tpl) (Statements tpl').
Proof.
  intros Hpass Hfn (-> & acc' & Hv)%Hpass.
  apply (visitCommandNodesE_steps R) in Hv as [? ?]; [done | apply Hfn].
Qed.

Lemma visit_pass_stepwise {S}
    (fn : Env W -> CommandNode W -> S -> res (CommandNode W * S))
    (pass : compileFunc W) (acc : S) :
  visits fn acc pass ->
  (forall env c a c' a', res_state (fn env c a) = Some (c', a') -> keepsRefs c c') ->
  pass_spec (fun _ => True) pass stepwise.
Proof.
  intros Hpass Hfn [tpl env] [tpl' env'] _ Hp.
  by apply (visits_steps keepsRefs fn acc pass) in Hp.
Qed.

(** The four passes of that form. *)
Lemma res_map_visits {S}
    (fn : Env W -> CommandNode W -> S -> res (CommandNode W * S)) (acc : S) :
  visits fn acc (fun tpl env =>
                   res_map (fun '(tpl', _) => (tpl', env))
                           (visitCommandNodesE (fn env) tpl acc)).
Proof.
  intros tpl env tpl' env' ([? acc'] & Hv & [= <- <-])%res_map_Ok.
  split; [done |]. exists acc'. by rewrite Hv.
Qed.

Lemma validateCommandsParamsPass_visits :
  visits verifyValidParamsOnly tt (validateCommandsParamsPass (W:=W)).
Proof. apply res_map_visits. Qed.

Lemma normalizeMissingRequiredParamsAsHolePass_visits :
  visits normalize tt (normalizeMissingRequiredParamsAsHolePass (W:=W)).
Proof. apply res_map_visits. Qed.

Lemma injectCommandsPass_visits :
  visits inject tt (injectCommandsPass (W:=W)).
Proof. apply res_map_visits. Qed.

Lemma convertParamsPass_visits : visits convert tt (convertParamsPass (W:=W)).
Proof.
  intros tpl env tpl' env'. unfold convertParamsPass.
  destruct (visitCommandNodesE _ tpl tt) as [[? a]|[? a] ?|]; [| | done];
    intros [= <- <-]; split; try done; by exists a.
Qed.

(** resolveAgainstDefinitions is two visits in sequence: the first changes
    nothing, the second adds params. *)
Lemma resolveAgainstDefinitions_rel (R : relation (CommandNode W))
    `{!Reflexive R} tpl env tpl' env' :
  (forall lookup c (a : unit), R c (fst (addRequiredHoles lookup c a))) ->
  resolveAgainstDefinitions tpl env = Ok (tpl', env') ->
  ID tpl' = ID tpl /\ env' = env /\
  Forall2 (stmtStep R) (Statements tpl) (Statements tpl').
Proof.
  intros HR. unfold resolveAgainstDefinitions.
  destruct (DefLookupFunc env) as [lookup|]; [| done].
  unfold visitCommandNodesE, visitCommandNodes.
  destruct (visitCommandNodesE_list _ _ tt) as [[sts1 []]|[? ?] ?|] eqn:E1;
    [| done..].
  assert (sts1 = Statements tpl) as ->.
  { eapply (visitCommandNodesE_list_unchanged _ _ tt); [| by rewrite E1].
    intros c a c' a'. unfold verifyValidParamsOnlyDef, returnErr.
    repeat case_match; by intros [= <- _]. }
  pose proof (visitCommandNodes_list_rel (addRequiredHoles lookup) R
                (Statements tpl) tt (HR lookup)) as H2.
  simpl. destruct (visitCommandNodes_list _ _ tt) as [sts2 []].
  by intros [= <- <-].
Qed.

Lemma same_keepsRefs c c' : c' = c -> keepsRefs c c'.
Proof. by intros ->. Qed.

Lemma normalize_keepsRefs env c (a : unit) c' a' :
  res_state (normalize env c a) = Some (c', a') -> keepsRefs c c'.
Proof.
  unfold normalize, returnErr.
  repeat case_match; simplify_eq/=; intros [= <- _]; try done.
  repeat split. intros k v'. simpl. rewrite foldl_normalize_lookup.
  case_decide; [by intros [= <-]; right | by left].
Qed.

Lemma convert_keepsRefs env c (a : unit) c' a' :
  res_state (convert env c a) = Some (c', a') -> keepsRefs c c'.
Proof.
  intros Hc. pose proof (convert_keeps _ _ _ _ _ Hc) as Hk.
  assert (Action c' = Action c /\ Entity c' = Entity c) as [? ?].
  { revert Hc. unfold convert, returnErr.
    repeat case_match; simplify_eq/=; by intros [= <- _]. }
  repeat split; [done..|]. intros k v' Hv.
  destruct (Hk k v' Hv) as [? | [l ->]]; [by left | by right].
Qed.

Lemma inject_keepsRefs env c (a : unit) c' a' :
  res_state (inject env c a) = Some (c', a') -> keepsRefs c c'.
Proof.
  unfold inject. repeat case_match; simplify_eq/=; intros [= <- _];
    repeat split; intros k v' ?; by left.
Qed.

Lemma addRequiredHoles_keepsRefs lookup c (a : unit) :
  keepsRefs c (fst (addRequiredHoles lookup c a)).
Proof.
  unfold addRequiredHoles. destruct (lookup _) as [def|]; [| done].
  repeat split. intros k v'. simpl. rewrite foldl_addRequired_lookup.
  destruct (Params c !! k); [by left |]. case_decide; [| done].
  intros [= <-]. by right.
Qed.

(** *** The passes, one by one *)

Lemma verifyCommandsDefinedPass_returns :
  returns (verifyCommandsDefinedPass (W:=W)).
Proof. apply state_returns, verifyCommandsDefinedPass_state. Qed.

Lemma checkInvalidReferenceDeclarationsPass_returns :
  returns (checkInvalidReferenceDeclarationsPass (W:=W)).
Proof. apply state_returns, checkInvalidReferenceDeclarationsPass_state. Qed.

Lemma failOnUnresolvedHolesPass_returns :
  returns (failOnUnresolvedHolesPass (W:=W)).
Proof.
  intros tpl env tpl' env'.
  by intros (-> & -> & _)%failOnUnresolvedHolesPass_Ok_iff.
Qed.

Lemma failOnUnresolvedAliasPass_returns :
  returns (failOnUnresolvedAliasPass (W:=W)).
Proof.
  intros tpl env tpl' env'.
  by intros (-> & -> & _)%failOnUnresolvedAliasPass_Ok_iff.
Qed.

Lemma validateCommandsPass_returns : returns (validateCommandsPass (W:=W)).
Proof.
  intros tpl env tpl' env' Hp. apply validateCommandsPass_state. by rewrite Hp.
Qed.

Lemma verifyCommandsDefinedPass_stepwise :
  pass_spec (fun _ => True) (verifyCommandsDefinedPass (W:=W)) stepwise.
Proof. apply returns_spec, verifyCommandsDefinedPass_returns; apply _. Qed.

Lemma checkInvalidReferenceDeclarationsPass_stepwise :
  pass_spec (fun _ => True) (checkInvalidReferenceDeclarationsPass (W:=W))
            stepwise.
Proof.
  apply returns_spec, checkInvalidReferenceDeclarationsPass_returns; apply _.
Qed.

Lemma failOnUnresolvedHolesPass_stepwise :
  pass_spec (fun _ => True) (failOnUnresolvedHolesPass (W:=W)) stepwise.
Proof. apply returns_spec, failOnUnresolvedHolesPass_returns; apply _. Qed.

Lemma failOnUnresolvedAliasPass_stepwise :
  pass_spec (fun _ => True) (failOnUnresolvedAliasPass (W:=W)) stepwise.
Proof. apply returns_spec, failOnUnresolvedAliasPass_returns; apply _. Qed.

Lemma validateCommandsPass_stepwise :
  pass_spec (fun _ => True) (validateCommandsPass (W:=W)) stepwise.
Proof. apply returns_spec, validateCommandsPass_returns; apply _. Qed.

Lemma validateCommandsParamsPass_stepwise :
  pass_spec (fun _ => True) (validateCommandsParamsPass (W:=W)) stepwise.
Proof.
  apply (visit_pass_stepwise _ _ _ validateCommandsParamsPass_visits).
  intros env c a c' a' ?. by eapply same_keepsRefs, verifyValidParamsOnly_state.
Qed.

Lemma normalizeMissingRequiredParamsAsHolePass_stepwise :
  pass_spec (fun _ => True)
            (normalizeMissingRequiredParamsAsHolePass (W:=W)) stepwise.
Proof.
  apply (visit_pass_stepwise _ _ _ normalizeMissingRequiredParamsAsHolePass_visits),
    normalize_keepsRefs.
Qed.

Lemma convertParamsPass_stepwise :
  pass_spec (fun _ => True) (convertParamsPass (W:=W)) stepwise.
Proof.
  apply (visit_pass_stepwise _ _ _ convertParamsPass_visits), convert_keepsRefs.
Qed.

Lemma injectCommandsPass_stepwise :
  pass_spec (fun _ => True) (injectCommandsPass (W:=W)) stepwise.
Proof.
  apply (visit_pass_stepwise _ _ _ injectCommandsPass_visits), inject_keepsRefs.
Qed.

Lemma resolveAgainstDefinitions_stepwise :
  pass_spec (fun _ => True) (resolveAgainstDefinitions (W:=W)) stepwise.
Proof.
  intros [tpl env] [tpl' env'] _ Hp.
  by apply (resolveAgainstDefinitions_rel keepsRefs) in Hp;
    [| apply addRequiredHoles_keepsRefs].
Qed.

Lemma recordProcessed_frame (F : gmap string value) sts env :
  env_frame env (recordProcessed F sts env).
Proof. by destruct sts. Qed.

Lemma resolveHolesPass_structural :
  pass_spec (fun _ => True) (resolveHolesPass (W:=W)) structural.
Proof.
  intros [tpl env] s' _. simpl. unfold resolveHolesPass.
  rewrite visitHoles_fillers. intros [= <-].
  apply map_structural; [apply shapeOf_fillStmt | apply recordProcessed_frame].
Qed.

Lemma resolveMissingHolesPass_structural :
  pass_spec (fun _ => True) (resolveMissingHolesPass (W:=W)) structural.
Proof.
  intros [tpl env] s' _. simpl. unfold resolveMissingHolesPass.
  rewrite visitHoles_processHolesWith. intros [= <-].
  apply map_structural; [apply shapeOf_fillStmt | apply recordProcessed_frame].
Qed.

Lemma resolveAliasPass_structural :
  pass_spec (fun _ => True) (resolveAliasPass (W:=W)) structural.
Proof.
  intros [tpl env] s' _. simpl. unfold resolveAliasPass.
  rewrite visitHoles_resolveAliasExpr. case_decide; [done |]. intros [= <-].
  by apply map_structural; [apply shapeOf_resolveAliasStmt |].
Qed.

Lemma shapes_inlineInto x v sts :
  map shapeOf (inlineInto x v sts) = map shapeOf sts.
Proof.
  unfold inlineInto. rewrite map_map. apply map_ext, shapeOf_inlineStmt.
Qed.

(** The loop of the inlining pass, with fuel for every statement: the
    statements it drops declare values. *)
Lemma inlineLoop_thins n sts resolved out resolved' :
  length sts <= n ->
  inlineLoop n sts resolved = Ok (out, resolved') ->
  thins (map shapeOf sts) (map shapeOf out).
Proof.
  revert sts resolved out resolved'.
  induction n as [|n IH]; intros [|st rest] resolved out resolved' Hn;
    simpl in *; try (by intros [= <- _]); [lia |].
  assert (forall rest' r',
            map shapeOf rest' = map shapeOf rest -> length rest' <= n ->
            res_map (fun '(sts', r) => (st :: sts', r)) (inlineLoop n rest' r')
            = Ok (out, resolved') ->
            thins (shapeOf st :: map shapeOf rest) (map shapeOf out)) as Hkeep.
  { intros rest' r' Hsh Hlen ([out' r''] & Hl & [= <- _])%res_map_Ok.
    apply IH in Hl; [| done]. rewrite Hsh in Hl. by apply thins_keep. }
  assert (length rest <= n) as Hn' by lia.
  destruct st as [c|d]; [by apply Hkeep |].
  destruct (Expr d) as [c|v] eqn:Ed; [by apply Hkeep |].
  pose proof (shapes_inlineInto (Ident d) v rest) as Hsh.
  pose proof (inlineInto_length (Ident d) v rest) as Hlen.
  destruct (IsResolved v), (Value v), resolved; try done;
    try (apply Hkeep; [done | by rewrite Hlen]);
    intros Hl; apply IH in Hl; rewrite ?Hlen; try done;
    rewrite Hsh in Hl; apply thins_drop; simpl; by rewrite ?Ed.
Qed.

Lemma inlineVariableValuePass_structural :
  pass_spec (fun _ => True) (inlineVariableValuePass (W:=W)) structural.
Proof.
  intros [tpl env] [tpl' env'] _. simpl.
  intros ([out r] & Hl & [= <- <-])%res_map_Ok.
  split; [done |]. split; [by eapply inlineLoop_thins |].
  repeat split. simpl. intros [m Hm]. rewrite Hm in Hl.
  destruct (inlineLoop_Ok (length (Statements tpl)) (Statements tpl) m)
    as (? & m' & Hl'). rewrite Hl' in Hl. injection Hl as _ <-. eauto.
Qed.

Lemma stepwise_pass_structural (pass : compileFunc W) :
  pass_spec (fun _ => True) pass stepwise ->
  pass_spec (fun _ => True) pass structural.
Proof.
  apply pass_spec_weaken; [done |]. intros s s' _. apply stepwise_structural.
Qed.

End shape_theorems.

#[export] Hint Resolve verifyCommandsDefinedPass_stepwise
  checkInvalidReferenceDeclarationsPass_stepwise
  failOnUnresolvedHolesPass_stepwise failOnUnresolvedAliasPass_stepwise
  validateCommandsPass_stepwise validateCommandsParamsPass_stepwise
  normalizeMissingRequiredParamsAsHolePass_stepwise convertParamsPass_stepwise
  injectCommandsPass_stepwise resolveAgainstDefinitions_stepwise
  resolveHolesPass_structural resolveMissingHolesPass_structural
  resolveAliasPass_structural inlineVariableValuePass_structural
  stepwise_pass_structural : awless.

(** Membership of a pass in a list of passes, by its position. *)
Ltac pass_elem :=
  repeat first [ apply list_elem_of_here | apply list_elem_of_further ].

(** Inclusion of a list of passes in another, pass by pass. *)
Ltac passes_subseteq :=
  let p := fresh "pass" in
  let Hp := fresh "Hp" in
  intros p Hp;
  repeat (apply elem_of_cons in Hp as [-> | Hp]; [pass_elem |]);
  by apply elem_of_nil in Hp.

Section modes.
Context {W : Type}.
Implicit Types (tpl : Template W) (env : Env W).

Lemma library_structural :
  Forall (fun pass => pass_spec (fun _ => True) pass structural)
         (library (W:=W)).
Proof.
  unfold library. repeat (apply Forall_cons_2; [auto with awless |]).
  apply Forall_nil_2.
Qed.

Lemma mode_structural (mode : list (compileFunc W)) :
  mode ⊆ library ->
  pass_spec (fun _ => True) (multiPass_compile mode) structural.
Proof.
  apply (multiPass_compile_sub structural library), library_structural.
Qed.

(** C16. A mode made of passes of compile.go keeps the structure of what it
    compiles: the identifier of the template; its statements, in order, with
    their actions, entities and identifiers, but for declarations of values
    that it may drop; and every field of the environment but the resolved
    variables and the processed fillers. *)
Theorem Compile_structural tpl env mode tpl' env' :
  mode ⊆ library ->
  Compile tpl env [mode] = Ok (tpl', env') ->
  structural (tpl, env) (tpl', env').
Proof. intros Hmode Hc. by apply (mode_structural mode Hmode (tpl, env)). Qed.

(** The three modes of compile.go are made of passes of the library. *)
Lemma modes_library :
  LenientCompileMode (W:=W) ⊆ library /\ NormalCompileMode (W:=W) ⊆ library /\
  NewRunnerCompileMode (W:=W) ⊆ library.
Proof.
  unfold NormalCompileMode, LenientCompileMode, NewRunnerCompileMode, library.
  repeat split; passes_subseteq.
Qed.

(** C18. Compilation neither adds, drops nor reorders commands: the command
    keys of a compiled template are those of the source, in order. *)
Theorem Compile_commands tpl env mode tpl' env' :
  mode ⊆ library ->
  Compile tpl env [mode] = Ok (tpl', env') ->
  map commandKey (CommandNodesIterator tpl')
  = map commandKey (CommandNodesIterator tpl).
Proof.
  intros Hmode Hc. rewrite <- !shapeCommands_shapes.
  apply thins_commands.
  by destruct (mode_structural mode Hmode (tpl, env) (tpl', env')) as (_ & ? & _).
Qed.

End modes.

(** ** The theorems on the sample templates *)

Lemma Compile_structural_witness :
  structural (Sample.S1, Sample.env) (S1_lenient.1, S1_lenient.2).
Proof.
  apply (Compile_structural Sample.S1 Sample.env LenientCompileMode).
  - apply modes_library.
  - vm_compute. reflexivity.
Defined.

Lemma Compile_commands_witness :
  map commandKey (CommandNodesIterator S1_lenient.1)
  = map commandKey (CommandNodesIterator Sample.S1).
Proof.
  apply (Compile_commands Sample.S1 Sample.env LenientCompileMode _ S1_lenient.2).
  - apply modes_library.
  - vm_compute. reflexivity.
Defined.
