(* ===== verification/Scoping.v ===== *)
(** * Reference locality through a whole mode

    [checkInvalidReferenceDeclarationsPass] accepts the templates in which
    every reference names an identifier declared by an earlier statement and
    no identifier is declared twice.  This file shows that the passes of
    src/template/compile.go that run after it keep a template so: a
    compiled template is well scoped, whatever the mode, as long as the mode
    runs the check.

    The passes that fill holes put the values of the fillers, or what the
    callback for missing holes answers, in the template: the property needs
    that those carry no reference ([env_closed]); fillers given on a command
    line are literals and aliases.

    The proof goes pass by pass: a pass that only rewrites params and values
    [narrows] each statement, that is, keeps its shape and adds no reference
    to it; variable inlining has its own lemma in [PassRefs]. *)

From S2P Require Import Prelude Values Driver Ast Env Template PassRefs.
From S2P Require Import PassHoles PassAlias PassCommands Compile Triples Shape.

Section scoping.
Context {W : Type}.

(** Fillers without references. *)
Definition refs_free (F : gmap string value) : Prop :=
  forall k f, F !! k = Some f -> GetRefs f = [].

(** An environment whose fillers and whose answers for missing holes carry
    no reference. *)
Definition env_closed (env : Env W) : Prop :=
  refs_free (readMap (Fillers env)) /\
  forall ask k, MissingHolesFunc env = Some ask -> GetRefs (ask k) = [].

(** A statement after a rewriting of its params or value that adds no
    reference. *)
Definition narrows (st st' : Statement W) : Prop :=
  shapeOf st' = shapeOf st /\ forall r, r ∈ stmtRefs st' -> r ∈ stmtRefs st.

(** The invariant of the passes that follow the check. *)
Definition scoped (s : passState W) : Prop :=
  well_scoped ∅ (Statements s.1) /\ env_closed s.2.

End scoping.

#[global] Instance refs_free_dec F : Decision (refs_free F).
Proof.
  refine (cast_if (decide (map_Forall (fun _ f => GetRefs f = []) F)));
    abstract (unfold refs_free, map_Forall in *; naive_solver).
Defined.

(** ** Theorems *)

Section scoping_theorems.
Context {W : Type}.
Implicit Types (tpl : Template W) (env : Env W) (st : Statement W).
Implicit Types (c : CommandNode W) (sts : list (Statement W)).
Implicit Types (F : gmap string value) (known : gset string).

(** Narrowing every statement keeps a list well scoped. *)
Lemma well_scoped_narrows known sts sts' :
  Forall2 narrows sts sts' -> well_scoped known sts -> well_scoped known sts'.
Proof.
  intros HF. revert known.
  induction HF as [|st st' sts sts' [Hsh Hr] _ IH]; intros known Hws; [done |].
  assert (forall refs, Forall (fun r => r ∈ known) refs ->
            (forall r, r ∈ stmtRefs st' -> r ∈ refs) ->
            Forall (fun r => r ∈ known) (stmtRefs st')) as Hrefs.
  { intros refs Hk Hin. rewrite Forall_forall in *. auto. }
  inv Hws; destruct st' as [c'|d']; simplify_eq/=.
  - constructor; [by eapply Hrefs | auto].
  - constructor; [by eapply Hrefs | congruence |].
    replace (Ident d') with (Ident d) by congruence. auto.
Qed.

(** *** The passes that visit the command nodes *)

Lemma keepsRefs_GetRefs c c' r :
  keepsRefs c c' -> r ∈ CommandNode_GetRefs c' -> r ∈ CommandNode_GetRefs c.
Proof.
  intros (_ & _ & Hp). rewrite !CommandNode_GetRefs_elem_of.
  intros (k & v' & Hv & Hr). destruct (Hp k v' Hv) as [? | Hn]; [eauto |].
  rewrite Hn in Hr. by apply elem_of_nil in Hr.
Qed.

Lemma stmtStep_narrows st st' : stmtStep keepsRefs st st' -> narrows st st'.
Proof.
  intros Hst. split; [by apply stmtStep_shapeOf |]. revert Hst.
  unfold stmtStep, stmtRefs. destruct (commandOf st) as [c|] eqn:Ec;
    [| by intros ->].
  intros (c' & Hk & ->) r.
  rewrite (extractExpressionNode_withCommand _ _ _ Ec),
    (extractExpressionNode_commandOf _ _ Ec).
  by apply keepsRefs_GetRefs.
Qed.

Lemma stepwise_scoped (s s' : passState W) :
  stepwise s s' -> scoped s -> scoped s'.
Proof.
  intros (_ & He & Hs) [Hws Hc]. split; [| by rewrite He].
  eapply well_scoped_narrows; [| done].
  eapply Forall2_impl; [done | apply stmtStep_narrows].
Qed.

(** *** The passes that fill holes and resolve aliases *)

Lemma Expr_GetRefs_ProcessHoles F (e : ExpressionNode W) r :
  refs_free F ->
  r ∈ Expr_GetRefs (fst (Expr_ProcessHoles F e)) -> r ∈ Expr_GetRefs e.
Proof.
  intros HF. destruct e as [c|v]; simpl; [| by rewrite GetRefs_fillHoles].
  rewrite !CommandNode_GetRefs_elem_of. simpl.
  intros (k & ? & (v & <- & Hv)%lookup_fmap_Some & Hr).
  rewrite GetRefs_fillHoles in Hr by done. eauto.
Qed.

Lemma fillStmt_narrows F st : refs_free F -> narrows st (fillStmt F st).
Proof.
  intros HF. split; [apply shapeOf_fillStmt |]. intros r. unfold stmtRefs.
  rewrite extractExpressionNode_fillStmt. by apply Expr_GetRefs_ProcessHoles.
Qed.

Lemma resolveAliasStmt_narrows env st : narrows st (resolveAliasStmt env st).
Proof.
  split; [apply shapeOf_resolveAliasStmt |]. intros r.
  unfold stmtRefs, resolveAliasStmt.
  destruct st as [c|[i [c|v]]]; simpl; rewrite ?GetRefs_ResolveAlias;
    try done; rewrite !CommandNode_GetRefs_elem_of; simpl;
    setoid_rewrite map_lookup_imap;
    intros (k & v' & Hk & Hr); destruct (Params c !! k) as [v|] eqn:E;
    simplify_eq/=; rewrite GetRefs_ResolveAlias in Hr; eauto.
Qed.

Lemma map_narrows (f : Statement W -> Statement W) known sts :
  (forall st, narrows st (f st)) ->
  well_scoped known sts -> well_scoped known (map f sts).
Proof.
  intros Hf. apply well_scoped_narrows, Forall2_fmap_r, Forall_Forall2_diag.
  apply Forall_forall. intros st _. apply Hf.
Qed.

(** What the callback for missing holes answers carries no reference. *)
Lemma missingHolesLoop_refs_free (f : option (string -> value)) holes F calls :
  (forall ask k, f = Some ask -> GetRefs (ask k) = []) -> refs_free F ->
  refs_free (fst (missingHolesLoop f holes F calls)).
Proof.
  intros Hf. revert F calls.
  induction holes as [|h holes IH]; intros F calls HF; simpl; [done |].
  destruct f as [ask|]; apply IH; [| done].
  intros k v [[<- <-] | [_ ?]]%lookup_insert_Some; eauto.
Qed.

(** *** The passes, one by one *)

Lemma frame_closed env env' : env_frame env env' -> env_closed env -> env_closed env'.
Proof.
  intros (_ & _ & _ & _ & HF & _ & _ & HM & _) [? ?]. unfold env_closed.
  by rewrite HF, HM.
Qed.

(** A structural pass that keeps a scoped template well scoped keeps the
    invariant. *)
Lemma scoped_keeps (pass : compileFunc W) :
  pass_spec (fun _ => True) pass structural ->
  pass_spec scoped pass (fun _ s' => well_scoped ∅ (Statements s'.1)) ->
  pass_keeps scoped structural pass.
Proof.
  intros Hst Hws s s' Hs Hp. specialize (Hst s s' I Hp).
  split; [| done]. split; [by eapply Hws |].
  destruct Hst as (_ & _ & He), Hs as [_ Hc]. by eapply frame_closed.
Qed.

Lemma stepwise_keeps (pass : compileFunc W) :
  pass_spec (fun _ => True) pass stepwise -> pass_keeps scoped structural pass.
Proof.
  intros Hst s s' Hs Hp. specialize (Hst s s' I Hp).
  split; [by eapply stepwise_scoped | by apply stepwise_structural].
Qed.

Lemma resolveHolesPass_keeps :
  pass_keeps scoped structural (resolveHolesPass (W:=W)).
Proof.
  apply scoped_keeps; [apply resolveHolesPass_structural |].
  intros [tpl env] s' [Hws [HF _]]. simpl in *. unfold resolveHolesPass.
  rewrite visitHoles_fillers. intros [= <-]. simpl.
  apply map_narrows; [| done]. intros st. by apply fillStmt_narrows.
Qed.

Lemma resolveMissingHolesPass_keeps :
  pass_keeps scoped structural (resolveMissingHolesPass (W:=W)).
Proof.
  apply scoped_keeps; [apply resolveMissingHolesPass_structural |].
  intros [tpl env] s' [Hws [_ HM]]. simpl in *. unfold resolveMissingHolesPass.
  rewrite visitHoles_processHolesWith. intros [= <-]. simpl.
  apply map_narrows; [| done]. intros st.
  by apply fillStmt_narrows, missingHolesLoop_refs_free.
Qed.

Lemma resolveAliasPass_keeps :
  pass_keeps scoped structural (resolveAliasPass (W:=W)).
Proof.
  apply scoped_keeps; [apply resolveAliasPass_structural |].
  intros [tpl env] s' [Hws _]. simpl in *. unfold resolveAliasPass.
  rewrite visitHoles_resolveAliasExpr. case_decide; [done |]. intros [= <-].
  simpl. apply map_narrows; [| done]. apply resolveAliasStmt_narrows.
Qed.

Lemma inlineVariableValuePass_keeps :
  pass_keeps scoped structural (inlineVariableValuePass (W:=W)).
Proof.
  apply scoped_keeps; [apply inlineVariableValuePass_structural |].
  intros [tpl env] [tpl' env'] [Hws _]. simpl in *.
  intros ([out r] & Hl & [= <- _])%res_map_Ok. by eapply inlineLoop_scoped.
Qed.

End scoping_theorems.

#[export] Hint Resolve resolveHolesPass_keeps resolveMissingHolesPass_keeps
  resolveAliasPass_keeps inlineVariableValuePass_keeps stepwise_keeps : awless.

Section scoping_modes.
Context {W : Type}.
Implicit Types (tpl : Template W) (env : Env W).

Lemma library_scoped : Forall (pass_keeps scoped structural) (library (W:=W)).
Proof.
  unfold library. repeat (apply Forall_cons_2; [auto with awless |]).
  apply Forall_nil_2.
Qed.

Lemma mode_scoped (mode : list (compileFunc W)) :
  mode ⊆ library -> pass_keeps scoped structural (multiPass_compile mode).
Proof.
  intros Hmode. apply multiPass_compile_keeps; [apply _ |].
  apply Forall_forall. intros pass Hp%Hmode.
  by apply (proj1 (Forall_forall _ _) library_scoped).
Qed.

(** The check lets through the well-scoped templates, as they are. *)
Lemma checkInvalidReferenceDeclarationsPass_Ok tpl env tpl' env' :
  checkInvalidReferenceDeclarationsPass tpl env = Ok (tpl', env') ->
  tpl' = tpl /\ env' = env /\ well_scoped ∅ (Statements tpl).
Proof.
  unfold checkInvalidReferenceDeclarationsPass.
  destruct (checkRefsLoop _ _) eqn:E; [done |]. intros [= <- <-].
  by apply checkRefsLoop_None in E.
Qed.

(** After a mode that runs the check, with fillers and answers for missing
    holes that carry no reference, the state is scoped. *)
Lemma checked_scoped tpl env before after tpl' env' :
  before ⊆ library -> after ⊆ library -> env_closed env ->
  multiPass_compile (before ++ checkInvalidReferenceDeclarationsPass :: after)
                    tpl env = Ok (tpl', env') ->
  scoped (tpl', env').
Proof.
  intros Hb Ha Hc (tpl1 & env1 & H1 & H2)%multiPass_compile_Ok_app.
  apply (mode_structural before Hb (tpl, env)) in H1 as (_ & _ & Hf); [| done].
  simpl in H2.
  destruct (checkInvalidReferenceDeclarationsPass tpl1 env1)
    as [[tpl2 env2]| |] eqn:E; [| done..].
  apply checkInvalidReferenceDeclarationsPass_Ok in E as (-> & -> & Hws).
  apply (mode_scoped after Ha (tpl1, env1)) in H2 as [? _]; [done |].
  split; [done | by eapply frame_closed].
Qed.

(** C12. Reference locality: in a template compiled by a mode that runs the
    check of the references, with fillers and answers for missing holes that
    carry no reference, no identifier is declared twice and every reference
    of a statement names an identifier declared by an earlier statement. *)
Theorem Compile_well_scoped tpl env before after tpl' env' :
  before ⊆ library -> after ⊆ library -> env_closed env ->
  Compile tpl env [before ++ checkInvalidReferenceDeclarationsPass :: after]
  = Ok (tpl', env') ->
  NoDup (declared (Statements tpl')) /\
  forall i st r, Statements tpl' !! i = Some st -> r ∈ stmtRefs st ->
                 r ∈ declared (take i (Statements tpl')).
Proof.
  intros Hb Ha Hc [Hws _]%checked_scoped; [| done..]. simpl in Hws.
  split; [by eapply well_scoped_declared |]. intros i st r Hi Hr.
  destruct (well_scoped_refs _ _ _ _ _ Hws Hi Hr); set_solver.
Qed.

(** C15. No live reference but to the result of a command: in a template
    compiled by a mode that checks the references, then inlines the
    variables and after that only checks (the lenient and the normal mode
    do), with fillers and answers for missing holes that carry no
    reference, every reference of a statement names the result of a command
    declared by an earlier statement. *)
Theorem Compile_refs_commands tpl env before mid after tpl' env' :
  before ⊆ library -> mid ⊆ library -> Forall returns after ->
  env_closed env ->
  Compile tpl env [before ++ checkInvalidReferenceDeclarationsPass ::
                   mid ++ inlineVariableValuePass :: after]
  = Ok (tpl', env') ->
  forall i st r,
    Statements tpl' !! i = Some st -> r ∈ stmtRefs st ->
    exists j d c, j < i /\ Statements tpl' !! j = Some (SDeclaration d) /\
                  Ident d = r /\ Expr d = ECommand c.
Proof.
  intros Hb Hm Ha Hc Hmode. unfold Compile in Hmode.
  change (multiPass_compile ?l tpl env)
    with (multiPass_compile
            (before ++ (checkInvalidReferenceDeclarationsPass :: mid) ++
             inlineVariableValuePass :: after) tpl env) in Hmode.
  rewrite app_assoc in Hmode.
  apply multiPass_compile_Ok_app in Hmode as (tpl1 & env1 & H1 & H2).
  apply checked_scoped in H1 as [Hws _]; [| done..]. simpl in H2, Hws.
  destruct (inlineVariableValuePass tpl1 env1) as [[tpl2 env2]| |] eqn:E;
    [| done..].
  apply (returns_multiPass after Ha) in H2 as [-> ->].
  apply res_map_Ok in E as ([out r0] & Hl & [= <- _]).
  apply (inlineLoop_command_scoped _ _ _ _ _ _ Hws) in Hl.
  intros i st r Hi Hr.
  destruct (command_scoped_refs _ _ _ _ _ Hl Hi Hr); [set_solver | done].
Qed.

End scoping_modes.

(** ** The theorems on the sample templates *)

Lemma Compile_well_scoped_witness :
  NoDup (declared (Statements S1_lenient.1)) /\
  forall i st r, Statements S1_lenient.1 !! i = Some st -> r ∈ stmtRefs st ->
                 r ∈ declared (take i (Statements S1_lenient.1)).
Proof.
  apply (Compile_well_scoped Sample.S1 Sample.env [resolveAgainstDefinitions]
           [resolveHolesPass; resolveMissingHolesPass; resolveAliasPass;
            inlineVariableValuePass] S1_lenient.1 S1_lenient.2).
  - unfold library. passes_subseteq.
  - unfold library. passes_subseteq.
  - split; [apply (bool_decide_unpack _); vm_compute; reflexivity |].
    intros ask k [=].
  - vm_compute. reflexivity.
Defined.

Lemma Compile_refs_commands_witness :
  exists j d c, j < 1 /\ Statements S1_lenient.1 !! j = Some (SDeclaration d) /\
                Ident d = "sub" /\ Expr d = ECommand c.
Proof.
  eapply (Compile_refs_commands Sample.S1 Sample.env [resolveAgainstDefinitions]
            [resolveHolesPass; resolveMissingHolesPass; resolveAliasPass] []
            S1_lenient.1 S1_lenient.2).
  - unfold library. passes_subseteq.
  - unfold library. passes_subseteq.
  - constructor.
  - split; [apply (bool_decide_unpack _); vm_compute; reflexivity |].
    intros ask k [=].
  - vm_compute. reflexivity.
  - vm_compute. reflexivity.
  - apply (bool_decide_unpack _). vm_compute. reflexivity.
Defined.
