(* ===== verification/Refines.v ===== *)
(** * Params through a whole mode

    Property P5 of the specification: a list with N elements survives all
    passes with the same element count and element order.  The passes of
    src/template/compile.go that rewrite values (hole resolution, prompting
    for missing holes, alias resolution, variable inlining) work element by
    element, and the passes that visit the command nodes leave the params
    they are given as they are, with two exceptions:
    [normalizeMissingRequiredParamsAsHolePass] writes a hole over a param
    the command reports missing, and [convertParamsPass] replaces the params
    a command converts.

    [refines] (in [Values]) relates a value to what the passes may make of
    it; [paramsRefine] lifts it to the params of a command node; every pass
    but the two stays within it, and so does every mode made of those passes
    ([rewritingLibrary]), the lenient and the normal mode among them. *)

From S2P Require Import Prelude Values Driver Ast Env Template PassRefs.
From S2P Require Import PassHoles PassAlias PassCommands Compile Triples Shape.

Section refines.
Context {W : Type}.

(** A command node after the passes: the same command, and every param it
    had is there, rewritten in place. *)
Definition paramsRefine (c c' : CommandNode W) : Prop :=
  Action c' = Action c /\ Entity c' = Entity c /\
  forall k v, Params c !! k = Some v ->
              exists v', Params c' !! k = Some v' /\ refines v v'.

(** The command nodes of a state after the passes. *)
Definition commandsRefine (s s' : passState W) : Prop :=
  Forall2 paramsRefine (CommandNodesIterator s.1) (CommandNodesIterator s'.1).

(** The passes that keep the params they are given. *)
Definition rewritingLibrary : list (compileFunc W) := [
  resolveAgainstDefinitions;
  verifyCommandsDefinedPass;
  validateCommandsParamsPass;
  checkInvalidReferenceDeclarationsPass;
  resolveHolesPass;
  resolveMissingHolesPass;
  resolveAliasPass;
  inlineVariableValuePass;
  failOnUnresolvedHolesPass;
  failOnUnresolvedAliasPass;
  validateCommandsPass;
  injectCommandsPass
].

End refines.

(** What a command node keeps of its lists: a param that holds a list holds
    a list of the same length afterwards, and each element of it is what the
    passes made of the element at the same place. *)
Definition listsKept {W} (c c' : CommandNode W) : Prop :=
  forall k vs,
    Params c !! k = Some (VList vs) ->
    exists vs', Params c' !! k = Some (VList vs') /\ length vs' = length vs /\
      (forall i l, vs !! i = Some (VLit l) -> vs' !! i = Some (VLit l)) /\
      (forall i v, vs !! i = Some v ->
                   exists v', vs' !! i = Some v' /\ refines v v').

(** ** Sample data *)

(** S2 as the normal mode compiles it. *)
Definition S2_normal : Template (list string) * Env (list string) :=
  match Compile Sample.S2 Sample.env [NormalCompileMode] with
  | Ok r => r
  | _ => (Sample.S2, Sample.env)
  end.

(** ** Theorems *)

Section refines_theorems.
Context {W : Type}.
Implicit Types (tpl : Template W) (env : Env W) (st : Statement W).
Implicit Types (c : CommandNode W) (sts : list (Statement W)).

#[global] Instance paramsRefine_preorder : PreOrder (@paramsRefine W).
Proof.
  split.
  - intros c. repeat split. intros k v Hv. by exists v.
  - intros c1 c2 c3 (Ha12 & He12 & Hp12) (Ha23 & He23 & Hp23).
    repeat split; [congruence | congruence |]. intros k v Hv.
    destruct (Hp12 k v Hv) as (v2 & Hv2 & Hr12).
    destruct (Hp23 k v2 Hv2) as (v3 & Hv3 & Hr23).
    exists v3. split; [done | by etrans].
Qed.

#[global] Instance commandsRefine_preorder : PreOrder (@commandsRefine W).
Proof.
  unfold commandsRefine. split.
  - intros s. reflexivity.
  - intros s1 s2 s3 H12 H23. by etrans.
Qed.

(** Rewriting every param in place refines the node. *)
Lemma fmap_paramsRefine (f : value -> value) c :
  (forall v, refines v (f v)) -> paramsRefine c (setParams (f <$> Params c) c).
Proof.
  intros Hf. repeat split. intros k v Hv. exists (f v).
  split; [| done]. simpl. by rewrite lookup_fmap, Hv.
Qed.

(** *** Statement lists *)

(** A map over the statements that refines the command node of each. *)
Lemma map_commandsRefine (f : Statement W -> Statement W) sts :
  (forall st, option_Forall2 paramsRefine (commandOf st) (commandOf (f st))) ->
  Forall2 paramsRefine (omap commandOf sts) (omap commandOf (map f sts)).
Proof.
  intros Hf. induction sts as [|st sts IH]; csimpl; [constructor |].
  destruct (Hf st) as [c c' Hc|]; csimpl; [by constructor | done].
Qed.

Lemma stmtSteps_commandsRefine sts sts' :
  Forall2 (stmtStep paramsRefine) sts sts' ->
  Forall2 paramsRefine (omap commandOf sts) (omap commandOf sts').
Proof. apply stmtStep_commands. Qed.

(** The three rewritings of a statement. *)
Lemma fillStmt_refines (F : gmap string value) st :
  option_Forall2 paramsRefine (commandOf st) (commandOf (fillStmt F st)).
Proof.
  unfold fillStmt. destruct st as [c|[i [c|v]]]; simpl; constructor;
    apply fmap_paramsRefine, refines_fillHoles.
Qed.

Lemma inlineStmt_refines x v st :
  option_Forall2 paramsRefine (commandOf st) (commandOf (inlineStmt x v st)).
Proof.
  unfold inlineStmt. destruct st as [c|[i [c|v0]]]; simpl; constructor;
    apply fmap_paramsRefine, refines_ReplaceRef.
Qed.

Lemma resolveAliasStmt_refines env st :
  option_Forall2 paramsRefine (commandOf st) (commandOf (resolveAliasStmt env st)).
Proof.
  unfold resolveAliasStmt.
  destruct st as [c|[i [c|v]]]; simpl; constructor; repeat split;
    intros k v0 Hv; eexists; (split; [| apply refines_ResolveAlias]);
    simpl; by rewrite map_lookup_imap, Hv.
Qed.

(** *** The passes, one by one *)

Lemma steps_commandsRefine (pass : compileFunc W) :
  (forall tpl env tpl' env',
     pass tpl env = Ok (tpl', env') ->
     ID tpl' = ID tpl /\ env' = env /\
     Forall2 (stmtStep paramsRefine) (Statements tpl) (Statements tpl')) ->
  pass_spec (fun _ => True) pass commandsRefine.
Proof.
  intros Hpass [tpl env] [tpl' env'] _ Hp. apply Hpass in Hp as (_ & _ & Hst).
  by apply stmtSteps_commandsRefine.
Qed.

Lemma visit_pass_refines {S}
    (fn : Env W -> CommandNode W -> S -> res (CommandNode W * S))
    (pass : compileFunc W) (acc : S) :
  visits fn acc pass ->
  (forall env c a c' a', res_state (fn env c a) = Some (c', a') -> c' = c) ->
  pass_spec (fun _ => True) pass commandsRefine.
Proof.
  intros Hpass Hfn. apply steps_commandsRefine. intros tpl env tpl' env' Hp.
  apply (visits_steps paramsRefine fn acc pass) in Hp; [done.. |].
  intros e c a c' a' ->%Hfn. reflexivity.
Qed.

Lemma addRequiredHoles_refines lookup c (a : unit) :
  paramsRefine c (fst (addRequiredHoles lookup c a)).
Proof.
  unfold addRequiredHoles. destruct (lookup _) as [def|]; [| reflexivity].
  repeat split. intros k v Hv. exists v. split; [| reflexivity].
  simpl. by rewrite foldl_addRequired_lookup, Hv.
Qed.

Lemma inject_refines env c (a : unit) c' a' :
  res_state (inject env c a) = Some (c', a') -> paramsRefine c c'.
Proof.
  unfold inject. repeat case_match; simplify_eq/=; intros [= <- _];
    repeat split; intros k v ?; by exists v.
Qed.

Lemma resolveAgainstDefinitions_refines :
  pass_spec (fun _ => True) (resolveAgainstDefinitions (W:=W)) commandsRefine.
Proof.
  apply steps_commandsRefine. intros tpl env tpl' env'.
  apply resolveAgainstDefinitions_rel; [apply _ |].
  apply addRequiredHoles_refines.
Qed.

Lemma verifyCommandsDefinedPass_refines :
  pass_spec (fun _ => True) (verifyCommandsDefinedPass (W:=W)) commandsRefine.
Proof. apply returns_spec, verifyCommandsDefinedPass_returns; apply _. Qed.

Lemma validateCommandsParamsPass_refines :
  pass_spec (fun _ => True) (validateCommandsParamsPass (W:=W)) commandsRefine.
Proof.
  apply (visit_pass_refines _ _ _ validateCommandsParamsPass_visits).
  intros env c a c' a'. apply verifyValidParamsOnly_state.
Qed.

Lemma checkInvalidReferenceDeclarationsPass_refines :
  pass_spec (fun _ => True) (checkInvalidReferenceDeclarationsPass (W:=W))
            commandsRefine.
Proof. apply returns_spec, checkInvalidReferenceDeclarationsPass_returns; apply _. Qed.

Lemma resolveHolesPass_refines :
  pass_spec (fun _ => True) (resolveHolesPass (W:=W)) commandsRefine.
Proof.
  intros [tpl env] s' _. simpl. unfold resolveHolesPass.
  rewrite visitHoles_fillers. intros [= <-].
  apply map_commandsRefine, fillStmt_refines.
Qed.

Lemma resolveMissingHolesPass_refines :
  pass_spec (fun _ => True) (resolveMissingHolesPass (W:=W)) commandsRefine.
Proof.
  intros [tpl env] s' _. simpl. unfold resolveMissingHolesPass.
  rewrite visitHoles_processHolesWith. intros [= <-].
  apply map_commandsRefine, fillStmt_refines.
Qed.

Lemma resolveAliasPass_refines :
  pass_spec (fun _ => True) (resolveAliasPass (W:=W)) commandsRefine.
Proof.
  intros [tpl env] s' _. simpl. unfold resolveAliasPass.
  rewrite visitHoles_resolveAliasExpr. case_decide; [done |]. intros [= <-].
  apply map_commandsRefine, resolveAliasStmt_refines.
Qed.

(** The loop of the inlining pass, with fuel for every statement: the
    statements it drops hold no command, and the others are rewritten in
    place. *)
Lemma inlineInto_refines x v sts :
  Forall2 paramsRefine (omap commandOf sts) (omap commandOf (inlineInto x v sts)).
Proof. apply map_commandsRefine, inlineStmt_refines. Qed.

Lemma inlineLoop_refines n sts resolved out resolved' :
  length sts <= n ->
  inlineLoop n sts resolved = Ok (out, resolved') ->
  Forall2 paramsRefine (omap commandOf sts) (omap commandOf out).
Proof.
  revert sts resolved out resolved'.
  induction n as [|n IH]; intros [|st rest] resolved out resolved' Hn;
    simpl in *; try (by intros [= <- _]); [lia |].
  assert (forall rest' r',
            Forall2 paramsRefine (omap commandOf rest) (omap commandOf rest') ->
            length rest' <= n ->
            res_map (fun '(sts', r) => (st :: sts', r)) (inlineLoop n rest' r')
            = Ok (out, resolved') ->
            Forall2 paramsRefine (omap commandOf (st :: rest))
                    (omap commandOf out)) as Hkeep.
  { intros rest' r' Hr Hlen ([out' r''] & Hl & [= <- _])%res_map_Ok.
    apply IH in Hl; [| done]. csimpl.
    destruct (commandOf st); csimpl; [constructor; [done |] |]; by etrans. }
  assert (length rest <= n) as Hn' by lia.
  destruct st as [c|d]; [by apply Hkeep |].
  destruct (Expr d) as [c|v] eqn:Ed; [by apply Hkeep |].
  pose proof (inlineInto_refines (Ident d) v rest) as Hr.
  pose proof (inlineInto_length (Ident d) v rest) as Hlen.
  destruct (IsResolved v), (Value v), resolved; try done;
    try (apply Hkeep; [done | by rewrite Hlen]);
    intros Hl; apply IH in Hl; rewrite ?Hlen; try done;
    csimpl; rewrite Ed; csimpl; by etrans.
Qed.

Lemma inlineVariableValuePass_refines :
  pass_spec (fun _ => True) (inlineVariableValuePass (W:=W)) commandsRefine.
Proof.
  intros [tpl env] [tpl' env'] _. simpl.
  intros ([out r] & Hl & [= <- _])%res_map_Ok.
  by apply inlineLoop_refines in Hl.
Qed.

Lemma failOnUnresolvedHolesPass_refines :
  pass_spec (fun _ => True) (failOnUnresolvedHolesPass (W:=W)) commandsRefine.
Proof. apply returns_spec, failOnUnresolvedHolesPass_returns; apply _. Qed.

Lemma failOnUnresolvedAliasPass_refines :
  pass_spec (fun _ => True) (failOnUnresolvedAliasPass (W:=W)) commandsRefine.
Proof. apply returns_spec, failOnUnresolvedAliasPass_returns; apply _. Qed.

Lemma validateCommandsPass_refines :
  pass_spec (fun _ => True) (validateCommandsPass (W:=W)) commandsRefine.
Proof. apply returns_spec, validateCommandsPass_returns; apply _. Qed.

Lemma injectCommandsPass_refines :
  pass_spec (fun _ => True) (injectCommandsPass (W:=W)) commandsRefine.
Proof.
  apply steps_commandsRefine. intros tpl env tpl' env' Hp.
  apply (visits_steps paramsRefine inject tt injectCommandsPass) in Hp;
    [done | apply injectCommandsPass_visits | apply inject_refines].
Qed.

End refines_theorems.

#[export] Hint Resolve resolveAgainstDefinitions_refines
  verifyCommandsDefinedPass_refines validateCommandsParamsPass_refines
  checkInvalidReferenceDeclarationsPass_refines resolveHolesPass_refines
  resolveMissingHolesPass_refines resolveAliasPass_refines
  inlineVariableValuePass_refines failOnUnresolvedHolesPass_refines
  failOnUnresolvedAliasPass_refines validateCommandsPass_refines
  injectCommandsPass_refines : awless.

Section refines_modes.
Context {W : Type}.
Implicit Types (tpl : Template W) (env : Env W) (c : CommandNode W).

Lemma rewritingLibrary_refines :
  Forall (fun pass => pass_spec (fun _ => True) pass commandsRefine)
         (rewritingLibrary (W:=W)).
Proof.
  unfold rewritingLibrary. repeat (apply Forall_cons_2; [auto with awless |]).
  apply Forall_nil_2.
Qed.

Lemma mode_refines (mode : list (compileFunc W)) :
  mode ⊆ rewritingLibrary ->
  pass_spec (fun _ => True) (multiPass_compile mode) commandsRefine.
Proof.
  apply (multiPass_compile_sub commandsRefine rewritingLibrary),
    rewritingLibrary_refines.
Qed.

(** The lenient and the normal mode are made of passes that keep the params. *)
Lemma modes_rewritingLibrary :
  LenientCompileMode (W:=W) ⊆ rewritingLibrary /\
  NormalCompileMode (W:=W) ⊆ rewritingLibrary.
Proof.
  unfold NormalCompileMode, LenientCompileMode, rewritingLibrary.
  split; passes_subseteq.
Qed.

Lemma paramsRefine_listsKept c c' : paramsRefine c c' -> listsKept c c'.
Proof.
  intros (_ & _ & Hp) k vs (v' & Hv' & Hr)%Hp.
  destruct (refines_VList_elements _ _ Hr) as (vs' & -> & Hlen & Hlit).
  apply refines_VList in Hr as (? & [= <-] & HF).
  exists vs'. repeat split; [done.. |]. intros i v Hi.
  by apply (Forall2_lookup_l _ _ _ _ _ HF Hi).
Qed.

(** C19. A list literal survives a whole mode: in a template compiled by a
    mode made of the passes that keep params, each command node is the node
    of the source at the same place, and a param of it that held a list of N
    elements holds a list of N elements, each of them the element of the
    source at the same index as the passes rewrote it (a literal element is
    unchanged). *)
Theorem Compile_list_roundtrip tpl env mode tpl' env' :
  mode ⊆ rewritingLibrary ->
  Compile tpl env [mode] = Ok (tpl', env') ->
  Forall2 listsKept (CommandNodesIterator tpl) (CommandNodesIterator tpl').
Proof.
  intros Hmode Hc.
  eapply Forall2_impl; [| apply paramsRefine_listsKept].
  by apply (mode_refines mode Hmode (tpl, env) (tpl', env')).
Qed.

End refines_modes.

(** ** The theorem on the sample template *)

Lemma Compile_list_roundtrip_witness :
  Forall2 listsKept (CommandNodesIterator Sample.S2)
          (CommandNodesIterator S2_normal.1).
Proof.
  apply (Compile_list_roundtrip Sample.S2 Sample.env NormalCompileMode _
           S2_normal.2).
  - apply modes_rewritingLibrary.
  - vm_compute. reflexivity.
Defined.
