(* ===== verification/Idempotent.v ===== *)
(** * Compiling twice

    Property P1 of the specification: compiling again what a compilation
    returned, with the environment it returned, changes nothing: the same
    template, the same processed fillers, the same resolved variables.

    A state (a template and an environment) is [settled] when no pass of
    the lenient mode of src/template/compile.go finds work in it: every
    command has the keys of its definition and the required params; the
    references are in scope and name results of commands; no declaration
    of a resolved value is left; no hole has a filler or could be asked
    for; no alias could be resolved.  Each pass of the mode returns a
    settled state as it is, and the mode returns a settled state when the
    fillers and the answers for missing holes are closed (they carry no
    hole and no reference). *)

From S2P Require Import Prelude Values Driver Ast Env Template PassRefs.
From S2P Require Import PassHoles PassAlias PassCommands Compile Triples Shape.
From S2P Require Import Scoping.

Section settled.
Context {W : Type}.

(** A command node as the definitions pass leaves it: its keys are keys of
    its definition, and it has the required params. *)
Definition settledNode (lookup : string -> option TemplateDefinition)
    (c : CommandNode W) : Prop :=
  exists def,
    lookup (nodeKey c) = Some def /\
    (forall k, k ∈ Keys c -> k ∈ Required def \/ k ∈ Extra def) /\
    (forall r, r ∈ Required def -> is_Some (Params c !! r)).

(** Two command nodes with the same command and the same keys. *)
Definition sameKeys (c c' : CommandNode W) : Prop :=
  Action c' = Action c /\ Entity c' = Entity c /\
  forall k, is_Some (Params c' !! k) <-> is_Some (Params c !! k).

(** A statement whose command node, when it has one, is as the definitions
    pass leaves it. *)
Definition nodeSettled (lookup : string -> option TemplateDefinition)
    (st : Statement W) : Prop :=
  forall c, commandOf st = Some c -> settledNode lookup c.

(** No hole of the statements has a filler, and none could be asked for. *)
Definition holesSettled (sts : list (Statement W)) (env : Env W) : Prop :=
  forall h, h ∈ holesOf sts ->
            readMap (Fillers env) !! h = None /\ MissingHolesFunc env = None.

(** No alias of the statements could be resolved. *)
Definition aliasesSettled (sts : list (Statement W)) (env : Env W) : Prop :=
  forall a, a ∈ aliasesOf sts -> AliasFunc env = None.

(** The processed fillers have been written to, if there was a statement to
    write them for. *)
Definition processedSettled (sts : list (Statement W)) (env : Env W) : Prop :=
  sts = [] \/ is_Some (processedFillers env).

(** The references are in scope and name results of commands, and no
    declaration of a resolved value is left. *)
Definition variablesSettled (sts : list (Statement W)) : Prop :=
  well_scoped ∅ sts /\ command_scoped ∅ sts /\
  Forall notResolvedDeclaration sts.

Definition settled (s : passState W) : Prop :=
  (exists lookup, DefLookupFunc s.2 = Some lookup /\
                  Forall (settledNode lookup) (CommandNodesIterator s.1)) /\
  variablesSettled (Statements s.1) /\
  holesSettled (Statements s.1) s.2 /\
  aliasesSettled (Statements s.1) s.2 /\
  processedSettled (Statements s.1) s.2.

(** A state before the rewritings: the command nodes are as the definitions
    pass leaves them, the references are in scope, and the fillers and the
    answers for missing holes are closed. *)
Definition prepared (s : passState W) : Prop :=
  (exists lookup, DefLookupFunc s.2 = Some lookup /\
                  Forall (nodeSettled lookup) (Statements s.1)) /\
  well_scoped ∅ (Statements s.1) /\
  fills_closed (readMap (Fillers s.2)) /\ env_closed s.2 /\
  forall ask k, MissingHolesFunc s.2 = Some ask -> GetHoles (ask k) = [].

(** Answers for missing holes that carry no hole. *)
Definition asks_closed (env : Env W) : Prop :=
  forall ask k, MissingHolesFunc env = Some ask -> GetHoles (ask k) = [].

(** An environment whose fillers and answers for missing holes carry no hole
    and no reference. *)
Definition closed (env : Env W) : Prop :=
  fills_closed (readMap (Fillers env)) /\ env_closed env /\ asks_closed env.

End settled.

(** ** Sample data *)

(** Fillers that are not closed: the filler of [a] is the hole [b], which
    has a filler too. *)
Definition openTemplate : Template (list string) := mkTemplate "open" [
  SCommand (Sample.node "update" "subnet" [("id", VHole "a")])
].

Definition openEnv : Env (list string) :=
  mkEnv None None false false (Some ∅)
        (Some {[ "a" := VHole "b"; "b" := Sample.str "x" ]})
        (Some Sample.definitions) None None (Some ∅).

(** ** Theorems *)

Section settled_passes.
Context {W : Type}.
Implicit Types (tpl : Template W) (env : Env W) (st : Statement W).
Implicit Types (c : CommandNode W) (sts : list (Statement W)).
Implicit Types (F : gmap string value).

(** *** Each pass returns a settled state as it is *)

Lemma foldl_addRequired_settled entity (params : gmap string value) required :
  Forall (fun r => is_Some (params !! r)) required ->
  foldl (addRequired entity) params required = params.
Proof.
  intros Hreq. apply map_eq. intros k. rewrite foldl_addRequired_lookup.
  destruct (params !! k) eqn:E; [done |]. case_decide as Hk; [| done].
  rewrite Forall_forall in Hreq. destruct (Hreq _ Hk) as [? ?]. congruence.
Qed.

Lemma resolveAgainstDefinitions_settled tpl env lookup :
  DefLookupFunc env = Some lookup ->
  Forall (settledNode lookup) (CommandNodesIterator tpl) ->
  resolveAgainstDefinitions tpl env = Ok (tpl, env).
Proof.
  intros Hl Hc. unfold resolveAgainstDefinitions, visitCommandNodesE,
    visitCommandNodes. rewrite Hl.
  rewrite visitCommandNodesE_list_id; simpl.
  - rewrite visitCommandNodes_list_id; [by destruct tpl |].
    eapply Forall_impl; [exact Hc |]. intros c (def & Hd & _ & Hreq).
    unfold addRequiredHoles. rewrite Hd, foldl_addRequired_settled.
    + by rewrite setParams_id.
    + by apply Forall_forall.
  - eapply Forall_impl; [exact Hc |]. intros c (def & Hd & Hk & _).
    unfold verifyValidParamsOnlyDef. rewrite Hd.
    by rewrite (proj2 (unexpectedParamKey_None c def (Keys c)))
      by by apply Forall_forall.
Qed.

Lemma checkInvalidReferenceDeclarationsPass_settled tpl env :
  well_scoped ∅ (Statements tpl) ->
  checkInvalidReferenceDeclarationsPass tpl env = Ok (tpl, env).
Proof.
  intros Hws. unfold checkInvalidReferenceDeclarationsPass.
  by rewrite (proj2 (checkRefsLoop_None _ _) Hws).
Qed.

(** Filling finds no hole it has a filler for. *)
Lemma fillStmt_settled F st :
  Forall (fun h => F !! h = None) (stmtHoles st) -> fillStmt F st = st.
Proof.
  unfold fillStmt, stmtHoles. rewrite Forall_forall. intros Hn.
  destruct st as [c|[i [c|v]]]; simpl in *;
    [| | by rewrite fillHoles_not_in by by apply Forall_forall].
  all: rewrite setParams_fmap_id; [done |]; intros k v Hv.
  all: apply fillHoles_not_in, Forall_forall; intros h Hh; apply Hn.
  all: apply CommandNode_GetHoles_elem_of; eauto.
Qed.

Lemma visitHoles_settled F tpl env :
  (forall h, h ∈ holesOf (Statements tpl) -> F !! h = None) ->
  processedSettled (Statements tpl) env ->
  visitHoles (processHolesWith F) tpl env = (tpl, env).
Proof.
  intros Hn Hp. rewrite visitHoles_processHolesWith. f_equal.
  - destruct tpl as [id sts]. simpl in *. f_equal.
    apply map_id_Forall, Forall_forall. intros st Hst.
    apply fillStmt_settled, Forall_forall. intros h Hh. apply Hn.
    apply flat_map_elem_of. eauto.
  - unfold recordProcessed. destruct (Statements tpl) as [|st sts] eqn:Es;
      [done |].
    destruct Hp as [? | [p Hp]]; [done |].
    assert (consumed F (st :: sts) = ∅) as ->.
    { apply map_empty. intros k. apply map_lookup_filter_None.
      destruct (F !! k) eqn:E; [right | by left]. intros x Hx Hin.
      apply Hn in Hin. simpl in Hin. congruence. }
    rewrite Hp. simpl. rewrite (left_id_L ∅ (∪)), <- Hp. by destruct env.
Qed.

Lemma resolveHolesPass_settled tpl env :
  holesSettled (Statements tpl) env -> processedSettled (Statements tpl) env ->
  resolveHolesPass tpl env = Ok (tpl, env).
Proof.
  intros Hh Hp. unfold resolveHolesPass. f_equal.
  rewrite visitHoles_fillers, <- visitHoles_processHolesWith.
  apply visitHoles_settled; [| done]. intros h Hin. by apply Hh.
Qed.

Lemma resolveMissingHolesPass_settled tpl env :
  holesSettled (Statements tpl) env -> processedSettled (Statements tpl) env ->
  resolveMissingHolesPass tpl env = Ok (tpl, env).
Proof.
  intros Hh Hp. unfold resolveMissingHolesPass. f_equal.
  apply visitHoles_settled; [| done]. intros h Hin.
  destruct (Hh h Hin) as [_ ->]. by rewrite missingHolesLoop_None.
Qed.

(** Resolution finds no alias. *)
Lemma resolveAliasStmt_settled env st :
  Expr_GetAliases (extractExpressionNode st) = [] ->
  resolveAliasStmt env st = st /\
  snd (resolveAliasExpr env (extractExpressionNode st) []) = [].
Proof.
  unfold resolveAliasStmt. intros Hn.
  assert (forall entity key v, GetAliases v = [] ->
            emptyResolvOf env entity key v = []) as He.
  { intros entity key v Hv. unfold emptyResolvOf. rewrite Hv.
    by destruct (AliasFunc env). }
  destruct st as [c|[i [c|v]]]; simpl in *;
    [| | by rewrite He, ResolveAlias_not_in by (by rewrite ?Hn)].
  all: apply flat_map_nil_iff in Hn; rewrite Forall_forall in Hn.
  all: split; [| apply flat_map_nil_iff, Forall_forall; intros kv Hkv;
                 by apply He, Hn].
  all: rewrite (setParams_imap_id
                  (fun k v => ResolveAlias (resolvAliasFunc env (Entity c) k) v));
    [done |]; intros k v Hv; apply ResolveAlias_not_in.
  all: specialize (Hn (k, v)); simpl in Hn; rewrite Hn;
    [constructor | by apply elem_of_map_to_list].
Qed.

Lemma resolveAliasPass_settled tpl env :
  aliasesSettled (Statements tpl) env ->
  resolveAliasPass tpl env = Ok (tpl, env).
Proof.
  intros Ha. destruct (AliasFunc env) as [f|] eqn:Ef;
    [| by apply resolveAliasPass_no_func].
  assert (Forall (fun st => Expr_GetAliases (extractExpressionNode st) = [])
                 (Statements tpl)) as Hn.
  { apply Forall_forall. intros st Hst. apply elem_of_nil_inv. intros a Hin.
    assert (a ∈ aliasesOf (Statements tpl)) as Hin'
      by (apply flat_map_elem_of; eauto).
    apply Ha in Hin'. congruence. }
  unfold resolveAliasPass. rewrite visitHoles_resolveAliasExpr.
  assert (emptyResolvs env (Statements tpl) = []) as ->.
  { apply flat_map_nil_iff. eapply Forall_impl; [exact Hn |].
    intros st Hst. by apply resolveAliasStmt_settled. }
  simpl. destruct tpl as [id sts]. simpl in *. do 3 f_equal.
  apply map_id_Forall. eapply Forall_impl; [exact Hn |].
  intros st Hst. by apply resolveAliasStmt_settled.
Qed.

Lemma inlineVariableValuePass_settled tpl env :
  variablesSettled (Statements tpl) ->
  inlineVariableValuePass tpl env = Ok (tpl, env).
Proof.
  intros (Hws & Hcs & Hnr). unfold inlineVariableValuePass.
  rewrite (inlineLoop_settled _ _ ∅ ∅) by done. simpl.
  by destruct tpl, env.
Qed.

(** The lenient mode returns a settled state as it is. *)
Lemma LenientCompileMode_settled tpl env :
  settled (tpl, env) ->
  multiPass_compile LenientCompileMode tpl env = Ok (tpl, env).
Proof.
  intros ((lookup & Hl & Hdef) & Hv & Hh & Ha & Hp).
  apply multiPass_compile_fixpoint. unfold LenientCompileMode.
  repeat apply Forall_cons_2; [| | | | | | apply Forall_nil_2].
  - by apply (resolveAgainstDefinitions_settled tpl env lookup).
  - apply checkInvalidReferenceDeclarationsPass_settled, Hv.
  - by apply resolveHolesPass_settled.
  - by apply resolveMissingHolesPass_settled.
  - by apply resolveAliasPass_settled.
  - by apply inlineVariableValuePass_settled.
Qed.

End settled_passes.

Section settled_established.
Context {W : Type}.
Implicit Types (tpl : Template W) (env : Env W) (st : Statement W).
Implicit Types (c : CommandNode W) (sts out : list (Statement W)).
Implicit Types (F : gmap string value).

(** *** The rewritings keep what is settled *)

Lemma sameKeys_fmap (f : value -> value) c :
  sameKeys c (setParams (f <$> Params c) c).
Proof.
  split_and!; [done.. |]. intros k. simpl. by rewrite lookup_fmap, fmap_is_Some.
Qed.

Lemma sameKeys_imap (g : string -> value -> value) c :
  sameKeys c (setParams (map_imap (fun k v => Some (g k v)) (Params c)) c).
Proof.
  split_and!; [done.. |]. intros k. simpl. rewrite map_lookup_imap.
  destruct (Params c !! k); simpl; split; intros [? ?]; eauto; done.
Qed.

Lemma settledNode_sameKeys lookup c c' :
  sameKeys c c' -> settledNode lookup c -> settledNode lookup c'.
Proof.
  intros (Ha & He & Hk) (def & Hd & Hkeys & Hreq). exists def. split_and!.
  - unfold nodeKey. by rewrite Ha, He.
  - intros k Hin%Keys_elem_of. by apply Hkeys, Keys_elem_of, Hk.
  - intros r Hr. by apply Hk, Hreq.
Qed.

Lemma nodeSettled_fillStmt lookup F st :
  nodeSettled lookup st -> nodeSettled lookup (fillStmt F st).
Proof.
  unfold nodeSettled, fillStmt. destruct st as [c|[i [c|v]]]; simpl;
    intros Hst c' [= <-];
    (eapply settledNode_sameKeys; [apply sameKeys_fmap | by apply Hst]).
Qed.

Lemma nodeSettled_resolveAliasStmt lookup env st :
  nodeSettled lookup st -> nodeSettled lookup (resolveAliasStmt env st).
Proof.
  unfold nodeSettled, resolveAliasStmt. destruct st as [c|[i [c|v]]]; simpl;
    intros Hst c' [= <-];
    (eapply settledNode_sameKeys;
     [apply (sameKeys_imap
               (fun k v => ResolveAlias (resolvAliasFunc env (Entity c) k) v))
     | by apply Hst]).
Qed.

Lemma nodeSettled_inlineStmt lookup x v st :
  nodeSettled lookup st -> nodeSettled lookup (inlineStmt x v st).
Proof.
  unfold nodeSettled, inlineStmt. destruct st as [c|[i [c|v0]]]; simpl;
    intros Hst c' [= <-];
    (eapply settledNode_sameKeys; [apply sameKeys_fmap | by apply Hst]).
Qed.

(** The definitions pass settles the command nodes. *)
Lemma definedStep_settled lookup c c' :
  definedStep lookup c c' -> settledNode lookup c'.
Proof.
  intros (def & Hd & Hkeys & ->). exists def. split_and!; [done | |].
  - intros k [v Hv]%Keys_elem_of. simpl in Hv.
    rewrite foldl_addRequired_lookup in Hv.
    destruct (Params c !! k) eqn:Ek;
      [apply Hkeys, Keys_elem_of; eauto | case_decide; [by left | done]].
  - intros r Hr. simpl. rewrite foldl_addRequired_lookup.
    destruct (Params c !! r); [eauto |]. rewrite decide_True by done. eauto.
Qed.

Lemma stmtSteps_settled lookup sts sts' :
  Forall2 (stmtStep (definedStep lookup)) sts sts' ->
  Forall (nodeSettled lookup) sts'.
Proof.
  induction 1 as [|st st' sts sts' Hst _ IH]; constructor; [| done].
  unfold stmtStep in Hst. intros c' Hc'.
  destruct (commandOf st) as [c|] eqn:Ec.
  - destruct Hst as (c1 & Hd & ->).
    rewrite (commandOf_withCommand _ _ _ Ec) in Hc'. injection Hc' as <-.
    by eapply definedStep_settled.
  - subst. congruence.
Qed.

Lemma nodeSettled_nodes lookup sts :
  Forall (nodeSettled lookup) sts ->
  Forall (settledNode lookup) (omap commandOf sts).
Proof.
  induction 1 as [|st sts Hst _ IH]; csimpl; [constructor |].
  destruct (commandOf st) as [c|] eqn:Ec; csimpl; [| done].
  constructor; [by apply Hst | done].
Qed.

(** *** Holes and aliases through the rewritings *)

Lemma holesOf_Forall (P : string -> Prop) sts :
  (forall h, h ∈ holesOf sts -> P h) <->
  Forall (fun st => Forall P (stmtHoles st)) sts.
Proof.
  unfold holesOf. setoid_rewrite flat_map_elem_of.
  rewrite Forall_forall. setoid_rewrite Forall_forall. naive_solver.
Qed.

Lemma aliasesOf_Forall (P : string -> Prop) sts :
  (forall a, a ∈ aliasesOf sts -> P a) <->
  Forall (fun st => Forall P (Expr_GetAliases (extractExpressionNode st))) sts.
Proof.
  unfold aliasesOf. setoid_rewrite flat_map_elem_of.
  rewrite Forall_forall. setoid_rewrite Forall_forall. naive_solver.
Qed.

Lemma stmtHoles_inlineStmt x v st h :
  h ∈ stmtHoles (inlineStmt x v st) -> h ∈ stmtHoles st \/ h ∈ GetHoles v.
Proof.
  unfold stmtHoles, inlineStmt.
  destruct st as [c|[i [c|v0]]]; simpl; [| | apply GetHoles_ReplaceRef_elem].
  all: rewrite !CommandNode_GetHoles_elem_of; simpl.
  all: intros (k & v' & Hv' & Hh); rewrite lookup_fmap in Hv'.
  all: destruct (Params c !! k) as [v0|] eqn:Ek; simplify_eq/=.
  all: apply GetHoles_ReplaceRef_elem in Hh as [? | ?]; eauto.
Qed.

Lemma stmtAliases_inlineStmt x v st a :
  a ∈ Expr_GetAliases (extractExpressionNode (inlineStmt x v st)) ->
  a ∈ Expr_GetAliases (extractExpressionNode st) \/ a ∈ GetAliases v.
Proof.
  unfold inlineStmt.
  destruct st as [c|[i [c|v0]]]; simpl; [| | apply GetAliases_ReplaceRef_elem].
  all: rewrite !CommandNode_GetAliases_elem_of; simpl.
  all: intros (k & v' & Hv' & Hh); rewrite lookup_fmap in Hv'.
  all: destruct (Params c !! k) as [v0|] eqn:Ek; simplify_eq/=.
  all: apply GetAliases_ReplaceRef_elem in Hh as [? | ?]; eauto.
Qed.

Lemma stmtHoles_resolveAliasStmt env st h :
  h ∈ stmtHoles (resolveAliasStmt env st) -> h ∈ stmtHoles st.
Proof.
  unfold stmtHoles, resolveAliasStmt.
  destruct st as [c|[i [c|v0]]]; simpl; [| | by rewrite GetHoles_ResolveAlias].
  all: rewrite !CommandNode_GetHoles_elem_of; simpl.
  all: intros (k & v' & Hv' & Hh); rewrite map_lookup_imap in Hv'.
  all: destruct (Params c !! k) as [v0|] eqn:Ek; simplify_eq/=.
  all: rewrite GetHoles_ResolveAlias in Hh; eauto.
Qed.

(** The inlining adds no hole and no alias. *)
Lemma inlined_holes (P : string -> Prop) sts out :
  inlined sts out ->
  (forall h, h ∈ holesOf sts -> P h) -> forall h, h ∈ holesOf out -> P h.
Proof.
  rewrite !holesOf_Forall. apply inlined_Forall. intros d v st Ed Hd Hst.
  unfold stmtHoles in Hd. simpl in Hd. rewrite Ed in Hd. simpl in Hd.
  rewrite Forall_forall in *.
  intros h [? | ?]%stmtHoles_inlineStmt; auto.
Qed.

Lemma inlined_aliases (P : string -> Prop) sts out :
  inlined sts out ->
  (forall a, a ∈ aliasesOf sts -> P a) -> forall a, a ∈ aliasesOf out -> P a.
Proof.
  rewrite !aliasesOf_Forall. apply inlined_Forall. intros d v st Ed Hd Hst.
  simpl in Hd. rewrite Ed in Hd. simpl in Hd. rewrite Forall_forall in *.
  intros a [? | ?]%stmtAliases_inlineStmt; auto.
Qed.

(** *** A prepared state through the rewritings *)

Lemma prepared_map (f : Statement W -> Statement W) tpl env env' :
  (forall lookup st, nodeSettled lookup st -> nodeSettled lookup (f st)) ->
  (forall st, narrows st (f st)) ->
  env_frame env env' ->
  prepared (tpl, env) ->
  prepared (mkTemplate (ID tpl) (map f (Statements tpl)), env').
Proof.
  intros Hn Hf Hfr ((lookup & Hl & Hnodes) & Hws & HF & Hc & Hask).
  pose proof Hfr as (_ & _ & _ & _ & HFe & HD & _ & HM & _). simpl in *.
  split_and!; simpl.
  - exists lookup. rewrite HD. split; [done |]. apply Forall_fmap.
    eapply Forall_impl; [exact Hnodes |]. intros st. apply Hn.
  - by apply map_narrows.
  - by rewrite HFe.
  - by eapply frame_closed.
  - by rewrite HM.
Qed.

(** A filling pass: the state stays prepared, and the processed fillers are
    written. *)
Lemma filled_prepared F tpl env :
  refs_free F -> prepared (tpl, env) ->
  prepared (mkTemplate (ID tpl) (map (fillStmt F) (Statements tpl)),
            recordProcessed F (Statements tpl) env) /\
  processedSettled (map (fillStmt F) (Statements tpl))
                   (recordProcessed F (Statements tpl) env).
Proof.
  intros HF Hp. split.
  - apply (prepared_map _ tpl env); [| | apply recordProcessed_frame | done].
    + intros lookup st. apply nodeSettled_fillStmt.
    + intros st. by apply fillStmt_narrows.
  - destruct (Statements tpl); [by left | right; by eexists].
Qed.

(** After the fillers, the answers: no hole is left that has a filler or
    could be asked for. *)
Lemma asked_settled tpl env :
  prepared (tpl, env) ->
  (forall h, h ∈ holesOf (Statements tpl) -> readMap (Fillers env) !! h = None) ->
  let F := (missingHolesLoop (MissingHolesFunc env) (sortedHoles tpl) ∅ []).1 in
  prepared (mkTemplate (ID tpl) (map (fillStmt F) (Statements tpl)),
            recordProcessed F (Statements tpl) env) /\
  processedSettled (map (fillStmt F) (Statements tpl))
                   (recordProcessed F (Statements tpl) env) /\
  holesSettled (map (fillStmt F) (Statements tpl))
               (recordProcessed F (Statements tpl) env).
Proof.
  intros Hp Hn F. pose proof Hp as (_ & _ & _ & [_ Hrefs] & Hask).
  simpl in Hrefs, Hask.
  assert (refs_free F) as HrF by (by apply missingHolesLoop_refs_free).
  assert (fills_closed F) as HcF by (by apply missingHolesLoop_closed).
  destruct (filled_prepared F tpl env HrF Hp) as [? ?].
  split_and!; [done.. |]. intros h [Hh HnF]%holesOf_fillStmt; [| done].
  apply missingHolesLoop_lookup_None in HnF; [| done].
  destruct (recordProcessed_frame F (Statements tpl) env)
    as (_ & _ & _ & _ & -> & _ & _ & -> & _). auto.
Qed.

(** After the answers, the aliases: when they are all resolved, none is
    left that could be. *)
Lemma resolved_settled tpl env :
  prepared (tpl, env) -> holesSettled (Statements tpl) env ->
  emptyResolvs env (Statements tpl) = [] ->
  let sts := map (resolveAliasStmt env) (Statements tpl) in
  prepared (mkTemplate (ID tpl) sts, env) /\
  holesSettled sts env /\ aliasesSettled sts env.
Proof.
  intros Hp Hh He sts. split_and!.
  - apply (prepared_map _ tpl env); [| | reflexivity | done].
    + intros lookup st. apply nodeSettled_resolveAliasStmt.
    + apply resolveAliasStmt_narrows.
  - unfold holesSettled in *. revert Hh. rewrite !holesOf_Forall.
    intros Hh. apply Forall_fmap. eapply Forall_impl; [exact Hh |].
    intros st Hst. simpl. rewrite Forall_forall in *.
    intros h ?%stmtHoles_resolveAliasStmt. auto.
  - intros a Ha. destruct (AliasFunc env) as [f|] eqn:Ef; [| done].
    apply (aliasesOf_resolveAliasStmt env f) in Ha; [| done].
    rewrite He in Ha. by apply elem_of_nil in Ha.
Qed.

(** The inlining of a prepared state without work for the passes before it
    gives a settled state. *)
Lemma inlined_settled tpl env out r :
  prepared (tpl, env) ->
  holesSettled (Statements tpl) env -> aliasesSettled (Statements tpl) env ->
  processedSettled (Statements tpl) env ->
  inlineLoop (length (Statements tpl)) (Statements tpl) (ResolvedVariables env)
  = Ok (out, r) ->
  settled (mkTemplate (ID tpl) out, setResolvedVariables r env).
Proof.
  intros ((lookup & Hl & Hnodes) & Hws & _) Hh Ha Hp Hloop. simpl in *.
  pose proof (inlineLoop_inlined _ _ _ _ _ (le_n _) Hloop) as Hin.
  split_and!; simpl.
  - exists lookup. split; [done |]. apply nodeSettled_nodes.
    eapply inlined_Forall; [| done..]. intros d v st _ _.
    apply nodeSettled_inlineStmt.
  - split_and!; [by eapply inlineLoop_scoped | by eapply inlineLoop_command_scoped
                 | by eapply inlined_notResolved].
  - unfold holesSettled. by apply (inlined_holes _ _ _ Hin).
  - unfold aliasesSettled. by apply (inlined_aliases _ _ _ Hin).
  - destruct Hp as [Hnil | ?]; [left | by right].
    rewrite Hnil in Hin. by apply inlined_of_nil.
Qed.

(** *** The lenient mode, pass by pass *)

(** What the lenient mode computes when it succeeds: the statements with
    the required params, well scoped; filled from the fillers; filled from
    the answers for the holes left; their aliases resolved, all of them;
    the declared values inlined. *)
Lemma LenientCompileMode_Ok tpl env tpl' env' :
  multiPass_compile LenientCompileMode tpl env = Ok (tpl', env') ->
  exists lookup sts1 out r,
    DefLookupFunc env = Some lookup /\
    Forall2 (stmtStep (definedStep lookup)) (Statements tpl) sts1 /\
    well_scoped ∅ sts1 /\
    let F := readMap (Fillers env) in
    let sts3 := map (fillStmt F) sts1 in
    let env3 := recordProcessed F sts1 env in
    let F4 := (missingHolesLoop (MissingHolesFunc env3)
                 (sortedHoles (mkTemplate (ID tpl) sts3)) ∅ []).1 in
    let sts4 := map (fillStmt F4) sts3 in
    let env4 := recordProcessed F4 sts3 env3 in
    let sts5 := map (resolveAliasStmt env4) sts4 in
    emptyResolvs env4 sts4 = [] /\
    inlineLoop (length sts5) sts5 (ResolvedVariables env4) = Ok (out, r) /\
    tpl' = mkTemplate (ID tpl) out /\ env' = setResolvedVariables r env4.
Proof.
  simpl.
  destruct (resolveAgainstDefinitions tpl env) as [[tpl1 env1]| |] eqn:E1;
    [| done..].
  pose proof (resolveAgainstDefinitions_rel keepsRefs _ _ _ _
                addRequiredHoles_keepsRefs E1) as (Hid & _ & _).
  apply resolveAgainstDefinitions_steps in E1 as (-> & lookup & Hl & Hsteps).
  destruct (checkInvalidReferenceDeclarationsPass tpl1 env)
    as [[tpl2 env2]| |] eqn:E2; [| done..].
  apply checkInvalidReferenceDeclarationsPass_Ok in E2 as (-> & -> & Hws).
  rewrite visitHoles_fillers, visitHoles_processHolesWith. simpl.
  unfold resolveAliasPass at 1. rewrite visitHoles_resolveAliasExpr. simpl.
  case_decide as He; [done |].
  destruct (inlineVariableValuePass _ _) as [[tpl6 env6]| |] eqn:E6; [| done..].
  intros [= <- <-]. apply res_map_Ok in E6 as ([out r] & Hloop & [= <- <-]).
  simpl in Hloop. rewrite Hid in *.
  exists lookup, (Statements tpl1), out, r. split_and!; try done.
  destruct (emptyResolvs _ _); [done | simpl in He; lia].
Qed.

(** The lenient mode returns a settled state, when the fillers and the
    answers for missing holes are closed. *)
Lemma LenientCompileMode_settles tpl env tpl' env' :
  fills_closed (readMap (Fillers env)) -> env_closed env -> asks_closed env ->
  multiPass_compile LenientCompileMode tpl env = Ok (tpl', env') ->
  settled (tpl', env').
Proof.
  intros HF Hc Hask
    (lookup & sts1 & out & r & Hl & Hsteps & Hws & Hres & Hloop & -> & ->)
      %LenientCompileMode_Ok.
  cbv zeta in Hres, Hloop.
  assert (prepared (mkTemplate (ID tpl) sts1, env)) as H2.
  { split_and!; simpl; [| done..].
    exists lookup. split; [done | by eapply stmtSteps_settled]. }
  destruct (filled_prepared (readMap (Fillers env)) _ _ (proj1 Hc) H2)
    as [H3 _].
  apply asked_settled in H3 as (H4 & Hp4 & Hh4).
  - apply resolved_settled in H4 as (H5 & Hh5 & Ha5); [| done..].
    apply (inlined_settled _ _ _ _ H5 Hh5 Ha5); [| exact Hloop].
    destruct Hp4 as [Hnil | ?]; [left | by right].
    simpl in *. by rewrite Hnil.
  - simpl. intros h Hh. rewrite recordProcessed_Fillers.
    by apply holesOf_fillStmt in Hh as [_ ?].
Qed.

End settled_established.

Section idempotence.
Context {W : Type}.
Implicit Types (tpl : Template W) (env : Env W).

(** The normal mode is the lenient mode and the two guards, which a second
    run passes as the first did. *)
Lemma NormalCompileMode_idempotent tpl env tpl' env' :
  closed env ->
  multiPass_compile NormalCompileMode tpl env = Ok (tpl', env') ->
  multiPass_compile NormalCompileMode tpl' env' = Ok (tpl', env').
Proof.
  intros (HF & Hc & Hask). unfold NormalCompileMode.
  intros (tpl1 & env1 & Hlen & Hg)%multiPass_compile_Ok_app.
  pose proof Hg as (-> & -> & _)%guards_Ok.
  rewrite multiPass_compile_app.
  by rewrite (LenientCompileMode_settled tpl1 env1)
    by by eapply LenientCompileMode_settles.
Qed.

(** C14. Idempotent compilation: with fillers and answers for missing holes
    that carry no hole and no reference, compiling again in the lenient or
    in the normal mode what a compilation in that mode returned, with the
    environment it returned, returns the same template and the same
    environment: the same processed fillers, the same resolved variables. *)
Theorem Compile_idempotent tpl env mode tpl' env' :
  mode = LenientCompileMode \/ mode = NormalCompileMode ->
  closed env ->
  Compile tpl env [mode] = Ok (tpl', env') ->
  Compile tpl' env' [mode] = Ok (tpl', env').
Proof.
  intros [-> | ->] Hc Hm; [| by eapply NormalCompileMode_idempotent].
  destruct Hc as (HF & Hc & Hask).
  apply LenientCompileMode_settled. by eapply LenientCompileMode_settles.
Qed.

End idempotence.

(** ** The theorem on the sample template *)

Lemma Compile_idempotent_witness :
  Compile S1_lenient.1 S1_lenient.2 [LenientCompileMode]
  = Ok (S1_lenient.1, S1_lenient.2).
Proof.
  apply (Compile_idempotent Sample.S1 Sample.env).
  - by left.
  - split; [apply (bool_decide_unpack _); vm_compute; reflexivity |].
    split; [| intros ask k [=]].
    split; [apply (bool_decide_unpack _); vm_compute; reflexivity |].
    intros ask k [=].
  - vm_compute. reflexivity.
Defined.

