(* ===== verification/Runner.v ===== *)
(** * The runner

    Models [Template.Run], [prefixError], [runCmd] and [Validate] of
    src/template/template.go.  A run goes through the statements in order
    on a world [W] that the command objects act on; it builds the executed
    template statement by statement, so that what it returns on an early exit
    holds the statements run so far, the failing one included, and none of
    the others.

    The identifier of the executed template is drawn from the clock and a
    random source; here it is an argument of the run. *)

From S2P Require Import Prelude Values Driver Ast Env Template PassRefs.
From S2P Require Import PassCommands Compile.

Definition unknownNodeErr (ty : string) : error :=
  "unknown type of node: " +:+ ty.

Definition driverFunctionFailedErr : error := "Driver function call failed".

(** prefixError: a nil error stays nil. *)
Definition prefixError (err : option error) (prefix : string) : option error :=
  match err with
  | None => None
  | Some e => Some (prefix +:+ ": " +:+ e)
  end.

Section runner.
Context {W : Type}.

(** The body of both command cases of the loop: the late references are
    replaced, then the command is dry run, when it can be, or run.  A run of
    a node whose command was never injected is a panic ([None]). *)
Definition runNode (env : Env W) (n : CommandNode W)
    (vars : gmap string (option lit)) (w : W) : option (CommandNode W * W) :=
  let ctx := readMap (ResolvedVariables env) in
  let n := CommandNode_ProcessRefs vars n in
  if IsDryRun env then
    match NodeCommand n ≫= cmdDryRunCtx with
    | Some v =>
        let '((result, err), w') := v ctx (ToDriverParams n) w in
        Some (setResult result (prefixError err "dry run") n, w')
    | None => Some (n, w)
    end
  else
    match CommandNode_Run n ctx (ToDriverParams n) w with
    | Some ((result, err), w') => Some (setResult result err n, w')
    | None => None
    end.

(** Whether the loop returns after a node: a real run whose command
    failed. *)
Definition halts (env : Env W) (n : CommandNode W) : bool :=
  negb (IsDryRun env) && bool_decide (is_Some (CmdErr n)).

(** The loop of Run over the statements left, with the statements of the
    executed template so far. *)
Fixpoint runLoop (env : Env W) (sts : list (Statement W))
    (current : list (Statement W)) (vars : gmap string (option lit)) (w : W)
    : res (list (Statement W) * W) :=
  match sts with
  | [] => Ok (current, w)
  | SCommand n :: rest =>
      match runNode env n vars w with
      | None => Panic "invalid memory address or nil pointer dereference"
      | Some (n', w') =>
          let current := current ++ [SCommand n'] in
          if halts env n' then Ok (current, w')
          else runLoop env rest current vars w'
      end
  | SDeclaration d :: rest =>
      match Expr d with
      | ECommand n =>
          match runNode env n vars w with
          | None => Panic "invalid memory address or nil pointer dereference"
          | Some (n', w') =>
              let current :=
                current ++ [SDeclaration (mkDeclarationNode (Ident d) (ECommand n'))] in
              if halts env n' then Ok (current, w')
              else runLoop env rest current (<[Ident d := Result n']> vars) w'
          end
      | EValue _ =>
          Err (current ++ [SDeclaration d], w) (unknownNodeErr "*ast.ValueNode")
      end
  end.

(** Template.Run. *)
Definition Template_Run (newID : string) (s : Template W) (env : Env W) (w : W)
    : res (Template W * W) :=
  res_map (fun '(current, w') => (mkTemplate newID current, w'))
          (runLoop env (Statements s) [] ∅ w).

(** Validate: the errors of every rule, in order. *)
Definition Validate (rules : list (Template W -> list error)) (s : Template W)
    : list error :=
  foldl (fun all rule => all ++ rule s) [] rules.

(** runCmd: the runner of a single node through the registry or through the
    driver. *)
Definition runCmd (env : Env W) (n : CommandNode W)
    (vars : gmap string (option lit)) (w : W) : res (CommandNode W * W) :=
  let n := CommandNode_ProcessRefs vars n in
  let params := ToDriverParams n in
  let ctx := NewContext (readMap (ResolvedVariables env)) in
  if IsNewRunner env then
    match Lookuper env with
    | None => Panic "invalid memory address or nil pointer dereference"
    | Some lookuper =>
        match lookuper [Action n; Entity n] with
        | Some cmd =>
            let '(n, w) :=
              if IsDryRun env
              then let '((result, err), w') := DryRun cmd ctx params w in
                   (setResult result err n, w')
              else (n, w) in
            let '((result, err), w') := Run cmd ctx params w in
            Ok (setResult result err n, w')
        | None =>
            Err (n, w) ("new runner: no command for " +:+ Action n +:+ " "
                        +:+ Entity n)
        end
    end
  else
    match EnvDriver env with
    | None => Panic "invalid memory address or nil pointer dereference"
    | Some driver =>
        match Lookup driver [Action n; Entity n] with
        | (_, Some err) => Err (n, w) (driverErr_msg err)
        | (None, None) => Panic "invalid memory address or nil pointer dereference"
        | (Some fn, None) =>
            let '((result, err), w') := fn ctx params w in
            let n := setResult result err n in
            match err with
            | Some _ => Err (n, w') driverFunctionFailedErr
            | None => Ok (n, w')
            end
        end
    end.

(** ** Reference definitions *)

(** A node whose command object can be run. *)
Definition runnable (n : CommandNode W) : bool :=
  match NodeCommand n with
  | Some cmd => match cmdRunCtx cmd with Some _ => true | None => false end
  | None => false
  end.

(** A statement whose command failed. *)
Definition failed (st : Statement W) : bool :=
  match commandOf st with
  | Some n => bool_decide (is_Some (CmdErr n))
  | None => false
  end.

End runner.

(** ** Sample data *)

(** What scenario S6 looks at in a statement that was run: the result and
    the error of its command, and the param id. *)
Definition report (st : Statement (list string))
    : option (option lit * option error * option value) :=
  option_map (fun n => (CmdResult n, CmdErr n, Params n !! "id")) (commandOf st).

(** The real run of S6 as compiled for the new runner. *)
Definition S6_run : res (Template (list string) * list string) :=
  Template_Run "run-1" S6_compiled.1 S6_compiled.2 [].

Definition S6_ran : list (Statement (list string)) * list string :=
  match S6_run with
  | Ok (t, w) => (Statements t, w)
  | _ => ([], [])
  end.

(** The environment of S6 in dry-run mode. *)
Definition dryEnv : Env (list string) :=
  mkEnv None (Some Sample.registry) true true (Some ∅) None None None None
        (Some ∅).

(** A template whose second statement declares a value that is a reference
    to the result of the first: inlining cannot drop it. *)
Definition lateValue : Template (list string) := mkTemplate "late" [
  Sample.decl "a" (ECommand (Sample.node "create" "subnet" []));
  Sample.decl "b" (EValue (VRef "a"));
  SCommand (Sample.node "create" "subnet" [("cidr", VRef "b")])
].

(** ** Theorems *)

Section runner_theorems.
Context {W : Type}.
Implicit Types (env : Env W) (n : CommandNode W) (st : Statement W).
Implicit Types (sts current : list (Statement W)) (w : W).

Lemma prefixError_is_Some err prefix :
  is_Some (prefixError err prefix) <-> is_Some err.
Proof. destruct err; simpl; split; intros [? ?]; eauto; done. Qed.

(** A step of the loop on a statement with a command: the statement the
    loop appends. *)
Lemma runNode_keeps env n vars w n' w' :
  runNode env n vars w = Some (n', w') ->
  Action n' = Action n /\ Entity n' = Entity n /\ NodeCommand n' = NodeCommand n.
Proof.
  unfold runNode. destruct (IsDryRun env).
  - destruct (_ ≫= _) as [v|].
    + destruct (v _ _ w) as [[? ?] ?]. by intros [= <- _].
    + by intros [= <- _].
  - destruct (CommandNode_Run _ _ _ w) as [[[? ?] ?]|]; [| done].
    by intros [= <- _].
Qed.

(** The loop only appends to the executed statements. *)
Lemma runLoop_prefix env sts current vars w current' w' :
  res_state (runLoop env sts current vars w) = Some (current', w') ->
  exists ran, current' = current ++ ran /\ length ran <= length sts.
Proof.
  revert current vars w.
  induction sts as [|st sts IH]; intros current vars w; simpl.
  - intros [= <- _]. exists []. by rewrite app_nil_r.
  - assert (forall x vars' w1,
              res_state (if halts env x.1 then Ok (current ++ [x.2], w1)
                         else runLoop env sts (current ++ [x.2]) vars' w1)
              = Some (current', w') ->
              exists ran, current' = current ++ ran /\
                          length ran <= S (length sts)) as Hstep.
    { intros x vars' w1. destruct (halts env x.1); simpl.
      - intros [= <- _]. exists [x.2]. split; [done | simpl; lia].
      - intros (ran & -> & Hlen)%IH. exists (x.2 :: ran).
        rewrite <- app_assoc. split; [done | simpl; lia]. }
    destruct st as [n|d].
    + destruct (runNode env n vars w) as [[n' w1]|]; [| done].
      apply (Hstep (n', SCommand n')).
    + destruct (Expr d) as [n|v].
      * destruct (runNode env n vars w) as [[n' w1]|]; [| done].
        apply (Hstep (n', SDeclaration _)).
      * intros [= <- _]. exists [SDeclaration d]. split; [done | simpl; lia].
Qed.

(** C5. A real run halts on the first failure: in what it returns, no
    statement before the last carries an error, and when fewer statements
    were run than the template has, the last one carries the error that
    ended the run. *)
Theorem runLoop_halts_on_error env sts current vars w current' w' :
  IsDryRun env = false ->
  Forall (fun st => failed st = false) current ->
  runLoop env sts current vars w = Ok (current', w') ->
  (length current' = length current + length sts /\
   Forall (fun st => failed st = false) current') \/
  (exists done st, current' = done ++ [st] /\ failed st = true /\
                   Forall (fun st => failed st = false) done /\
                   length current' <= length current + length sts).
Proof.
  intros Hdry. revert current vars w.
  induction sts as [|st sts IH]; intros current vars w Hcur; simpl.
  - intros [= <- _]. left. split; [lia | done].
  - assert (forall n' st' vars' w1,
              commandOf st' = Some n' ->
              (if halts env n' then Ok (current ++ [st'], w1)
               else runLoop env sts (current ++ [st']) vars' w1)
              = Ok (current', w') ->
              (length current' = length current + S (length sts) /\
               Forall (fun st => failed st = false) current') \/
              (exists done st, current' = done ++ [st] /\ failed st = true /\
                 Forall (fun st => failed st = false) done /\
                 length current' <= length current + S (length sts))) as Hstep.
    { intros n' st' vars' w1 Hst'. unfold halts. rewrite Hdry. simpl.
      case_bool_decide as Herr.
      - intros [= <- _]. right. exists current, st'. unfold failed.
        rewrite Hst', bool_decide_eq_true, length_app. simpl.
        repeat split; try done; lia.
      - intros Hl. apply IH in Hl.
        + rewrite length_app in Hl. simpl in Hl.
          destruct Hl as [[? ?]|(? & ? & ? & ? & ? & ?)]; [left | right];
            [split; [lia | done] | do 2 eexists; repeat split; eauto; lia].
        + apply Forall_app. split; [done |]. constructor; [| done].
          unfold failed. rewrite Hst'. by apply bool_decide_eq_false. }
    destruct st as [n|d].
    + destruct (runNode env n vars w) as [[n' w1]|]; [| done]. by apply Hstep.
    + destruct (Expr d) as [n|v]; [| done].
      destruct (runNode env n vars w) as [[n' w1]|]; [| done]. by apply Hstep.
Qed.

(** A run meets no declaration of a value without failing: the
    declarations that variable inlining keeps end the run with an
    error. *)
Theorem runLoop_value_declaration env d v sts current vars w :
  Expr d = EValue v ->
  runLoop env (SDeclaration d :: sts) current vars w =
  Err (current ++ [SDeclaration d], w) (unknownNodeErr "*ast.ValueNode").
Proof. intros Hv. simpl. by rewrite Hv. Qed.

Lemma runnable_spec n :
  runnable n = true <->
  exists cmd, NodeCommand n = Some cmd /\ is_Some (cmdRunCtx cmd).
Proof.
  unfold runnable. destruct (NodeCommand n) as [cmd|].
  - destruct (cmdRunCtx cmd) eqn:E.
    + split; [| done]. intros _. exists cmd. by rewrite E.
    + split; [done |]. intros (? & [= <-] & [? ?]). congruence.
  - split; [done | by intros (? & ? & _)].
Qed.

(** A node runs without panic in a dry run, and in a real run when its
    command object has a Run method. *)
Lemma runNode_is_Some env n vars w :
  IsDryRun env = true \/ runnable n = true -> is_Some (runNode env n vars w).
Proof.
  unfold runNode. destruct (IsDryRun env).
  - intros _. destruct (_ ≫= _) as [v|]; [| done].
    by destruct (v _ _ w) as [[? ?] ?].
  - intros [? | (cmd & Hc & [run Hrun])%runnable_spec]; [done |].
    unfold CommandNode_Run. simpl. rewrite Hc, Hrun.
    by destruct (run _ _ w) as [[? ?] ?].
Qed.

(** A run does not panic when it is a dry run, or when every command node
    of the template carries a command object with a Run method. *)
Lemma runLoop_safe env sts current vars w :
  IsDryRun env = true \/ forallb runnable (omap commandOf sts) = true ->
  is_Panic (runLoop env sts current vars w) = false.
Proof.
  revert current vars w.
  induction sts as [|st sts IH]; intros current vars w Hcmd; [done |].
  assert (forall n, commandOf st = Some n ->
            (exists n' w1, runNode env n vars w = Some (n', w1)) /\
            (IsDryRun env = true \/
             forallb runnable (omap commandOf sts) = true)) as Hnode.
  { intros n Hn. csimpl in Hcmd. rewrite Hn in Hcmd. csimpl in Hcmd.
    rewrite andb_true_iff in Hcmd.
    destruct (runNode_is_Some env n vars w) as [[n' w1] ->]; naive_solver. }
  simpl. destruct st as [n|d]; simpl in Hnode.
  - destruct (Hnode n eq_refl) as [(n' & w1 & ->) ?].
    destruct (halts env n'); [done | by apply IH].
  - destruct (Expr d) as [n|v]; [| done].
    destruct (Hnode n eq_refl) as [(n' & w1 & ->) ?].
    destruct (halts env n'); [done | by apply IH].
Qed.

(** C38. A dry run never halts and never panics: on a template of commands
    and command declarations it goes through every statement. *)
Theorem runLoop_dry_run_total env sts current vars w :
  IsDryRun env = true ->
  Forall (fun st => is_Some (commandOf st)) sts ->
  exists current' w',
    runLoop env sts current vars w = Ok (current', w') /\
    length current' = length current + length sts.
Proof.
  intros Hdry Hsts. revert current vars w.
  induction Hsts as [|st sts [n Hn] _ IH]; intros current vars w; simpl.
  - exists current, w. split; [done | lia].
  - assert (exists n' w1, runNode env n vars w = Some (n', w1)) as (n' & w1 & Hr).
    { unfold runNode. rewrite Hdry. destruct (_ ≫= _) as [v|]; [| eauto].
      destruct (v _ _ w) as [[? ?] ?]. eauto. }
    assert (halts env n' = false) as Hh by (unfold halts; by rewrite Hdry).
    destruct st as [c|d]; simpl in Hn.
    + injection Hn as ->. rewrite Hr, Hh.
      destruct (IH (current ++ [SCommand n']) vars w1) as (c' & w' & -> & Hlen).
      exists c', w'. split; [done |]. rewrite length_app in Hlen. simpl in *. lia.
    + destruct (Expr d) as [c|v]; [| done]. injection Hn as ->. rewrite Hr, Hh.
      edestruct IH as (c' & w' & -> & Hlen).
      exists c', w'. split; [done |]. rewrite length_app in Hlen. simpl in *. lia.
Qed.

(** C33. In the new runner, a dry run of a node is followed by a real run:
    the node gets the result of the real run, on the world the dry run
    left. *)
Theorem runCmd_dry_run_runs env n vars w lookuper cmd :
  IsNewRunner env = true -> IsDryRun env = true ->
  Lookuper env = Some lookuper ->
  lookuper [Action n; Entity n] = Some cmd ->
  let n1 := CommandNode_ProcessRefs vars n in
  let ctx := NewContext (readMap (ResolvedVariables env)) in
  let dry := DryRun cmd ctx (ToDriverParams n1) w in
  let real := Run cmd ctx (ToDriverParams n1) dry.2 in
  runCmd env n vars w = Ok (setResult real.1.1 real.1.2 n1, real.2).
Proof.
  intros Hnew Hdry Hl Hcmd. unfold runCmd. rewrite Hnew, Hdry, Hl. simpl.
  rewrite Hcmd. destruct (DryRun _ _ _ w) as [[? ?] w1]. simpl.
  by destruct (Run _ _ _ w1) as [[? ?] w2].
Qed.

(** Validate returns the errors of the rules, rule after rule. *)
Lemma Validate_concat (rules : list (Template W -> list error)) (s : Template W) :
  Validate rules s = concat (map (fun rule => rule s) rules).
Proof.
  unfold Validate.
  assert (forall all, foldl (fun all rule => all ++ rule s) all rules
                      = all ++ concat (map (fun rule => rule s) rules)) as H.
  { induction rules as [|rule rules IH]; intros all; simpl;
      [by rewrite app_nil_r | by rewrite IH, app_assoc]. }
  apply (H []).
Qed.

(** A template is valid when every rule finds it so. *)
Lemma Validate_nil (rules : list (Template W -> list error)) (s : Template W) :
  Validate rules s = [] <-> Forall (fun rule => rule s = []) rules.
Proof.
  rewrite Validate_concat. induction rules as [|rule rules IH]; simpl.
  - by split; [constructor |].
  - rewrite Forall_cons, <- IH. apply app_nil.
Qed.

End runner_theorems.

(** Scenario S6: the run records the result of the first command,
    hands it to the second through the reference, records the error of the
    second, and does not run the third. *)
Example scenario_S6 :
  res_map (fun '(t, w) => (map report (Statements t), w)) S6_run =
  Ok ([Some (Some (LStr "createsubnet-1"), None, None);
       Some (Some (LStr "updatesubnet-1"), Some "boom",
             Some (VLit (LStr "createsubnet-1")))],
      ["createsubnet"; "updatesubnet"]).
Proof. vm_compute. reflexivity. Qed.


(** ** The theorems on the sample templates *)

Lemma runLoop_halts_on_error_witness :
  (length S6_ran.1 = length (@nil (Statement (list string)))
                     + length (Statements S6_compiled.1) /\
   Forall (fun st => failed st = false) S6_ran.1) \/
  (exists done st, S6_ran.1 = done ++ [st] /\ failed st = true /\
                   Forall (fun st => failed st = false) done /\
                   length S6_ran.1 <= length (@nil (Statement (list string)))
                                      + length (Statements S6_compiled.1)).
Proof.
  apply (runLoop_halts_on_error S6_compiled.2 (Statements S6_compiled.1) [] ∅ []
           S6_ran.1 S6_ran.2).
  - reflexivity.
  - constructor.
  - vm_compute. reflexivity.
Defined.

Lemma runLoop_value_declaration_witness :
  runLoop Sample.env (Statements Sample.S1) [] ∅ [] =
  Err ([] ++ [Sample.decl "subnetname" (EValue (Sample.str "my-subnet"))], [])
      (unknownNodeErr "*ast.ValueNode").
Proof.
  apply (runLoop_value_declaration Sample.env
           (mkDeclarationNode "subnetname" (EValue (Sample.str "my-subnet")))
           (Sample.str "my-subnet")).
  reflexivity.
Defined.

Lemma runLoop_dry_run_total_witness :
  exists current' w',
    runLoop dryEnv (Statements S6_compiled.1) [] ∅ [] = Ok (current', w') /\
    length current' = length (@nil (Statement (list string)))
                      + length (Statements S6_compiled.1).
Proof.
  apply (runLoop_dry_run_total dryEnv (Statements S6_compiled.1) [] ∅ []).
  - reflexivity.
  - vm_compute. repeat constructor; eexists; reflexivity.
Defined.

Lemma runCmd_dry_run_runs_witness :
  runCmd dryEnv (Sample.node "create" "subnet" []) ∅ [] =
  Ok (setResult (Some (LStr "createsubnet-1")) None
                (Sample.node "create" "subnet" []),
      ["createsubnet"]).
Proof.
  apply (runCmd_dry_run_runs dryEnv (Sample.node "create" "subnet" []) ∅ []
           Sample.registry (Sample.command "createsubnet" [] None));
    reflexivity.
Defined.

