(* ===== verification/Inlining.v ===== *)
(** * Inlining against late binding

    Property P6 of the specification: replacing [$x] by the value declared
    for [x] and dropping the declaration gives the run the declaration would
    give if it were bound when the run reaches it.

    [Template.Run] of src/template/template.go binds the result of a command
    to its identifier when the command has run ([vars], read by
    [ProcessRefs]); it has no case for the declaration of a value, which
    [inlineVariableValuePass] of src/template/compile.go removes beforehand.
    [lateLoop] is the reference: the loop of [Template.Run] with the missing
    case, a declared value bound as a result is.  What is compared is what a
    run shows ([observe]): for every command that ran, in order, its
    action, entity, the params its driver was given, its result and its
    error, and the world at the end. *)

From S2P Require Import Prelude Values Driver Ast Env Template PassRefs.
From S2P Require Import PassHoles PassAlias Compile Runner.

Section inlining.
Context {W : Type}.

(** What a run shows of a command node. *)
Definition observed (n : CommandNode W)
    : string * string * gmap string lit * option lit * option error :=
  (Action n, Entity n, ToDriverParams n, CmdResult n, CmdErr n).

(** What it shows of a statement: nothing of the declaration of a value. *)
Definition observation (st : Statement W)
    : option (option string *
              (string * string * gmap string lit * option lit * option error)) :=
  match st with
  | SCommand n => Some (None, observed n)
  | SDeclaration d =>
      match Expr d with
      | ECommand n => Some (Some (Ident d), observed n)
      | EValue _ => None
      end
  end.

Definition observe (r : res (list (Statement W) * W)) :=
  res_map (fun '(sts, w) => (omap observation sts, w)) r.

(** What Template.Run shows: the identifier of the executed template is
    drawn at random. *)
Definition observeRun (r : res (Template W * W)) :=
  observe (res_map (fun '(t, w) => (Statements t, w)) r).

(** A statement that declares no value. *)
Definition declaresValue (st : Statement W) : bool :=
  match st with
  | SDeclaration d => match Expr d with EValue _ => true | ECommand _ => false end
  | SCommand _ => false
  end.

(** The reference run: as the loop of Template.Run, and the declaration of a
    value binds the plain value it has when the run reaches it. *)
Fixpoint lateLoop (env : Env W) (sts : list (Statement W))
    (current : list (Statement W)) (vars : gmap string (option lit)) (w : W)
    : res (list (Statement W) * W) :=
  match sts with
  | [] => Ok (current, w)
  | SCommand n :: rest =>
      match runNode env n vars w with
      | None => Panic "invalid memory address or nil pointer dereference"
      | Some (n', w') =>
          let current := current ++ [SCommand n'] in
          if halts env n' then Ok (current, w')
          else lateLoop env rest current vars w'
      end
  | SDeclaration d :: rest =>
      match Expr d with
      | ECommand n =>
          match runNode env n vars w with
          | None => Panic "invalid memory address or nil pointer dereference"
          | Some (n', w') =>
              let current :=
                current ++ [SDeclaration (mkDeclarationNode (Ident d) (ECommand n'))] in
              if halts env n' then Ok (current, w')
              else lateLoop env rest current (<[Ident d := Result n']> vars) w'
          end
      | EValue v =>
          lateLoop env rest (current ++ [SDeclaration d])
                   (<[Ident d := Value (ProcessRefs vars v)]> vars) w
      end
  end.

End inlining.

(** ** Sample data *)

(** S1 after the passes of the lenient mode that come before the inlining:
    the hole is filled and the alias resolved, both declarations are
    there. *)
Definition S1_resolved : Template (list string) * Env (list string) :=
  match multiPass_compile [resolveHolesPass; resolveAliasPass]
                          Sample.S1 Sample.runnerEnv with
  | Ok r => r
  | _ => (Sample.S1, Sample.runnerEnv)
  end.

Definition S1_inlined : Template (list string) * Env (list string) :=
  match inlineVariableValuePass S1_resolved.1 S1_resolved.2 with
  | Ok r => r
  | _ => S1_resolved
  end.

(** ** Theorems *)

Section inlining_theorems.
Context {W : Type}.
Implicit Types (env : Env W) (n : CommandNode W) (st : Statement W).
Implicit Types (sts current : list (Statement W)).
Implicit Types (vars : gmap string (option lit)) (w : W).

(** *** One command *)

Lemma observed_setResult n1 n2 result err :
  observed n1 = observed n2 ->
  observed (setResult result err n1) = observed (setResult result err n2).
Proof.
  unfold observed, ToDriverParams. simpl. by intros [= -> -> -> _ _].
Qed.

(** Two nodes with the same command object that show the same once their
    references are processed run the same. *)
Lemma runNode_observed env n1 n2 vars1 vars2 w :
  NodeCommand n1 = NodeCommand n2 ->
  observed (CommandNode_ProcessRefs vars1 n1)
  = observed (CommandNode_ProcessRefs vars2 n2) ->
  option_Forall2 (fun r1 r2 => observed r1.1 = observed r2.1 /\ r1.2 = r2.2)
                 (runNode env n1 vars1 w) (runNode env n2 vars2 w).
Proof.
  intros Hc Ho. pose proof Ho as [= _ _ Hp _ _].
  unfold runNode, CommandNode_Run. cbn [NodeCommand CommandNode_ProcessRefs setParams].
  rewrite Hc, Hp. destruct (IsDryRun env).
  - destruct (NodeCommand n2 ≫= cmdDryRunCtx) as [run|]; [| by constructor].
    destruct (run _ _ w) as [[result err] w']. constructor.
    split; [by apply observed_setResult | done].
  - destruct (NodeCommand n2) as [c|]; [| constructor].
    destruct (cmdRunCtx c) as [run|]; [| constructor].
    destruct (run _ _ w) as [[result err] w']. constructor.
    split; [by apply observed_setResult | done].
Qed.

(** A reference bound late against a reference replaced. *)
Lemma runNode_ReplaceRef env n vars w x v l :
  Value v = Some l ->
  option_Forall2 (fun r1 r2 => observed r1.1 = observed r2.1 /\ r1.2 = r2.2)
                 (runNode env n (<[x := Some l]> vars) w)
                 (runNode env (CommandNode_ReplaceRef x v n) vars w).
Proof.
  intros Hv. apply runNode_observed; [done |]. unfold observed.
  by rewrite (ToDriverParams_ProcessRefs_ReplaceRef vars x v l n Hv).
Qed.

Lemma observed_halts env n1 n2 :
  observed n1 = observed n2 -> halts env n1 = halts env n2.
Proof. intros [= _ _ _ _ Herr]. unfold halts. by rewrite Herr. Qed.

Lemma observed_Result n1 n2 : observed n1 = observed n2 -> Result n1 = Result n2.
Proof. by intros [= _ _ _ ? _]. Qed.

Lemma observation_snoc current1 current2 st1 st2 :
  omap observation current1 = omap observation current2 ->
  observation st1 = observation st2 ->
  omap observation (current1 ++ [st1]) = omap observation (current2 ++ [st2]).
Proof. intros Hc Hs. rewrite !omap_app. csimpl. by rewrite Hc, Hs. Qed.

(** *** The loops *)

(** Without the declaration of a value, the reference is the loop of
    Template.Run. *)
Lemma lateLoop_runLoop env sts current vars w :
  Forall (fun st => declaresValue st = false) sts ->
  lateLoop env sts current vars w = runLoop env sts current vars w.
Proof.
  intros Hsts. revert current vars w.
  induction Hsts as [|[n|d] sts Hst _ IH]; intros current vars w; simpl in *;
    [done | |].
  - destruct (runNode env n vars w) as [[n' w']|]; [| done].
    by destruct (halts env n').
  - destruct (Expr d) as [n|v]; [| done].
    destruct (runNode env n vars w) as [[n' w']|]; [| done].
    by destruct (halts env n').
Qed.

(** The substitution lemma of the run: binding [x] to the plain value of
    [v] before the statements run, against replacing [$x] by [v] in them. *)
Lemma lateLoop_inlineInto env x v l sts current1 current2 vars w :
  Value v = Some l -> x ∉ declared sts ->
  omap observation current1 = omap observation current2 ->
  observe (lateLoop env sts current1 (<[x := Some l]> vars) w)
  = observe (lateLoop env (inlineInto x v sts) current2 vars w).
Proof.
  intros Hv. revert current1 current2 vars w.
  induction sts as [|[n|d] sts IH]; intros current1 current2 vars w Hx Hc.
  - simpl. by rewrite Hc.
  - simpl.
    destruct (runNode_ReplaceRef env n vars w x v l Hv)
      as [[n1 w1] [n2 w2] [Ho Hw]|]; simpl in *; [subst w2 | done].
    assert (omap observation (current1 ++ [SCommand n1])
            = omap observation (current2 ++ [SCommand n2])) as Hc'.
    { apply observation_snoc; [done |]. simpl. by rewrite Ho. }
    rewrite (observed_halts env n1 n2 Ho). destruct (halts env n2).
    + simpl. by rewrite Hc'.
    + by apply IH.
  - apply not_elem_of_cons in Hx as [Hne Hx]. simpl.
    destruct (Expr d) as [n|v'] eqn:Ed; simpl.
    + destruct (runNode_ReplaceRef env n vars w x v l Hv)
        as [[n1 w1] [n2 w2] [Ho Hw]|]; simpl in *; [subst w2 | done].
      assert (omap observation
                (current1 ++ [SDeclaration (mkDeclarationNode (Ident d) (ECommand n1))])
              = omap observation
                  (current2 ++ [SDeclaration (mkDeclarationNode (Ident d) (ECommand n2))]))
        as Hc'.
      { apply observation_snoc; [done |]. simpl. by rewrite Ho. }
      rewrite (observed_halts env n1 n2 Ho). destruct (halts env n2).
      * simpl. by rewrite Hc'.
      * rewrite (observed_Result n1 n2 Ho), insert_insert_ne by done.
        by apply IH.
    + rewrite (Value_ProcessRefs_ReplaceRef vars x v l v' Hv).
      rewrite insert_insert_ne by done. apply IH; [done |].
      apply observation_snoc; [done |]. simpl. by rewrite Ed.
Qed.

(** A statement that the inlining keeps and the run goes through. *)
Lemma lateLoop_keep env st rest out' current vars w :
  declaresValue st = false ->
  (forall current vars w,
     observe (runLoop env out' current vars w)
     = observe (lateLoop env rest current vars w)) ->
  observe (runLoop env (st :: out') current vars w)
  = observe (lateLoop env (st :: rest) current vars w).
Proof.
  intros Hst IH. destruct st as [n|d]; simpl in *;
    [| destruct (Expr d) as [n|v]; [| done]];
    (destruct (runNode env n vars w) as [[n' w']|]; [| done]);
    by destruct (halts env n').
Qed.

(** The loop of the inlining pass, with fuel for every statement, when it
    leaves no declaration of a value: the run of what it returns shows what
    the reference run of what it was given shows. *)
Lemma inlineLoop_lateLoop env (fuel : nat) sts resolved out resolved' current vars w :
  length sts <= fuel -> NoDup (declared sts) ->
  inlineLoop fuel sts resolved = Ok (out, resolved') ->
  Forall (fun st => declaresValue st = false) out ->
  observe (runLoop env out current vars w)
  = observe (lateLoop env sts current vars w).
Proof.
  revert sts resolved out resolved' current vars w.
  induction fuel as [|fuel IH]; intros [|st rest] resolved out resolved' current vars w
    Hn Hnd Hl Hout; simpl in Hn, Hl; try (by injection Hl as <- _); [lia |].
  assert (length rest <= fuel) as Hn' by lia.
  assert (NoDup (declared rest) /\
          (forall d, st = SDeclaration d -> Ident d ∉ declared rest)) as [Hnd' Hx].
  { destruct st as [c|d]; csimpl in Hnd; [done |].
    apply NoDup_cons in Hnd as [? ?]. split; [done |]. by intros ? [= <-]. }
  assert (forall r',
            res_map (fun '(sts', r) => (st :: sts', r)) (inlineLoop fuel rest r')
            = Ok (out, resolved') ->
            observe (runLoop env out current vars w)
            = observe (lateLoop env (st :: rest) current vars w)) as Hkeep.
  { intros r' ([out' r''] & Hl' & [= <- _])%res_map_Ok.
    apply Forall_cons in Hout as [Hst Hout].
    apply lateLoop_keep; [done |]. intros. by eapply IH. }
  destruct st as [c|d]; [by eapply Hkeep |].
  destruct (Expr d) as [c|v] eqn:Ed; [by eapply Hkeep |].
  destruct (IsResolved v) eqn:Hres.
  - destruct (proj2 (Value_is_Some v) Hres) as [l Hv]. rewrite Hv in Hl.
    destruct resolved as [m|]; [| done]. simpl. rewrite Ed.
    rewrite ProcessRefs_no_refs, Hv by by apply IsResolved_spec.
    rewrite (lateLoop_inlineInto env (Ident d) v l rest _ current vars w Hv).
    + eapply IH; [by rewrite inlineInto_length | by rewrite declared_inlineInto
                  | done..].
    + by apply Hx.
    + rewrite omap_app. csimpl. by rewrite Ed, app_nil_r.
  - assert (forall r', res_map (fun '(sts', r) => (SDeclaration d :: sts', r))
                               (inlineLoop fuel (inlineInto (Ident d) v rest) r')
                       <> Ok (out, resolved')) as Hno.
    { intros r' ([out' r''] & _ & [= <- _])%res_map_Ok.
      apply Forall_cons in Hout as [Hst _]. simpl in Hst. by rewrite Ed in Hst. }
    destruct (Value v), resolved; try done; by apply Hno in Hl.
Qed.

(** C13. Variable-inlining equivalence: when the inlining pass leaves no
    declaration of a value in a template that declares no identifier twice,
    the run of the template it returns shows what the reference run of the
    template it was given shows, in which a declared value is bound when the
    run reaches its declaration: the same commands in the same order with
    the same driver params, results and errors, and the same world at the
    end (or both panic). *)
Theorem inlineVariableValuePass_late_binding tpl env tpl' env' runEnv newID w :
  NoDup (declared (Statements tpl)) ->
  inlineVariableValuePass tpl env = Ok (tpl', env') ->
  Forall (fun st => declaresValue st = false) (Statements tpl') ->
  observeRun (Template_Run newID tpl' runEnv w)
  = observe (lateLoop runEnv (Statements tpl) [] ∅ w).
Proof.
  intros Hnd ([out r] & Hl & [= <- _])%res_map_Ok Hout. simpl in Hout.
  unfold observeRun, Template_Run.
  rewrite <- (inlineLoop_lateLoop runEnv _ _ _ _ _ [] ∅ w (le_n _) Hnd Hl Hout).
  simpl. by destruct (runLoop runEnv out [] ∅ w) as [[] | [] |].
Qed.

End inlining_theorems.

(** ** The theorem on the sample template *)

Lemma inlineVariableValuePass_late_binding_witness :
  observeRun (Template_Run "run" S1_inlined.1 dryEnv [])
  = observe (lateLoop dryEnv (Statements S1_resolved.1) [] ∅ []).
Proof.
  apply (inlineVariableValuePass_late_binding S1_resolved.1 S1_resolved.2
           S1_inlined.1 S1_inlined.2).
  - apply (bool_decide_unpack _). vm_compute. reflexivity.
  - vm_compute. reflexivity.
  - apply (bool_decide_unpack _). vm_compute. reflexivity.
Defined.
