(* ===== verification/Safety.v ===== *)
(** * Compilation and run without panic

    The Go code of src/template/compile.go and src/template/template.go can
    panic in three places: a pass that questions the registry calls
    [env.Lookuper], a nil function in an environment that was given none;
    [inlineVariableValuePass] writes to [env.ResolvedVariables], a nil map
    in an environment that was not made by [NewEnv]; [injectCommandsPass]
    asserts that what the registry answers is a command with a Run method,
    and the runner calls that method.

    This file states when none of that happens.  A state is [ready] when
    its map of resolved variables is not nil, its registry answers with
    commands that have a Run method, and every command of the template is in
    the registry.  Every pass of compile.go keeps a ready state ready and
    does not panic from one; [verifyCommandsDefinedPass], the first pass of
    the mode of the new runner, makes the state ready; and a template that
    this mode compiled runs without panic.  The lenient and the normal
    mode never question the registry: for them a map of resolved variables
    is enough. *)

From S2P Require Import Prelude Values Driver Ast Env Template PassRefs.
From S2P Require Import PassHoles PassAlias PassCommands Compile Triples Shape.
From S2P Require Import Runner.

Section safety.
Context {W : Type}.

(** A registry whose commands can all be run. *)
Definition registry_runnable (lookuper : LookupFunc W) : Prop :=
  forall key cmd, lookuper key = Some cmd -> is_Some (cmdRunCtx cmd).

(** A command node the registry knows. *)
Definition defined (lookuper : LookupFunc W) (c : CommandNode W) : Prop :=
  is_Some (lookuper [nodeKey c]).

#[global] Instance defined_dec lookuper c : Decision (defined lookuper c).
Proof. unfold defined. apply _. Defined.

(** An environment made by NewEnv and given a registry of commands. *)
Definition env_ready (env : Env W) (lookuper : LookupFunc W) : Prop :=
  is_Some (ResolvedVariables env) /\ Lookuper env = Some lookuper /\
  registry_runnable lookuper.

(** A state from which no pass panics. *)
Definition ready (s : passState W) : Prop :=
  exists lookuper,
    env_ready s.2 lookuper /\
    Forall (defined lookuper) (CommandNodesIterator s.1).

(** A state from which no pass of the lenient mode panics. *)
Definition resolvable (s : passState W) : Prop :=
  is_Some (ResolvedVariables s.2).

(** The passes that do not question the registry. *)
Definition lenientLibrary : list (compileFunc W) := [
  resolveAgainstDefinitions;
  verifyCommandsDefinedPass;
  checkInvalidReferenceDeclarationsPass;
  resolveHolesPass;
  resolveMissingHolesPass;
  resolveAliasPass;
  inlineVariableValuePass;
  failOnUnresolvedHolesPass;
  failOnUnresolvedAliasPass
].

End safety.

(** ** Theorems *)

Section safety_theorems.
Context {W : Type}.
Implicit Types (tpl : Template W) (env : Env W) (c : CommandNode W).
Implicit Types (lookuper : LookupFunc W) (s : passState W).

(** *** The callbacks *)

Lemma registry_callbacks_safe env lookuper c (a : unit) (errs : list error) :
  Lookuper env = Some lookuper ->
  is_Panic (verifyValidParamsOnly env c a) = false /\
  is_Panic (normalize env c a) = false /\
  is_Panic (convert env c a) = false /\
  is_Panic (collectValidationErrs env c errs) = false.
Proof.
  intros Hl.
  unfold verifyValidParamsOnly, normalize, convert, collectValidationErrs,
    returnErr.
  rewrite Hl. repeat split; by repeat case_match.
Qed.

Lemma inject_safe env lookuper c (a : unit) :
  Lookuper env = Some lookuper -> registry_runnable lookuper ->
  defined lookuper c -> is_Panic (inject env c a) = false.
Proof.
  intros Hl Hrun [cmd Hcmd]. unfold inject, assertCommand.
  rewrite Hl, Hcmd. by destruct (Hrun _ _ Hcmd) as [run ->].
Qed.

Lemma verifyValidParamsOnlyDef_safe lookup c (a : unit) :
  is_Panic (verifyValidParamsOnlyDef lookup c a) = false.
Proof. unfold verifyValidParamsOnlyDef, returnErr. by repeat case_match. Qed.

(** *** A visit of the command nodes *)

Lemma visitCommandNodesE_safe {S}
    (fn : CommandNode W -> S -> res (CommandNode W * S)) tpl (acc : S) :
  (forall c a, c ∈ CommandNodesIterator tpl -> is_Panic (fn c a) = false) ->
  is_Panic (visitCommandNodesE fn tpl acc) = false.
Proof.
  intros Hfn. unfold visitCommandNodesE. rewrite res_map_is_Panic.
  by apply visitCommandNodesE_list_safe.
Qed.

(** *** What a structural pass keeps *)

Lemma defined_commandKey lookuper (cs cs' : list (CommandNode W)) :
  map commandKey cs' = map commandKey cs ->
  Forall (defined lookuper) cs -> Forall (defined lookuper) cs'.
Proof.
  intros Hk.
  assert (forall l : list (CommandNode W),
            Forall (defined lookuper) l <->
            Forall (fun k => is_Some (lookuper [k.1 +:+ k.2])) (map commandKey l))
    as Hmap by (intros l; by rewrite Forall_fmap).
  by rewrite !Hmap, Hk.
Qed.

Lemma structural_ready s s' : structural s s' -> ready s -> ready s'.
Proof.
  intros (_ & Ht & He) (lookuper & (Hr & Hl & Hrun) & Hdef).
  destruct He as (_ & Hl' & _ & _ & _ & _ & _ & _ & Hr').
  exists lookuper. split; [split; [auto | split; [congruence | done]] |].
  eapply defined_commandKey; [| done].
  rewrite <- !shapeCommands_shapes. by apply thins_commands.
Qed.

Lemma structural_resolvable s s' :
  structural s s' -> resolvable s -> resolvable s'.
Proof. intros (_ & _ & He) Hr. by apply He. Qed.

(** *** The passes, one by one *)

Lemma total_safe (Pre : passState W -> Prop) (pass : compileFunc W) :
  (forall tpl env, is_Panic (pass tpl env) = false) -> pass_safe Pre pass.
Proof. intros H s _. apply H. Qed.

Lemma resolveAgainstDefinitions_total tpl env :
  is_Panic (resolveAgainstDefinitions tpl env) = false.
Proof.
  unfold resolveAgainstDefinitions.
  destruct (DefLookupFunc env) as [lookup|]; [| done].
  pose proof (visitCommandNodesE_safe (verifyValidParamsOnlyDef lookup) tpl tt
                (fun c a _ => verifyValidParamsOnlyDef_safe lookup c a)) as Hv.
  by destruct (visitCommandNodesE _ tpl tt) as [[? ?]|[? ?] ?|].
Qed.

Lemma verifyCommandsDefinedPass_total tpl env :
  is_Panic (verifyCommandsDefinedPass tpl env) = false.
Proof.
  apply res_state_is_Panic. by rewrite verifyCommandsDefinedPass_state.
Qed.

Lemma checkInvalidReferenceDeclarationsPass_total tpl env :
  is_Panic (checkInvalidReferenceDeclarationsPass tpl env) = false.
Proof.
  apply res_state_is_Panic.
  by rewrite checkInvalidReferenceDeclarationsPass_state.
Qed.

Lemma resolveAliasPass_total tpl env :
  is_Panic (resolveAliasPass tpl env) = false.
Proof.
  unfold resolveAliasPass. destruct (visitHoles _ tpl []). by case_decide.
Qed.

Lemma failOnUnresolvedHolesPass_total tpl env :
  is_Panic (failOnUnresolvedHolesPass tpl env) = false.
Proof. unfold failOnUnresolvedHolesPass. by case_decide. Qed.

Lemma failOnUnresolvedAliasPass_total tpl env :
  is_Panic (failOnUnresolvedAliasPass tpl env) = false.
Proof. unfold failOnUnresolvedAliasPass. by case_decide. Qed.

Lemma inlineVariableValuePass_safe :
  pass_safe resolvable (inlineVariableValuePass (W:=W)).
Proof.
  intros [tpl env] [m Hm]. simpl in *. unfold inlineVariableValuePass.
  rewrite res_map_is_Panic, Hm.
  by destruct (inlineLoop_Ok (length (Statements tpl)) (Statements tpl) m)
    as (? & ? & ->).
Qed.

(** The passes that question the registry, from a state with one. *)
Lemma registry_passes_safe tpl env lookuper :
  Lookuper env = Some lookuper ->
  is_Panic (validateCommandsParamsPass tpl env) = false /\
  is_Panic (normalizeMissingRequiredParamsAsHolePass tpl env) = false /\
  is_Panic (convertParamsPass tpl env) = false /\
  is_Panic (validateCommandsPass tpl env) = false.
Proof.
  intros Hl.
  assert (forall c (a : unit) errs, _) as Hcb
    by (intros c a errs; exact (registry_callbacks_safe env lookuper c a errs Hl)).
  unfold validateCommandsParamsPass, normalizeMissingRequiredParamsAsHolePass,
    convertParamsPass, validateCommandsPass.
  rewrite !res_map_is_Panic. repeat split.
  - apply visitCommandNodesE_safe. intros c a _. apply (Hcb c a []).
  - apply visitCommandNodesE_safe. intros c a _. apply (Hcb c a []).
  - pose proof (visitCommandNodesE_safe (convert env) tpl tt
                  (fun c a _ => proj1 (proj2 (proj2 (Hcb c a []))))) as Hv.
    by destruct (visitCommandNodesE _ tpl tt) as [[? ?]|[? ?] ?|].
  - pose proof (visitCommandNodesE_safe (collectValidationErrs env) tpl []
                  (fun c a _ => proj2 (proj2 (proj2 (Hcb c tt a))))) as Hv.
    destruct (visitCommandNodesE _ tpl []) as [[? errs]|[? errs] ?|];
      [| | done]; by destruct (validationReport errs).
Qed.

Lemma injectCommandsPass_safe : pass_safe ready (injectCommandsPass (W:=W)).
Proof.
  intros [tpl env] (lookuper & (_ & Hl & Hrun) & Hdef). simpl in *.
  unfold injectCommandsPass. rewrite res_map_is_Panic.
  apply visitCommandNodesE_safe. intros c a Hc.
  apply (inject_safe env lookuper); [done..|].
  by apply (proj1 (Forall_forall _ _) Hdef).
Qed.

Lemma registry_pass_safe (pass : compileFunc W) :
  (forall tpl env lookuper,
     Lookuper env = Some lookuper -> is_Panic (pass tpl env) = false) ->
  pass_safe ready pass.
Proof. intros H [tpl env] (lookuper & (_ & Hl & _) & _). by eapply H. Qed.

Lemma ready_resolvable s : ready s -> resolvable s.
Proof. by intros (? & (? & _) & _). Qed.

Lemma resolvable_pass_safe (pass : compileFunc W) :
  pass_safe resolvable pass -> pass_safe ready pass.
Proof. intros H s Hs. by apply H, ready_resolvable. Qed.

End safety_theorems.

Section safety_modes.
Context {W : Type}.
Implicit Types (tpl : Template W) (env : Env W) (lookuper : LookupFunc W).
Implicit Types (mode : list (compileFunc W)).

Lemma structural_keeps_ready (pass : compileFunc W) :
  pass_spec (fun _ => True) pass structural ->
  pass_spec ready pass (fun _ s' => ready s').
Proof. intros Hst s s' Hs Hp. eapply structural_ready; [by apply Hst | done]. Qed.

Lemma library_safe : Forall (pass_safe ready) (library (W:=W)).
Proof.
  unfold library.
  repeat (apply Forall_cons_2;
          [first [ apply total_safe; intros;
                   first [ apply resolveAgainstDefinitions_total
                         | apply verifyCommandsDefinedPass_total
                         | apply checkInvalidReferenceDeclarationsPass_total
                         | apply resolveAliasPass_total
                         | apply failOnUnresolvedHolesPass_total
                         | apply failOnUnresolvedAliasPass_total
                         | done ]
                 | apply registry_pass_safe; intros tpl env lookuper Hl;
                   apply (registry_passes_safe tpl env lookuper Hl)
                 | apply resolvable_pass_safe, inlineVariableValuePass_safe
                 | apply injectCommandsPass_safe ] |]).
  apply Forall_nil_2.
Qed.

Lemma mode_ready mode :
  mode ⊆ library ->
  pass_spec ready (multiPass_compile mode) (fun _ s' => ready s').
Proof.
  intros Hmode. apply multiPass_compile_invariant, Forall_forall.
  intros pass Hp%Hmode. apply structural_keeps_ready.
  by apply (proj1 (Forall_forall _ _) library_structural).
Qed.

Lemma mode_safe mode :
  mode ⊆ library -> pass_safe ready (multiPass_compile mode).
Proof.
  intros Hmode. apply multiPass_compile_safe, Forall_forall.
  intros pass Hp%Hmode. split.
  - by apply (proj1 (Forall_forall _ _) library_safe).
  - apply structural_keeps_ready.
    by apply (proj1 (Forall_forall _ _) library_structural).
Qed.

(** The first pass of the mode of the new runner makes the state ready. *)
Lemma verifyCommandsDefinedPass_ready tpl env lookuper tpl' env' :
  env_ready env lookuper ->
  verifyCommandsDefinedPass tpl env = Ok (tpl', env') ->
  ready (tpl', env').
Proof.
  intros Hr. pose proof Hr as (_ & Hl & _). unfold verifyCommandsDefinedPass.
  rewrite Hl. destruct (verifyCommandsDefinedLoop _ _) eqn:E; [done |].
  intros [= <- <-]. exists lookuper. split; [done |].
  by apply verifyCommandsDefinedLoop_None.
Qed.

(** C17. Readiness is an invariant of compilation: from a state whose map
    of resolved variables is not nil, whose registry answers with commands
    that can be run and knows every command of the template, every mode made
    of passes of compile.go ends, when it succeeds, in such a state. *)
Theorem Compile_ready tpl env mode tpl' env' :
  mode ⊆ library -> ready (tpl, env) ->
  Compile tpl env [mode] = Ok (tpl', env') ->
  ready (tpl', env').
Proof. intros Hmode Hr Hc. by apply (mode_ready mode Hmode (tpl, env)). Qed.

(** A compilation for the new runner does not panic in an environment
    made by NewEnv whose registry answers with commands that can be run:
    the first pass refuses the templates with a command the registry does
    not know, and no later pass changes the key of a command. *)
Lemma NewRunnerCompileMode_safe tpl env lookuper :
  env_ready env lookuper ->
  is_Panic (Compile tpl env [NewRunnerCompileMode]) = false.
Proof.
  intros Hr. unfold Compile.
  change (NewRunnerCompileMode (W:=W))
    with (verifyCommandsDefinedPass :: drop 1 (NewRunnerCompileMode (W:=W))).
  cbn [multiPass_compile].
  pose proof (verifyCommandsDefinedPass_total tpl env) as Ht.
  destruct (verifyCommandsDefinedPass tpl env) as [[tpl1 env1]| |] eqn:E;
    [| done..].
  assert (drop 1 NewRunnerCompileMode ⊆ library (W:=W)) as Hsub
    by (unfold library; passes_subseteq).
  apply (mode_safe _ Hsub (tpl1, env1)).
  by apply (verifyCommandsDefinedPass_ready tpl env lookuper).
Qed.

(** *** The lenient and the normal mode *)

Lemma lenientLibrary_safe :
  Forall (fun pass => pass_safe resolvable pass /\
                      pass_spec resolvable pass (fun _ s' => resolvable s'))
         (lenientLibrary (W:=W)).
Proof.
  assert (lenientLibrary (W:=W) ⊆ library) as Hsub
    by (unfold lenientLibrary, library; passes_subseteq).
  apply Forall_forall. intros pass Hp. split.
  - revert pass Hp. apply Forall_forall. unfold lenientLibrary.
    repeat (apply Forall_cons_2;
            [first [ apply inlineVariableValuePass_safe
                   | apply total_safe; intros;
                     first [ apply resolveAgainstDefinitions_total
                           | apply verifyCommandsDefinedPass_total
                           | apply checkInvalidReferenceDeclarationsPass_total
                           | apply resolveAliasPass_total
                           | apply failOnUnresolvedHolesPass_total
                           | apply failOnUnresolvedAliasPass_total
                           | done ] ] |]).
    apply Forall_nil_2.
  - intros s s' Hs Hpass. eapply structural_resolvable; [| done].
    by apply (proj1 (Forall_forall _ _) library_structural pass (Hsub _ Hp)).
Qed.

(** C20. A mode made of the passes that do not question the registry, as
    the lenient and the normal mode are, does not panic in an environment
    whose map of resolved variables is not nil, whatever else the
    environment lacks. *)
Theorem lenient_safe tpl env mode :
  mode ⊆ lenientLibrary -> is_Some (ResolvedVariables env) ->
  is_Panic (Compile tpl env [mode]) = false.
Proof.
  intros Hmode Hr.
  refine (multiPass_compile_safe resolvable mode _ (tpl, env) Hr).
  apply Forall_forall. intros pass Hp%Hmode.
  by apply (proj1 (Forall_forall _ _) lenientLibrary_safe).
Qed.

(** *** Compilation, then run *)

(** C11. From an environment made by NewEnv whose registry answers with
    commands that can be run, a compilation for the new runner does not
    panic, and the run of the template it returns does not panic either:
    every command node has been given a command object with a Run method. *)
Theorem compile_run_safe tpl env lookuper :
  env_ready env lookuper ->
  is_Panic (Compile tpl env [NewRunnerCompileMode]) = false /\
  forall tpl' env' newID (w : W),
    Compile tpl env [NewRunnerCompileMode] = Ok (tpl', env') ->
    is_Panic (Template_Run newID tpl' env' w) = false.
Proof.
  intros Hr. split; [by apply (NewRunnerCompileMode_safe tpl env lookuper) |].
  intros tpl' env' newID w (tpl1 & env1 & E)%NewRunnerCompileMode_last.
  unfold Template_Run. rewrite res_map_is_Panic. apply runLoop_safe. right.
  apply forallb_forall. intros c Hc%list_elem_of_In. apply runnable_spec.
  by apply (injectCommandsPass_runnable tpl1 env1 tpl' env').
Qed.

(** Compilation and run never add statements: a compiled template has
    at most as many statements as its source, and the template a run returns
    has at most as many as the template that was run. *)
Theorem compile_run_length tpl env mode tpl' env' newID (w : W) t w' :
  mode ⊆ library ->
  Compile tpl env [mode] = Ok (tpl', env') ->
  res_state (Template_Run newID tpl' env' w) = Some (t, w') ->
  length (Statements t) <= length (Statements tpl') <= length (Statements tpl).
Proof.
  intros Hmode Hc Hrun. split.
  - revert Hrun. unfold Template_Run. rewrite res_map_state.
    destruct (res_state _) as [[current w1]|] eqn:E; [| done].
    intros [= <- _]. apply runLoop_prefix in E as (ran & -> & ?). by simpl.
  - destruct (mode_structural mode Hmode (tpl, env) (tpl', env')) as (_ & Ht & _);
      [done..|].
    apply thins_length in Ht. unfold shapes in Ht.
    by rewrite !length_map in Ht.
Qed.

End safety_modes.

(** ** The theorems on the sample templates *)

Lemma registry_runnable_sample : registry_runnable Sample.registry.
Proof.
  intros key cmd. unfold Sample.registry.
  repeat case_decide; intros [= <-]; by eexists.
Qed.

Lemma env_ready_sample : env_ready Sample.runnerEnv Sample.registry.
Proof. split; [by eexists | split; [done | apply registry_runnable_sample]]. Qed.

Lemma Compile_ready_witness : ready (S6_compiled.1, S6_compiled.2).
Proof.
  apply (Compile_ready Sample.S6 Sample.runnerEnv NewRunnerCompileMode).
  - apply modes_library.
  - exists Sample.registry. split; [apply env_ready_sample |].
    apply (bool_decide_unpack _). vm_compute. reflexivity.
  - vm_compute. reflexivity.
Defined.

Lemma lenient_safe_witness :
  is_Panic (Compile Sample.S1 Sample.env [NormalCompileMode]) = false.
Proof.
  apply (lenient_safe Sample.S1 Sample.env NormalCompileMode).
  - unfold NormalCompileMode, LenientCompileMode, lenientLibrary. passes_subseteq.
  - by eexists.
Defined.

Lemma compile_run_safe_witness :
  is_Panic (Compile Sample.S6 Sample.runnerEnv [NewRunnerCompileMode]) = false /\
  is_Panic (Template_Run "run-1" S6_compiled.1 S6_compiled.2 []) = false.
Proof.
  destruct (compile_run_safe Sample.S6 Sample.runnerEnv Sample.registry
              env_ready_sample) as [Hc Hrun].
  split; [exact Hc |]. apply Hrun. vm_compute. reflexivity.
Defined.

Lemma compile_run_length_witness :
  length S6_ran.1 <= length (Statements S6_compiled.1)
  <= length (Statements Sample.S6).
Proof.
  apply (compile_run_length Sample.S6 Sample.runnerEnv NewRunnerCompileMode
           S6_compiled.1 S6_compiled.2 "run-1" []
           (mkTemplate "run-1" S6_ran.1) S6_ran.2).
  - apply modes_library.
  - vm_compute. reflexivity.
  - vm_compute. reflexivity.
Defined.
