(* ===== verification/GoLib.v ===== *)
(** * Go library functions the command catalog calls

    The commands of src/aws/spec call the packages strings and strconv of
    the Go library and the pointer helpers of the provider SDK.  This file
    holds their models, as the documented behaviour of the library on the
    arguments the sources give them:

    - [StringValue], [BoolValue]: the value behind a pointer, the zero
      value for nil;
    - [HasPrefix], [Index], [Contains], [ToLower], [SplitN], [Split] of
      package strings, on byte strings ([ToLower] and the split on an empty
      separator are those of the library on ASCII text);
    - [ParseInt] of package strconv in base 10 at 64 bits, with the
      unsigned accumulator kept at its width: the wrap-around of the
      multiplication and of the addition is written out, and
      [parseUintLoop_digits] shows that the loop computes the value of the
      numeral or reports that it does not fit;
    - [Quote] and the text of a NumError.

    The theorems are the specifications the catalog files use: [Contains]
    is the existence of a decomposition, a split in two on a separator the
    string contains has two parts, [ParseInt] returns a value of the signed
    64-bit range and the number a decimal numeral denotes, and a string
    that denotes a number does not contain the word any
    ([numeral_not_any]). *)

From S2P Require Import Prelude.
From Stdlib Require Import Ascii ZArith Lia.

(** ** Pointers *)

(** StringValue: the string a pointer holds, the empty string for nil. *)
Definition StringValue (p : option string) : string := default EmptyString p.

(** BoolValue: the boolean a pointer holds, false for nil. *)
Definition BoolValue (p : option bool) : bool := default false p.

(** ** Package strings *)

(** The slices s[:n] and s[n:]. *)
Fixpoint strTake (n : nat) (s : string) : string :=
  match n, s with
  | S n', String c s' => String c (strTake n' s')
  | _, _ => EmptyString
  end.

Fixpoint strDrop (n : nat) (s : string) : string :=
  match n, s with
  | S n', String _ s' => strDrop n' s'
  | _, _ => s
  end.

(** strings.HasPrefix. *)
Fixpoint HasPrefix (s pre : string) {struct pre} : bool :=
  match pre, s with
  | EmptyString, _ => true
  | String c pre', String d s' => Ascii.eqb c d && HasPrefix s' pre'
  | String _ _, EmptyString => false
  end.

(** strings.Index: the position of the first occurrence, [None] for -1. *)
Fixpoint Index (s substr : string) : option nat :=
  if HasPrefix s substr then Some 0
  else match s with
       | EmptyString => None
       | String _ s' => S <$> Index s' substr
       end.

(** strings.Contains: Index(s, substr) >= 0. *)
Definition Contains (s substr : string) : bool :=
  match Index s substr with Some _ => true | None => false end.

(** The lower case of an ASCII letter; any other byte stays. *)
Definition lowerAscii (c : ascii) : ascii :=
  let n := nat_of_ascii c in
  if (65 <=? n) && (n <=? 90) then ascii_of_nat (n + 32) else c.

(** strings.ToLower. *)
Fixpoint ToLower (s : string) : string :=
  match s with
  | EmptyString => EmptyString
  | String c s' => String (lowerAscii c) (ToLower s')
  end.

(** The loop of genSplit: at most [n] cuts at the first occurrence of the
    separator, the rest of the string last. *)
Fixpoint splitLoop (s sep : string) (n : nat) : list string :=
  match n with
  | 0 => [s]
  | S n' =>
      match Index s sep with
      | None => [s]
      | Some m =>
          strTake m s :: splitLoop (strDrop (m + String.length sep) s) sep n'
      end
  end.

(** explode: one string a byte, the rest of the string in the last of at
    most [n] (here [S n]) parts. *)
Fixpoint explode (s : string) (n : nat) : list string :=
  match s, n with
  | EmptyString, _ => []
  | _, 0 => [s]
  | String c EmptyString, _ => [s]
  | String c s', S n' => String c EmptyString :: explode s' n'
  end.

(** strings.SplitN for a count that is not negative. *)
Definition SplitN (s sep : string) (n : nat) : list string :=
  match n with
  | 0 => []
  | S n' =>
      match sep with
      | EmptyString => explode s n'
      | _ => splitLoop s sep n'
      end
  end.

(** strings.Split: every cut.  A string has at most as many occurrences of
    a separator that is not empty as it has bytes. *)
Definition Split (s sep : string) : list string :=
  match sep with
  | EmptyString => explode s (String.length s)
  | _ => splitLoop s sep (String.length s)
  end.

(** ** Package strconv *)

(** The two errors of a conversion. *)
Inductive numErr : Type := ErrSyntax | ErrRange.

#[global] Instance numErr_eq_dec : EqDecision numErr.
Proof. solve_decision. Defined.

Definition numErr_msg (e : numErr) : string :=
  match e with
  | ErrSyntax => "invalid syntax"
  | ErrRange => "value out of range"
  end.

Definition maxUint64 : Z := 2 ^ 64 - 1.
Definition minInt64 : Z := - 2 ^ 63.
Definition maxInt64 : Z := 2 ^ 63 - 1.

(** The conversion int64(u) of an unsigned 64-bit value, and the negation of
    a signed one: both wrap. *)
Definition toInt64 (z : Z) : Z := (z + 2 ^ 63) mod 2 ^ 64 - 2 ^ 63.

(** The value of a decimal digit. *)
Definition digitOf (c : ascii) : option Z :=
  let n := Z.of_nat (nat_of_ascii c) in
  if (48 <=? n)%Z && (n <=? 57)%Z then Some (n - 48)%Z else None.

(** The loop of ParseUint in base 10 at 64 bits.  [n] is the uint64
    accumulator: the product and the sum are taken modulo 2^64 as the
    machine does, and the loop tests for the overflow as the code does. *)
Fixpoint parseUintLoop (s : string) (n : Z) : Z * option numErr :=
  match s with
  | EmptyString => (n, None)
  | String c rest =>
      match digitOf c with
      | None => (0%Z, Some ErrSyntax)
      | Some d =>
          if (maxUint64 / 10 + 1 <=? n)%Z then (maxUint64, Some ErrRange)
          else
            let n10 := ((n * 10) mod 2 ^ 64)%Z in
            let n1 := ((n10 + d) mod 2 ^ 64)%Z in
            if (n1 <? n10)%Z || (maxUint64 <? n1)%Z
            then (maxUint64, Some ErrRange)
            else parseUintLoop rest n1
      end
  end.

(** strconv.ParseUint(s, 10, 64). *)
Definition ParseUint (s : string) : Z * option numErr :=
  match s with
  | EmptyString => (0%Z, Some ErrSyntax)
  | _ => parseUintLoop s 0
  end.

(** The second half of ParseInt: a syntax error of the unsigned conversion
    is returned, its value is checked against the range of a signed 64-bit
    integer (a range error of the unsigned conversion comes with the largest
    unsigned value, which is out of that range too), converted and
    negated. *)
Definition signedRange (neg : bool) (r : Z * option numErr)
    : Z * option numErr :=
  match r with
  | (_, Some ErrSyntax) => (0%Z, Some ErrSyntax)
  | (un, _) =>
      let cutoff := (2 ^ 63)%Z in
      if negb neg && (cutoff <=? un)%Z then ((cutoff - 1)%Z, Some ErrRange)
      else if neg && (cutoff <? un)%Z then ((- cutoff)%Z, Some ErrRange)
      else
        let n := toInt64 un in
        (if neg then toInt64 (- n) else n, None)
  end.

(** strconv.ParseInt(s, 10, 64): the sign, the unsigned conversion, the
    range of a signed value. *)
Definition ParseInt (s : string) : Z * option numErr :=
  match s with
  | EmptyString => (0%Z, Some ErrSyntax)
  | String c rest =>
      if Ascii.eqb c "+" then signedRange false (ParseUint rest)
      else if Ascii.eqb c "-" then signedRange true (ParseUint rest)
      else signedRange false (ParseUint s)
  end.

(** strconv.Quote on ASCII text: a double-quoted Go string literal.  A byte
    above 127 stays as it is, as the bytes of a printable rune do. *)
Definition bslash : string := String (ascii_of_nat 92) EmptyString.

Definition hexDigit (n : nat) : string :=
  String (nth n (String.list_ascii_of_string "0123456789abcdef") "0"%char) EmptyString.

Definition quoteByte (c : ascii) : string :=
  let n := nat_of_ascii c in
  if (n =? 34) || (n =? 92) then bslash +:+ String c EmptyString
  else if n =? 7 then bslash +:+ "a"
  else if n =? 8 then bslash +:+ "b"
  else if n =? 12 then bslash +:+ "f"
  else if n =? 10 then bslash +:+ "n"
  else if n =? 13 then bslash +:+ "r"
  else if n =? 9 then bslash +:+ "t"
  else if n =? 11 then bslash +:+ "v"
  else if (n <? 32) || (n =? 127)
       then bslash +:+ "x" +:+ hexDigit (n / 16) +:+ hexDigit (n mod 16)
  else String c EmptyString.

Fixpoint quoteBytes (s : string) : string :=
  match s with
  | EmptyString => EmptyString
  | String c s' => quoteByte c +:+ quoteBytes s'
  end.

Definition Quote (s : string) : string := dquote +:+ quoteBytes s +:+ dquote.

(** The Error method of a NumError. *)
Definition NumError_Error (fn num : string) (e : numErr) : error :=
  "strconv." +:+ fn +:+ ": parsing " +:+ Quote num +:+ ": " +:+ numErr_msg e.

(** The error ParseInt returns, as the message of its NumError. *)
Definition ParseInt_error (s : string) : option error :=
  NumError_Error "ParseInt" s <$> (ParseInt s).2.

(** ** Reference definitions *)

(** The number a string of decimal digits denotes, after the digits of
    [n]; [None] when a byte is not a digit. *)
Fixpoint digitsValue (s : string) (n : Z) : option Z :=
  match s with
  | EmptyString => Some n
  | String c rest =>
      match digitOf c with
      | None => None
      | Some d => digitsValue rest (n * 10 + d)
      end
  end.

(** The number a decimal numeral denotes: an optional sign and at least one
    digit. *)
Definition unsignedValue (s : string) : option Z :=
  match s with
  | EmptyString => None
  | _ => digitsValue s 0
  end.

Definition numeralValue (s : string) : option Z :=
  match s with
  | EmptyString => None
  | String c rest =>
      if Ascii.eqb c "+" then unsignedValue rest
      else if Ascii.eqb c "-" then Z.opp <$> unsignedValue rest
      else unsignedValue s
  end.

(** Every byte of a string satisfies a test. *)
Fixpoint strAll (f : ascii -> bool) (s : string) : bool :=
  match s with
  | EmptyString => true
  | String c s' => f c && strAll f s'
  end.

(** ** Slices, prefixes and occurrences *)

Lemma append_cons c a b : String c a +:+ b = String c (a +:+ b).
Proof. reflexivity. Qed.

Lemma append_nil b : EmptyString +:+ b = b.
Proof. reflexivity. Qed.

Ltac str_simpl :=
  simpl in *;
  repeat match goal with
         | |- context [String _ _ +:+ _] => rewrite append_cons
         | |- context [EmptyString +:+ _] => rewrite append_nil
         | H : context [String _ _ +:+ _] |- _ => rewrite append_cons in H
         | H : context [EmptyString +:+ _] |- _ => rewrite append_nil in H
         end.

Lemma strTake_strDrop n s : strTake n s +:+ strDrop n s = s.
Proof.
  revert s. induction n as [|n IH]; intros [|c s]; str_simpl; try done.
  by rewrite IH.
Qed.

Lemma strTake_app a b : strTake (String.length a) (a +:+ b) = a.
Proof. induction a as [|c a IH]; str_simpl; [by destruct b | by rewrite IH]. Qed.

Lemma strDrop_app a b : strDrop (String.length a) (a +:+ b) = b.
Proof. induction a as [|c a IH]; str_simpl; done. Qed.

Lemma strDrop_add n m s : strDrop (n + m) s = strDrop m (strDrop n s).
Proof.
  revert s. induction n as [|n IH]; intros s; simpl; [done |].
  destruct s as [|c s]; simpl; [by destruct m | apply IH].
Qed.

Lemma HasPrefix_spec s pre :
  HasPrefix s pre = true <-> exists r, s = pre +:+ r.
Proof.
  revert s. induction pre as [|c pre IH]; intros s; str_simpl.
  - split; [by exists s | done].
  - destruct s as [|d s].
    + split; [done | by intros [r [=]]].
    + rewrite andb_true_iff, IH. split.
      * intros [->%Ascii.eqb_eq [r ->]]. eauto.
      * intros [r [= -> ->]]. rewrite Ascii.eqb_refl. eauto.
Qed.

Lemma HasPrefix_app pre r : HasPrefix (pre +:+ r) pre = true.
Proof. apply HasPrefix_spec. eauto. Qed.

(** The position Index returns is that of an occurrence. *)
Lemma Index_Some s substr m :
  Index s substr = Some m ->
  s = strTake m s +:+ substr +:+ strDrop (m + String.length substr) s.
Proof.
  revert m. induction s as [|c s IH]; intros m; simpl.
  - destruct substr; simpl; [by intros [= <-] | done].
  - destruct (HasPrefix (String c s) substr) eqn:Hp.
    + intros [= <-]. apply HasPrefix_spec in Hp as [r Hr]. str_simpl.
      by rewrite Hr at 2; rewrite strDrop_app.
    + destruct (Index s substr) as [m'|] eqn:E; simpl; [| done].
      intros [= <-]. str_simpl. f_equal. by apply IH.
Qed.

(** Without an occurrence, Index finds none. *)
Lemma Index_None s substr :
  Index s substr = None -> forall a b, s <> a +:+ substr +:+ b.
Proof.
  induction s as [|c s IH]; simpl.
  - destruct substr; [done |]. intros _ [|? ?] b; done.
  - destruct (HasPrefix (String c s) substr) eqn:Hp; [done |].
    destruct (Index s substr) eqn:E; simpl; [done |]. intros _ a b Heq.
    destruct a as [|d a]; str_simpl.
    + assert (HasPrefix (String c s) substr = true) as Hp'; [| congruence].
      apply HasPrefix_spec. eauto.
    + injection Heq as -> Heq. by eapply IH.
Qed.

(** Contains is the existence of an occurrence. *)
Lemma Contains_spec s substr :
  Contains s substr = true <-> exists a b, s = a +:+ substr +:+ b.
Proof.
  unfold Contains. destruct (Index s substr) as [m|] eqn:E.
  - split; [| done]. intros _. apply Index_Some in E. eauto.
  - split; [done |]. intros (a & b & Heq). by eapply Index_None in E.
Qed.

(** Index passes over the bytes that do not begin the separator. *)
Lemma Index_app_fresh a c sep b :
  strAll (fun d => negb (Ascii.eqb c d)) a = true ->
  Index (a +:+ String c sep +:+ b) (String c sep) = Some (String.length a).
Proof.
  induction a as [|d a IH]; str_simpl.
  - intros _. rewrite Ascii.eqb_refl. simpl.
    by rewrite (HasPrefix_app sep b).
  - intros [Hd Ha]%andb_true_iff. apply negb_true_iff in Hd. rewrite Hd.
    simpl. by rewrite IH.
Qed.

(** A split in two of a string that contains the separator: what is before
    its first occurrence and what is after. *)
Lemma SplitN_2_Contains s c sep :
  Contains s (String c sep) = true ->
  exists m, Index s (String c sep) = Some m /\
    SplitN s (String c sep) 2
    = [strTake m s; strDrop (m + S (String.length sep)) s].
Proof.
  unfold Contains. destruct (Index s (String c sep)) as [m|] eqn:E; [| done].
  intros _. exists m. split; [done |]. unfold SplitN. cbn [splitLoop].
  by rewrite E.
Qed.

Lemma SplitN_2_app a c sep b :
  strAll (fun d => negb (Ascii.eqb c d)) a = true ->
  SplitN (a +:+ String c sep +:+ b) (String c sep) 2 = [a; b].
Proof.
  intros Ha. unfold SplitN. cbn [splitLoop].
  rewrite (Index_app_fresh _ _ _ _ Ha).
  rewrite strTake_app, strDrop_add, strDrop_app.
  by rewrite (strDrop_app (String c sep) b).
Qed.

(** ** The decimal conversion *)

Lemma digitOf_range c d : digitOf c = Some d -> (0 <= d <= 9)%Z.
Proof.
  unfold digitOf. destruct (_ && _) eqn:E; [| done].
  apply andb_true_iff in E as [?%Z.leb_le ?%Z.leb_le]. intros [= <-]. lia.
Qed.

Lemma digitOf_not_sign c d :
  digitOf c = Some d -> Ascii.eqb c "+" = false /\ Ascii.eqb c "-" = false.
Proof.
  intros Hd. split; apply not_true_iff_false; intros ->%Ascii.eqb_eq; done.
Qed.

Lemma cutoff_eq : (maxUint64 / 10 + 1)%Z = 1844674407370955162%Z.
Proof. reflexivity. Qed.

Lemma digitsValue_ge s n v :
  (0 <= n)%Z -> digitsValue s n = Some v -> (n <= v)%Z.
Proof.
  revert n. induction s as [|c s IH]; intros n Hn; simpl; [by intros [= <-] |].
  destruct (digitOf c) as [d|] eqn:Hd; [| done].
  apply digitOf_range in Hd. intros Hv%IH; lia.
Qed.

(** The loop of ParseUint computes the number the digits denote, or reports
    that it is above the largest unsigned value: the tests of the code
    catch every wrap-around of the accumulator. *)
Lemma parseUintLoop_digits s n v :
  (0 <= n <= maxUint64)%Z -> digitsValue s n = Some v ->
  parseUintLoop s n
  = if (v <=? maxUint64)%Z then (v, None) else (maxUint64, Some ErrRange).
Proof.
  revert n. induction s as [|c s IH]; intros n Hn; simpl.
  - intros [= <-]. by rewrite (proj2 (Z.leb_le _ _)) by lia.
  - destruct (digitOf c) as [d|] eqn:Hd; [| done].
    apply digitOf_range in Hd. intros Hv.
    assert (n * 10 + d <= v)%Z as Hge by (eapply digitsValue_ge; [lia | done]).
    rewrite cutoff_eq. unfold maxUint64 in *.
    destruct (Z.leb_spec 1844674407370955162 n).
    + by rewrite (proj2 (Z.leb_gt _ _)) by lia.
    + rewrite (Z.mod_small (n * 10)) by lia.
      destruct (Z.le_gt_cases (n * 10 + d) (2 ^ 64 - 1)).
      * rewrite Z.mod_small by lia.
        rewrite (proj2 (Z.ltb_ge _ _)), (proj2 (Z.ltb_ge _ _)) by lia.
        apply IH; [lia | done].
      * replace ((n * 10 + d) mod 2 ^ 64)%Z with (n * 10 + d - 2 ^ 64)%Z
          by (apply Z.mod_unique with 1%Z; lia).
        rewrite (proj2 (Z.ltb_lt _ _)) by lia. simpl.
        by rewrite (proj2 (Z.leb_gt _ _)) by lia.
Qed.

(** What the loop returns without an error is the number the digits
    denote. *)
Lemma parseUintLoop_Ok s n v :
  (0 <= n <= maxUint64)%Z -> parseUintLoop s n = (v, None) ->
  digitsValue s n = Some v /\ (v <= maxUint64)%Z.
Proof.
  revert n. induction s as [|c s IH]; intros n Hn; simpl.
  - intros [= <-]. split; [done | lia].
  - destruct (digitOf c) as [d|] eqn:Hd; [| done].
    apply digitOf_range in Hd. rewrite cutoff_eq. unfold maxUint64 in *.
    destruct (Z.leb_spec 1844674407370955162 n); [done |].
    rewrite (Z.mod_small (n * 10)) by lia.
    destruct (Z.le_gt_cases (n * 10 + d) (2 ^ 64 - 1)).
    + rewrite Z.mod_small by lia.
      rewrite (proj2 (Z.ltb_ge _ _)), (proj2 (Z.ltb_ge _ _)) by lia.
      apply IH. lia.
    + replace ((n * 10 + d) mod 2 ^ 64)%Z with (n * 10 + d - 2 ^ 64)%Z
        by (apply Z.mod_unique with 1%Z; lia).
      by rewrite (proj2 (Z.ltb_lt _ _)) by lia.
Qed.

Lemma parseUintLoop_range s n :
  (0 <= n <= maxUint64)%Z -> (0 <= (parseUintLoop s n).1 <= maxUint64)%Z.
Proof.
  revert n. induction s as [|c s IH]; intros n Hn; simpl; [done |].
  destruct (digitOf c) as [d|]; [| simpl; unfold maxUint64; lia].
  repeat case_match; simpl; try (unfold maxUint64; lia).
  apply IH. unfold maxUint64.
  pose proof (Z.mod_pos_bound ((n * 10) mod 2 ^ 64 + d) (2 ^ 64)). lia.
Qed.

Lemma ParseUint_range s : (0 <= (ParseUint s).1 <= maxUint64)%Z.
Proof.
  destruct s; [simpl; unfold maxUint64; lia |].
  apply parseUintLoop_range. unfold maxUint64. lia.
Qed.

Lemma ParseUint_Ok s v :
  ParseUint s = (v, None) <->
  unsignedValue s = Some v /\ (v <= maxUint64)%Z.
Proof.
  destruct s as [|c s]; [by split; [| intros []] |].
  unfold ParseUint, unsignedValue. split.
  - apply parseUintLoop_Ok. unfold maxUint64. lia.
  - intros [Hv Hle]. rewrite (parseUintLoop_digits _ _ v); [| done | done].
    by rewrite (proj2 (Z.leb_le _ _)).
Qed.

Lemma toInt64_range z : (minInt64 <= toInt64 z <= maxInt64)%Z.
Proof.
  unfold toInt64, minInt64, maxInt64.
  pose proof (Z.mod_pos_bound (z + 2 ^ 63) (2 ^ 64)). lia.
Qed.

Lemma toInt64_small z : (minInt64 <= z <= maxInt64)%Z -> toInt64 z = z.
Proof.
  unfold toInt64, minInt64, maxInt64. intros ?.
  rewrite Z.mod_small; lia.
Qed.

(** The negation of the smallest signed value wraps to itself. *)
Lemma toInt64_opp_min : toInt64 (- toInt64 (2 ^ 63)) = minInt64.
Proof. reflexivity. Qed.

Lemma toInt64_neg u :
  (0 <= u <= 2 ^ 63)%Z -> toInt64 (- toInt64 u) = (- u)%Z.
Proof.
  intros Hu. destruct (decide (u = 2 ^ 63)%Z) as [->|Hne]; [done |].
  rewrite (toInt64_small u) by (unfold minInt64, maxInt64; lia).
  apply toInt64_small. unfold minInt64, maxInt64. lia.
Qed.

(** A range error of the unsigned conversion comes with the largest
    unsigned value. *)
Lemma parseUintLoop_ErrRange s n v :
  parseUintLoop s n = (v, Some ErrRange) -> v = maxUint64.
Proof.
  revert n. induction s as [|c s IH]; intros n; simpl; [done |].
  repeat case_match; try done; try (by intros [= <-]). apply IH.
Qed.

Lemma ParseUint_ErrRange s v :
  ParseUint s = (v, Some ErrRange) -> v = maxUint64.
Proof. destruct s; [done | apply parseUintLoop_ErrRange]. Qed.

Lemma unsignedValue_nonneg s u : unsignedValue s = Some u -> (0 <= u)%Z.
Proof. destruct s; [done | by apply digitsValue_ge]. Qed.

Lemma signedRange_range neg r :
  (minInt64 <= (signedRange neg r).1 <= maxInt64)%Z.
Proof.
  destruct r as [un [[]|]]; simpl; repeat case_match; simpl;
    try apply toInt64_range; unfold minInt64, maxInt64; lia.
Qed.

(** The signed conversion succeeds exactly on the digits of a number that
    fits, with or without the sign. *)
Lemma signedRange_Ok neg s z :
  signedRange neg (ParseUint s) = (z, None) <->
  exists u, unsignedValue s = Some u /\ z = (if neg then - u else u)%Z /\
            (minInt64 <= z <= maxInt64)%Z.
Proof.
  pose proof (ParseUint_range s) as Hr. pose proof (ParseUint_Ok s) as Hok.
  pose proof (ParseUint_ErrRange s) as Herr.
  destruct (ParseUint s) as [un e]. simpl in Hr. split.
  - intros Hs. assert (e = None) as ->.
    { destruct e as [[]|]; [done | | done]. rewrite (Herr un eq_refl) in Hs.
      by destruct neg. }
    destruct (Hok un) as [[Hu _] _]; [done |]. exists un. split; [done |].
    unfold signedRange in Hs. destruct neg; simpl in Hs.
    + destruct (Z.ltb_spec (2 ^ 63) un); [done |]. injection Hs as <-.
      rewrite toInt64_neg by lia. unfold minInt64, maxInt64. lia.
    + destruct (Z.leb_spec (2 ^ 63) un); [done |]. injection Hs as <-.
      rewrite toInt64_small by (unfold minInt64, maxInt64; lia).
      unfold minInt64, maxInt64. lia.
  - intros (u & Hu & -> & Hz). pose proof (unsignedValue_nonneg _ _ Hu).
    unfold minInt64, maxInt64, maxUint64 in *.
    destruct (Hok u) as [_ Hp]. injection (Hp ltac:(split; [done | destruct neg; lia])) as -> ->.
    unfold signedRange. destruct neg; simpl.
    + rewrite (proj2 (Z.ltb_ge _ _)) by lia. by rewrite toInt64_neg by lia.
    + rewrite (proj2 (Z.leb_gt _ _)) by lia.
      by rewrite toInt64_small by (unfold minInt64, maxInt64; lia).
Qed.

(** The value ParseInt returns is in the range of a signed 64-bit integer,
    also when it returns an error. *)
Lemma ParseInt_range s : (minInt64 <= (ParseInt s).1 <= maxInt64)%Z.
Proof.
  destruct s as [|c s]; [simpl; unfold minInt64, maxInt64; lia |].
  unfold ParseInt. repeat case_match; apply signedRange_range.
Qed.

(** ParseInt succeeds exactly on the decimal numerals of the numbers of the
    signed 64-bit range, and returns the number. *)
Lemma ParseInt_Ok s z :
  ParseInt s = (z, None) <->
  numeralValue s = Some z /\ (minInt64 <= z <= maxInt64)%Z.
Proof.
  destruct s as [|c s]; [by split; [| intros []] |].
  unfold ParseInt, numeralValue.
  destruct (Ascii.eqb c "+"); [| destruct (Ascii.eqb c "-")];
    rewrite signedRange_Ok.
  - split; [intros (u & ? & -> & ?) | intros [? ?]]; eauto.
  - split.
    + intros (u & -> & -> & ?). done.
    + intros [Hu ?]. destruct (unsignedValue s) as [u|]; [| done].
      injection Hu as <-. eauto.
  - split; [intros (u & ? & -> & ?) | intros [? ?]]; eauto.
Qed.

Lemma ParseInt_error_None s z :
  ParseInt s = (z, None) <-> ParseInt_error s = None /\ (ParseInt s).1 = z.
Proof.
  unfold ParseInt_error. destruct (ParseInt s) as [v [e|]]; simpl.
  - split; [done | by intros [? ?]].
  - split; [by intros [= ->] | by intros [_ ->]].
Qed.

(** ** Numerals as strings *)

(** A string of digits holds no other byte. *)
Lemma digitsValue_strAll f s n v :
  (forall c d, digitOf c = Some d -> f c = true) ->
  digitsValue s n = Some v -> strAll f s = true.
Proof.
  intros Hf. revert n. induction s as [|c s IH]; intros n; simpl; [done |].
  destruct (digitOf c) as [d|] eqn:Hd; [| done].
  intros Hv. rewrite (Hf _ _ Hd). eauto.
Qed.

Lemma unsignedValue_strAll f s v :
  (forall c d, digitOf c = Some d -> f c = true) ->
  unsignedValue s = Some v -> strAll f s = true.
Proof. destruct s; [done | apply digitsValue_strAll]. Qed.

Lemma numeralValue_strAll f s v :
  (forall c d, digitOf c = Some d -> f c = true) ->
  f "+"%char = true -> f "-"%char = true ->
  numeralValue s = Some v -> strAll f s = true.
Proof.
  intros Hf Hp Hm. destruct s as [|c s]; [done |]. unfold numeralValue.
  destruct (Ascii.eqb_spec c "+") as [->|_];
    [| destruct (Ascii.eqb_spec c "-") as [->|_]].
  - intros Hv. simpl. rewrite Hp. by eapply unsignedValue_strAll.
  - destruct (unsignedValue s) as [u|] eqn:Hu; [| done]. intros _. simpl.
    rewrite Hm. by eapply unsignedValue_strAll.
  - by apply unsignedValue_strAll.
Qed.

Lemma strAll_app f a b : strAll f (a +:+ b) = strAll f a && strAll f b.
Proof.
  induction a as [|c a IH]; str_simpl; [done |]. by rewrite IH, andb_assoc.
Qed.

(** A string without the first byte of a word does not contain the word. *)
Lemma Contains_fresh s c sub :
  strAll (fun d => negb (Ascii.eqb c d)) s = true ->
  Contains s (String c sub) = false.
Proof.
  unfold Contains. induction s as [|d s IH]; simpl; [done |].
  intros [Hd Hs]%andb_true_iff. apply negb_true_iff in Hd. rewrite Hd. simpl.
  specialize (IH Hs). by destruct (Index s (String c sub)).
Qed.

Lemma unsignedValue_numeralValue s v :
  unsignedValue s = Some v -> numeralValue s = Some v.
Proof.
  destruct s as [|c s]; [done |]. unfold numeralValue. simpl.
  destruct (digitOf c) as [d|] eqn:Hd; [| done].
  by destruct (digitOf_not_sign _ _ Hd) as [-> ->].
Qed.

Lemma digit_not c0 :
  digitOf c0 = None ->
  forall c d, digitOf c = Some d -> negb (Ascii.eqb c0 c) = true.
Proof.
  intros H0 c d Hd. apply negb_true_iff, not_true_iff_false.
  intros ->%Ascii.eqb_eq. congruence.
Qed.

(** Neither a numeral nor a range of numerals contains the word any. *)
Lemma numeral_not_any s v : numeralValue s = Some v -> Contains s "any" = false.
Proof.
  intros Hv. apply Contains_fresh.
  by eapply numeralValue_strAll; [apply digit_not | ..].
Qed.

(** ** The conversion at the ends of the range *)

(** The largest and the smallest signed 64-bit numbers are converted; one
    more is a range error with the end of the range as the value, as the
    library documents. *)
Example ParseInt_extremes :
  ParseInt "9223372036854775807" = (maxInt64, None) /\
  ParseInt "9223372036854775808" = (maxInt64, Some ErrRange) /\
  ParseInt "-9223372036854775808" = (minInt64, None) /\
  ParseInt "-9223372036854775809" = (minInt64, Some ErrRange) /\
  ParseInt "+80" = (80%Z, None) /\
  ParseInt "99999999999999999999x" = (maxInt64, Some ErrRange) /\
  ParseInt "8o" = (0%Z, Some ErrSyntax) /\
  ParseInt "-" = (0%Z, Some ErrSyntax).
Proof. repeat split; vm_compute; reflexivity. Qed.

(** The text of the error on the empty string. *)
Example ParseInt_error_empty :
  ParseInt_error EmptyString
  = Some ("strconv.ParseInt: parsing " +:+ dquote +:+ dquote
          +:+ ": invalid syntax").
Proof. reflexivity. Qed.

Example Split_words :
  Split "redis-server --port 6379" " " = ["redis-server"; "--port"; "6379"] /\
  SplitN "80-90-100" "-" 2 = ["80"; "90-100"] /\
  SplitN "-5" "-" 2 = [EmptyString; "5"] /\
  Contains "any" "n" = true /\ Contains "tcp" "any" = false /\
  ToLower "TCP" = "tcp".
Proof. repeat split; vm_compute; reflexivity. Qed.
