(* ===== verification/AwsSpec.v ===== *)
(** * What the catalog files share

    The files of src/aws/spec modelled here call a few helpers of their
    package that the sources do not hold: the reflection helper that sets a
    field of a request ([setFieldWithType]), the generic call
    ([awsCall.execute]: fill the input with the setters, call the method of
    the provider, log), the polling loop of the check commands
    ([checker.check]), the validator of a param against a list of words
    ([NewEnumValidator]) and the constant [notFoundState].  This file holds
    the data they are called with, as the catalog files build it, the
    record [Helpers] of these functions, of which a catalog file knows the
    signature only, and the errors of the provider ([apiError]: an
    awserr.Error has a code and a message, any other error a text only). *)

From S2P Require Import Prelude GoLib.
From Stdlib Require Import ZArith.

(** The kind of conversion a setter asks for. *)
Inductive awsType : Type :=
| awsstr | awsint64 | awsbool | awsstringslice | awsslicestruct
| awsslicestructint64 | awsecskeyvalue | awsportmappings.

#[global] Instance awsType_eq_dec : EqDecision awsType.
Proof. solve_decision. Defined.

(** The value handed to a setter: a pointer to a string, to an integer, a
    boolean, a slice of strings or of pointers to strings. *)
Inductive setterVal : Type :=
| ValString (p : option string)
| ValInt64 (p : option Z)
| ValBool (b : bool)
| ValStrings (l : list string)
| ValStringPtrs (l : list (option string)).

#[global] Instance setterVal_eq_dec : EqDecision setterVal.
Proof. solve_decision. Defined.

(** A setter of a generic call: the value, the path of the field of the
    request and the kind of conversion. *)
Record setter : Type := mkSetter {
  val : setterVal;
  fieldPath : string;
  fieldType : awsType;
}.

#[global] Instance setter_eq_dec : EqDecision setter.
Proof. solve_decision. Defined.

(** The generic call: the method of the provider (by its name), the setters
    that fill its input, a description for the log. *)
Record awsCall : Type := mkAwsCall {
  desc : string;
  fn : string;
  setters : list setter;
}.

#[global] Instance awsCall_eq_dec : EqDecision awsCall.
Proof. solve_decision. Defined.

(** An error of the provider: an awserr.Error with its code and its message,
    or any other error; [errorText] is the Error method. *)
Inductive apiError : Type :=
| AwsError (code message : string) (text : error)
| PlainError (text : error).

#[global] Instance apiError_eq_dec : EqDecision apiError.
Proof. solve_decision. Defined.

Definition errorText (e : apiError) : error :=
  match e with
  | AwsError _ _ text => text
  | PlainError text => text
  end.

(** One second, in the nanoseconds of a duration. *)
Definition second : Z := 1000000000.

(** A number of seconds as a duration: a signed 64-bit product, which
    wraps. *)
Definition secondsOf (n : option Z) : Z := toInt64 (default 0%Z n * second).

(** The validator the examples use: the param is one of the words. *)
Definition sampleEnumValidator (words : list string) (p : option string)
    : option error :=
  match p with
  | Some w =>
      if decide (w ∈ words) then None
      else Some ("invalid value '" +:+ w +:+ "' expect any of: " +:+ fmt_v words)
  | None => Some "invalid value: nil"
  end.

Section helpers.
Context {W : Type}.

(** The poll of a check command. *)
Record checker : Type := mkChecker {
  description : string;
  timeout : Z;
  frequency : Z;
  fetchFunc : W -> (string * option error) * W;
  expect : string;
}.

(** The helpers, for a request type [Input] and an answer type [Out]:
    the field setter, the generic call, the poll, the validator of a param
    against a list of words and the name of the state of what does not
    exist. *)
Record Helpers (Input Out : Type) : Type := mkHelpers {
  setFieldWithType :
    setterVal -> Input -> string -> awsType -> Input * option error;
  execute : awsCall -> W -> (option Out * option error) * W;
  check : checker -> W -> option error * W;
  NewEnumValidator : list string -> option string -> option error;
  notFoundState : string;
}.

End helpers.

Arguments checker W : clear implicits.
Arguments Helpers W Input Out : clear implicits.
Arguments mkHelpers {W Input Out} _ _ _ _ _.
Arguments NewEnumValidator {W Input Out} _ _ _.
Arguments notFoundState {W Input Out} _.
Arguments setFieldWithType {W Input Out} _ _ _ _ _.
Arguments execute {W Input Out} _ _ _.
Arguments check {W Input Out} _ _ _.

(** What the run of a validated command needs of the validator: it accepts
    a param only when it is one of the words. *)
Definition EnumLaw {W Input Out : Type} (h : Helpers W Input Out) : Prop :=
  forall words w, NewEnumValidator h words (Some w) = None -> w ∈ words.

(** A duration of at most 9223372036 seconds is the product, without
    wrap-around. *)
Lemma secondsOf_small n :
  (0 <= n <= 9223372036)%Z -> secondsOf (Some n) = (n * second)%Z.
Proof.
  intros Hn. unfold secondsOf, second. simpl. apply toInt64_small.
  unfold minInt64, maxInt64. lia.
Qed.

(** One second more and the product is negative. *)
Lemma secondsOf_wraps : secondsOf (Some 9223372037%Z) = (-9223372036709551616)%Z.
Proof. reflexivity. Qed.

Lemma sampleEnumValidator_law words w :
  sampleEnumValidator words (Some w) = None -> w ∈ words.
Proof. unfold sampleEnumValidator. by case_decide. Qed.
