(* ===== verification/SecurityGroup.v ===== *)
(** * The security group commands of the catalog

    Models src/aws/spec/securitygroup.go, one of the files of the command
    catalog: the command that updates the rules of a security group
    ([buildIpPermissions], [UpdateSecuritygroup_ManualRun]), the commands
    that attach a group to an instance and detach it
    ([AttachSecuritygroup_ManualRun], [DetachSecuritygroup_ManualRun], with
    [fetchInstanceSecurityGroups] and [removeString]), and the command that
    waits for a group to be unused ([CheckSecuritygroup_fetchFunc],
    [CheckSecuritygroup_ManualRun]).

    A command is the record of its params, [None] for a nil pointer.  The
    provider is the record [EC2API] of the calls the file makes, each a
    function on the world [W]; the helpers of the package are the fields of
    [Helpers] (file [AwsSpec]).  The calls to the logger are left out.

    A function that returns [(value, error)] is a function to [res]: [Ok v],
    [Err v e] with the value the code returns beside the error, or [Panic]
    where the code indexes a slice out of its range.

    The theorems: [removeString] is a filter; [buildIpPermissions] does not
    panic, returns ports of the signed 64-bit range and, on a numeral or a
    range of numerals, the ports they denote; the protocol test accepts
    every substring of the word any; [UpdateSecuritygroup_ManualRun] makes
    at most one call, of the kind the params select; the two commands on an
    instance send the groups of the instance with the group added, or with
    every occurrence of it removed. *)

From S2P Require Import Prelude GoLib AwsSpec.
From Stdlib Require Import Ascii ZArith Lia.

(** ** Requests and answers of the provider *)

(** ec2.IpPermission: the CIDR of each range, the group of each pair, the
    ports and the protocol. *)
Record IpPermission : Type := mkIpPermission {
  IpRanges : list string;
  UserIdGroupPairs : list string;
  FromPort : option Z;
  ToPort : option Z;
  IpProtocol : option string;
}.

#[global] Instance IpPermission_eq_dec : EqDecision IpPermission.
Proof. solve_decision. Defined.

(** The four requests that change the rules of a group. *)
Inductive ruleCall : Type :=
| AuthorizeSecurityGroupIngress
| RevokeSecurityGroupIngress
| AuthorizeSecurityGroupEgress
| RevokeSecurityGroupEgress.

#[global] Instance ruleCall_eq_dec : EqDecision ruleCall.
Proof. solve_decision. Defined.

(** The input of such a request: its type, the permissions and the group. *)
Record ruleInput : Type := mkRuleInput {
  inputCall : ruleCall;
  IpPermissions : list IpPermission;
  GroupId : option string;
}.

(** The commands, by their params. *)
Record UpdateSecuritygroup : Type := mkUpdateSecuritygroup {
  Id : option string;
  Protocol : option string;
  CIDR : option string;
  Securitygroup : option string;
  Inbound : option string;
  Outbound : option string;
  Portrange : option string;
}.

Record CheckSecuritygroup : Type := mkCheckSecuritygroup {
  checkId : option string;
  checkState : option string;
  checkTimeout : option Z;
}.

Record AttachSecuritygroup : Type := mkAttachSecuritygroup {
  attachId : option string;
  attachInstance : option string;
}.

Record DetachSecuritygroup : Type := mkDetachSecuritygroup {
  detachId : option string;
  detachInstance : option string;
}.

(** The words the test on the protocol accepts: the substrings of the word
    any, the empty string among them. *)
Definition anyWords : list string :=
  [EmptyString; "a"; "n"; "y"; "an"; "ny"; "any"]%string.

Section securitygroup.
Context {W Out : Type}.

(** The calls of the provider the file makes.  A call returns its answer
    and an error, and may change the world.  [callRule] stands for the four
    methods that take the four requests of [ruleCall]: the type switch at
    the end of the run calls the method of the type of its input.  The two
    descriptions take the name of their filter or attribute and its
    value. *)
Record EC2API : Type := mkEC2API {
  callRule : ruleInput -> W -> (option Out * option error) * W;
  DescribeInstanceAttribute :
    string -> string -> W -> (list (option string) * option error) * W;
  DescribeNetworkInterfaces :
    string -> option string -> W -> (list (option string) * option error) * W;
}.

Context (api : EC2API) (h : Helpers W ruleInput Out).

(** ** removeString *)

Fixpoint removeString (arr : list string) (s : string) : list string :=
  match arr with
  | [] => []
  | e :: rest =>
      if decide (e <> s) then e :: removeString rest s
      else removeString rest s
  end.

(** ** fetchInstanceSecurityGroups *)

Definition fetchInstanceSecurityGroups (id : string) (w : W)
    : (list string * option error) * W :=
  match DescribeInstanceAttribute api "groupSet" id w with
  | ((_, Some err), w1) => (([], Some err), w1)
  | ((groups, None), w1) => ((StringValue <$> groups, None), w1)
  end.

(** ** buildIpPermissions *)

(** The permission with its ports and its protocol set. *)
Definition withPorts (ipPerm : IpPermission) (from to : Z)
    (proto : option string) : IpPermission :=
  mkIpPermission (IpRanges ipPerm) (UserIdGroupPairs ipPerm)
                 (Some from) (Some to) proto.

(** The conversion of a port, with the error of the library. *)
Definition parsePort (s : string) : Z + error :=
  match ParseInt s with
  | (_, Some e) => inr (NumError_Error "ParseInt" s e)
  | (port, None) => inl port
  end.

(** The source of the rule: the CIDR when there is one, the security group
    otherwise. *)
Definition ipSource (cmd : UpdateSecuritygroup) : option IpPermission :=
  match CIDR cmd, Securitygroup cmd with
  | Some cidr, _ => Some (mkIpPermission [cidr] [] None None None)
  | None, Some secgroup => Some (mkIpPermission [] [secgroup] None None None)
  | None, None => None
  end.

Definition buildIpPermissions (cmd : UpdateSecuritygroup)
    : res (list IpPermission) :=
  match ipSource cmd with
  | None => Err [] "missing either 'cidr' or 'securitygroup' parameter"
  | Some ipPerm =>
      let p := StringValue (Protocol cmd) in
      if Contains "any" p
      then Ok [withPorts ipPerm (-1) (-1) (Some "-1")]
      else
        let ports := StringValue (Portrange cmd) in
        if Contains ports "any" then
          if bool_decide (ToLower p = "tcp") || bool_decide (ToLower p = "udp")
          then Ok [withPorts ipPerm 0 65535 (Some p)]
          else Ok [withPorts ipPerm (-1) (-1) (Some p)]
        else if Contains ports "-" then
          match SplitN ports "-" 2 !! 0 with
          | None => Panic "index out of range"
          | Some lo =>
              match parsePort lo with
              | inr err => Err [] err
              | inl from =>
                  match SplitN ports "-" 2 !! 1 with
                  | None => Panic "index out of range"
                  | Some hi =>
                      match parsePort hi with
                      | inr err => Err [] err
                      | inl to => Ok [withPorts ipPerm from to (Some p)]
                      end
                  end
              end
          end
        else
          match parsePort ports with
          | inr err => Err [] err
          | inl port => Ok [withPorts ipPerm port port (Some p)]
          end
  end.

(** ** UpdateSecuritygroup.ManualRun *)

(** One of the two switches on a direction param: the request it selects,
    the request chosen so far when the param is not given, an error for
    any other word. *)
Definition selectInput (name : string) (param : option string)
    (authorize revoke : ruleCall) (ipPerms : list IpPermission)
    (input : option ruleInput) : option ruleInput + error :=
  match param with
  | None => inl input
  | Some word =>
      if decide (word = "authorize")
      then inl (Some (mkRuleInput authorize ipPerms None))
      else if decide (word = "revoke")
      then inl (Some (mkRuleInput revoke ipPerms None))
      else inr ("'" +:+ name +:+
                "' parameter expect 'authorize' or 'revoke', got " +:+ word)
  end.

Definition UpdateSecuritygroup_ManualRun (cmd : UpdateSecuritygroup) (w : W)
    : res (option Out * W) :=
  match buildIpPermissions cmd with
  | Panic why => Panic why
  | Err _ err => Err (None, w) err
  | Ok ipPerms =>
      match selectInput "inbound" (Inbound cmd) AuthorizeSecurityGroupIngress
                        RevokeSecurityGroupIngress ipPerms None with
      | inr err => Err (None, w) err
      | inl input1 =>
          match selectInput "outbound" (Outbound cmd)
                            AuthorizeSecurityGroupEgress
                            RevokeSecurityGroupEgress ipPerms input1 with
          | inr err => Err (None, w) err
          | inl None =>
              Err (None, w) "expect either 'inbound' or 'outbound' parameter"
          | inl (Some input) =>
              match setFieldWithType h (ValString (Id cmd)) input "GroupId" awsstr with
              | (_, Some err) => Err (None, w) err
              | (input', None) =>
                  match callRule api input' w with
                  | ((output, Some err), w1) => Err (output, w1) err
                  | ((output, None), w1) => Ok (output, w1)
                  end
              end
          end
      end
  end.

(** ** The validations of the params *)

Definition UpdateSecuritygroup_ValidateInbound (cmd : UpdateSecuritygroup)
    : option error :=
  match Inbound cmd with
  | None => None
  | Some _ => NewEnumValidator h ["authorize"; "revoke"] (Inbound cmd)
  end.

Definition UpdateSecuritygroup_ValidateOutbound (cmd : UpdateSecuritygroup)
    : option error :=
  match Outbound cmd with
  | None => None
  | Some _ => NewEnumValidator h ["authorize"; "revoke"] (Outbound cmd)
  end.

Definition CheckSecuritygroup_ValidateState (cmd : CheckSecuritygroup)
    : option error :=
  NewEnumValidator h ["unused"] (checkState cmd).

(** ** CheckSecuritygroup.ManualRun *)

(** The state the poll reads: unused, or the interfaces that use the
    group. *)
Definition CheckSecuritygroup_fetchFunc (cmd : CheckSecuritygroup) (w : W)
    : (string * option error) * W :=
  match DescribeNetworkInterfaces api "group-id" (checkId cmd) w with
  | ((_, Some err), w1) => ((EmptyString, Some err), w1)
  | (([], None), w1) => (("unused", None), w1)
  | ((nis, None), w1) =>
      (("used by " +:+ Join (StringValue <$> nis) ", ", None), w1)
  end.

(** The poll the command builds: every five seconds, until the state is
    the expected one or the timeout has passed. *)
Definition CheckSecuritygroup_checker (cmd : CheckSecuritygroup) : checker W :=
  mkChecker ("securitygroup " +:+ StringValue (checkId cmd))
            (secondsOf (checkTimeout cmd))
            (5 * second)
            (CheckSecuritygroup_fetchFunc cmd)
            (StringValue (checkState cmd)).

Definition CheckSecuritygroup_ManualRun (cmd : CheckSecuritygroup) (w : W)
    : res (option Out * W) :=
  match check h (CheckSecuritygroup_checker cmd) w with
  | (Some err, w1) => Err (None, w1) err
  | (None, w1) => Ok (None, w1)
  end.

(** ** AttachSecuritygroup.ManualRun and DetachSecuritygroup.ManualRun *)

(** The generic call the two commands end with: the instance and the groups
    it is to have. *)
Definition modifyGroups (instance : option string) (groups : list string)
    : awsCall :=
  mkAwsCall "attach securitygroup" "ModifyInstanceAttribute"
            [mkSetter (ValString instance) "InstanceID" awsstr;
             mkSetter (ValStrings groups) "Groups" awsstringslice].

Definition fetchError (instance : option string) (err : error) : error :=
  "fetching securitygroups for instance " +:+ StringValue instance +:+ ": "
  +:+ err.

Definition AttachSecuritygroup_ManualRun (cmd : AttachSecuritygroup) (w : W)
    : res (option Out * W) :=
  match fetchInstanceSecurityGroups (StringValue (attachInstance cmd)) w with
  | ((_, Some err), w1) => Err (None, w1) (fetchError (attachInstance cmd) err)
  | ((groups, None), w1) =>
      let groups := groups ++ [StringValue (attachId cmd)] in
      match execute h (modifyGroups (attachInstance cmd) groups) w1 with
      | ((_, Some err), w2) => Err (None, w2) err
      | ((_, None), w2) => Ok (None, w2)
      end
  end.

Definition DetachSecuritygroup_ManualRun (cmd : DetachSecuritygroup) (w : W)
    : res (option Out * W) :=
  match fetchInstanceSecurityGroups (StringValue (detachInstance cmd)) w with
  | ((_, Some err), w1) => Err (None, w1) (fetchError (detachInstance cmd) err)
  | ((groups, None), w1) =>
      let cleaned := removeString groups (StringValue (detachId cmd)) in
      match execute h (modifyGroups (detachInstance cmd) cleaned) w1 with
      | ((_, Some err), w2) => Err (None, w2) err
      | ((_, None), w2) => Ok (None, w2)
      end
  end.

End securitygroup.

(** ** Reference definitions *)

(** The request a direction param selects. *)
Definition callOf (authorize revoke : ruleCall) (word : string)
    : option ruleCall :=
  if decide (word = "authorize") then Some authorize
  else if decide (word = "revoke") then Some revoke
  else None.

(** The request the params select: the one of the outbound param when it
    is given, the one of the inbound param otherwise. *)
Definition selectedCall (cmd : UpdateSecuritygroup) : option ruleCall :=
  match Outbound cmd, Inbound cmd with
  | Some word, _ =>
      callOf AuthorizeSecurityGroupEgress RevokeSecurityGroupEgress word
  | None, Some word =>
      callOf AuthorizeSecurityGroupIngress RevokeSecurityGroupIngress word
  | None, None => None
  end.

(** A direction param that is not given or is one of the two words. *)
Definition directionOk (param : option string) : Prop :=
  param = None \/ param = Some "authorize" \/ param = Some "revoke".

Section laws.
Context {W Out : Type}.
Context (api : EC2API (W:=W) (Out:=Out)) (h : Helpers W ruleInput Out).

(** What the two commands on an instance need of the provider: it keeps
    the groups of each instance ([groupsOf] reads them in a world), answers
    the description of an instance with them, and a successful
    modification stores the groups it is given. *)
Record GroupStore (groupsOf : W -> string -> option (list string)) : Prop := {
  describe_groups inst w gs :
    groupsOf w inst = Some gs ->
    DescribeInstanceAttribute api "groupSet" inst w = ((Some <$> gs, None), w);
  modify_groups inst gs w :
    is_Some (groupsOf w inst) ->
    exists out w',
      execute h (modifyGroups (Some inst) gs) w = ((out, None), w') /\
      groupsOf w' inst = Some gs;
}.

End laws.

(** A provider for the examples: the world is the map from an instance to
    its groups; a request on the rules of a group is answered without a
    change. *)
Definition sampleEC2 : EC2API (W:=gmap string (list string)) (Out:=unit) :=
  mkEC2API
    (fun _ w => ((Some tt, None), w))
    (fun _ inst w =>
       match w !! inst with
       | Some gs => ((Some <$> gs, None), w)
       | None => (([], Some "InvalidInstanceID.NotFound"), w)
       end)
    (fun _ _ w => (([], None), w)).

Definition sampleHelpers : Helpers (gmap string (list string)) ruleInput unit :=
  mkHelpers
    (fun v input _ _ =>
       match v with
       | ValString p =>
           (mkRuleInput (inputCall input) (IpPermissions input) p, None)
       | _ => (input, Some "unexpected value")
       end)
    (fun call w =>
       match setters call with
       | [ {| val := ValString (Some inst) |}; {| val := ValStrings gs |} ] =>
           ((Some tt, None), <[inst := gs]> w)
       | _ => ((None, Some "unexpected setters"), w)
       end)
    (fun _ w => (None, w))
    sampleEnumValidator
    "not-found".

(** Sample commands: a rule for a range of ports, the same with the letter
    n for the protocol, and the same without the ports. *)
Definition sampleUpdate : UpdateSecuritygroup :=
  mkUpdateSecuritygroup (Some "sg-1") (Some "tcp") (Some "10.0.0.0/8") None
                        (Some "authorize") None (Some "8000-8080").

Definition sampleUpdateN : UpdateSecuritygroup :=
  mkUpdateSecuritygroup (Some "sg-1") (Some "n") (Some "10.0.0.0/8") None
                        (Some "authorize") None (Some "8000-8080").

Definition sampleUpdateNoPorts : UpdateSecuritygroup :=
  mkUpdateSecuritygroup (Some "sg-1") (Some "tcp") (Some "10.0.0.0/8") None
                        (Some "authorize") None None.

Definition sampleSource : IpPermission :=
  mkIpPermission ["10.0.0.0/8"] [] None None None.

Definition sampleWorld : gmap string (list string) :=
  {[ "i-1" := ["sg-a"; "sg-b"] ]}.

(** ** removeString *)

(** removeString is the filter that keeps what differs from the string. *)
Lemma removeString_filter arr s : removeString arr s = filter (.≠ s) arr.
Proof.
  induction arr as [|e arr IH]; simpl; [done |].
  rewrite filter_cons. case_decide; by rewrite IH.
Qed.

Lemma removeString_elem_of arr s e :
  e ∈ removeString arr s <-> e ∈ arr /\ e <> s.
Proof. rewrite removeString_filter, list_elem_of_filter. tauto. Qed.

Lemma removeString_sublist arr s : removeString arr s `sublist_of` arr.
Proof. rewrite removeString_filter. apply sublist_filter. Qed.

Lemma removeString_id arr s : s ∉ arr -> removeString arr s = arr.
Proof. rewrite removeString_filter. apply filter_not_elem_of_id. Qed.

Lemma removeString_app arr1 arr2 s :
  removeString (arr1 ++ arr2) s = removeString arr1 s ++ removeString arr2 s.
Proof. rewrite !removeString_filter. apply filter_app. Qed.

(** ** The protocol test *)

Lemma Contains_any p : Contains "any" p = true <-> p ∈ anyWords.
Proof.
  split.
  - unfold Contains. destruct p as [|c1 [|c2 [|c3 [|c4 p]]]]; simpl;
      repeat match goal with
             | |- context [Ascii.eqb ?x ?y] =>
                 destruct (Ascii.eqb_spec x y); subst; simpl
             end; try done; intros _; unfold anyWords; set_solver.
  - unfold anyWords. set_unfold. intros H. by destruct_or!; subst.
Qed.

(** ** buildIpPermissions *)

Lemma parsePort_inl s z :
  parsePort s = inl z <->
  numeralValue s = Some z /\ (minInt64 <= z <= maxInt64)%Z.
Proof.
  rewrite <- ParseInt_Ok. unfold parsePort.
  destruct (ParseInt s) as [v [e|]]; split; (done || by intros [= ->]).
Qed.

Lemma parsePort_inr s err :
  parsePort s = inr err -> exists e, err = NumError_Error "ParseInt" s e.
Proof.
  unfold parsePort. destruct (ParseInt s) as [v [e|]]; [| done].
  intros [= <-]. eauto.
Qed.

(** The split of a range of ports has two parts: the two indexings of the
    code are in range. *)
Lemma SplitN_dash ports :
  Contains ports "-" = true ->
  exists lo hi, SplitN ports "-" 2 = [lo; hi].
Proof. intros (m & _ & ->)%SplitN_2_Contains. eauto. Qed.

(** buildIpPermissions does not panic: when it splits the port range in
    two and takes the first and the second part, the range contains the dash,
    so the split has two parts. *)
Theorem buildIpPermissions_no_panic cmd :
  is_Panic (buildIpPermissions cmd) = false.
Proof.
  unfold buildIpPermissions. destruct (ipSource cmd) as [perm|]; [| done].
  repeat (case_match; try done);
    match goal with
    | H : Contains _ "-" = true |- _ => apply SplitN_dash in H as (lo & hi & Hs)
    end; rewrite Hs in *; simplify_eq/=.
Qed.


Lemma buildIpPermissions_Err cmd perms err :
  buildIpPermissions cmd = Err perms err -> perms = [].
Proof.
  unfold buildIpPermissions. repeat (case_match; try done); by intros [= <- _].
Qed.

Section build.
Context (cmd : UpdateSecuritygroup) (perm : IpPermission).
Context (Hsource : ipSource cmd = Some perm).

Local Abbreviation p := (StringValue (Protocol cmd)).

(** C39. The test on the protocol has the arguments of strings.Contains in
    the order (word, protocol): every protocol that is a substring of the
    word any, the empty one and the letters a, n and y among them, opens
    every port of every protocol. *)
Theorem buildIpPermissions_protocol_substring :
  StringValue (Protocol cmd) ∈ anyWords ->
  buildIpPermissions cmd = Ok [withPorts perm (-1) (-1) (Some "-1")].
Proof.
  intros Hp%Contains_any. unfold buildIpPermissions. by rewrite Hsource, Hp.
Qed.

Context (Hproto : StringValue (Protocol cmd) ∉ anyWords).

Lemma protocol_not_any : Contains "any" p = false.
Proof. apply not_true_iff_false. by rewrite Contains_any. Qed.

(** The word any among the ports: every port for tcp and udp, in any case
    of the letters; the ports -1 for another protocol. *)
Lemma buildIpPermissions_all_ports :
  Contains (StringValue (Portrange cmd)) "any" = true ->
  buildIpPermissions cmd
  = if bool_decide (ToLower p = "tcp") || bool_decide (ToLower p = "udp")
    then Ok [withPorts perm 0 65535 (Some p)]
    else Ok [withPorts perm (-1) (-1) (Some p)].
Proof.
  intros Hany. unfold buildIpPermissions.
  by rewrite Hsource, protocol_not_any, Hany.
Qed.

(** C21. On a range of ports, two numerals with a dash between them, the
    first without a sign, buildIpPermissions returns the permission from the
    first number to the second, when both fit in 64 bits. *)
Theorem buildIpPermissions_range lo hi a b :
  Portrange cmd = Some (lo +:+ "-" +:+ hi) ->
  unsignedValue lo = Some a -> numeralValue hi = Some b ->
  (a <= maxInt64)%Z -> (minInt64 <= b <= maxInt64)%Z ->
  buildIpPermissions cmd = Ok [withPorts perm a b (Some p)].
Proof.
  intros Hports Ha Hb Hra Hrb. pose proof (unsignedValue_nonneg _ _ Ha).
  assert (strAll (fun d => negb (Ascii.eqb "-" d)) lo = true) as Hlo
    by (by eapply unsignedValue_strAll; [apply digit_not |]).
  unfold buildIpPermissions.
  rewrite Hsource, protocol_not_any, Hports. simpl StringValue.
  assert (Contains (lo +:+ "-" +:+ hi) "any" = false) as ->.
  { apply Contains_fresh. rewrite !strAll_app.
    rewrite (unsignedValue_strAll _ lo a), (numeralValue_strAll _ hi b);
      try done; by apply digit_not. }
  assert (Contains (lo +:+ "-" +:+ hi) "-" = true) as ->
    by (apply Contains_spec; eauto).
  rewrite (SplitN_2_app lo "-" "" hi Hlo). simpl.
  rewrite (proj2 (parsePort_inl lo a)), (proj2 (parsePort_inl hi b)); [done | done |].
  split; [by apply unsignedValue_numeralValue | unfold minInt64; lia].
Qed.

(** A single port: a numeral without a sign. *)
Lemma buildIpPermissions_port ports a :
  Portrange cmd = Some ports -> unsignedValue ports = Some a ->
  (a <= maxInt64)%Z ->
  buildIpPermissions cmd = Ok [withPorts perm a a (Some p)].
Proof.
  intros Hports Ha Hra. pose proof (unsignedValue_nonneg _ _ Ha).
  unfold buildIpPermissions.
  rewrite Hsource, protocol_not_any, Hports. simpl StringValue.
  rewrite (numeral_not_any ports a) by by apply unsignedValue_numeralValue.
  rewrite Contains_fresh
    by (by eapply unsignedValue_strAll; [apply digit_not |]).
  rewrite (proj2 (parsePort_inl ports a)); [done |].
  split; [by apply unsignedValue_numeralValue | unfold minInt64; lia].
Qed.

(** Without a port range, a protocol other than the words of the first
    test is an error of the conversion of the empty string: the param is
    optional for the validation and required by the code. *)
Theorem buildIpPermissions_no_portrange :
  Portrange cmd = None ->
  buildIpPermissions cmd
  = Err [] (NumError_Error "ParseInt" EmptyString ErrSyntax).
Proof.
  intros Hports. unfold buildIpPermissions.
  by rewrite Hsource, protocol_not_any, Hports.
Qed.

End build.

(** ** UpdateSecuritygroup.ManualRun *)

Section manualRun.
Context {W Out : Type}.
Context (api : EC2API (W:=W) (Out:=Out)) (h : Helpers W ruleInput Out).

Lemma selectInput_inl name param auth rev perms input input' :
  selectInput name param auth rev perms input = inl input' ->
  directionOk param /\
  input' = match param with
           | None => input
           | Some word => (fun c => mkRuleInput c perms None) <$> callOf auth rev word
           end.
Proof.
  unfold selectInput, directionOk, callOf. destruct param as [word|].
  - repeat case_decide; intros [= <-]; subst; auto.
  - intros [= <-]. auto.
Qed.

Lemma selectInput_directionOk name param auth rev perms input :
  directionOk param ->
  selectInput name param auth rev perms input
  = inl match param with
        | None => input
        | Some word => (fun c => mkRuleInput c perms None) <$> callOf auth rev word
        end.
Proof. by intros [->| [->| ->]]. Qed.

(** The two switches together select the request of [selectedCall]. *)
Lemma selectInput_selectedCall cmd perms input1 input :
  selectInput "inbound" (Inbound cmd) AuthorizeSecurityGroupIngress
              RevokeSecurityGroupIngress perms None = inl input1 ->
  selectInput "outbound" (Outbound cmd) AuthorizeSecurityGroupEgress
              RevokeSecurityGroupEgress perms input1 = inl input ->
  directionOk (Inbound cmd) /\ directionOk (Outbound cmd) /\
  input = (fun c => mkRuleInput c perms None) <$> selectedCall cmd.
Proof.
  intros [Hin ->]%selectInput_inl [Hout ->]%selectInput_inl.
  split_and!; [done.. |]. unfold selectedCall.
  by destruct (Outbound cmd), (Inbound cmd).
Qed.

(** C29. A run of the update command that succeeds has made one request to
    the provider: the one the params select (the outbound param before the
    inbound one), with the permissions of buildIpPermissions and the group
    set by the helper; its answer and the world after it are returned. *)
Theorem UpdateSecuritygroup_ManualRun_Ok cmd w out w' :
  UpdateSecuritygroup_ManualRun api h cmd w = Ok (out, w') ->
  exists perms call input,
    buildIpPermissions cmd = Ok perms /\ selectedCall cmd = Some call /\
    setFieldWithType h (ValString (Id cmd)) (mkRuleInput call perms None)
                     "GroupId" awsstr = (input, None) /\
    callRule api input w = ((out, None), w').
Proof.
  unfold UpdateSecuritygroup_ManualRun.
  destruct (buildIpPermissions cmd) as [perms| |]; [| done..].
  destruct (selectInput "inbound" _ _ _ _ _) as [input1|] eqn:E1; [| done].
  destruct (selectInput "outbound" _ _ _ _ _) as [input|] eqn:E2; [| done].
  destruct (selectInput_selectedCall _ _ _ _ E1 E2) as (_ & _ & ->).
  destruct (selectedCall cmd) as [call|]; [simpl | done].
  destruct (setFieldWithType _ _ _ _ _) as [input' [err|]] eqn:E3; [done |].
  destruct (callRule api input' w) as [[o [err|]] w1] eqn:E4; [done |].
  intros [= <- <-]. eauto 10.
Qed.

(** The converse: with valid direction params, one of them given, the run
    is the request. *)
Lemma UpdateSecuritygroup_ManualRun_call cmd w perms call input :
  buildIpPermissions cmd = Ok perms ->
  directionOk (Inbound cmd) -> directionOk (Outbound cmd) ->
  selectedCall cmd = Some call ->
  setFieldWithType h (ValString (Id cmd)) (mkRuleInput call perms None)
                   "GroupId" awsstr = (input, None) ->
  UpdateSecuritygroup_ManualRun api h cmd w
  = match callRule api input w with
    | ((output, Some err), w1) => Err (output, w1) err
    | ((output, None), w1) => Ok (output, w1)
    end.
Proof.
  intros Hb Hin Hout Hcall Hset. unfold UpdateSecuritygroup_ManualRun.
  rewrite Hb, (selectInput_directionOk _ _ _ _ _ _ Hin),
    (selectInput_directionOk _ _ _ _ _ _ Hout).
  replace (match Outbound cmd with
           | Some word => _
           | None => _
           end) with ((fun c => mkRuleInput c perms None) <$> selectedCall cmd)
    by (unfold selectedCall; by destruct (Outbound cmd), (Inbound cmd)).
  rewrite Hcall. simpl. by rewrite Hset.
Qed.

(** A run of the update command that returns an error before its
    request has not touched the provider: it returns no answer and the world
    it was given; otherwise the error is the one of the request. *)
Theorem UpdateSecuritygroup_ManualRun_Err cmd w out w' err :
  UpdateSecuritygroup_ManualRun api h cmd w = Err (out, w') err ->
  (out = None /\ w' = w) \/
  exists input, callRule api input w = ((out, Some err), w').
Proof.
  unfold UpdateSecuritygroup_ManualRun.
  repeat (case_match; try done); intros [= <- <- <-]; eauto.
Qed.

(** C27. The run of the update command does not panic, whatever the params:
    the only indexing of the code, on the two parts of a port range, is
    guarded by the test that the range contains the dash. *)
Theorem UpdateSecuritygroup_ManualRun_no_panic cmd w :
  is_Panic (UpdateSecuritygroup_ManualRun api h cmd w) = false.
Proof.
  unfold UpdateSecuritygroup_ManualRun.
  pose proof (buildIpPermissions_no_panic cmd).
  destruct (buildIpPermissions cmd); [| done..].
  by repeat (case_match; try done).
Qed.

(** Without a direction the run is an error, whatever the other params. *)
Lemma UpdateSecuritygroup_ManualRun_no_direction cmd w perms :
  buildIpPermissions cmd = Ok perms ->
  Inbound cmd = None -> Outbound cmd = None ->
  UpdateSecuritygroup_ManualRun api h cmd w
  = Err (None, w) "expect either 'inbound' or 'outbound' parameter".
Proof.
  intros Hb Hin Hout. unfold UpdateSecuritygroup_ManualRun.
  by rewrite Hb, Hin, Hout.
Qed.

Lemma ValidateInbound_directionOk cmd :
  EnumLaw h -> UpdateSecuritygroup_ValidateInbound h cmd = None ->
  directionOk (Inbound cmd).
Proof.
  unfold UpdateSecuritygroup_ValidateInbound, directionOk. intros Hlaw.
  destruct (Inbound cmd) as [word|]; [| by left].
  intros Hin%Hlaw. set_unfold. naive_solver.
Qed.

Lemma ValidateOutbound_directionOk cmd :
  EnumLaw h -> UpdateSecuritygroup_ValidateOutbound h cmd = None ->
  directionOk (Outbound cmd).
Proof.
  unfold UpdateSecuritygroup_ValidateOutbound, directionOk. intros Hlaw.
  destruct (Outbound cmd) as [word|]; [| by left].
  intros Hout%Hlaw. set_unfold. naive_solver.
Qed.

(** The validations and the run fit: once the two direction params have
    passed their validation and one of them is given, the run of the update
    command gets to its request, and fails only if buildIpPermissions, the
    helper that sets the group or the request itself do. *)
Theorem UpdateSecuritygroup_validated cmd w perms call input :
  EnumLaw h ->
  UpdateSecuritygroup_ValidateInbound h cmd = None ->
  UpdateSecuritygroup_ValidateOutbound h cmd = None ->
  buildIpPermissions cmd = Ok perms -> selectedCall cmd = Some call ->
  setFieldWithType h (ValString (Id cmd)) (mkRuleInput call perms None)
                   "GroupId" awsstr = (input, None) ->
  UpdateSecuritygroup_ManualRun api h cmd w
  = match callRule api input w with
    | ((output, Some err), w1) => Err (output, w1) err
    | ((output, None), w1) => Ok (output, w1)
    end.
Proof.
  intros Hlaw Hin Hout Hb Hcall Hset.
  apply (UpdateSecuritygroup_ManualRun_call _ _ perms call);
    eauto using ValidateInbound_directionOk, ValidateOutbound_directionOk.
Qed.

(** ** The commands on an instance *)

Lemma fetchInstanceSecurityGroups_Ok id w groups w1 :
  DescribeInstanceAttribute api "groupSet" id w = ((groups, None), w1) ->
  fetchInstanceSecurityGroups api id w = ((StringValue <$> groups, None), w1).
Proof. unfold fetchInstanceSecurityGroups. by intros ->. Qed.

Section store.
Context (groupsOf : W -> string -> option (list string)).
Context (Hstore : GroupStore api h groupsOf).
Context (inst id : string) (gs : list string) (w : W).
Context (Hgs : groupsOf w inst = Some gs).

Lemma fetch_groups :
  fetchInstanceSecurityGroups api inst w = ((gs, None), w).
Proof.
  rewrite (fetchInstanceSecurityGroups_Ok _ _ _ _ (describe_groups _ _ _ Hstore _ _ _ Hgs)).
  rewrite <- list_fmap_compose. by rewrite list_fmap_id.
Qed.

(** The attach command stores the groups of the instance with the group at
    the end, also when the instance has it already. *)
Lemma AttachSecuritygroup_ManualRun_store :
  exists w1,
    AttachSecuritygroup_ManualRun api h
      (mkAttachSecuritygroup (Some id) (Some inst)) w = Ok (None, w1) /\
    groupsOf w1 inst = Some (gs ++ [id]).
Proof.
  unfold AttachSecuritygroup_ManualRun. simpl. rewrite fetch_groups.
  destruct (modify_groups _ _ _ Hstore inst (gs ++ [id]) w) as (o & w1 & -> & ?);
    eauto.
Qed.

(** The detach command stores the groups of the instance without the
    group. *)
Lemma DetachSecuritygroup_ManualRun_store :
  exists w1,
    DetachSecuritygroup_ManualRun api h
      (mkDetachSecuritygroup (Some id) (Some inst)) w = Ok (None, w1) /\
    groupsOf w1 inst = Some (removeString gs id).
Proof.
  unfold DetachSecuritygroup_ManualRun. simpl. rewrite fetch_groups.
  destruct (modify_groups _ _ _ Hstore inst (removeString gs id) w)
    as (o & w1 & -> & ?); eauto.
Qed.

End store.

(** Against a provider that keeps the groups of each instance,
    attaching a group to an instance that does not have it and detaching it
    again leaves the instance with the groups it had, in their order. *)
Theorem attach_detach_roundtrip groupsOf inst id gs w :
  GroupStore api h groupsOf -> groupsOf w inst = Some gs -> id ∉ gs ->
  exists w1 w2,
    AttachSecuritygroup_ManualRun api h
      (mkAttachSecuritygroup (Some id) (Some inst)) w = Ok (None, w1) /\
    DetachSecuritygroup_ManualRun api h
      (mkDetachSecuritygroup (Some id) (Some inst)) w1 = Ok (None, w2) /\
    groupsOf w2 inst = Some gs.
Proof.
  intros Hstore Hgs Hid.
  destruct (AttachSecuritygroup_ManualRun_store _ Hstore inst id _ _ Hgs)
    as (w1 & Ha & Hg1).
  destruct (DetachSecuritygroup_ManualRun_store _ Hstore inst id _ _ Hg1)
    as (w2 & Hd & Hg2).
  exists w1, w2. split_and!; [done.. |]. rewrite Hg2, removeString_app.
  rewrite (removeString_id gs id Hid). simpl. case_decide; [done |].
  by rewrite app_nil_r.
Qed.

(** After the detach command the instance has none of the occurrences
    of the group, and every other group it had, in the same order. *)
Theorem detach_removes groupsOf inst id gs w :
  GroupStore api h groupsOf -> groupsOf w inst = Some gs ->
  exists w1 gs',
    DetachSecuritygroup_ManualRun api h
      (mkDetachSecuritygroup (Some id) (Some inst)) w = Ok (None, w1) /\
    groupsOf w1 inst = Some gs' /\ gs' = filter (.≠ id) gs /\ id ∉ gs'.
Proof.
  intros Hstore Hgs.
  destruct (DetachSecuritygroup_ManualRun_store _ Hstore inst id _ _ Hgs)
    as (w1 & Hd & Hg1).
  exists w1, (removeString gs id). split_and!; [done.. | |].
  - apply removeString_filter.
  - rewrite removeString_elem_of. tauto.
Qed.

End manualRun.

(** ** The theorems on the sample commands *)

Lemma sample_GroupStore :
  GroupStore sampleEC2 sampleHelpers (fun w inst => w !! inst).
Proof.
  split.
  - intros inst w gs Hgs. simpl. by rewrite Hgs.
  - intros inst gs w _. eexists _, _. split; [done |]. apply lookup_insert_eq.
Qed.

Lemma buildIpPermissions_protocol_substring_witness :
  buildIpPermissions sampleUpdateN
  = Ok [withPorts sampleSource (-1) (-1) (Some "-1")].
Proof.
  apply (buildIpPermissions_protocol_substring sampleUpdateN sampleSource);
    [reflexivity |]. apply (bool_decide_unpack _). vm_compute. reflexivity.
Defined.

Lemma buildIpPermissions_range_witness :
  buildIpPermissions sampleUpdate
  = Ok [withPorts sampleSource 8000 8080 (Some "tcp")].
Proof.
  apply (buildIpPermissions_range sampleUpdate sampleSource eq_refl)
    with (lo := "8000") (hi := "8080");
    [apply (bool_decide_unpack _); vm_compute; reflexivity
    | reflexivity | reflexivity | reflexivity | vm_compute; discriminate
    | split; vm_compute; discriminate].
Defined.

Lemma buildIpPermissions_no_portrange_witness :
  buildIpPermissions sampleUpdateNoPorts
  = Err [] (NumError_Error "ParseInt" EmptyString ErrSyntax).
Proof.
  apply (buildIpPermissions_no_portrange sampleUpdateNoPorts sampleSource);
    [reflexivity | | reflexivity].
  apply (bool_decide_unpack _). vm_compute. reflexivity.
Defined.

Lemma UpdateSecuritygroup_ManualRun_Ok_witness :
  exists perms call input,
    buildIpPermissions sampleUpdate = Ok perms /\
    selectedCall sampleUpdate = Some call /\
    setFieldWithType sampleHelpers (ValString (Id sampleUpdate))
      (mkRuleInput call perms None) "GroupId" awsstr = (input, None) /\
    callRule sampleEC2 input sampleWorld = ((Some tt, None), sampleWorld).
Proof.
  apply (UpdateSecuritygroup_ManualRun_Ok sampleEC2 sampleHelpers sampleUpdate).
  vm_compute. reflexivity.
Defined.

Lemma UpdateSecuritygroup_ManualRun_Err_witness :
  (@None unit = None /\ sampleWorld = sampleWorld) \/
  exists input,
    callRule sampleEC2 input sampleWorld
    = ((None, Some (NumError_Error "ParseInt" EmptyString ErrSyntax)),
       sampleWorld).
Proof.
  apply (UpdateSecuritygroup_ManualRun_Err sampleEC2 sampleHelpers
           sampleUpdateNoPorts).
  vm_compute. reflexivity.
Defined.

Lemma attach_detach_roundtrip_witness :
  exists w1 w2,
    AttachSecuritygroup_ManualRun sampleEC2 sampleHelpers
      (mkAttachSecuritygroup (Some "sg-c") (Some "i-1")) sampleWorld
    = Ok (None, w1) /\
    DetachSecuritygroup_ManualRun sampleEC2 sampleHelpers
      (mkDetachSecuritygroup (Some "sg-c") (Some "i-1")) w1 = Ok (None, w2) /\
    w2 !! "i-1" = Some ["sg-a"; "sg-b"].
Proof.
  apply (attach_detach_roundtrip sampleEC2 sampleHelpers
           (fun w inst => w !! inst) "i-1" "sg-c" ["sg-a"; "sg-b"] sampleWorld
           sample_GroupStore); [reflexivity |].
  apply (bool_decide_unpack _). vm_compute. reflexivity.
Defined.

Lemma detach_removes_witness :
  exists w1 gs',
    DetachSecuritygroup_ManualRun sampleEC2 sampleHelpers
      (mkDetachSecuritygroup (Some "sg-a") (Some "i-1")) sampleWorld
    = Ok (None, w1) /\
    w1 !! "i-1" = Some gs' /\ gs' = filter (.≠ "sg-a") ["sg-a"; "sg-b"] /\
    "sg-a" ∉ gs'.
Proof.
  apply (detach_removes sampleEC2 sampleHelpers (fun w inst => w !! inst)
           "i-1" "sg-a" ["sg-a"; "sg-b"] sampleWorld sample_GroupStore).
  reflexivity.
Defined.

Lemma sample_EnumLaw : EnumLaw sampleHelpers.
Proof. intros words w. apply sampleEnumValidator_law. Qed.

Lemma UpdateSecuritygroup_validated_witness :
  UpdateSecuritygroup_ManualRun sampleEC2 sampleHelpers sampleUpdate sampleWorld
  = Ok (Some tt, sampleWorld).
Proof.
  apply (UpdateSecuritygroup_validated sampleEC2 sampleHelpers sampleUpdate
           sampleWorld [withPorts sampleSource 8000 8080 (Some "tcp")]
           AuthorizeSecurityGroupIngress
           (mkRuleInput AuthorizeSecurityGroupIngress
              [withPorts sampleSource 8000 8080 (Some "tcp")] (Some "sg-1"))
           sample_EnumLaw); vm_compute; reflexivity.
Defined.

