(* ===== verification/ContainerTask.v ===== *)
(** * The container task commands of the catalog

    Models src/aws/spec/containertask.go: the commands that start and stop
    a container task ([StartContainertask_ManualRun],
    [StopContainertask_ManualRun], with their validations and
    [StartContainertask_ExtractResult]), the commands that add a container
    to a task definition and remove it ([AttachContainertask_ManualRun],
    [DetachContainertask_ManualRun]) and the command that deletes a task
    definition ([DeleteContainertask_DryRun],
    [DeleteContainertask_ManualRun]).

    A command is the record of its params, [None] for a nil pointer.  The
    provider is the record [ECSAPI] of the calls the file makes itself,
    each a function on the world [W] that returns an answer or an error
    ([apiError], with the code and the message the code tests); the calls
    made through the generic call and the other helpers of the package are
    the fields of [Helpers] (file [AwsSpec]); the method [inject] of the
    delete command, which generated code defines, is a parameter of its dry
    run.  An answer the code uses
    after a nil error is taken to be there (the pointers of the provider
    SDK are not nil in an answer without error).  The calls to the logger
    are left out.

    A function that returns [(value, error)] is a function to [res]; a type
    assertion or an indexing that fails is a [Panic].

    The theorems: a validated start or stop command runs the call of its
    type with the params the call needs; the result of a started task can be
    extracted without a panic; the loop of the detach command is a filter,
    its run registers the containers that are left, in their order, or
    deregisters the task definition when none is; the delete command
    deregisters the versions in their order and stops at the first error. *)

From S2P Require Import Prelude GoLib AwsSpec.
From Stdlib Require Import ZArith.

(** ** Requests and answers of the provider *)

(** ecs.ContainerDefinition: its name, its image, and the other fields the
    setter filled, by their path. *)
Record ContainerDefinition : Type := mkContainerDefinition {
  Name : option string;
  Image : option string;
  Fields : list (string * setterVal);
}.

#[global] Instance ContainerDefinition_eq_dec : EqDecision ContainerDefinition.
Proof. solve_decision. Defined.

(** ecs.TaskDefinition, with the fields the file reads. *)
Record TaskDefinition : Type := mkTaskDefinition {
  ContainerDefinitions : list ContainerDefinition;
  Family : option string;
  NetworkMode : option string;
  PlacementConstraints : list string;
  TaskRoleArn : option string;
  Volumes : list string;
  TaskDefinitionArn : option string;
}.

#[global] Instance TaskDefinition_eq_dec : EqDecision TaskDefinition.
Proof. solve_decision. Defined.

(** ecs.RegisterTaskDefinitionInput. *)
Record RegisterTaskDefinitionInput : Type := mkRegisterInput {
  inContainerDefinitions : list ContainerDefinition;
  inFamily : option string;
  inNetworkMode : option string;
  inPlacementConstraints : list string;
  inTaskRoleArn : option string;
  inVolumes : list string;
}.

#[global] Instance RegisterTaskDefinitionInput_eq_dec :
  EqDecision RegisterTaskDefinitionInput.
Proof. solve_decision. Defined.

Record Service : Type := mkService { ServiceArn : option string }.
Record Task : Type := mkTask { TaskArn : option string }.
Record Failure : Type := mkFailure { Reason : option string }.

(** The answers a run returns, by their type. *)
Inductive ecsOutput : Type :=
| CreateServiceOutput (service : option Service)
| RunTaskOutput (Tasks : list Task) (Failures : list Failure)
| DeleteServiceOutput
| StopTaskOutput
| RegisterTaskDefinitionOutput (td : TaskDefinition)
| DescribeTaskDefinitionOutput (td : TaskDefinition).

(** ** The commands, by their params *)

Record StartContainertask : Type := mkStartContainertask {
  startCluster : option string;
  startDesiredCount : option Z;
  startName : option string;
  startType : option string;
  startRole : option string;
  startDeploymentName : option string;
  startLoadBalancerContainerName : option string;
  startLoadBalancerContainerPort : option Z;
  startLoadBalancerTargetgroup : option string;
}.

Record StopContainertask : Type := mkStopContainertask {
  stopCluster : option string;
  stopType : option string;
  stopDeploymentName : option string;
  stopRunArn : option string;
}.

Record AttachContainertask : Type := mkAttachContainertask {
  attachName : option string;
  attachContainerName : option string;
  attachImage : option string;
  attachMemoryHardLimit : option Z;
  attachCommands : option (list (option string));
  attachEnv : list (option string);
  attachPrivileged : option bool;
  attachWorkdir : option string;
  attachPorts : list (option string);
}.

Record DetachContainertask : Type := mkDetachContainertask {
  detachName : option string;
  detachContainerName : option string;
}.

Record DeleteContainertask : Type := mkDeleteContainertask {
  deleteName : option string;
  deleteAllVersions : option bool;
}.

Section containertask.
Context {W Params : Type}.

(** The calls of the provider the file makes itself. *)
Record ECSAPI : Type := mkECSAPI {
  DescribeTaskDefinition : option string -> W -> (apiError + TaskDefinition) * W;
  RegisterTaskDefinition :
    RegisterTaskDefinitionInput -> W -> (apiError + TaskDefinition) * W;
  DeregisterTaskDefinition : option string -> W -> option apiError * W;
  ListTaskDefinitions :
    option string -> W -> (apiError + list (option string)) * W;
}.

Context (api : ECSAPI) (h : Helpers W ContainerDefinition ecsOutput).
Context (inject : Params -> DeleteContainertask ->
                  DeleteContainertask * option error).

(** The result of a generic call, returned as it is. *)
Definition returned (r : (option ecsOutput * option error) * W)
    : res (option ecsOutput * W) :=
  match r with
  | ((output, Some err), w1) => Err (output, w1) err
  | ((output, None), w1) => Ok (output, w1)
  end.

(** ** StartContainertask *)

Definition missingDeploymentName : error :=
  "missing required param for type=service: 'deployment-name'".

Definition StartContainertask_ValidateType (cmd : StartContainertask)
    : option error :=
  match NewEnumValidator h ["task"; "service"] (startType cmd) with
  | Some err => Some err
  | None =>
      if bool_decide (StringValue (startType cmd) = "service")
         && bool_decide (startDeploymentName cmd = None)
      then Some missingDeploymentName
      else None
  end.

(** A setter the code appends when the param is given. *)
Definition optional {A : Type} (p : option A) (s : setter) : list setter :=
  match p with Some _ => [s] | None => [] end.

Definition serviceSetters (cmd : StartContainertask) : list setter :=
  [mkSetter (ValString (startCluster cmd)) "Cluster" awsstr;
   mkSetter (ValString (startName cmd)) "TaskDefinition" awsstr;
   mkSetter (ValString (startDeploymentName cmd)) "ServiceName" awsstr;
   mkSetter (ValInt64 (startDesiredCount cmd)) "DesiredCount" awsint64]
  ++ optional (startRole cmd)
       (mkSetter (ValString (startRole cmd)) "Role" awsstr)
  ++ optional (startLoadBalancerContainerName cmd)
       (mkSetter (ValString (startLoadBalancerContainerName cmd))
                 "LoadBalancers[0]ContainerName" awsslicestruct)
  ++ optional (startLoadBalancerContainerPort cmd)
       (mkSetter (ValInt64 (startLoadBalancerContainerPort cmd))
                 "LoadBalancers[0]ContainerPort" awsslicestructint64)
  ++ optional (startLoadBalancerTargetgroup cmd)
       (mkSetter (ValString (startLoadBalancerTargetgroup cmd))
                 "LoadBalancers[0]TargetGroupArn" awsslicestruct).

Definition taskSetters (cmd : StartContainertask) : list setter :=
  [mkSetter (ValString (startCluster cmd)) "Cluster" awsstr;
   mkSetter (ValString (startName cmd)) "TaskDefinition" awsstr;
   mkSetter (ValInt64 (startDesiredCount cmd)) "Count" awsint64].

(** What the run makes of the answer of RunTask. *)
Definition startedTask (output : option ecsOutput) (w : W)
    : res (option ecsOutput * W) :=
  match output with
  | Some (RunTaskOutput tasks failures) =>
      match failures with
      | f :: _ =>
          Err (None, w) ("start containertask: fail to run task: "
                         +:+ StringValue (Reason f))
      | [] =>
          match tasks with
          | _ :: _ => Ok (output, w)
          | [] => Err (None, w) "no task started successfully"
          end
      end
  | _ => Panic "interface conversion"
  end.

Definition StartContainertask_ManualRun (cmd : StartContainertask) (w : W)
    : res (option ecsOutput * W) :=
  if decide (StringValue (startType cmd) = "service") then
    returned (execute h (mkAwsCall "start containertask" "CreateService"
                                   (serviceSetters cmd)) w)
  else if decide (StringValue (startType cmd) = "task") then
    match execute h (mkAwsCall "start containertask" "RunTask"
                               (taskSetters cmd)) w with
    | ((_, Some err), w1) => Err (None, w1) err
    | ((output, None), w1) => startedTask output w1
    end
  else Err (None, w) ("start containertask: invalid type '"
                      +:+ StringValue (startType cmd) +:+ "'").

Definition StartContainertask_ExtractResult (i : option ecsOutput)
    : res string :=
  match i with
  | Some (CreateServiceOutput (Some service)) =>
      Ok (StringValue (ServiceArn service))
  | Some (CreateServiceOutput None) => Panic "nil pointer dereference"
  | Some (RunTaskOutput (task :: _) _) => Ok (StringValue (TaskArn task))
  | Some (RunTaskOutput [] _) => Panic "index out of range"
  | _ => Ok EmptyString
  end.

(** ** StopContainertask *)

Definition missingRunArn : error :=
  "missing required param for type=service: 'run-arn'".

Definition StopContainertask_ValidateType (cmd : StopContainertask)
    : option error :=
  match NewEnumValidator h ["task"; "service"] (stopType cmd) with
  | Some err => Some err
  | None =>
      if bool_decide (StringValue (stopType cmd) = "service")
         && bool_decide (stopDeploymentName cmd = None)
      then Some missingDeploymentName
      else if bool_decide (StringValue (stopType cmd) = "task")
              && bool_decide (stopRunArn cmd = None)
      then Some missingRunArn
      else None
  end.

Definition StopContainertask_ManualRun (cmd : StopContainertask) (w : W)
    : res (option ecsOutput * W) :=
  if decide (StringValue (stopType cmd) = "service") then
    returned (execute h (mkAwsCall "stop containertask" "DeleteService"
      [mkSetter (ValString (stopCluster cmd)) "Cluster" awsstr;
       mkSetter (ValString (stopDeploymentName cmd)) "Service" awsstr]) w)
  else if decide (StringValue (stopType cmd) = "task") then
    returned (execute h (mkAwsCall "stop containertask" "StopTask"
      [mkSetter (ValString (stopCluster cmd)) "Cluster" awsstr;
       mkSetter (ValString (stopRunArn cmd)) "Task" awsstr]) w)
  else Err (None, w) ("invalid type '" +:+ StringValue (stopType cmd) +:+ "'").

(** ** AttachContainertask *)

(** The input of a registration with the fields of a task definition. *)
Definition inputOf (td : TaskDefinition)
    (containers : list ContainerDefinition) : RegisterTaskDefinitionInput :=
  mkRegisterInput containers (Family td) (NetworkMode td)
                  (PlacementConstraints td) (TaskRoleArn td) (Volumes td).

(** The setters of the new container, in the order of the code: the three
    required params, then each optional param that is given. *)
Definition containerSetters (cmd : AttachContainertask) : list setter :=
  [mkSetter (ValString (attachContainerName cmd)) "Name" awsstr;
   mkSetter (ValString (attachImage cmd)) "Image" awsstr;
   mkSetter (ValInt64 (attachMemoryHardLimit cmd)) "Memory" awsint64]
  ++ match attachCommands cmd with
     | None => []
     | Some [command] =>
         [mkSetter (ValStrings (Split (StringValue command) " "))
                   "Command" awsstringslice]
     | Some commands =>
         [mkSetter (ValStringPtrs commands) "Command" awsstringslice]
     end
  ++ match attachEnv cmd with
     | [] => []
     | env => [mkSetter (ValStringPtrs env) "Environment" awsecskeyvalue]
     end
  ++ (if BoolValue (attachPrivileged cmd)
      then [mkSetter (ValBool true) "Privileged" awsbool] else [])
  ++ optional (attachWorkdir cmd)
       (mkSetter (ValString (attachWorkdir cmd)) "WorkingDirectory" awsstr)
  ++ match attachPorts cmd with
     | [] => []
     | ports => [mkSetter (ValStringPtrs ports) "PortMappings" awsportmappings]
     end.

(** The fields set one after the other; the first error ends it. *)
Fixpoint setFields (container : ContainerDefinition) (l : list setter)
    : ContainerDefinition + error :=
  match l with
  | [] => inl container
  | s :: rest =>
      match setFieldWithType h (val s) container (fieldPath s) (fieldType s) with
      | (_, Some err) => inr err
      | (container', None) => setFields container' rest
      end
  end.

(** The task definition the container is added to: the one the provider
    describes, or a new family when the provider answers that it cannot
    describe it. *)
Definition describedInput (cmd : AttachContainertask) (w : W)
    : (error + RegisterTaskDefinitionInput) * W :=
  match DescribeTaskDefinition api (attachName cmd) w with
  | (inl (AwsError code message text), w1) =>
      if bool_decide (code = "ClientException")
         && Contains (ToLower message) "unable to describe task definition"
      then (inr (mkRegisterInput [] (Some (StringValue (attachName cmd)))
                                 None [] None []), w1)
      else (inl text, w1)
  | (inl (PlainError text), w1) => (inl text, w1)
  | (inr td, w1) => (inr (inputOf td (ContainerDefinitions td)), w1)
  end.

Definition withContainer (input : RegisterTaskDefinitionInput)
    (container : ContainerDefinition) : RegisterTaskDefinitionInput :=
  mkRegisterInput (inContainerDefinitions input ++ [container])
                  (inFamily input) (inNetworkMode input)
                  (inPlacementConstraints input) (inTaskRoleArn input)
                  (inVolumes input).

Definition AttachContainertask_ManualRun (cmd : AttachContainertask) (w : W)
    : res (option ecsOutput * W) :=
  match describedInput cmd w with
  | (inl err, w1) => Err (None, w1) err
  | (inr taskDefinitionInput, w1) =>
      match setFields (mkContainerDefinition None None [])
                      (containerSetters cmd) with
      | inr err => Err (None, w1) err
      | inl container =>
          match RegisterTaskDefinition api
                  (withContainer taskDefinitionInput container) w1 with
          | (inl err, w2) =>
              Err (None, w2) ("register task definition: " +:+ errorText err)
          | (inr td, w2) => Ok (Some (RegisterTaskDefinitionOutput td), w2)
          end
      end
  end.

Definition AttachContainertask_ExtractResult (i : option ecsOutput)
    : res string :=
  match i with
  | Some (RegisterTaskDefinitionOutput td) =>
      Ok (StringValue (TaskDefinitionArn td))
  | _ => Panic "interface conversion"
  end.

(** ** DetachContainertask *)

(** Whether a container is the one to remove: by its name or by its
    image. *)
Definition isContainer (cmd : DetachContainertask)
    (def : ContainerDefinition) : bool :=
  bool_decide (StringValue (Name def) = StringValue (detachContainerName cmd))
  || bool_decide (StringValue (Image def)
                  = StringValue (detachContainerName cmd)).

(** The loop over the containers of the task definition: the containers
    kept, whether one was found, and the names seen. *)
Fixpoint detachLoop (cmd : DetachContainertask)
    (defs containerDefinitions : list ContainerDefinition) (found : bool)
    (containerNames : list string)
    : list ContainerDefinition * bool * list string :=
  match defs with
  | [] => (containerDefinitions, found, containerNames)
  | def :: rest =>
      let containerNames := containerNames ++ [StringValue (Name def)] in
      if isContainer cmd def
      then detachLoop cmd rest containerDefinitions true containerNames
      else detachLoop cmd rest (containerDefinitions ++ [def]) found
                      containerNames
  end.

Definition notFoundError (cmd : DetachContainertask)
    (containerNames : list string) : error :=
  "did not find any container called '"
  +:+ StringValue (detachContainerName cmd) +:+ "': found: '"
  +:+ Join containerNames "','" +:+ "'".

Definition DetachContainertask_ManualRun (cmd : DetachContainertask) (w : W)
    : res (option ecsOutput * W) :=
  match DescribeTaskDefinition api (detachName cmd) w with
  | (inl err, w1) => Err (None, w1) (errorText err)
  | (inr td, w1) =>
      match detachLoop cmd (ContainerDefinitions td) [] false [] with
      | (_, false, containerNames) =>
          Err (None, w1) (notFoundError cmd containerNames)
      | (def :: defs, true, _) =>
          match RegisterTaskDefinition api (inputOf td (def :: defs)) w1 with
          | (inl err, w2) =>
              Err (None, w2) ("register task definition: " +:+ errorText err)
          | (inr _, w2) => Ok (Some (DescribeTaskDefinitionOutput td), w2)
          end
      | ([], true, _) =>
          match DeregisterTaskDefinition api (TaskDefinitionArn td) w1 with
          | (Some err, w2) =>
              Err (None, w2) ("deregister task definition: " +:+ errorText err)
          | (None, w2) => Ok (Some (DescribeTaskDefinitionOutput td), w2)
          end
      end
  end.

(** ** DeleteContainertask *)

Definition DeleteContainertask_DryRun (cmd : DeleteContainertask)
    (params : Params) (w : W) : res (option ecsOutput * W) :=
  match inject params cmd with
  | (_, Some err) =>
      Err (None, w) ("cannot set params on command struct: " +:+ err)
  | (cmd', None) =>
      match ListTaskDefinitions api (deleteName cmd') w with
      | (inl err, w1) => Err (None, w1) (errorText err)
      | (inr [], w1) =>
          Err (None, w1) ("no containertask found with name '"
                          +:+ StringValue (deleteName cmd') +:+ "'")
      | (inr _, w1) => Ok (None, w1)
      end
  end.

(** The loop over the versions: each is deregistered, the first error ends
    the loop. *)
Fixpoint deregisterAll (tasks : list (option string)) (w : W)
    : option error * W :=
  match tasks with
  | [] => (None, w)
  | task :: rest =>
      match DeregisterTaskDefinition api task w with
      | (Some err, w1) =>
          (Some ("deregister task definition: " +:+ errorText err), w1)
      | (None, w1) => deregisterAll rest w1
      end
  end.

Definition DeleteContainertask_ManualRun (cmd : DeleteContainertask) (w : W)
    : res (option ecsOutput * W) :=
  let taskDefinitionName := StringValue (deleteName cmd) in
  if BoolValue (deleteAllVersions cmd) then
    match ListTaskDefinitions api (Some taskDefinitionName) w with
    | (inl err, w1) => Err (None, w1) (errorText err)
    | (inr tasks, w1) =>
        match deregisterAll tasks w1 with
        | (Some err, w2) => Err (None, w2) err
        | (None, w2) => Ok (None, w2)
        end
    end
  else
    match DescribeTaskDefinition api (Some taskDefinitionName) w with
    | (inl err, w1) => Err (None, w1) (errorText err)
    | (inr td, w1) =>
        match DeregisterTaskDefinition api (TaskDefinitionArn td) w1 with
        | (Some err, w2) =>
            Err (None, w2) ("deregister task definition: " +:+ errorText err)
        | (None, w2) => Ok (None, w2)
        end
    end.

End containertask.

(** ** Reference definitions *)

(** What the loop of the detach command computes. *)
Definition keptContainers (cmd : DetachContainertask)
    (defs : list ContainerDefinition) : list ContainerDefinition :=
  filter (fun def => isContainer cmd def = false) defs.

Definition containerNamesOf (defs : list ContainerDefinition) : list string :=
  (fun def => StringValue (Name def)) <$> defs.

Section laws.
Context {W : Type}.
Context (api : ECSAPI (W:=W)) (h : Helpers W ContainerDefinition ecsOutput).

(** What the detach command needs of the field setter: the path Name sets
    the name, the path Image the image, and no other path touches them. *)
Definition SetterLaw : Prop :=
  forall v container path ty container',
    setFieldWithType h v container path ty = (container', None) ->
    Name container' = (if decide (path = "Name")
                       then match v with ValString p => p | _ => None end
                       else Name container) /\
    Image container' = (if decide (path = "Image")
                        then match v with ValString p => p | _ => None end
                        else Image container).

(** A provider that keeps the task definition of each family ([definitionOf]
    reads it in a world): it describes a family by its task definition, a
    registration stores its input, and the other families stay. *)
Record DefinitionStore (definitionOf : W -> string -> option TaskDefinition)
    : Prop := {
  describe_definition name w td :
    definitionOf w name = Some td ->
    DescribeTaskDefinition api (Some name) w = (inr td, w);
  register_definition name input w :
    inFamily input = Some name ->
    exists td w',
      RegisterTaskDefinition api input w = (inr td, w') /\
      definitionOf w' name = Some td /\
      inputOf td (ContainerDefinitions td) = input;
}.

(** A provider that keeps the versions of a family ([versionsOf]): it lists
    them, and the deregistration of one of them removes it. *)
Record VersionStore (versionsOf : W -> string -> list (option string))
    : Prop := {
  list_versions name w :
    ListTaskDefinitions api (Some name) w = (inr (versionsOf w name), w);
  deregister_version name task w :
    task ∈ versionsOf w name ->
    exists w',
      DeregisterTaskDefinition api task w = (None, w') /\
      versionsOf w' name = filter (.≠ task) (versionsOf w name);
}.

End laws.

(** ** A provider for the examples *)

(** The world is the map from a family to its task definition; the version
    of a family is the ARN of its task definition. *)
Definition sampleArn (family : string) : string := "arn:" +:+ family.

Definition sampleECS : ECSAPI (W:=gmap string TaskDefinition) :=
  mkECSAPI
    (fun name w =>
       match w !! StringValue name with
       | Some td => (inr td, w)
       | None =>
           (inl (AwsError "ClientException"
                          "Unable to describe task definition."
                          "ClientException: Unable to describe task definition."),
            w)
       end)
    (fun input w =>
       match inFamily input with
       | Some family =>
           let td := mkTaskDefinition (inContainerDefinitions input)
                       (inFamily input) (inNetworkMode input)
                       (inPlacementConstraints input) (inTaskRoleArn input)
                       (inVolumes input) (Some (sampleArn family)) in
           (inr td, <[family := td]> w)
       | None => (inl (PlainError "family is required"), w)
       end)
    (fun task w =>
       (None, filter (fun kv => TaskDefinitionArn kv.2 <> task) w))
    (fun name w =>
       (inr (match w !! StringValue name with
             | Some td => [TaskDefinitionArn td]
             | None => []
             end), w)).

Definition sampleVersions (w : gmap string TaskDefinition) (name : string)
    : list (option string) :=
  match w !! name with
  | Some td => [TaskDefinitionArn td]
  | None => []
  end.

Definition sampleSetField (v : setterVal) (container : ContainerDefinition)
    (path : string) (ty : awsType) : ContainerDefinition * option error :=
  if decide (path = "Name")
  then (mkContainerDefinition (match v with ValString p => p | _ => None end)
                              (Image container) (Fields container), None)
  else if decide (path = "Image")
  then (mkContainerDefinition (Name container)
                              (match v with ValString p => p | _ => None end)
                              (Fields container), None)
  else (mkContainerDefinition (Name container) (Image container)
                              (Fields container ++ [(path, v)]), None).

Definition sampleExecute (call : awsCall) (w : gmap string TaskDefinition)
    : (option ecsOutput * option error) * gmap string TaskDefinition :=
  if decide (fn call = "RunTask")
  then ((Some (RunTaskOutput [mkTask (Some "arn:task/1")] []), None), w)
  else if decide (fn call = "CreateService")
  then ((Some (CreateServiceOutput (Some (mkService (Some "arn:service/1")))),
         None), w)
  else if decide (fn call = "DeleteService")
  then ((Some DeleteServiceOutput, None), w)
  else ((Some StopTaskOutput, None), w).

Definition sampleECSHelpers
    : Helpers (gmap string TaskDefinition) ContainerDefinition ecsOutput :=
  mkHelpers sampleSetField sampleExecute (fun _ w => (None, w))
            sampleEnumValidator "not-found".

Definition webContainer : ContainerDefinition :=
  mkContainerDefinition (Some "web") (Some "nginx") [].

Definition dbContainer : ContainerDefinition :=
  mkContainerDefinition (Some "db") (Some "postgres") [].

Definition sampleDefinition : TaskDefinition :=
  mkTaskDefinition [webContainer; dbContainer] (Some "shop") None [] None []
                   (Some (sampleArn "shop")).

Definition sampleTasks : gmap string TaskDefinition :=
  {[ "shop" := sampleDefinition ]}.

Definition startTask : StartContainertask :=
  mkStartContainertask (Some "main") (Some 1%Z) (Some "shop") (Some "task")
                       None None None None None.

Definition stopTask : StopContainertask :=
  mkStopContainertask (Some "main") (Some "task") None None.

Definition attachCache : AttachContainertask :=
  mkAttachContainertask (Some "shop") (Some "cache") (Some "redis")
                        (Some 64%Z) (Some [Some "redis-server --port 6379"])
                        [] None None [].

Definition cacheContainer : ContainerDefinition :=
  mkContainerDefinition (Some "cache") (Some "redis")
    [("Memory", ValInt64 (Some 64%Z));
     ("Command", ValStrings ["redis-server"; "--port"; "6379"])].

(** ** The loop of the detach command *)

Section detach_loop.
Context (cmd : DetachContainertask).

(** The loop is a filter: it keeps the containers that are not the one to
    remove, in their order, finds the container when one of them is it, and
    collects every name. *)
Lemma detachLoop_spec defs kept found names :
  detachLoop cmd defs kept found names
  = (kept ++ keptContainers cmd defs,
     found || existsb (isContainer cmd) defs,
     names ++ containerNamesOf defs).
Proof.
  revert kept found names.
  induction defs as [|def defs IH]; intros kept found names; simpl.
  - by rewrite !app_nil_r, orb_false_r.
  - destruct (isContainer cmd def) eqn:E; rewrite IH; unfold keptContainers;
      [rewrite filter_cons_False by (by rewrite E)
      | rewrite filter_cons_True by done];
      simpl; by rewrite ?orb_true_r, <- ?app_assoc.
Qed.

Lemma keptContainers_sublist defs : keptContainers cmd defs `sublist_of` defs.
Proof. apply sublist_filter. Qed.

Lemma keptContainers_elem_of defs def :
  def ∈ keptContainers cmd defs <-> def ∈ defs /\ isContainer cmd def = false.
Proof. unfold keptContainers. rewrite list_elem_of_filter. tauto. Qed.

Lemma keptContainers_id defs :
  Forall (fun def => isContainer cmd def = false) defs ->
  keptContainers cmd defs = defs.
Proof. apply filter_Forall_id. Qed.

Lemma keptContainers_app defs1 defs2 :
  keptContainers cmd (defs1 ++ defs2)
  = keptContainers cmd defs1 ++ keptContainers cmd defs2.
Proof. apply filter_app. Qed.

End detach_loop.

Section runs.
Context {W Params : Type}.
Context (api : ECSAPI (W:=W)) (h : Helpers W ContainerDefinition ecsOutput).

(** ** Start and stop *)

Lemma typeWord (p : option string) :
  EnumLaw h -> is_Some p -> NewEnumValidator h ["task"; "service"] p = None ->
  StringValue p = "task" \/ StringValue p = "service".
Proof.
  intros Hlaw [ty ->] Hty%Hlaw. simpl. set_unfold. naive_solver.
Qed.

(** The validation and the run of the start command fit: with the type
    given and validated, the run is the generic call of the type, RunTask or
    CreateService, the latter with a deployment name, and never the error
    of an invalid type. *)
Theorem StartContainertask_validated cmd w :
  EnumLaw h -> is_Some (startType cmd) ->
  StartContainertask_ValidateType h cmd = None ->
  (StringValue (startType cmd) = "task" /\
   StartContainertask_ManualRun h cmd w
   = match execute h (mkAwsCall "start containertask" "RunTask"
                                (taskSetters cmd)) w with
     | ((_, Some err), w1) => Err (None, w1) err
     | ((output, None), w1) => startedTask output w1
     end) \/
  (StringValue (startType cmd) = "service" /\
   is_Some (startDeploymentName cmd) /\
   StartContainertask_ManualRun h cmd w
   = returned (execute h (mkAwsCall "start containertask" "CreateService"
                                    (serviceSetters cmd)) w)).
Proof.
  intros Hlaw Hty. unfold StartContainertask_ValidateType.
  destruct (NewEnumValidator _ _ _) eqn:E; [done |].
  unfold StartContainertask_ManualRun.
  destruct (typeWord _ Hlaw Hty E) as [-> | ->]; simpl; [by left |].
  destruct (startDeploymentName cmd); [| done]. right. eauto.
Qed.

(** C40. What a started task returns can be extracted: when the run of the
    start command for a task succeeds, its answer is the one of RunTask with
    a task in it, and the extraction of the result returns the ARN of the
    first task without a panic. *)
Theorem StartContainertask_task_result cmd w out w' :
  StringValue (startType cmd) = "task" ->
  StartContainertask_ManualRun h cmd w = Ok (out, w') ->
  exists task tasks,
    out = Some (RunTaskOutput (task :: tasks) []) /\
    StartContainertask_ExtractResult out = Ok (StringValue (TaskArn task)).
Proof.
  intros Hty. unfold StartContainertask_ManualRun. rewrite Hty. simpl.
  destruct (execute _ _ _) as [[output [err|]] w1]; [done |].
  unfold startedTask.
  destruct output as [[| tasks [|f fs]| | | |]|]; try done.
  destruct tasks as [|task tasks]; [done |]. intros [= <- <-]. eauto.
Qed.

(** The message of the stop command for a task without the ARN of its
    run names the type service: the text of the check on the deployment
    name was copied. *)
Theorem StopContainertask_ValidateType_run_arn cmd :
  NewEnumValidator h ["task"; "service"] (stopType cmd) = None ->
  StringValue (stopType cmd) = "task" -> stopRunArn cmd = None ->
  StopContainertask_ValidateType h cmd
  = Some "missing required param for type=service: 'run-arn'".
Proof.
  intros Hv Hty Harn. unfold StopContainertask_ValidateType.
  by rewrite Hv, Hty, Harn.
Qed.

Lemma StopContainertask_validated cmd w :
  EnumLaw h -> is_Some (stopType cmd) ->
  StopContainertask_ValidateType h cmd = None ->
  exists call param,
    (call, param) ∈ [("StopTask", "Task"); ("DeleteService", "Service")] /\
    exists v, is_Some v /\
      StopContainertask_ManualRun h cmd w
      = returned (execute h (mkAwsCall "stop containertask" call
          [mkSetter (ValString (stopCluster cmd)) "Cluster" awsstr;
           mkSetter (ValString v) param awsstr]) w).
Proof.
  intros Hlaw Hty. unfold StopContainertask_ValidateType.
  destruct (NewEnumValidator _ _ _) eqn:E; [done |].
  unfold StopContainertask_ManualRun.
  destruct (typeWord _ Hlaw Hty E) as [-> | ->]; simpl.
  - destruct (stopRunArn cmd) as [arn|] eqn:Ha; [| done]. intros _.
    exists "StopTask", "Task". split; [set_solver |]. eauto.
  - destruct (stopDeploymentName cmd) as [d|] eqn:Hd; [| done]. intros _.
    exists "DeleteService", "Service". split; [set_solver |]. eauto.
Qed.

(** ** Detach *)

(** C28. A run of the detach command that succeeds has found the container
    in the task definition of the provider, by its name or by its image, and
    has registered the containers that are left, in their order, with the
    other fields of the task definition, or deregistered the task
    definition when none is left. *)
Theorem DetachContainertask_ManualRun_Ok cmd w out w' :
  DetachContainertask_ManualRun api cmd w = Ok (out, w') ->
  exists td w1,
    DescribeTaskDefinition api (detachName cmd) w = (inr td, w1) /\
    out = Some (DescribeTaskDefinitionOutput td) /\
    Exists (fun def => isContainer cmd def = true) (ContainerDefinitions td) /\
    match keptContainers cmd (ContainerDefinitions td) with
    | [] => DeregisterTaskDefinition api (TaskDefinitionArn td) w1 = (None, w')
    | kept => exists td',
        RegisterTaskDefinition api (inputOf td kept) w1 = (inr td', w')
    end.
Proof.
  unfold DetachContainertask_ManualRun.
  destruct (DescribeTaskDefinition _ _ _) as [[err|td] w1]; [done |].
  rewrite detachLoop_spec. simpl.
  destruct (existsb _ _) eqn:Hex; [| by destruct (keptContainers _ _)].
  apply existsb_exists in Hex as (def & Hin%list_elem_of_In & Hdef).
  assert (Exists (fun def => isContainer cmd def = true)
                 (ContainerDefinitions td)) by (apply Exists_exists; eauto).
  destruct (keptContainers _ _) as [|d ds] eqn:K.
  - destruct (DeregisterTaskDefinition _ _ _) as [[err|] w2] eqn:E; [done |].
    intros [= <- <-]. exists td, w1. rewrite K. eauto.
  - destruct (RegisterTaskDefinition _ _ _) as [[err|td'] w2] eqn:E; [done |].
    intros [= <- <-]. exists td, w1. rewrite K. eauto 10.
Qed.

(** When no container of the task definition has the name or the image,
    the detach command fails with the names it has seen and makes no other
    call. *)
Theorem DetachContainertask_ManualRun_not_found cmd w td w1 :
  DescribeTaskDefinition api (detachName cmd) w = (inr td, w1) ->
  Forall (fun def => isContainer cmd def = false) (ContainerDefinitions td) ->
  DetachContainertask_ManualRun api cmd w
  = Err (None, w1)
        (notFoundError cmd (containerNamesOf (ContainerDefinitions td))).
Proof.
  intros Hd Hnone. unfold DetachContainertask_ManualRun.
  rewrite Hd, detachLoop_spec. simpl.
  replace (existsb _ _) with false; [by destruct (keptContainers _ _) |].
  symmetry.
  apply not_true_iff_false. rewrite existsb_exists.
  intros (def & Hin%list_elem_of_In & Hdef).
  rewrite Forall_forall in Hnone. rewrite (Hnone _ Hin) in Hdef. done.
Qed.

(** ** Delete *)

Lemma deregisterAll_app tasks1 tasks2 w :
  deregisterAll api (tasks1 ++ tasks2) w
  = match deregisterAll api tasks1 w with
    | (Some err, w1) => (Some err, w1)
    | (None, w1) => deregisterAll api tasks2 w1
    end.
Proof.
  revert w. induction tasks1 as [|task tasks1 IH]; intros w; simpl; [done |].
  destruct (DeregisterTaskDefinition api task w) as [[err|] w1]; [done |].
  apply IH.
Qed.

(** The loop stops at the first version the provider refuses: the versions
    before it are deregistered, those after it are not asked for. *)
Lemma deregisterAll_first_error tasks1 task tasks2 w w1 err w2 :
  deregisterAll api tasks1 w = (None, w1) ->
  DeregisterTaskDefinition api task w1 = (Some err, w2) ->
  deregisterAll api (tasks1 ++ task :: tasks2) w
  = (Some ("deregister task definition: " +:+ errorText err), w2).
Proof. intros H1 H2. rewrite deregisterAll_app, H1. simpl. by rewrite H2. Qed.

Section versions.
Context (versionsOf : W -> string -> list (option string)).
Context (Hstore : VersionStore api versionsOf).

Lemma deregisterAll_versions name tasks w :
  NoDup tasks -> versionsOf w name = tasks ->
  exists w', deregisterAll api tasks w = (None, w') /\ versionsOf w' name = [].
Proof.
  intros Hnd. revert w.
  induction Hnd as [|task tasks Hnotin Hnd IH]; intros w Hv; simpl; [eauto |].
  destruct (deregister_version _ _ Hstore name task w) as (w1 & -> & Hv1);
    [rewrite Hv; left |].
  apply IH. rewrite Hv1, Hv, filter_cons_False by naive_solver.
  by apply filter_not_elem_of_id.
Qed.

(** Against a provider that keeps the versions of a family, the
    delete command for all versions deregisters every version: it succeeds
    and the family has no version left. *)
Theorem DeleteContainertask_all_versions name w :
  NoDup (versionsOf w name) ->
  exists w',
    DeleteContainertask_ManualRun api
      (mkDeleteContainertask (Some name) (Some true)) w = Ok (None, w') /\
    versionsOf w' name = [].
Proof.
  intros Hnd. unfold DeleteContainertask_ManualRun. simpl.
  rewrite (list_versions _ _ Hstore).
  destruct (deregisterAll_versions name _ w Hnd eq_refl) as (w' & -> & ?).
  eauto.
Qed.

(** The dry run of the delete command reads the versions and changes
    nothing: it fails exactly when the params cannot be set or the family
    has no version. *)
Lemma DeleteContainertask_DryRun_spec inject cmd cmd' (params : Params) name w :
  inject params cmd = (cmd', None) -> deleteName cmd' = Some name ->
  DeleteContainertask_DryRun api inject cmd params w
  = match versionsOf w name with
    | [] => Err (None, w) ("no containertask found with name '" +:+ name +:+ "'")
    | _ => Ok (None, w)
    end.
Proof.
  intros Hi Hn. unfold DeleteContainertask_DryRun.
  rewrite Hi, Hn, (list_versions _ _ Hstore). by destruct (versionsOf w name).
Qed.

End versions.

(** ** Attach *)

Lemma setFields_app container l1 l2 :
  setFields h container (l1 ++ l2)
  = match setFields h container l1 with
    | inl container' => setFields h container' l2
    | inr err => inr err
    end.
Proof.
  revert container. induction l1 as [|s l1 IH]; intros container; simpl;
    [done |].
  by destruct (setFieldWithType _ _ _ _ _) as [c' [err|]].
Qed.

(** The setters of the other fields leave the name and the image. *)
Lemma setFields_other container l container' :
  SetterLaw h ->
  Forall (fun s => fieldPath s <> "Name" /\ fieldPath s <> "Image") l ->
  setFields h container l = inl container' ->
  Name container' = Name container /\ Image container' = Image container.
Proof.
  intros Hlaw Hl. revert container.
  induction Hl as [|s l [Hn Hi] _ IH]; intros container; simpl;
    [by intros [= <-] |].
  destruct (setFieldWithType _ _ _ _ _) as [c1 [err|]] eqn:E; [done |].
  apply Hlaw in E as [En Ei]. rewrite decide_False in En by done.
  rewrite decide_False in Ei by done.
  intros [? ?]%IH. split; congruence.
Qed.

Lemma containerSetters_shape cmd :
  exists rest,
    containerSetters cmd
    = mkSetter (ValString (attachContainerName cmd)) "Name" awsstr
      :: mkSetter (ValString (attachImage cmd)) "Image" awsstr :: rest /\
    Forall (fun s => fieldPath s <> "Name" /\ fieldPath s <> "Image") rest.
Proof.
  eexists. split; [reflexivity |]. unfold optional.
  repeat (first [apply Forall_cons_2 | apply Forall_app_2 | apply Forall_nil_2
                | case_match]); done.
Qed.

(** The new container has the name and the image of the params. *)
Lemma setFields_containerSetters cmd container :
  SetterLaw h ->
  setFields h (mkContainerDefinition None None []) (containerSetters cmd)
  = inl container ->
  Name container = attachContainerName cmd /\
  Image container = attachImage cmd.
Proof.
  intros Hlaw. destruct (containerSetters_shape cmd) as (rest & -> & Hrest).
  simpl. destruct (setFieldWithType _ _ _ _ _) as [c1 [err|]] eqn:E1; [done |].
  destruct (setFieldWithType h _ c1 _ _) as [c2 [err|]] eqn:E2; [done |].
  apply Hlaw in E1 as [E1n E1i], E2 as [E2n E2i]. simpl in *.
  intros [? ?]%(setFields_other _ _ _ Hlaw Hrest). split; congruence.
Qed.

(** A run of the attach command that succeeds has registered the task
    definition it was given by the provider, or a new family, with the new
    container after the containers it had; the ARN of the answer can be
    extracted without a panic. *)
Theorem AttachContainertask_ManualRun_Ok cmd w out w' :
  AttachContainertask_ManualRun api h cmd w = Ok (out, w') ->
  exists input container td w1,
    describedInput api cmd w = (inr input, w1) /\
    setFields h (mkContainerDefinition None None []) (containerSetters cmd)
    = inl container /\
    RegisterTaskDefinition api (withContainer input container) w1
    = (inr td, w') /\
    out = Some (RegisterTaskDefinitionOutput td) /\
    AttachContainertask_ExtractResult out
    = Ok (StringValue (TaskDefinitionArn td)).
Proof.
  unfold AttachContainertask_ManualRun.
  destruct (describedInput api cmd w) as [[err|input] w1]; [done |].
  destruct (setFields _ _ _) as [container|err]; [| done].
  destruct (RegisterTaskDefinition _ _ _) as [[err|td] w2] eqn:E; [done |].
  intros [= <- <-]. eauto 10.
Qed.

(** ** Attach, then detach *)

Section store.
Context (definitionOf : W -> string -> option TaskDefinition).
Context (Hstore : DefinitionStore api definitionOf) (Hlaw : SetterLaw h).
Context (name cname : string) (td : TaskDefinition) (w : W).
Context (Htd : definitionOf w name = Some td).
Context (Hfamily : Family td = Some name).

Lemma attach_store cmd container :
  attachName cmd = Some name ->
  setFields h (mkContainerDefinition None None []) (containerSetters cmd)
  = inl container ->
  exists td1 w1,
    AttachContainertask_ManualRun api h cmd w
    = Ok (Some (RegisterTaskDefinitionOutput td1), w1) /\
    definitionOf w1 name = Some td1 /\ Family td1 = Some name /\
    ContainerDefinitions td1 = ContainerDefinitions td ++ [container].
Proof.
  intros Hname Hset. unfold AttachContainertask_ManualRun, describedInput.
  rewrite Hname, (describe_definition _ _ Hstore _ _ _ Htd), Hset.
  destruct (register_definition _ _ Hstore name
              (withContainer (inputOf td (ContainerDefinitions td)) container) w)
    as (td1 & w1 & -> & Hd1 & Hin); [done |].
  injection Hin as Hc Hf _ _ _ _. simpl in Hf. exists td1, w1.
  split_and!; [done | done | congruence | done].
Qed.

Lemma detach_store kept :
  keptContainers (mkDetachContainertask (Some name) (Some cname))
                 (ContainerDefinitions td) = kept ->
  kept <> [] -> length kept < length (ContainerDefinitions td) ->
  exists td2 w2,
    DetachContainertask_ManualRun api
      (mkDetachContainertask (Some name) (Some cname)) w
    = Ok (Some (DescribeTaskDefinitionOutput td), w2) /\
    definitionOf w2 name = Some td2 /\ Family td2 = Some name /\
    ContainerDefinitions td2 = kept.
Proof.
  intros Hkept Hne Hlt. unfold DetachContainertask_ManualRun. simpl.
  rewrite (describe_definition _ _ Hstore _ _ _ Htd), detachLoop_spec, Hkept.
  simpl. destruct (existsb _ _) eqn:Hex.
  - destruct kept as [|d ds]; [done |].
    destruct (register_definition _ _ Hstore name (inputOf td (d :: ds)) w)
      as (td2 & w2 & -> & Hd2 & Hin); [done |].
    injection Hin as Hc Hf _ _ _ _. exists td2, w2.
    split_and!; [done | done | congruence | done].
  - exfalso. rewrite <- Hkept, keptContainers_id in Hlt; [lia |].
    apply Forall_forall. intros def Hin. apply not_true_iff_false.
    intros Hdef. apply not_true_iff_false in Hex. apply Hex.
    apply existsb_exists. exists def. by rewrite <- list_elem_of_In.
Qed.

End store.

(** C24. Against a provider that keeps the task definition of each family,
    attaching a container whose name no container of the family has, by name
    or by image, and detaching it again leaves the family with the
    containers it had, in their order. *)
Theorem attach_detach_containers definitionOf name cname td w cmd container :
  DefinitionStore api definitionOf -> SetterLaw h ->
  definitionOf w name = Some td -> Family td = Some name ->
  ContainerDefinitions td <> [] ->
  Forall (fun def => isContainer (mkDetachContainertask (Some name) (Some cname))
                                 def = false) (ContainerDefinitions td) ->
  attachName cmd = Some name -> attachContainerName cmd = Some cname ->
  setFields h (mkContainerDefinition None None []) (containerSetters cmd)
  = inl container ->
  exists out1 w1 out2 w2 td2,
    AttachContainertask_ManualRun api h cmd w = Ok (out1, w1) /\
    DetachContainertask_ManualRun api
      (mkDetachContainertask (Some name) (Some cname)) w1 = Ok (out2, w2) /\
    definitionOf w2 name = Some td2 /\
    ContainerDefinitions td2 = ContainerDefinitions td.
Proof.
  intros Hstore Hlaw Htd Hfamily Hne Hfresh Hname Hcname Hset.
  destruct (attach_store _ Hstore name td w Htd Hfamily cmd container Hname Hset)
    as (td1 & w1 & Ha & Htd1 & Hf1 & Hc1).
  destruct (setFields_containerSetters _ _ Hlaw Hset) as [Hn _].
  destruct (detach_store _ Hstore name cname td1 w1 Htd1 Hf1
              (ContainerDefinitions td)) as (td2 & w2 & Hd & Htd2 & _ & Hc2).
  - rewrite Hc1, keptContainers_app, (keptContainers_id _ _ Hfresh).
    unfold keptContainers. rewrite filter_cons_False, app_nil_r; [done |].
    unfold isContainer. simpl. rewrite Hn, Hcname. simpl.
    by rewrite bool_decide_eq_true_2.
  - done.
  - rewrite Hc1, length_app. simpl. lia.
  - eauto 10.
Qed.

End runs.

(** ** The theorems on the sample provider *)

Lemma sample_SetterLaw : SetterLaw sampleECSHelpers.
Proof.
  intros v c path ty c'. simpl. unfold sampleSetField.
  repeat case_decide; intros [= <-]; simpl; subst; done.
Qed.

Lemma sample_DefinitionStore :
  DefinitionStore sampleECS (fun w name => w !! name).
Proof.
  split.
  - intros name w td Htd. simpl. by rewrite Htd.
  - intros name [cs f n p r v] w Hf. simpl in *. subst f.
    eexists _, _. split; [done |]. split; [apply lookup_insert_eq | done].
Qed.

Lemma sample_VersionStore : VersionStore sampleECS sampleVersions.
Proof.
  split; [done |]. intros name task w. unfold sampleVersions. simpl.
  destruct (w !! name) as [td|] eqn:Htd; [| by intros ?%elem_of_nil].
  intros ->%list_elem_of_singleton. eexists. split; [done |].
  rewrite filter_cons_False, filter_nil by naive_solver.
  rewrite (proj2 (map_lookup_filter_None _ _ _)); [done |].
  right. intros td' Htd' Hne. simpl in Hne. congruence.
Qed.

Lemma StartContainertask_validated_witness :
  (StringValue (startType startTask) = "task" /\
   StartContainertask_ManualRun sampleECSHelpers startTask sampleTasks
   = match execute sampleECSHelpers
             (mkAwsCall "start containertask" "RunTask" (taskSetters startTask))
             sampleTasks with
     | ((_, Some err), w1) => Err (None, w1) err
     | ((output, None), w1) => startedTask output w1
     end) \/
  (StringValue (startType startTask) = "service" /\
   is_Some (startDeploymentName startTask) /\
   StartContainertask_ManualRun sampleECSHelpers startTask sampleTasks
   = returned (execute sampleECSHelpers
                 (mkAwsCall "start containertask" "CreateService"
                            (serviceSetters startTask)) sampleTasks)).
Proof.
  apply (StartContainertask_validated sampleECSHelpers startTask sampleTasks);
    [intros words w; apply sampleEnumValidator_law | by eexists | reflexivity].
Defined.

Lemma StartContainertask_task_result_witness :
  exists task tasks,
    Some (RunTaskOutput [mkTask (Some "arn:task/1")] [])
    = Some (RunTaskOutput (task :: tasks) []) /\
    StartContainertask_ExtractResult
      (Some (RunTaskOutput [mkTask (Some "arn:task/1")] []))
    = Ok (StringValue (TaskArn task)).
Proof.
  apply (StartContainertask_task_result sampleECSHelpers startTask sampleTasks
           _ sampleTasks); reflexivity.
Defined.

Lemma StopContainertask_ValidateType_run_arn_witness :
  StopContainertask_ValidateType sampleECSHelpers stopTask
  = Some "missing required param for type=service: 'run-arn'".
Proof.
  apply (StopContainertask_ValidateType_run_arn sampleECSHelpers stopTask);
    reflexivity.
Defined.

Lemma DetachContainertask_ManualRun_Ok_witness :
  exists td w1,
    DescribeTaskDefinition sampleECS (Some "shop") sampleTasks = (inr td, w1) /\
    Some (DescribeTaskDefinitionOutput sampleDefinition)
    = Some (DescribeTaskDefinitionOutput td) /\
    Exists (fun def => isContainer (mkDetachContainertask (Some "shop")
                                      (Some "db")) def = true)
           (ContainerDefinitions td) /\
    match keptContainers (mkDetachContainertask (Some "shop") (Some "db"))
                         (ContainerDefinitions td) with
    | [] => DeregisterTaskDefinition sampleECS (TaskDefinitionArn td) w1
            = (None, <["shop" := mkTaskDefinition [webContainer] (Some "shop")
                                  None [] None [] (Some (sampleArn "shop"))]>
                       sampleTasks)
    | kept => exists td',
        RegisterTaskDefinition sampleECS (inputOf td kept) w1
        = (inr td', <["shop" := mkTaskDefinition [webContainer] (Some "shop")
                                  None [] None [] (Some (sampleArn "shop"))]>
                      sampleTasks)
    end.
Proof.
  apply (DetachContainertask_ManualRun_Ok sampleECS
           (mkDetachContainertask (Some "shop") (Some "db")) sampleTasks).
  reflexivity.
Defined.

Lemma DetachContainertask_ManualRun_not_found_witness :
  DetachContainertask_ManualRun sampleECS
    (mkDetachContainertask (Some "shop") (Some "cache")) sampleTasks
  = Err (None, sampleTasks)
        (notFoundError (mkDetachContainertask (Some "shop") (Some "cache"))
                       ["web"; "db"]).
Proof.
  apply (DetachContainertask_ManualRun_not_found sampleECS
           (mkDetachContainertask (Some "shop") (Some "cache")) sampleTasks
           sampleDefinition sampleTasks); [reflexivity |].
  repeat constructor.
Defined.

Lemma DeleteContainertask_all_versions_witness :
  exists w',
    DeleteContainertask_ManualRun sampleECS
      (mkDeleteContainertask (Some "shop") (Some true)) sampleTasks
    = Ok (None, w') /\
    sampleVersions w' "shop" = [].
Proof.
  apply (DeleteContainertask_all_versions sampleECS sampleVersions
           sample_VersionStore "shop" sampleTasks).
  apply (bool_decide_unpack _). vm_compute. reflexivity.
Defined.

Lemma AttachContainertask_ManualRun_Ok_witness :
  exists input container td w1,
    describedInput sampleECS attachCache sampleTasks = (inr input, w1) /\
    setFields sampleECSHelpers (mkContainerDefinition None None [])
              (containerSetters attachCache) = inl container /\
    RegisterTaskDefinition sampleECS (withContainer input container) w1
    = (inr td, <["shop" := mkTaskDefinition
                   [webContainer; dbContainer; cacheContainer] (Some "shop")
                   None [] None [] (Some (sampleArn "shop"))]> sampleTasks) /\
    Some (RegisterTaskDefinitionOutput
            (mkTaskDefinition [webContainer; dbContainer; cacheContainer]
               (Some "shop") None [] None [] (Some (sampleArn "shop"))))
    = Some (RegisterTaskDefinitionOutput td) /\
    AttachContainertask_ExtractResult
      (Some (RegisterTaskDefinitionOutput
               (mkTaskDefinition [webContainer; dbContainer; cacheContainer]
                  (Some "shop") None [] None [] (Some (sampleArn "shop")))))
    = Ok (StringValue (TaskDefinitionArn td)).
Proof.
  apply (AttachContainertask_ManualRun_Ok sampleECS sampleECSHelpers
           attachCache sampleTasks).
  reflexivity.
Defined.

Lemma attach_detach_containers_witness :
  exists out1 w1 out2 w2 td2,
    AttachContainertask_ManualRun sampleECS sampleECSHelpers attachCache
      sampleTasks = Ok (out1, w1) /\
    DetachContainertask_ManualRun sampleECS
      (mkDetachContainertask (Some "shop") (Some "cache")) w1 = Ok (out2, w2) /\
    w2 !! "shop" = Some td2 /\
    ContainerDefinitions td2 = [webContainer; dbContainer].
Proof.
  apply (attach_detach_containers sampleECS sampleECSHelpers
           (fun w name => w !! name) "shop" "cache" sampleDefinition
           sampleTasks attachCache cacheContainer
           sample_DefinitionStore sample_SetterLaw);
    try reflexivity; [discriminate | repeat constructor].
Defined.
