(* ===== verification/Database.v ===== *)
(** * The database commands of the catalog

    Models the check command of src/aws/spec/database.go, which polls the
    state of a database instance until it is the expected one:
    [CheckDatabase_ValidateState], the function the poll calls
    ([CheckDatabase_fetchFunc]) and [CheckDatabase_ManualRun].  The create
    and delete commands of the file are declarations of params only, run by
    code the sources do not hold.

    The provider is the one call [DescribeDBInstances], a function on the
    world [W] that returns the instances or an error ([apiError]); the poll
    itself and the validator are fields of [Helpers] (file [AwsSpec]).

    The theorems are the states the poll reads, case by case:
    an instance of the answer with the identifier of the command gives its
    status; a provider error with the code DatabaseNotFound gives the state
    of what does not exist; any other provider error with a code gives that
    state too, and is not returned ([CheckDatabase_fetchFunc_swallows]);
    an error without a code is returned. *)

From S2P Require Import Prelude GoLib AwsSpec.
From Stdlib Require Import ZArith.

(** rds.DBInstance, with the fields the file reads. *)
Record DBInstance : Type := mkDBInstance {
  DBInstanceIdentifier : option string;
  DBInstanceStatus : option string;
}.

Record CheckDatabase : Type := mkCheckDatabase {
  Id : option string;
  State : option string;
  Timeout : option Z;
}.

(** The states the validation accepts, before the one of what does not
    exist. *)
Definition databaseStates : list string :=
  ["available"; "backing-up"; "creating"; "deleting"; "failed";
   "maintenance"; "modifying"; "rebooting"; "renaming";
   "resetting-master-credentials"; "restore-error"; "storage-full";
   "upgrading"].

Section database.
Context {W Input Out : Type}.

Record RDSAPI : Type := mkRDSAPI {
  DescribeDBInstances :
    option string -> W -> (apiError + list DBInstance) * W;
}.

Context (api : RDSAPI) (h : Helpers W Input Out).

Definition CheckDatabase_ValidateState (cmd : CheckDatabase) : option error :=
  NewEnumValidator h (databaseStates ++ [notFoundState h]) (State cmd).

(** The loop over the instances of the answer: the status of the first
    with the identifier of the command. *)
Fixpoint statusOf (cmd : CheckDatabase) (res : list DBInstance)
    : option string :=
  match res with
  | [] => None
  | dbinst :: rest =>
      if decide (StringValue (DBInstanceIdentifier dbinst)
                 = StringValue (Id cmd))
      then Some (StringValue (DBInstanceStatus dbinst))
      else statusOf cmd rest
  end.

(** The state the poll reads.  In the branch of an error with a code, the
    code DatabaseNotFound returns the state of what does not exist; for any
    other code the code has no return and control falls to the last line of
    the function, which returns the same. *)
Definition CheckDatabase_fetchFunc (cmd : CheckDatabase) (w : W)
    : (string * option error) * W :=
  match DescribeDBInstances api (Id cmd) w with
  | (inl (AwsError code _ _), w1) =>
      if decide (code = "DatabaseNotFound")
      then ((notFoundState h, None), w1)
      else ((notFoundState h, None), w1)
  | (inl (PlainError text), w1) => ((EmptyString, Some text), w1)
  | (inr res, w1) =>
      match statusOf cmd res with
      | Some status => ((status, None), w1)
      | None => ((notFoundState h, None), w1)
      end
  end.

Definition CheckDatabase_checker (cmd : CheckDatabase) : checker W :=
  mkChecker ("database " +:+ StringValue (Id cmd))
            (secondsOf (Timeout cmd))
            (5 * second)
            (CheckDatabase_fetchFunc cmd)
            (StringValue (State cmd)).

Definition CheckDatabase_ManualRun (cmd : CheckDatabase) (w : W)
    : res (option Out * W) :=
  match check h (CheckDatabase_checker cmd) w with
  | (Some err, w1) => Err (None, w1) err
  | (None, w1) => Ok (None, w1)
  end.

End database.

(** ** A provider for the examples *)

(** The provider refuses every description: the caller has no right to
    read the instances. *)
Definition deniedRDS : RDSAPI (W:=unit) :=
  mkRDSAPI (fun _ w =>
    (inl (AwsError "AccessDenied" "not authorized to perform rds:Describe"
                   "AccessDenied: not authorized to perform rds:Describe"), w)).

(** The poll of the examples asks once and compares. *)
Definition pollOnce (c : checker unit) (w : unit) : option error * unit :=
  match fetchFunc c w with
  | ((_, Some err), w1) => (Some err, w1)
  | ((state, None), w1) =>
      if decide (state = expect c) then (None, w1)
      else (Some ("timeout of " +:+ description c), w1)
  end.

Definition sampleRDSHelpers : Helpers unit unit unit :=
  mkHelpers (fun _ input _ _ => (input, None)) (fun _ w => ((None, None), w))
            pollOnce sampleEnumValidator "not-found".

Definition checkGone : CheckDatabase :=
  mkCheckDatabase (Some "db-1") (Some "not-found") (Some 60%Z).

(** ** The states the poll reads *)

Section fetch.
Context {W Input Out : Type}.
Context (api : RDSAPI (W:=W)) (h : Helpers W Input Out).
Context (cmd : CheckDatabase) (w w1 : W).

Lemma statusOf_Some res status :
  statusOf cmd res = Some status <->
  exists before dbinst after,
    res = before ++ dbinst :: after /\
    Forall (fun i => StringValue (DBInstanceIdentifier i)
                     <> StringValue (Id cmd)) before /\
    StringValue (DBInstanceIdentifier dbinst) = StringValue (Id cmd) /\
    status = StringValue (DBInstanceStatus dbinst).
Proof.
  induction res as [|i res IH]; simpl.
  - split; [done | by intros ([|? ?] & ? & ? & ? & _)].
  - case_decide as Hi.
    + split.
      * intros [= <-]. by exists [], i, res.
      * intros ([|b before] & dbinst & after & [= <- ->] & Hb & Hd & ->);
          [done |]. by apply Forall_cons_1 in Hb as [? _].
    + rewrite IH. split.
      * intros (before & dbinst & after & -> & Hb & Hd & ->).
        exists (i :: before), dbinst, after. split_and!; try done.
        by apply Forall_cons_2.
      * intros ([|b before] & dbinst & after & [= <- ->] & Hb & Hd & ->);
          [done |]. apply Forall_cons_1 in Hb as [_ Hb]. eauto 10.
Qed.

Lemma statusOf_None res :
  statusOf cmd res = None <->
  Forall (fun i => StringValue (DBInstanceIdentifier i)
                   <> StringValue (Id cmd)) res.
Proof.
  induction res as [|i res IH]; simpl; [done |].
  case_decide as Hi.
  - split; [done |]. by intros [? _]%Forall_cons_1.
  - rewrite IH. split; [by apply Forall_cons_2 | by intros [_ ?]%Forall_cons_1].
Qed.

(** The poll of the check command reads, from an answer of the provider
    without error, the status of the first instance with the identifier of
    the command, and the state of what does not exist when the answer has no
    such instance. *)
Theorem CheckDatabase_fetchFunc_status res :
  DescribeDBInstances api (Id cmd) w = (inr res, w1) ->
  CheckDatabase_fetchFunc api h cmd w
  = ((default (notFoundState h) (statusOf cmd res), None), w1).
Proof.
  intros Hd. unfold CheckDatabase_fetchFunc. rewrite Hd.
  by destruct (statusOf cmd res).
Qed.

(** C23. The poll of the check command returns an error of the provider only
    when it has no code.  An error with a code, whatever the code, is read
    as the state of what does not exist: the branch for the codes other
    than DatabaseNotFound has no return and falls to the end of the
    function. *)
Theorem CheckDatabase_fetchFunc_swallows code message text :
  DescribeDBInstances api (Id cmd) w = (inl (AwsError code message text), w1) ->
  CheckDatabase_fetchFunc api h cmd w = ((notFoundState h, None), w1).
Proof.
  intros Hd. unfold CheckDatabase_fetchFunc. rewrite Hd. by case_decide.
Qed.

Lemma CheckDatabase_fetchFunc_plain text :
  DescribeDBInstances api (Id cmd) w = (inl (PlainError text), w1) ->
  CheckDatabase_fetchFunc api h cmd w = ((EmptyString, Some text), w1).
Proof. intros Hd. unfold CheckDatabase_fetchFunc. by rewrite Hd. Qed.

(** The timeout of the poll is the number of seconds of the param, up to
    the largest duration. *)
Lemma CheckDatabase_timeout n :
  Timeout cmd = Some n -> (0 <= n <= 9223372036)%Z ->
  timeout (CheckDatabase_checker api h cmd) = (n * second)%Z.
Proof. intros Hn Hr. simpl. rewrite Hn. by apply secondsOf_small. Qed.

End fetch.

Lemma CheckDatabase_fetchFunc_status_witness :
  CheckDatabase_fetchFunc
    (mkRDSAPI (fun _ (w : unit) =>
       (inr [mkDBInstance (Some "db-0") (Some "creating");
             mkDBInstance (Some "db-1") (Some "available")], w)))
    sampleRDSHelpers checkGone tt
  = (("available", None), tt).
Proof.
  apply (CheckDatabase_fetchFunc_status _ sampleRDSHelpers checkGone tt tt
           [mkDBInstance (Some "db-0") (Some "creating");
            mkDBInstance (Some "db-1") (Some "available")]).
  reflexivity.
Defined.

Lemma CheckDatabase_fetchFunc_swallows_witness :
  CheckDatabase_fetchFunc deniedRDS sampleRDSHelpers checkGone tt
  = (("not-found", None), tt).
Proof.
  apply (CheckDatabase_fetchFunc_swallows deniedRDS sampleRDSHelpers checkGone
           tt tt "AccessDenied" "not authorized to perform rds:Describe"
           "AccessDenied: not authorized to perform rds:Describe").
  reflexivity.
Defined.

(** A check that a database is gone succeeds when the caller has no
    right to describe the databases: the refusal is read as the state of
    what does not exist. *)
Example CheckDatabase_gone_when_denied :
  CheckDatabase_ManualRun (Out:=unit) deniedRDS sampleRDSHelpers checkGone tt
  = Ok (None, tt).
Proof. reflexivity. Qed.
